(** * Banan Stats: analyzer, store, disk queue and middleware

    A shallow embedding of the Go sources of banan-stats (the sidecar's
    [analyzer] and [store] packages and its [/ingest] handler) and of
    traefik-stats (the middleware, its disk queue and its ingest client),
    with the properties of the specification stated over it.

    Go strings are byte sequences: they are modelled as [list ascii].
    Go's [int] and [int64] are modelled as [Z]. *)

From Stdlib Require Import List Ascii String ZArith NArith Lia Bool Arith.
Import ListNotations.

Set Warnings "-register-all".

Local Open Scope string_scope.
Local Open Scope list_scope.
Local Open Scope Z_scope.

(** ** Bytes and strings *)

Abbreviation str := (list ascii).

(** A string literal, as the bytes of a Go string constant. *)
Coercion list_ascii_of_string : string >-> list.

Definition code (c : ascii) : Z := Z.of_N (N_of_ascii c).
Definition chr (z : Z) : ascii := ascii_of_N (Z.to_N z).

Definition between (lo hi : Z) (c : ascii) : bool :=
  (lo <=? code c) && (code c <=? hi).

Definition isDigit (c : ascii) : bool := between 48 57 c.
Definition isUpper (c : ascii) : bool := between 65 90 c.
Definition isLower (c : ascii) : bool := between 97 122 c.
Definition isAlpha (c : ascii) : bool := isUpper c || isLower c.

(** [\w] of Go's regexp syntax, and the word characters of [\b]. *)
Definition isWord (c : ascii) : bool :=
  isAlpha c || isDigit c || Ascii.eqb c "_".

Definition lowerByte (c : ascii) : ascii :=
  if isUpper c then chr (code c + 32) else c.

Fixpoint str_eqb (a b : str) : bool :=
  match a, b with
  | [], [] => true
  | x :: a', y :: b' => Ascii.eqb x y && str_eqb a' b'
  | _, _ => false
  end.

Definition isEmpty (s : str) : bool :=
  match s with [] => true | _ => false end.

(** [strings.HasPrefix(s, p)] *)
Fixpoint HasPrefix (s p : str) : bool :=
  match p, s with
  | [], _ => true
  | y :: p', x :: s' => Ascii.eqb x y && HasPrefix s' p'
  | _ :: _, [] => false
  end.

(** [strings.TrimPrefix(s, p)] *)
Definition TrimPrefix (s p : str) : str :=
  if HasPrefix s p then skipn (List.length p) s else s.

(** [strings.HasSuffix(s, p)] *)
Definition HasSuffix (s p : str) : bool :=
  HasPrefix (rev s) (rev p).

(** [strings.Contains(s, sub)] *)
Fixpoint Contains (s sub : str) : bool :=
  HasPrefix s sub ||
  match s with
  | [] => false
  | _ :: s' => Contains s' sub
  end.

(** [strings.IndexByte(s, c) >= 0] *)
Definition hasByte (c : ascii) (s : str) : bool :=
  existsb (Ascii.eqb c) s.

(** Byte sequences of the runes that matter to ASCII patterns.  Unicode's
    simple case folding joins exactly two non-ASCII runes to ASCII letters:
    U+017F (long s) with [s], and U+212A (Kelvin sign) with [k]; and
    [unicode.ToLower] sends exactly U+0130 and U+212A to ASCII letters. *)
Definition utf8_long_s : str := [chr 197; chr 191].
Definition utf8_kelvin : str := [chr 226; chr 132; chr 170].
Definition utf8_dotted_I : str := [chr 196; chr 176].

(** [strings.ToLower(s)] on the bytes of [s]: ASCII letters are lowered,
    U+0130 becomes [i] and U+212A becomes [k].  Every other rune above
    U+007F is mapped by Go to a rune above U+007F; such bytes are kept as
    they are here. *)
Fixpoint ToLower (s : str) : str :=
  match s with
  | [] => []
  | c :: s1 =>
      match s1 with
      | [] => [lowerByte c]
      | c2 :: s2 =>
          if (code c =? 196) && (code c2 =? 176) then "i"%char :: ToLower s2
          else
            match s2 with
            | c3 :: s3 =>
                if (code c =? 226) && (code c2 =? 132) && (code c3 =? 170)
                then "k"%char :: ToLower s3
                else lowerByte c :: ToLower s1
            | [] => lowerByte c :: ToLower s1
            end
      end
  end.

(** The white space of [unicode.IsSpace], as UTF-8 byte sequences. *)
Definition unicodeSpaces : list str :=
  map (fun c => [chr c]) [9; 10; 11; 12; 13; 32]
  ++ [[chr 194; chr 133]; [chr 194; chr 160]; [chr 225; chr 154; chr 128]]
  ++ map (fun c => [chr 226; chr 128; chr c])
         [128; 129; 130; 131; 132; 133; 134; 135; 136; 137; 138; 168; 169; 175]
  ++ [[chr 226; chr 129; chr 159]; [chr 227; chr 128; chr 128]].

(** The length of the white-space rune [s] starts with, or 0. *)
Definition spacePrefix (s : str) : nat :=
  match find (HasPrefix s) unicodeSpaces with
  | Some sp => List.length sp
  | None => 0%nat
  end.

Fixpoint trimLeftSpace (fuel : nat) (s : str) : str :=
  match fuel with
  | O => s
  | S fuel' =>
      match spacePrefix s with
      | O => s
      | n => trimLeftSpace fuel' (skipn n s)
      end
  end.

Definition TrimLeftSpace (s : str) : str := trimLeftSpace (List.length s) s.

Fixpoint trimRightSpace (fuel : nat) (r : str) : str :=
  match fuel with
  | O => r
  | S fuel' =>
      match find (fun sp => HasPrefix r (rev sp)) unicodeSpaces with
      | Some sp => trimRightSpace fuel' (skipn (List.length sp) r)
      | None => r
      end
  end.

(** [strings.TrimSpace(s)] *)
Definition TrimSpace (s : str) : str :=
  let l := TrimLeftSpace s in
  rev (trimRightSpace (List.length l) (rev l)).

(** Simple case folding of a string towards ASCII: what [strings.EqualFold]
    and the [(?i)] flag of [regexp] identify with an ASCII text. *)
Fixpoint foldASCII (s : str) : str :=
  match s with
  | [] => []
  | c :: s1 =>
      match s1 with
      | [] => [lowerByte c]
      | c2 :: s2 =>
          if (code c =? 197) && (code c2 =? 191) then "s"%char :: foldASCII s2
          else
            match s2 with
            | c3 :: s3 =>
                if (code c =? 226) && (code c2 =? 132) && (code c3 =? 170)
                then "k"%char :: foldASCII s3
                else lowerByte c :: foldASCII s1
            | [] => lowerByte c :: foldASCII s1
            end
      end
  end.

(** [strings.EqualFold(s, t)] for an ASCII text [t]. *)
Definition EqualFold (s t : str) : bool :=
  str_eqb (foldASCII s) (foldASCII t).

(** ** SHA-256 ([crypto/sha256]) and the UUID text form *)

Module SHA256.

(** 32-bit words are [Z] in [0, 2^32); additions wrap around. *)
Definition w32 (x : Z) : Z := x mod 4294967296.
Definition add32 (x y : Z) : Z := w32 (x + y).
Definition rotr (n x : Z) : Z :=
  Z.lor (Z.shiftr x n) (w32 (Z.shiftl x (32 - n))).
Definition not32 (x : Z) : Z := Z.lxor x 4294967295.

Definition Ch (x y z : Z) : Z := Z.lxor (Z.land x y) (Z.land (not32 x) z).
Definition Maj (x y z : Z) : Z :=
  Z.lxor (Z.lxor (Z.land x y) (Z.land x z)) (Z.land y z).
Definition bigS0 (x : Z) : Z := Z.lxor (Z.lxor (rotr 2 x) (rotr 13 x)) (rotr 22 x).
Definition bigS1 (x : Z) : Z := Z.lxor (Z.lxor (rotr 6 x) (rotr 11 x)) (rotr 25 x).
Definition smallS0 (x : Z) : Z := Z.lxor (Z.lxor (rotr 7 x) (rotr 18 x)) (Z.shiftr x 3).
Definition smallS1 (x : Z) : Z := Z.lxor (Z.lxor (rotr 17 x) (rotr 19 x)) (Z.shiftr x 10).

(** The constants of FIPS 180-4 are the first 32 bits of the fractional
    parts of the cube roots (round constants) and of the square roots
    (initial hash value) of the first primes. *)
Definition isPrime (n : Z) : bool :=
  (1 <? n) && forallb (fun d => negb (n mod d =? 0))
                      (map Z.of_nat (seq 2 (Z.to_nat (Z.sqrt n) - 1))).

Definition firstPrimes (n : nat) : list Z :=
  firstn n (filter isPrime (map Z.of_nat (seq 2 400))).

(** The integer cube root, bit by bit from the top. *)
Fixpoint cubeRootBits (bits : nat) (n r : Z) : Z :=
  match bits with
  | O => r
  | S b =>
      let r' := r + Z.shiftl 1 (Z.of_nat b) in
      cubeRootBits b n (if r' * r' * r' <=? n then r' else r)
  end.

Definition K : list Z :=
  Eval vm_compute in
    map (fun p => w32 (cubeRootBits 40 (p * Z.shiftl 1 96) 0)) (firstPrimes 64).

Definition H0 : list Z :=
  Eval vm_compute in map (fun p => w32 (Z.sqrt (p * Z.shiftl 1 64))) (firstPrimes 8).

(** Big-endian bytes of a word, and back. *)
Definition be_bytes (n : nat) (x : Z) : list Z :=
  map (fun i => Z.land (Z.shiftr x (8 * Z.of_nat i)) 255) (rev (seq 0 n)).
Definition be_word (bs : list Z) : Z :=
  fold_left (fun acc b => Z.lor (Z.shiftl acc 8) b) bs 0.

(** Padding: a 1 bit, zeros up to 56 mod 64, then the bit length. *)
Definition pad (msg : list Z) : list Z :=
  let len := Z.of_nat (List.length msg) in
  let zeros := Z.to_nat ((55 - len) mod 64) in
  msg ++ [128] ++ repeat 0 zeros ++ be_bytes 8 (8 * len).

Fixpoint chunks (fuel n : nat) (l : list Z) : list (list Z) :=
  match fuel, l with
  | _, [] => []
  | O, _ => []
  | S fuel', _ => firstn n l :: chunks fuel' n (skipn n l)
  end.

(** The message schedule, newest word first. *)
Fixpoint schedule (n : nat) (wrev : list Z) : list Z :=
  match n with
  | O => wrev
  | S n' =>
      let w := add32 (add32 (smallS1 (nth 1 wrev 0)) (nth 6 wrev 0))
                     (add32 (smallS0 (nth 14 wrev 0)) (nth 15 wrev 0)) in
      schedule n' (w :: wrev)
  end.

Definition round (st : list Z) (kw : Z * Z) : list Z :=
  match st with
  | [a; b; c; d; e; f; g; h] =>
      let t1 := add32 (add32 (add32 h (bigS1 e)) (add32 (Ch e f g) (fst kw))) (snd kw) in
      let t2 := add32 (bigS0 a) (Maj a b c) in
      [add32 t1 t2; a; b; c; add32 d t1; e; f; g]
  | _ => st
  end.

Definition block (h : list Z) (blk : list Z) : list Z :=
  let w16 := map be_word (chunks 16 4 blk) in
  let w := rev (schedule 48 (rev w16)) in
  let st := fold_left round (combine K w) h in
  map (fun p => add32 (fst p) (snd p)) (combine h st).

(** [sha256.Sum256(data)], as 32 byte values. *)
Definition Sum256 (data : str) : list Z :=
  let p := pad (map code data) in
  let h := fold_left block (chunks (List.length p) 64 p) H0 in
  flat_map (be_bytes 4) h.

End SHA256.

(** [hex.Encode]: two lower-case hexadecimal digits per byte. *)
Definition hexDigit (n : Z) : ascii :=
  if n <? 10 then chr (48 + n) else chr (87 + n).

Definition hexEncode (bs : list Z) : str :=
  flat_map (fun b => [hexDigit (Z.shiftr (Z.land b 255) 4); hexDigit (Z.land b 15)]) bs.

(** [b[i:j]] of a slice. *)
Definition slice {A} (i j : nat) (l : list A) : list A :=
  firstn (j - i) (skipn i l).

(** [uuidFromBytes(b)]: the 8-4-4-4-12 text of the first 16 bytes. *)
Definition uuidFromBytes (b : list Z) : str :=
  hexEncode (slice 0 4 b) ++ "-" ++ hexEncode (slice 4 6 b) ++ "-" ++
  hexEncode (slice 6 8 b) ++ "-" ++ hexEncode (slice 8 10 b) ++ "-" ++
  hexEncode (slice 10 16 b).

(** [hashUUID(input)] *)
Definition hashUUID (input : str) : str :=
  let sum := SHA256.Sum256 input in
  uuidFromBytes (firstn 16 sum).

(** ** Regular expressions ([regexp])

    Go's [regexp] returns the leftmost match and, among the matches that
    start there, the one a backtracking search finds first.  [exec] is that
    backtracking search, written with continuations.  Matching is on bytes;
    for the patterns of the analyzer this agrees with Go's matching on
    runes, once the two non-ASCII case folds are written out (see [ci]). *)

Inductive re : Type :=
| Eps                           (* the empty pattern *)
| Byte (f : ascii -> bool)      (* one byte of a class *)
| Seq (a b : re)
| Alt (a b : re)                (* [a|b], [a] preferred *)
| Star (a : re)                 (* [a*], greedy *)
| Grp (i : nat) (a : re)        (* capturing group number [i] *)
| Bol                           (* [^] *)
| Eol                           (* [$] *)
| Wb.                           (* [\b] *)

(** Captured groups, most recent first. *)
Definition caps := list (nat * str).

Fixpoint capture (i : nat) (cs : caps) : str :=
  match cs with
  | [] => []
  | (j, m) :: cs' => if Nat.eqb i j then m else capture i cs'
  end.

Definition wordAt (c : option ascii) : bool :=
  match c with Some x => isWord x | None => false end.

(** The text consumed between the input [s] and its suffix [s']. *)
Definition consumed (s s' : str) : str :=
  firstn (List.length s - List.length s') s.

Section Exec.
Context {R : Type}.

(** A continuation takes the byte before the cursor (if any), the
    remaining input and the captures. *)
Definition cont := option ascii -> str -> caps -> option R.

Fixpoint starLoop (body : cont -> cont) (k : cont) (n : nat) : cont :=
  fun prev s cs =>
    match n with
    | O => k prev s cs
    | S n' =>
        match body (fun prev' s' cs' =>
                      if (List.length s' <? List.length s)%nat
                      then starLoop body k n' prev' s' cs'
                      else None) prev s cs with
        | Some r => Some r
        | None => k prev s cs
        end
    end.

Fixpoint exec (r : re) (k : cont) : cont :=
  match r with
  | Eps => k
  | Byte f => fun prev s cs =>
      match s with
      | c :: s' => if f c then k (Some c) s' cs else None
      | [] => None
      end
  | Seq a b => exec a (exec b k)
  | Alt a b => fun prev s cs =>
      match exec a k prev s cs with
      | Some res => Some res
      | None => exec b k prev s cs
      end
  | Star a => fun prev s cs => starLoop (exec a) k (List.length s) prev s cs
  | Grp i a => fun prev s cs =>
      exec a (fun prev' s' cs' => k prev' s' ((i, consumed s s') :: cs')) prev s cs
  | Bol => fun prev s cs =>
      match prev with None => k prev s cs | Some _ => None end
  | Eol => fun prev s cs =>
      match s with [] => k prev s cs | _ :: _ => None end
  | Wb => fun prev s cs =>
      if xorb (wordAt prev) (wordAt (hd_error s)) then k prev s cs else None
  end.
End Exec.

(** A match of [r] that starts at the cursor: the rest and the captures. *)
Definition matchHere (r : re) (prev : option ascii) (s : str) : option (str * caps) :=
  exec r (fun _ s' cs => Some (s', cs)) prev s [].

(** The leftmost match: the matched text and the captures. *)
Fixpoint searchFrom (r : re) (prev : option ascii) (s : str) : option (str * caps) :=
  match matchHere r prev s with
  | Some (s', cs) => Some (consumed s s', cs)
  | None =>
      match s with
      | [] => None
      | c :: t => searchFrom r (Some c) t
      end
  end.

(** [re.FindStringSubmatch(s)]: [None] is Go's nil slice; otherwise
    element 0 and the groups. *)
Definition FindStringSubmatch (r : re) (s : str) : option (str * caps) :=
  searchFrom r None s.

(** [re.FindString(s)] *)
Definition FindString (r : re) (s : str) : str :=
  match FindStringSubmatch r s with
  | Some (m, _) => m
  | None => []
  end.

(** [re.FindStringIndex(s) != nil] *)
Definition Matches (r : re) (s : str) : bool :=
  match FindStringSubmatch r s with
  | Some _ => true
  | None => false
  end.

(** *** Pattern syntax *)

Definition Plus (a : re) : re := Seq a (Star a).
Definition Opt (a : re) : re := Alt a Eps.
Definition Never : re := Byte (fun _ => false).

Fixpoint seqs (l : list re) : re :=
  match l with
  | [] => Eps
  | [a] => a
  | a :: l' => Seq a (seqs l')
  end.

Fixpoint alts (l : list re) : re :=
  match l with
  | [] => Never
  | [a] => a
  | a :: l' => Alt a (alts l')
  end.

Fixpoint times (n : nat) (a : re) : re :=
  match n with
  | O => Eps
  | S O => a
  | S n' => Seq a (times n' a)
  end.

(** The bytes of [t], exactly. *)
Definition raw (t : str) : re :=
  seqs (map (fun c => Byte (Ascii.eqb c)) t).

(** One literal byte under [(?i)]: either case of a letter; [s] also
    matches U+017F and [k] also matches U+212A. *)
Definition ci (c : ascii) : re :=
  let one := Byte (fun x => Ascii.eqb (lowerByte x) (lowerByte c)) in
  if Ascii.eqb (lowerByte c) "s" then Alt one (raw utf8_long_s)
  else if Ascii.eqb (lowerByte c) "k" then Alt one (raw utf8_kelvin)
  else one.

(** A literal text under [(?i)]. *)
Definition lit (t : str) : re := seqs (map ci t).

(** A bracket expression under [(?i)] that holds all the letters: the two
    folded runes belong to it as well. *)
Definition icls (f : ascii -> bool) : re :=
  Alt (Byte f) (Alt (raw utf8_long_s) (raw utf8_kelvin)).

Definition oneOf (set : str) (c : ascii) : bool := hasByte c set.
Definition noneOf (set : str) (c : ascii) : bool := negb (hasByte c set).

(** [\w] with further bytes, under [(?i)]. *)
Definition wordOr (extra : str) : re :=
  icls (fun c => isWord c || oneOf extra c).

Definition digit : re := Byte isDigit.
Definition anyByte : re := Byte (fun c => negb (Ascii.eqb c (chr 10))).

(** [strconv.Atoi(s)] on a 64-bit platform: an optional sign and decimal
    digits; [None] is a non-nil error (syntax or range). *)
Definition digitsValue (ds : str) : Z :=
  fold_left (fun acc c => 10 * acc + (code c - 48)) ds 0.

Definition Atoi (s : str) : option Z :=
  let '(neg, ds) :=
    match s with
    | c :: t => if Ascii.eqb c "-" then (true, t)
                else if Ascii.eqb c "+" then (false, t)
                else (false, s)
    | [] => (false, s)
    end in
  if isEmpty ds || negb (forallb isDigit ds) then None
  else
    let v := if neg then - digitsValue ds else digitsValue ds in
    if (- 9223372036854775808 <=? v) && (v <=? 9223372036854775807)
    then Some v else None.

(** ** The analyzer (package [analyzer]) *)

Module Patterns.

Definition hex : re :=
  Byte (fun c => isDigit c || between 97 102 (lowerByte c)).
Definition digitOrDot : re := Byte (fun c => isDigit c || Ascii.eqb c ".").
Definition alnumOrDot : re :=
  icls (fun c => isAlpha c || isDigit c || Ascii.eqb c ".").
Definition word : re := wordOr "".
(** [[\w\.\-_@ ]] and [[\w\.\-_@]] *)
Definition nameSp : re := wordOr ".-_@ ".
Definition name : re := wordOr ".-_@".

Definition reSpecial : re :=
  alts (map lit ["Leed" : str; "BeyondPod" : str; "360Spider" : str; "Lark" : str;
                 "Nutch" : str; "Skype" : str; "leakix.net" : str; "uni-app" : str]).

Definition reUUIDPrefix : re :=
  seqs [Bol; times 8 hex; lit "-"; times 4 hex; lit "-"; times 4 hex; lit "-";
        times 4 hex; lit "-"; times 12 hex; lit "/"; Plus digit; lit " ";
        Grp 1 (Plus (Byte (noneOf ";(/")))].

Definition reCompatible : re :=
  seqs [lit "compatible; ";
        Grp 1 (Seq (Star (Byte (noneOf ";(/+"))) (Byte (noneOf ";(/+ ")))].

Definition reBotBefore : re :=
  seqs [Bol; Star nameSp; name; lit " "; Opt (lit "ro"); lit "bot"].

Definition reBotContains : re :=
  seqs [Wb; Plus (wordOr "-_"); lit "bot"; Wb].

Definition reTrident : re := seqs [lit "Trident/"; Plus digitOrDot].

Definition reMozillaFirst : re :=
  seqs [Bol; lit "Mozilla/"; Star anyByte; lit " "; Grp 1 (Plus word); lit "/";
        Plus alnumOrDot;
        Plus (seqs [lit " ";
                    alts (map lit ["Chrome" : str; "Version" : str; "Mobile" : str;
                                   "Safari" : str; "Mobile Safari" : str]);
                    lit "/"; Plus alnumOrDot]);
        Eol].

Definition reMozillaSafari : re :=
  seqs [Bol; lit "Mozilla/"; Star anyByte; lit " "; Grp 1 (Plus word); lit "/";
        Plus digitOrDot; Opt (lit " Mobile"); lit " Safari/"; Plus digitOrDot; Eol].

Definition reMozillaLast : re :=
  seqs [Bol; lit "Mozilla/"; Star anyByte; lit " "; Grp 1 (Plus word); lit "/";
        Plus alnumOrDot;
        Star (alts [seqs [lit " ("; Plus (Byte (noneOf ")")); lit ")"];
                    lit " Mobile";
                    seqs [lit " GTB"; Plus digitOrDot]]);
        Eol].

Definition reFeedIDName : re :=
  seqs [Bol; Grp 1 (Seq (Star nameSp) name); lit " feed-id:"].

Definition reBeforeDash : re :=
  seqs [Bol; Grp 1 (Seq (Star (wordOr "._@ ")) (wordOr "._@")); lit " - "].

Definition reBeforeVersion : re :=
  seqs [Bol; Grp 1 (Seq (Star nameSp) name); Byte (oneOf "- "); Opt (lit "v");
        Plus digit; lit "."; Plus digit].

Definition reBeforeSlash : re :=
  seqs [Bol; Grp 1 (Seq (Star (wordOr ".-_@% ")) (wordOr ".-_@%")); Opt (lit " ");
        Byte (oneOf "/(:+")].

Definition reSingleWord : re := seqs [Bol; Star nameSp; name; Eol].

Definition reRSS : re := lit "rss".

Definition reBotUA : re :=
  alts [lit "bot"; lit "crawl"; lit "fetch"; lit "node"; lit "ruby";
        Seq anyByte (lit "rb"); lit "python"; lit "curl"; lit "okhttp";
        lit "spider"; lit "scan"; lit "nutch"; lit "mastodon"; lit "+http"].

Definition reOSAndroid : re := lit "Android".
Definition reOSWindows : re := lit "Windows".
Definition reOSiOS : re :=
  alts [lit "iOS"; lit "iPhone"; lit "iPad";
        seqs [lit "Mobile"; Star anyByte; lit "Safari"]].
Definition reOSMac : re :=
  alts [lit "macOS"; lit "Mac OS"; lit "Macintosh"; lit "Darwin"].
Definition reOSLinux : re := alts [lit "Linux"; lit "X11"].

Definition reMultiplier : re := Seq (Grp 1 (Plus digit)) (lit " subscriber").

Definition reFeedID : re :=
  seqs [lit "feed-id"; Byte (oneOf "=:"); Grp 1 (Plus word)].

End Patterns.
Import Patterns.

(** [dequote(s)] *)
Definition dequote (s : str) : str :=
  if (2 <=? List.length s)%nat && HasPrefix s [chr 34] && HasSuffix s [chr 34]
  then slice 1 (List.length s - 1) s
  else s.

Definition matcher := str -> str.

(** [regexMatch(re)] *)
Definition regexMatch (r : re) : matcher := fun s => FindString r s.

(** [regexGroup(re, idx)]: every pattern it is used with has exactly one
    group, so [len(m) > idx] holds whenever there is a match. *)
Definition regexGroup (r : re) (idx : nat) : matcher :=
  fun s =>
    match FindStringSubmatch r s with
    | Some (_, cs) => capture idx cs
    | None => []
    end.

(** [isExcludedAgent(name)] *)
Definition isExcludedAgent (name : str) : bool :=
  existsb (str_eqb name)
    ["Chrome" : str; "Version" : str; "Mobile" : str; "Safari" : str; "Mobile Safari" : str].

Definition matchers : list matcher :=
  [ regexMatch reSpecial;
    regexGroup reUUIDPrefix 1;
    regexGroup reCompatible 1;
    regexMatch reBotBefore;
    regexMatch reBotContains;
    (fun s => if negb (isEmpty (FindString reTrident s)) then "Trident" : str else []);
    (fun s =>
       match FindStringSubmatch reMozillaFirst s with
       | Some (_, cs) =>
           let name := capture 1 cs in
           if negb (isExcludedAgent name) then name else []
       | None => []
       end);
    (fun s =>
       match FindStringSubmatch reMozillaSafari s with
       | Some (_, cs) =>
           let name := capture 1 cs in
           if negb (EqualFold name "Version") then name else []
       | None => []
       end);
    (fun s =>
       match FindStringSubmatch reMozillaLast s with
       | Some (_, cs) => capture 1 cs
       | None => []
       end);
    regexGroup reFeedIDName 1;
    regexGroup reBeforeDash 1;
    regexGroup reBeforeVersion 1;
    (fun s =>
       match FindStringSubmatch reBeforeSlash s with
       | Some (_, cs) =>
           let val := capture 1 cs in
           if negb (EqualFold val "mozilla") && negb (HasPrefix (ToLower val) "mozilla")
           then val else []
       | None => []
       end);
    regexMatch reSingleWord ].

Fixpoint firstMatch (ms : list matcher) (ua : str) : str :=
  match ms with
  | [] => []
  | m :: ms' =>
      let val := TrimSpace (m ua) in
      if negb (isEmpty val) then val else firstMatch ms' ua
  end.

(** [lineAgent(userAgent)] *)
Definition lineAgent (userAgent : str) : str :=
  if isEmpty userAgent then []
  else firstMatch matchers (dequote userAgent).

Definition browserAgents : list str :=
  ["Chrome" : str; "Firefox" : str; "Edg" : str; "EdgA" : str; "EdgiOS" : str;
   "Safari" : str; "OPR" : str; "YaBrowser" : str; "Vivaldi" : str;
   "SamsungBrowser" : str; "UCBrowser" : str].

(** [lineType(path, agent, userAgent)] *)
Definition lineType (path agent userAgent : str) : str :=
  let ua := userAgent in
  if negb (isEmpty ua) && Matches reRSS ua then "feed"
  else if existsb (str_eqb agent) browserAgents then "browser"
  else if negb (isEmpty ua) && Matches reBotUA ua then "bot"
  else if HasPrefix ua "Mozilla/" then "browser"
  else "bot".

(** [lineOS(userAgent)] *)
Definition lineOS (userAgent : str) : str :=
  let ua := userAgent in
  if Matches reOSAndroid ua then "Android"
  else if Matches reOSWindows ua then "Windows"
  else if Matches reOSiOS ua then "iOS"
  else if Matches reOSMac ua then "macOS"
  else if Matches reOSLinux ua then "Linux"
  else [].

(** [lineMultiplier(userAgent)] *)
Definition lineMultiplier (userAgent : str) : Z :=
  match FindStringSubmatch reMultiplier userAgent with
  | Some (_, cs) =>
      match Atoi (capture 1 cs) with
      | Some n => n
      | None => 1
      end
  | None => 1
  end.

(** [extractFeedID(userAgent)] *)
Definition extractFeedID (userAgent : str) : str :=
  match FindStringSubmatch reFeedID userAgent with
  | Some (_, cs) => capture 1 cs
  | None => []
  end.

(** [lineUniq(ip, userAgent, agent)] *)
Definition lineUniq (ip userAgent agent : str) : str :=
  if negb (isEmpty userAgent) && negb (isEmpty agent) then
    let feedID := extractFeedID userAgent in
    if negb (isEmpty feedID) then hashUUID (agent ++ "/" ++ feedID)
    else if Contains (ToLower userAgent) "subscriber" then hashUUID agent
    else hashUUID (ip ++ userAgent)
  else hashUUID (ip ++ userAgent).

(** [analyzer.Line] *)
Record Line : Type := mkLine {
  Date : str;
  Time : str;
  Host : str;
  Path : str;
  Query : str;
  IP : str;
  UserAgent : str;
  Referrer : str;
  Type_ : str;
  Agent : str;
  OS : str;
  RefDomain : str;
  Mult : Z;
  SetCookie : str;
  Uniq : str;
  SecondVisit : bool
}.

Definition setAgent (v : str) (l : Line) : Line :=
  mkLine (Date l) (Time l) (Host l) (Path l) (Query l) (IP l) (UserAgent l)
         (Referrer l) (Type_ l) v (OS l) (RefDomain l) (Mult l) (SetCookie l)
         (Uniq l) (SecondVisit l).
Definition setType (v : str) (l : Line) : Line :=
  mkLine (Date l) (Time l) (Host l) (Path l) (Query l) (IP l) (UserAgent l)
         (Referrer l) v (Agent l) (OS l) (RefDomain l) (Mult l) (SetCookie l)
         (Uniq l) (SecondVisit l).
Definition setOS (v : str) (l : Line) : Line :=
  mkLine (Date l) (Time l) (Host l) (Path l) (Query l) (IP l) (UserAgent l)
         (Referrer l) (Type_ l) (Agent l) v (RefDomain l) (Mult l) (SetCookie l)
         (Uniq l) (SecondVisit l).
Definition setRefDomain (v : str) (l : Line) : Line :=
  mkLine (Date l) (Time l) (Host l) (Path l) (Query l) (IP l) (UserAgent l)
         (Referrer l) (Type_ l) (Agent l) (OS l) v (Mult l) (SetCookie l)
         (Uniq l) (SecondVisit l).
Definition setMult (v : Z) (l : Line) : Line :=
  mkLine (Date l) (Time l) (Host l) (Path l) (Query l) (IP l) (UserAgent l)
         (Referrer l) (Type_ l) (Agent l) (OS l) (RefDomain l) v (SetCookie l)
         (Uniq l) (SecondVisit l).
Definition setUniq (v : str) (l : Line) : Line :=
  mkLine (Date l) (Time l) (Host l) (Path l) (Query l) (IP l) (UserAgent l)
         (Referrer l) (Type_ l) (Agent l) (OS l) (RefDomain l) (Mult l) (SetCookie l)
         v (SecondVisit l).

Section Analyzer.

(** [url.Parse] of the Go standard library, as far as the analyzer looks
    at it: [None] when it returns an error, otherwise the [Host] of the
    parsed URL. *)
Variable urlParseHost : str -> option str.

(** [lineRefDomain(referrer)] *)
Definition lineRefDomain (referrer : str) : str :=
  if isEmpty referrer then []
  else
    match urlParseHost referrer with
    | None => []
    | Some host => if isEmpty host then [] else TrimPrefix host "www."
    end.

(** The six statements of [Analyze], each on the line as the one before
    left it. *)
Definition fillAgent (line : Line) : Line :=
  if isEmpty (Agent line) then setAgent (lineAgent (UserAgent line)) line else line.
Definition fillType (line : Line) : Line :=
  if isEmpty (Type_ line)
  then setType (lineType (Path line) (Agent line) (UserAgent line)) line else line.
Definition fillOS (line : Line) : Line :=
  if isEmpty (OS line) then setOS (lineOS (UserAgent line)) line else line.
Definition fillMult (line : Line) : Line :=
  if Mult line =? 0 then setMult (lineMultiplier (UserAgent line)) line else line.
Definition fillUniq (line : Line) : Line :=
  if isEmpty (Uniq line)
  then setUniq (lineUniq (IP line) (UserAgent line) (Agent line)) line else line.
Definition fillRefDomain (line : Line) : Line :=
  if isEmpty (RefDomain line)
  then setRefDomain (lineRefDomain (Referrer line)) line else line.

(** [Analyze(line)]; the line the pointer refers to afterwards. *)
Definition Analyze (line : Line) : Line :=
  fillRefDomain (fillUniq (fillMult (fillOS (fillType (fillAgent line))))).

End Analyzer.

(** ** The store (package [store]) *)

(** A row of the [stats] table; [None] is SQL NULL. *)
Record Row : Type := mkRow {
  r_date : option str;
  r_time : option str;
  r_host : option str;
  r_path : option str;
  r_query : option str;
  r_ip : option str;
  r_user_agent : option str;
  r_referrer : option str;
  r_type : option str;
  r_agent : option str;
  r_os : option str;
  r_ref_domain : option str;
  r_mult : Z;
  r_set_cookie : option str;
  r_uniq : option str
}.

Definition Table := list Row.

(** [nullString(s)] *)
Definition nullString (s : str) : option str :=
  if isEmpty s then None else Some s.

(** [nullUUID(s)] *)
Definition nullUUID (s : str) : option str :=
  if isEmpty s then None else Some s.

(** The statements [Insert] executes inside its transaction. *)
Inductive Stmt : Type :=
| SInsert (r : Row)             (* INSERT INTO stats (...) VALUES (...) *)
| SUpdate (uniq cookie : str).  (* UPDATE stats SET uniq = ? WHERE set_cookie = ? *)

Definition opt_eqb (a : option str) (b : str) : bool :=
  match a with Some x => str_eqb x b | None => false end.

Definition setRowUniq (u : option str) (r : Row) : Row :=
  mkRow (r_date r) (r_time r) (r_host r) (r_path r) (r_query r) (r_ip r)
        (r_user_agent r) (r_referrer r) (r_type r) (r_agent r) (r_os r)
        (r_ref_domain r) (r_mult r) (r_set_cookie r) u.

(** What a statement does to the table when the database accepts it. *)
Definition applyStmt (t : Table) (s : Stmt) : Table :=
  match s with
  | SInsert r => t ++ [r]
  | SUpdate u c =>
      map (fun r => if opt_eqb (r_set_cookie r) c then setRowUniq (Some u) r else r) t
  end.

(** The database as [Insert] sees it: each call may return an error. *)
Record Database : Type := mkDatabase {
  beginFails : bool;              (* BeginTx *)
  prepareInsertFails : bool;      (* PrepareContext of the INSERT *)
  prepareUpdateFails : bool;      (* PrepareContext of the UPDATE *)
  execFails : Table -> Stmt -> bool;  (* ExecContext of a statement *)
  commitFails : bool              (* Commit *)
}.

(** [nil] or a non-nil [error]. *)
Inductive Outcome : Type := Ok | Err.

Section Store.

Variable urlParseHost : str -> option str.

(** The arguments of the INSERT for an analyzed line. *)
Definition rowOf (line : Line) : Row :=
  mkRow (nullString (Date line)) (nullString (Time line)) (nullString (Host line))
        (nullString (Path line)) (nullString (Query line)) (nullString (IP line))
        (nullString (UserAgent line)) (nullString (Referrer line))
        (nullString (Type_ line)) (nullString (Agent line)) (nullString (OS line))
        (nullString (RefDomain line)) (Mult line)
        (nullUUID (SetCookie line)) (nullUUID (Uniq line)).

(** The body of the loop of [Insert] for one line: the statements it
    executes, in order. *)
Definition lineStmts (line0 : Line) : list Stmt :=
  let line := Analyze urlParseHost line0 in
  SInsert (rowOf line) ::
  (if SecondVisit line && negb (isEmpty (Uniq line))
   then [SUpdate (Uniq line) (Uniq line)] else []).

(** Executing statements in the transaction: the table in the
    transaction, or [None] at the first error. *)
Fixpoint execAll (db : Database) (t : Table) (ss : list Stmt) : option Table :=
  match ss with
  | [] => Some t
  | s :: ss' =>
      if execFails db t s then None
      else execAll db (applyStmt t s) ss'
  end.

(** [Store.Insert(ctx, lines)]: the result and the committed table.
    Every error path rolls the transaction back (or never began it). *)
Definition Insert (db : Database) (t : Table) (lines : list Line) : Outcome * Table :=
  if beginFails db then (Err, t)
  else if prepareInsertFails db then (Err, t)
  else if prepareUpdateFails db then (Err, t)
  else
    match execAll db t (flat_map lineStmts lines) with
    | None => (Err, t)
    | Some t' => if commitFails db then (Err, t) else (Ok, t')
    end.

End Store.

(** A database none of whose calls fails. *)
Definition healthy : Database :=
  mkDatabase false false false (fun _ _ => false) false.

(** ** Time stamps and JSON values *)

(** A [time.Time], by its UTC calendar reading. *)
Record GoTime : Type := mkTime {
  year : Z; month : Z; day : Z; hour : Z; minute : Z; second : Z; nanosecond : Z
}.

(** The zero [time.Time]. *)
Definition zeroTime : GoTime := mkTime 1 1 1 0 0 0 0.

Fixpoint decimalDigits (fuel : nat) (n : Z) (acc : str) : str :=
  match fuel with
  | O => acc
  | S fuel' =>
      let acc' := chr (48 + n mod 10) :: acc in
      if n / 10 =? 0 then acc' else decimalDigits fuel' (n / 10) acc'
  end.

(** [appendInt] of package [time]: decimal, zero-padded to [width]. *)
Definition appendInt (x : Z) (width : nat) : str :=
  let ds := decimalDigits (S (Z.to_nat (Z.abs x))) (Z.abs x) [] in
  (if x <? 0 then "-" : str else []) ++ repeat "0"%char (width - List.length ds) ++ ds.

(** [ts.UTC().Format("2006-01-02")] and [ts.UTC().Format("15:04:05")] *)
Definition formatDate (t : GoTime) : str :=
  appendInt (year t) 4 ++ "-" ++ appendInt (month t) 2 ++ "-" ++ appendInt (day t) 2.
Definition formatClock (t : GoTime) : str :=
  appendInt (hour t) 2 ++ ":" ++ appendInt (minute t) 2 ++ ":" ++ appendInt (second t) 2.

(** A JSON value, as [encoding/json] reads or writes it. *)
Inductive JSON : Type :=
| JNull
| JBool (b : bool)
| JNumber (text : str)
| JString (s : str)
| JArray (elems : list JSON)
| JObject (members : list (str * JSON)).

(** ** The ingest server (command [stats-sidecar]) *)

(** [ingestEvent] *)
Record ingestEvent : Type := mkIngestEvent {
  ie_Timestamp : GoTime;
  ie_Host : str;
  ie_Path : str;
  ie_Query : str;
  ie_IP : str;
  ie_UserAgent : str;
  ie_Referrer : str;
  ie_ContentType : str;
  ie_SetCookie : str;
  ie_Uniq : str;
  ie_SecondVisit : bool
}.

Definition zeroIngestEvent : ingestEvent :=
  mkIngestEvent zeroTime [] [] [] [] [] [] [] [] [] false.

(** [contentTypeToType(contentType)] *)
Definition contentTypeToType (contentType : str) : str :=
  let ct := ToLower contentType in
  if HasPrefix ct "application/atom+xml" then "feed"
  else if HasPrefix ct "application/rss+xml" then "feed"
  else [].

Section Ingest.

Variable urlParseHost : str -> option str.

(** [time.Time.UnmarshalJSON] on the text of a JSON string: the time it
    denotes, or [None] for an error. *)
Variable timeOfText : str -> option GoTime.

(** Storing a JSON value into a field of type [string] or [bool]:
    [null] leaves the field as it is, a value of another kind is an
    [UnmarshalTypeError]. *)
Definition storeString (cur : str) (v : JSON) : option str :=
  match v with
  | JNull => Some cur
  | JString s => Some s
  | _ => None
  end.

Definition storeBool (cur : bool) (v : JSON) : option bool :=
  match v with
  | JNull => Some cur
  | JBool b => Some b
  | _ => None
  end.

Definition storeTime (cur : GoTime) (v : JSON) : option GoTime :=
  match v with
  | JNull => Some cur
  | JString s => timeOfText s
  | _ => None
  end.

(** A member of a JSON object stored into the field of [ingestEvent] its
    key names (keys match field names up to case folding; a key that
    names no field is skipped). *)
Definition storeMember (e : ingestEvent) (kv : str * JSON) : option ingestEvent :=
  let '(k, v) := kv in
  let key name := EqualFold k name in
  if key "timestamp" then
    option_map (fun x => mkIngestEvent x (ie_Host e) (ie_Path e) (ie_Query e) (ie_IP e)
      (ie_UserAgent e) (ie_Referrer e) (ie_ContentType e) (ie_SetCookie e) (ie_Uniq e)
      (ie_SecondVisit e)) (storeTime (ie_Timestamp e) v)
  else if key "host" then
    option_map (fun x => mkIngestEvent (ie_Timestamp e) x (ie_Path e) (ie_Query e) (ie_IP e)
      (ie_UserAgent e) (ie_Referrer e) (ie_ContentType e) (ie_SetCookie e) (ie_Uniq e)
      (ie_SecondVisit e)) (storeString (ie_Host e) v)
  else if key "path" then
    option_map (fun x => mkIngestEvent (ie_Timestamp e) (ie_Host e) x (ie_Query e) (ie_IP e)
      (ie_UserAgent e) (ie_Referrer e) (ie_ContentType e) (ie_SetCookie e) (ie_Uniq e)
      (ie_SecondVisit e)) (storeString (ie_Path e) v)
  else if key "query" then
    option_map (fun x => mkIngestEvent (ie_Timestamp e) (ie_Host e) (ie_Path e) x (ie_IP e)
      (ie_UserAgent e) (ie_Referrer e) (ie_ContentType e) (ie_SetCookie e) (ie_Uniq e)
      (ie_SecondVisit e)) (storeString (ie_Query e) v)
  else if key "ip" then
    option_map (fun x => mkIngestEvent (ie_Timestamp e) (ie_Host e) (ie_Path e) (ie_Query e) x
      (ie_UserAgent e) (ie_Referrer e) (ie_ContentType e) (ie_SetCookie e) (ie_Uniq e)
      (ie_SecondVisit e)) (storeString (ie_IP e) v)
  else if key "userAgent" then
    option_map (fun x => mkIngestEvent (ie_Timestamp e) (ie_Host e) (ie_Path e) (ie_Query e)
      (ie_IP e) x (ie_Referrer e) (ie_ContentType e) (ie_SetCookie e) (ie_Uniq e)
      (ie_SecondVisit e)) (storeString (ie_UserAgent e) v)
  else if key "referrer" then
    option_map (fun x => mkIngestEvent (ie_Timestamp e) (ie_Host e) (ie_Path e) (ie_Query e)
      (ie_IP e) (ie_UserAgent e) x (ie_ContentType e) (ie_SetCookie e) (ie_Uniq e)
      (ie_SecondVisit e)) (storeString (ie_Referrer e) v)
  else if key "contentType" then
    option_map (fun x => mkIngestEvent (ie_Timestamp e) (ie_Host e) (ie_Path e) (ie_Query e)
      (ie_IP e) (ie_UserAgent e) (ie_Referrer e) x (ie_SetCookie e) (ie_Uniq e)
      (ie_SecondVisit e)) (storeString (ie_ContentType e) v)
  else if key "setCookie" then
    option_map (fun x => mkIngestEvent (ie_Timestamp e) (ie_Host e) (ie_Path e) (ie_Query e)
      (ie_IP e) (ie_UserAgent e) (ie_Referrer e) (ie_ContentType e) x (ie_Uniq e)
      (ie_SecondVisit e)) (storeString (ie_SetCookie e) v)
  else if key "uniq" then
    option_map (fun x => mkIngestEvent (ie_Timestamp e) (ie_Host e) (ie_Path e) (ie_Query e)
      (ie_IP e) (ie_UserAgent e) (ie_Referrer e) (ie_ContentType e) (ie_SetCookie e) x
      (ie_SecondVisit e)) (storeString (ie_Uniq e) v)
  else if key "secondVisit" then
    option_map (fun x => mkIngestEvent (ie_Timestamp e) (ie_Host e) (ie_Path e) (ie_Query e)
      (ie_IP e) (ie_UserAgent e) (ie_Referrer e) (ie_ContentType e) (ie_SetCookie e)
      (ie_Uniq e) x) (storeBool (ie_SecondVisit e) v)
  else Some e.

Fixpoint storeMembers (e : ingestEvent) (ms : list (str * JSON)) : option ingestEvent :=
  match ms with
  | [] => Some e
  | kv :: ms' =>
      match storeMember e kv with
      | Some e' => storeMembers e' ms'
      | None => None
      end
  end.

(** Storing a JSON value into an [ingestEvent]. *)
Definition storeEvent (cur : ingestEvent) (v : JSON) : option ingestEvent :=
  match v with
  | JNull => Some cur
  | JObject ms => storeMembers cur ms
  | _ => None
  end.

(** Storing a JSON array into the slice [Events]: element [i] is stored
    into the element the slice already has at [i], or into a zero one. *)
Fixpoint storeElems (cur : list ingestEvent) (vs : list JSON) : option (list ingestEvent) :=
  match vs with
  | [] => Some []
  | v :: vs' =>
      match storeEvent (hd zeroIngestEvent cur) v, storeElems (tl cur) vs' with
      | Some e, Some es => Some (e :: es)
      | _, _ => None
      end
  end.

(** Storing the members of a JSON object into an [ingestRequest], whose
    only field is [Events] (key [events]). *)
Fixpoint storeRequestMembers (events : list ingestEvent) (ms : list (str * JSON))
  : option (list ingestEvent) :=
  match ms with
  | [] => Some events
  | (k, v) :: ms' =>
      if EqualFold k "events" then
        match v with
        | JNull => storeRequestMembers events ms'
        | JArray vs =>
            match storeElems events vs with
            | Some es => storeRequestMembers es ms'
            | None => None
            end
        | _ => None
        end
      else storeRequestMembers events ms'
  end.

(** [json.Unmarshal] of a JSON value into a zero [ingestRequest]: its
    [Events], or [None] for an error. *)
Definition unmarshalRequest (v : JSON) : option (list ingestEvent) :=
  match v with
  | JNull => Some []
  | JObject ms => storeRequestMembers [] ms
  | _ => None
  end.

(** A request body, as the values a [json.Decoder] meets in it: [Some]
    for a well-formed JSON value, [None] for text that is not JSON. *)
Definition Body := list (option JSON).

(** [dec.Decode(&req)]: one call reads the first value of the body. *)
Definition decodeRequest (body : Body) : option (list ingestEvent) :=
  match body with
  | [] => None                      (* io.EOF *)
  | None :: _ => None               (* syntax error *)
  | Some v :: _ => unmarshalRequest v
  end.

(** The [analyzer.Line] the handler builds from an event. *)
Definition lineOfEvent (evt : ingestEvent) : Line :=
  let ts := ie_Timestamp evt in
  mkLine (formatDate ts) (formatClock ts) (ie_Host evt) (ie_Path evt) (ie_Query evt)
         (ie_IP evt) (ie_UserAgent evt) (ie_Referrer evt)
         (contentTypeToType (ie_ContentType evt)) [] [] [] 0
         (ie_SetCookie evt) (ie_Uniq evt) (ie_SecondVisit evt).

(** The lines the handler passes to [Insert], when decoding succeeds. *)
Definition ingestLines (body : Body) : option (list Line) :=
  option_map (map lineOfEvent) (decodeRequest body).

Definition StatusAccepted : Z := 202.
Definition StatusBadRequest : Z := 400.
Definition StatusMethodNotAllowed : Z := 405.
Definition StatusInternalServerError : Z := 500.

(** The handler of [/ingest]: the status it writes and the table. *)
Definition ingestHandler (db : Database) (t : Table) (method : str) (body : Body)
  : Z * Table :=
  if negb (str_eqb method "POST") then (StatusMethodNotAllowed, t)
  else
    match ingestLines body with
    | None => (StatusBadRequest, t)
    | Some lines =>
        match Insert urlParseHost db t lines with
        | (Err, t') => (StatusInternalServerError, t')
        | (Ok, t') => (StatusAccepted, t')
        end
    end.

End Ingest.

(** ** The middleware (package [traefikstats]) *)

(** [event] *)
Record event : Type := mkEvent {
  EventID : str;
  Timestamp : GoTime;
  ev_Host : str;
  ev_Path : str;
  ev_Query : str;
  ev_IP : str;
  ev_UserAgent : str;
  ev_Referrer : str;
  ev_ContentType : str;
  ev_SetCookie : str;
  ev_Uniq : str;
  ev_SecondVisit : bool
}.

(** The fields of [Config] the request path reads. *)
Record Config : Type := mkConfig {
  DashboardPath : str;
  CookieName : str;
  CookiePath : str;
  CookieDomain : str;
  CookieMaxAge : Z;
  CookieSecure : bool;
  CookieHTTPOnly : bool;
  CookieSameSite : str
}.

(** An [http.Request], as far as the middleware reads it: [req.Host],
    [req.URL.Path], [req.URL.RawQuery], [req.RemoteAddr], the headers (by
    canonical name) and the cookies [req.Cookie] chooses from. *)
Record Request : Type := mkRequest {
  req_Host : str;
  req_Path : str;
  req_RawQuery : str;
  req_RemoteAddr : str;
  req_Header : list (str * str);
  req_Cookies : list (str * str)
}.

(** [req.Header.Get(name)]: the first value, or the empty string. *)
Definition headerGet (name : str) (h : list (str * str)) : str :=
  match find (fun kv => str_eqb (fst kv) name) h with
  | Some kv => snd kv
  | None => []
  end.

(** [req.Cookie(name)]: the value of the first cookie of that name;
    [None] is [http.ErrNoCookie]. *)
Definition requestCookie (name : str) (req : Request) : option str :=
  if isEmpty name then None
  else option_map snd (find (fun kv => str_eqb (fst kv) name) (req_Cookies req)).

(** [newUUID()], from the bytes [rand.Read] delivers: the 16-byte array
    starts zeroed, and the error of [rand.Read] is ignored. *)
Definition newUUID (rnd : list Z) : str :=
  let b := firstn 16 (rnd ++ repeat 0 16) in
  let b6 := Z.lor (Z.land (nth 6 b 0) 15) 64 in
  let b8 := Z.lor (Z.land (nth 8 b 0) 63) 128 in
  let b := firstn 6 b ++ [b6] ++ [nth 7 b 0] ++ [b8] ++ skipn 9 b in
  uuidFromBytes b.

(** [cookieState] *)
Record cookieState : Type := mkCookieState {
  cs_setCookie : str;
  cs_uniq : str;
  cs_secondVisit : bool;
  cs_needsSet : bool;
  cs_value : str
}.

(** [readCookie(req)]; [rnd] feeds [newUUID]. *)
Definition readCookie (cfg : Config) (rnd : list Z) (req : Request) : cookieState :=
  match requestCookie (CookieName cfg) req with
  | None =>
      let userID := newUUID rnd in
      mkCookieState userID [] false true ("?" ++ userID)
  | Some value =>
      if isEmpty value then
        let userID := newUUID rnd in
        mkCookieState userID [] false true ("?" ++ userID)
      else if HasPrefix value "?" then
        let userID := TrimPrefix value "?" in
        mkCookieState [] userID true true userID
      else
        mkCookieState [] value false false []
  end.

Inductive SameSite : Type := SameSiteLaxMode | SameSiteStrictMode | SameSiteNoneMode.

(** [http.Cookie], with the fields [maybeSetCookie] fills. *)
Record HTTPCookie : Type := mkHTTPCookie {
  c_Name : str;
  c_Value : str;
  c_Path : str;
  c_Domain : str;
  c_MaxAge : Z;
  c_Secure : bool;
  c_HttpOnly : bool;
  c_SameSite : SameSite
}.

(** [maybeSetCookie(headers, state)]: the cookie whose text is added as a
    [Set-Cookie] header, if any. *)
Definition maybeSetCookie (cfg : Config) (state : cookieState) : option HTTPCookie :=
  if negb (cs_needsSet state) then None
  else
    let mode := ToLower (CookieSameSite cfg) in
    Some (mkHTTPCookie (CookieName cfg) (cs_value state) (CookiePath cfg)
            (CookieDomain cfg) (CookieMaxAge cfg) (CookieSecure cfg) (CookieHTTPOnly cfg)
            (if str_eqb mode "strict" then SameSiteStrictMode
             else if str_eqb mode "none" then SameSiteNoneMode
             else SameSiteLaxMode)).

Fixpoint indexByte (c : ascii) (s : str) : option nat :=
  match s with
  | [] => None
  | x :: s' => if Ascii.eqb x c then Some O else option_map S (indexByte c s')
  end.

Fixpoint lastIndexByte (c : ascii) (s : str) : option nat :=
  match s with
  | [] => None
  | x :: s' =>
      match lastIndexByte c s' with
      | Some n => Some (S n)
      | None => if Ascii.eqb x c then Some O else None
      end
  end.

(** [net.SplitHostPort(hostport)] of the Go standard library: host and
    port, or [None] for an error. *)
Definition SplitHostPort (hostport : str) : option (str * str) :=
  match lastIndexByte ":" hostport with
  | None => None                                   (* missing port *)
  | Some i =>
      let bracketed :=
        match hostport with c :: _ => Ascii.eqb c "[" | [] => false end in
      let parsed : option (str * nat * nat) :=
        if bracketed then
          match indexByte "]" hostport with
          | None => None                           (* missing ']' *)
          | Some e =>
              if Nat.eqb (e + 1) (List.length hostport) then None
              else if Nat.eqb (e + 1) i then Some (slice 1 e hostport, 1%nat, (e + 1)%nat)
              else None
          end
        else
          let host := firstn i hostport in
          if hasByte ":" host then None            (* too many colons *)
          else Some (host, O, O) in
      match parsed with
      | None => None
      | Some (host, j, k) =>
          if hasByte "[" (skipn j hostport) then None
          else if hasByte "]" (skipn k hostport) then None
          else Some (host, skipn (i + 1) hostport)
      end
  end.

(** [normalizeHost(host)] *)
Definition normalizeHost (host : str) : str :=
  if isEmpty host then []
  else
    match SplitHostPort host with
    | Some (h, _) => ToLower h
    | None => ToLower host
    end.

(** [strings.TrimSuffix(s, p)] *)
Definition TrimSuffix (s p : str) : str :=
  if HasSuffix s p then firstn (List.length s - List.length p) s else s.

(** [isDashboardRequest(req)] *)
Definition isDashboardRequest (cfg : Config) (req : Request) : bool :=
  if isEmpty (DashboardPath cfg) then false
  else if str_eqb (req_Path req) (DashboardPath cfg) then true
  else str_eqb (req_Path req) (TrimSuffix (DashboardPath cfg) "/" ++ "/favicon.ico").

(** [isLoggable(status, contentType)] *)
Definition isLoggable (status : Z) (contentType : str) : bool :=
  if negb (status =? 200) then false
  else
    let ct := ToLower contentType in
    HasPrefix ct "text/html" || HasPrefix ct "application/atom+xml"
    || HasPrefix ct "application/rss+xml".

(** The event [enqueueEvent] builds; [rnd] feeds [newUUID] and [now] is
    [time.Now().UTC()]. *)
Definition eventOf (rnd : list Z) (now : GoTime) (req : Request) (contentType : str)
    (state : cookieState) : event :=
  let ip := headerGet "X-Forwarded-For" (req_Header req) in
  let ip := if isEmpty ip then req_RemoteAddr req else ip in
  let ip := match SplitHostPort ip with Some (host, _) => host | None => ip end in
  mkEvent (newUUID rnd) now (normalizeHost (req_Host req)) (req_Path req)
          (req_RawQuery req) ip (headerGet "User-Agent" (req_Header req))
          (headerGet "Referer" (req_Header req)) contentType
          (cs_setCookie state) (cs_uniq state) (cs_secondVisit state).

(** What [ServeHTTP] does with a request. *)
Inductive Served : Type :=
| Proxied                                   (* handed to [proxyDashboard] *)
| Handled (setCookie : option HTTPCookie)   (* the [Set-Cookie] header added *)
          (enqueued : option event).        (* the event given to [Enqueue] *)

(** [ServeHTTP(rw, req)].  [rndCookie] and [rndEvent] feed the two calls of
    [newUUID]; [status] and [contentType] are what the recorder holds
    after the next handler has run. *)
Definition ServeHTTP (cfg : Config) (rndCookie rndEvent : list Z) (now : GoTime)
    (req : Request) (status : Z) (contentType : str) : Served :=
  if isDashboardRequest cfg req then Proxied
  else
    let state := readCookie cfg rndCookie req in
    Handled (maybeSetCookie cfg state)
            (if isLoggable status contentType
             then Some (eventOf rndEvent now req contentType state)
             else None).

(** ** Strings in JSON ([encoding/json]) *)

(** U+FFFD, the replacement character. *)
Definition utf8_replacement : str := [chr 239; chr 191; chr 189].

(** [utf8.DecodeRuneInString(s)], as far as its callers here look: the
    width of the well-formed UTF-8 sequence [s] starts with, and 0 where
    Go returns [(RuneError, 1)] (or [(RuneError, 0)] for the empty
    string): the first byte starts no well-formed sequence. *)
Definition runeWidth (s : str) : nat :=
  match s with
  | [] => 0
  | b0 :: r =>
      let z := code b0 in
      if z <? 128 then 1
      else if (z <? 194) || (244 <? z) then 0
      else if z <? 224 then
        match r with
        | b1 :: _ => if between 128 191 b1 then 2 else 0
        | _ => 0
        end
      else if z <? 240 then
        match r with
        | b1 :: b2 :: _ =>
            if between (if z =? 224 then 160 else 128) (if z =? 237 then 159 else 191) b1
               && between 128 191 b2
            then 3 else 0
        | _ => 0
        end
      else
        match r with
        | b1 :: b2 :: b3 :: _ =>
            if between (if z =? 240 then 144 else 128) (if z =? 244 then 143 else 191) b1
               && between 128 191 b2 && between 128 191 b3
            then 4 else 0
        | _ => 0
        end
  end.

(** What [encoding/json] writes for a Go string, as the string a decoder
    reads back: well-formed sequences are kept, and every byte that
    starts none is replaced by U+FFFD.  [inside] counts the bytes still
    to copy of the sequence under the cursor. *)
Fixpoint coerceFrom (inside : nat) (s : str) : str :=
  match s with
  | [] => []
  | c :: s' =>
      match inside with
      | S k => c :: coerceFrom k s'
      | O =>
          match runeWidth s with
          | O => utf8_replacement ++ coerceFrom 0 s'
          | S k => c :: coerceFrom k s'
          end
      end
  end.

Definition coerceUTF8 (s : str) : str := coerceFrom 0 s.

(** [utf8.ValidString(s)] *)
Fixpoint validFrom (inside : nat) (s : str) : bool :=
  match s with
  | [] => true
  | c :: s' =>
      match inside with
      | S k => validFrom k s'
      | O =>
          match runeWidth s with
          | O => false
          | S k => validFrom k s'
          end
      end
  end.

Definition ValidString (s : str) : bool := validFrom 0 s.

(** ** The ingest client *)

Section Client.

(** [time.Time.MarshalJSON]: the RFC 3339 text of a time stamp. *)
Variable textOfTime : GoTime -> str.

(** The JSON object [enc.Encode(evt)] and [json.Marshal(evt)] write for
    an event. *)
Definition encodeEvent (e : event) : JSON :=
  JObject
    [("eventId" : str, JString (coerceUTF8 (EventID e)));
     ("timestamp" : str, JString (textOfTime (Timestamp e)));
     ("host" : str, JString (coerceUTF8 (ev_Host e)));
     ("path" : str, JString (coerceUTF8 (ev_Path e)));
     ("query" : str, JString (coerceUTF8 (ev_Query e)));
     ("ip" : str, JString (coerceUTF8 (ev_IP e)));
     ("userAgent" : str, JString (coerceUTF8 (ev_UserAgent e)));
     ("referrer" : str, JString (coerceUTF8 (ev_Referrer e)));
     ("contentType" : str, JString (coerceUTF8 (ev_ContentType e)));
     ("setCookie" : str, JString (coerceUTF8 (ev_SetCookie e)));
     ("uniq" : str, JString (coerceUTF8 (ev_Uniq e)));
     ("secondVisit" : str, JBool (ev_SecondVisit e))].

(** The body [StreamEvents] posts: one JSON object per line. *)
Definition streamBody (events : list event) : Body :=
  map (fun e => Some (encodeEvent e)) events.

End Client.

(** The event the handler reads from what the client writes for [e]:
    [ingestEvent] has no field for [eventId]. *)
Definition receivedEvent (e : event) : ingestEvent :=
  mkIngestEvent (Timestamp e) (coerceUTF8 (ev_Host e)) (coerceUTF8 (ev_Path e))
                (coerceUTF8 (ev_Query e)) (coerceUTF8 (ev_IP e))
                (coerceUTF8 (ev_UserAgent e)) (coerceUTF8 (ev_Referrer e))
                (coerceUTF8 (ev_ContentType e)) (coerceUTF8 (ev_SetCookie e))
                (coerceUTF8 (ev_Uniq e)) (ev_SecondVisit e).

(** ** The disk queue *)

(** [queuedEvent] *)
Record queuedEvent : Type := mkQueued { qe_ID : Z; qe_Event : event }.

(** The SQLite buffer file: the rows [(id, payload)] of table [events] in
    the order of their ids, and the largest id AUTOINCREMENT has given
    out (table [sqlite_sequence]). *)
Record Buffer : Type := mkBuffer {
  b_rows : list (Z * str);
  b_seq : Z
}.

(** [diskQueue]: the database handle, [maxEvents] and [count]. *)
Record diskQueue : Type := mkQueue {
  q_db : Buffer;
  q_maxEvents : Z;
  q_count : Z
}.

Section DiskQueue.

(** [json.Marshal] and [json.Unmarshal] at type [event]; [None] is an
    error. *)
Variable marshalEvent : event -> option str.
Variable unmarshalEvent : str -> option event.

(** [newDiskQueue(path, maxEvents)], on the buffer file found at [path];
    [openFails] stands for an error of [sql.Open], of a schema statement
    or of the COUNT query. *)
Definition newDiskQueue (path : str) (file : Buffer) (openFails : bool) (maxEvents : Z)
  : option diskQueue :=
  if isEmpty path then None
  else if openFails then None
  else Some (mkQueue file maxEvents (Z.of_nat (List.length (b_rows file)))).

Definition setCount (c : Z) (q : diskQueue) : diskQueue :=
  mkQueue (q_db q) (q_maxEvents q) c.
Definition setRows (rows : list (Z * str)) (q : diskQueue) : diskQueue :=
  mkQueue (mkBuffer rows (b_seq (q_db q))) (q_maxEvents q) (q_count q).

(** The condition [Enqueue] waits on. *)
Definition enqueueWaits (q : diskQueue) : bool :=
  (0 <? q_maxEvents q) && (q_maxEvents q <=? q_count q).

(** First critical section of [Enqueue]: wait for room, [q.count++].
    [None]: the caller is waiting on the condition. *)
Definition enqueueReserve (q : diskQueue) : option diskQueue :=
  if enqueueWaits q then None else Some (setCount (q_count q + 1) q).

(** [INSERT INTO events(payload) VALUES (?)] *)
Definition insertRow (payload : str) (b : Buffer) : Buffer :=
  mkBuffer (b_rows b ++ [(b_seq b + 1, payload)]) (b_seq b + 1).

(** The rest of [Enqueue]: the INSERT, and [q.count--] when it fails. *)
Definition enqueueInsert (payload : str) (insertFails : bool) (q : diskQueue)
  : Outcome * diskQueue :=
  if insertFails then (Err, setCount (q_count q - 1) q)
  else (Ok, mkQueue (insertRow payload (q_db q)) (q_maxEvents q) (q_count q)).

(** [Enqueue(evt)], run without interruption; [None]: it waits. *)
Definition Enqueue (evt : event) (insertFails : bool) (q : diskQueue)
  : option (Outcome * diskQueue) :=
  match marshalEvent evt with
  | None => Some (Err, q)
  | Some payload =>
      match enqueueReserve q with
      | None => None
      | Some q1 => Some (enqueueInsert payload insertFails q1)
      end
  end.

(** The loop of [FetchBatch] over the selected rows: the batch, and the
    ids of the rows it deletes. *)
Fixpoint scanRows (deleteFails : Z -> bool) (sel : list (Z * str))
  : list queuedEvent * list Z :=
  match sel with
  | [] => ([], [])
  | (id, payload) :: sel' =>
      let '(out, del) := scanRows deleteFails sel' in
      match unmarshalEvent payload with
      | Some evt => (mkQueued id evt :: out, del)
      | None => (out, if deleteFails id then del else id :: del)
      end
  end.

Definition memZ (x : Z) (l : list Z) : bool := existsb (Z.eqb x) l.

(** [FetchBatch(limit)]: the batch ([None] for an error) and the queue.
    [selectFails]: the query fails; [deleteFails id]: the DELETE of the
    malformed row [id] fails; [iterFails]: [rows.Err()] is not nil. *)
Definition FetchBatch (limit : Z) (selectFails : bool) (deleteFails : Z -> bool)
    (iterFails : bool) (q : diskQueue) : option (list queuedEvent) * diskQueue :=
  if limit <=? 0 then (Some [], q)
  else if selectFails then (None, q)
  else
    let sel := firstn (Z.to_nat limit) (b_rows (q_db q)) in
    let '(out, del) := scanRows deleteFails sel in
    let q' := setRows (filter (fun r => negb (memZ (fst r) del)) (b_rows (q_db q))) q in
    if iterFails then (None, q') else (Some out, q').

(** [DELETE FROM events WHERE id <= ?]: rows affected and the file. *)
Definition deleteRows (lastID : Z) (b : Buffer) : Z * Buffer :=
  let keep := filter (fun r => negb (fst r <=? lastID)) (b_rows b) in
  (Z.of_nat (List.length (b_rows b) - List.length keep), mkBuffer keep (b_seq b)).

(** The critical section of [DeleteUpTo]: the count after [affected]
    rows went. *)
Definition deleteAccount (affected : Z) (q : diskQueue) : diskQueue :=
  if 0 <? affected then
    let c := q_count q - affected in
    setCount (if c <? 0 then 0 else c) q
  else q.

(** [DeleteUpTo(lastID)] up to its critical section: the result, the
    rows affected still to be accounted for (if any), and the queue. *)
Definition deleteExec (lastID : Z) (execFails affectedFails : bool) (q : diskQueue)
  : Outcome * option Z * diskQueue :=
  if lastID <=? 0 then (Ok, None, q)
  else if execFails then (Err, None, q)
  else
    let '(affected, b) := deleteRows lastID (q_db q) in
    let q' := mkQueue b (q_maxEvents q) (q_count q) in
    if affectedFails then (Ok, None, q') else (Ok, Some affected, q').

(** [DeleteUpTo(lastID)], run without interruption. *)
Definition DeleteUpTo (lastID : Z) (execFails affectedFails : bool) (q : diskQueue)
  : Outcome * diskQueue :=
  match deleteExec lastID execFails affectedFails q with
  | (res, Some affected, q') => (res, deleteAccount affected q')
  | (res, None, q') => (res, q')
  end.

(** *** Interleavings

    [Enqueue] releases the mutex between [q.count++] and the INSERT, and
    [DeleteUpTo] takes it only after the DELETE.  A system state keeps,
    beside the queue, the callers that are between the two halves. *)
Record System : Type := mkSystem {
  sys_queue : diskQueue;
  sys_inserting : list str;   (* payloads of callers of Enqueue past count++ *)
  sys_accounting : list Z     (* rows affected, of callers of DeleteUpTo past the DELETE *)
}.

Inductive Step : Type :=
| StReserve (evt : event)
| StInsert (i : nat) (insertFails : bool)
| StFetch (limit : Z) (selectFails : bool) (deleteFails : Z -> bool) (iterFails : bool)
| StDelete (lastID : Z) (execFails affectedFails : bool)
| StAccount (i : nat).

Definition removeAt {A} (i : nat) (l : list A) : list A :=
  firstn i l ++ skipn (S i) l.

(** One atomic step; [None] when the step cannot be taken there. *)
Definition step (s : System) (st : Step) : option System :=
  let q := sys_queue s in
  match st with
  | StReserve evt =>
      match marshalEvent evt with
      | None => Some s
      | Some payload =>
          match enqueueReserve q with
          | None => None
          | Some q' => Some (mkSystem q' (sys_inserting s ++ [payload]) (sys_accounting s))
          end
      end
  | StInsert i insertFails =>
      match nth_error (sys_inserting s) i with
      | None => None
      | Some payload =>
          Some (mkSystem (snd (enqueueInsert payload insertFails q))
                         (removeAt i (sys_inserting s)) (sys_accounting s))
      end
  | StFetch limit selectFails deleteFails iterFails =>
      Some (mkSystem (snd (FetchBatch limit selectFails deleteFails iterFails q))
                     (sys_inserting s) (sys_accounting s))
  | StDelete lastID execFails affectedFails =>
      match deleteExec lastID execFails affectedFails q with
      | (_, Some affected, q') =>
          Some (mkSystem q' (sys_inserting s) (sys_accounting s ++ [affected]))
      | (_, None, q') => Some (mkSystem q' (sys_inserting s) (sys_accounting s))
      end
  | StAccount i =>
      match nth_error (sys_accounting s) i with
      | None => None
      | Some affected =>
          Some (mkSystem (deleteAccount affected q) (sys_inserting s)
                         (removeAt i (sys_accounting s)))
      end
  end.

Fixpoint run (s : System) (tr : list Step) : option System :=
  match tr with
  | [] => Some s
  | st :: tr' =>
      match step s st with
      | Some s' => run s' tr'
      | None => None
      end
  end.

(** The system right after [newDiskQueue]. *)
Definition startOf (q : diskQueue) : System := mkSystem q [] [].

End DiskQueue.

(** The buffer file is well formed: ids are positive, increase along the
    rows and none exceeds the AUTOINCREMENT counter. *)
Fixpoint idsIncrease (lo : Z) (rows : list (Z * str)) : Prop :=
  match rows with
  | [] => True
  | (id, _) :: rows' => lo < id /\ idsIncrease id rows'
  end.

Definition wfBuffer (b : Buffer) : Prop :=
  0 <= b_seq b /\ idsIncrease 0 (b_rows b)
  /\ Forall (fun r => fst r <= b_seq b) (b_rows b).

(** The ids of the entries that the [FetchBatch] steps of a run return.
    [flush], the only caller of [DeleteUpTo], passes it one of them: the
    id of the last entry of the batch it has fetched. *)
Fixpoint fetchedIDs (marshalEvent : event -> option str)
    (unmarshalEvent : str -> option event) (s : System) (tr : list Step) : list Z :=
  match tr with
  | [] => []
  | st :: tr' =>
      match step marshalEvent unmarshalEvent s st with
      | None => []
      | Some s' =>
          match st with
          | StFetch limit selectFails deleteFails iterFails =>
              match fst (FetchBatch unmarshalEvent limit selectFails deleteFails iterFails
                                    (sys_queue s)) with
              | Some batch => map qe_ID batch
              | None => []
              end
          | _ => []
          end ++ fetchedIDs marshalEvent unmarshalEvent s' tr'
      end
  end.

(** The 122 bits of the draw that [newUUID] keeps: the low eight bits of
    each of the sixteen bytes, without the high nibble of byte 6 and the
    two high bits of byte 8, which it overwrites. *)
Definition drawnBits (rnd : list Z) : list Z :=
  let b := map (fun x => Z.land x 255) (firstn 16 (rnd ++ repeat 0 16)) in
  firstn 6 b ++ [Z.land (nth 6 b 0) 15] ++ [nth 7 b 0] ++
  [Z.land (nth 8 b 0) 63] ++ skipn 9 b.

(** ** The cookie state machine, as the specification words it *)

(** Modelled after the specification (section 4.5, item 2): the response
    cookie (if one is set), [set_cookie], [uniq] and [second_visit], from
    the incoming cookie and the UUID [U] minted for a new visitor. *)
Definition cookieMachine (cookie : option str) (U : str)
  : option str * str * str * bool :=
  match cookie with
  | None | Some [] => (Some ("?" ++ U), U, [], false)
  | Some (c :: rest) =>
      if Ascii.eqb c "?" then (Some rest, [], rest, true)
      else (None, [], c :: rest, false)
  end.

(** ** Predicates and sample data of the properties *)

(** The invariant of RawEvent in the specification: exactly one of
    [set_cookie] and [uniq] is non-empty, and [second_visit] implies that
    [uniq] is non-empty. *)
Definition eventInvariant (e : event) : bool :=
  xorb (isEmpty (ev_SetCookie e)) (isEmpty (ev_Uniq e))
  && implb (ev_SecondVisit e) (negb (isEmpty (ev_Uniq e))).

(** [CreateConfig()] *)
Definition CreateConfig : Config :=
  mkConfig "/stats" "stats_id" "/" "" 2147483647 false true "Lax".

(** A request for [/] from [peer] that carries the given cookies. *)
Definition requestWith (cookies : list (str * str)) : Request :=
  mkRequest "example.com" "/" "" "203.0.113.7:40000"
            [("User-Agent" : str, "Mozilla/5.0 (X11; Linux x86_64) Firefox/121.0" : str)]
            cookies.

(** A [url.Parse] that returns an error on every input.  The sample
    events below have an empty referrer, on which [lineRefDomain] returns
    before it parses. *)
Definition failingParse : str -> option str := fun _ => None.

(** The event of scenario S1 of the specification, as the ingest handler
    receives it: a first visit, with the minted UUID in [setCookie]. *)
Definition firstVisitEvent : ingestEvent :=
  mkIngestEvent (mkTime 2024 5 17 9 30 0 0) "example.com" "/" "" "203.0.113.7"
    "Mozilla/5.0 (X11; Linux x86_64; rv:121.0) Gecko/20100101 Firefox/121.0" ""
    "text/html" "3f2b8c1e-7a4d-4e9b-8c2f-5d6e7f8a9b0c" "" false.

(** A string is lower-case when it has no upper-case ASCII letter. *)
Definition isLowerCase (s : str) : bool := forallb (fun c => negb (isUpper c)) s.

(** How often the byte [c] occurs in [s]. *)
Definition countByte (c : ascii) (s : str) : nat :=
  List.length (filter (Ascii.eqb c) s).

(** A codec for the examples: the payload of an event is its id, and the
    empty payload is malformed. *)
Definition sampleEvent (id : str) : event :=
  mkEvent id zeroTime [] [] [] [] [] [] [] [] [] false.
Definition sampleMarshal (e : event) : option str := Some (EventID e).
Definition sampleUnmarshal (p : str) : option event :=
  if isEmpty p then None else Some (sampleEvent p).

(** ** What a pattern matches

    [derives r prev m rest cs cs']: the pattern [r] matches the text [m],
    which follows the byte [prev] (if any) and is followed by [rest], and
    takes the captures from [cs] to [cs']. *)

(** The byte before the cursor once [m] has been read. *)
Fixpoint lastOf (prev : option ascii) (m : str) : option ascii :=
  match m with
  | [] => prev
  | c :: m' => lastOf (Some c) m'
  end.

Inductive derives : re -> option ascii -> str -> str -> caps -> caps -> Prop :=
| DEps p rest cs : derives Eps p [] rest cs cs
| DByte f c p rest cs : f c = true -> derives (Byte f) p [c] rest cs cs
| DSeq a b p m1 m2 rest cs cs1 cs2 :
    derives a p m1 (m2 ++ rest) cs cs1 ->
    derives b (lastOf p m1) m2 rest cs1 cs2 ->
    derives (Seq a b) p (m1 ++ m2) rest cs cs2
| DAltL a b p m rest cs cs' : derives a p m rest cs cs' -> derives (Alt a b) p m rest cs cs'
| DAltR a b p m rest cs cs' : derives b p m rest cs cs' -> derives (Alt a b) p m rest cs cs'
| DStarNil a p rest cs : derives (Star a) p [] rest cs cs
| DStarMore a p m1 m2 rest cs cs1 cs2 :
    derives a p m1 (m2 ++ rest) cs cs1 ->
    derives (Star a) (lastOf p m1) m2 rest cs1 cs2 ->
    derives (Star a) p (m1 ++ m2) rest cs cs2
| DGrp i a p m rest cs cs' :
    derives a p m rest cs cs' -> derives (Grp i a) p m rest cs ((i, m) :: cs')
| DBol rest cs : derives Bol None [] rest cs cs
| DEol p cs : derives Eol p [] [] cs cs
| DWb p rest cs :
    xorb (wordAt p) (wordAt (hd_error rest)) = true -> derives Wb p [] rest cs cs.

(** [sumZ l]: the sum of the numbers of [l]. *)
Definition sumZ (l : list Z) : Z := fold_right Z.add 0 l.

(** The callers between the halves of [Enqueue], the rows on file and the
    deleted rows not yet accounted for never outnumber [count]. *)
Definition accounted (s : System) : Prop :=
  Z.of_nat (List.length (sys_inserting s))
  + Z.of_nat (List.length (b_rows (q_db (sys_queue s))))
  + sumZ (sys_accounting s) <= q_count (sys_queue s)
  /\ Forall (fun k => 0 <= k) (sys_accounting s).

(** The rows are above [bound], and the file is well formed. *)
Definition delivered (bound : Z) (q : diskQueue) : Prop :=
  wfBuffer (q_db q) /\ bound <= b_seq (q_db q)
  /\ Forall (fun r => bound < fst r) (b_rows (q_db q)).

(** The text after an id goes on like an id: it starts with a byte of
    [\w] or with one of the two runes that [(?i)] adds to [\w]. *)
Definition continuesWord (post : str) : bool :=
  match post with c :: _ => isWord c | [] => false end
  || HasPrefix post utf8_long_s || HasPrefix post utf8_kelvin.

(** No position inside [pre] starts the text ["feed-id"] (in any case)
    in [pre ++ key]. *)
Definition noFeedIDBefore (pre key : str) : bool :=
  forallb (fun i => negb (HasPrefix (map lowerByte (skipn i (pre ++ key))) "feed-id"))
          (seq 0 (List.length pre)).

(** What [exec r k] returns, [k] returns after a match of [r]. *)
Definition sound {R : Type} (r : re) : Prop :=
  forall (k : @cont R) prev s cs res,
    exec r k prev s cs = Some res ->
    exists m s' cs',
      s = m ++ s' /\ derives r prev m s' cs cs' /\ k (lastOf prev m) s' cs' = Some res.

(** A text of ASCII bytes; and one without the letters [s] and [k], whose
    bytes are one-byte patterns under [(?i)]. *)
Definition asciiText (t : str) : Prop := Forall (fun c => code c < 128) t.
Definition plainText (t : str) : Prop :=
  Forall (fun c => Ascii.eqb (lowerByte c) "s" = false
                   /\ Ascii.eqb (lowerByte c) "k" = false) t.

(** ** The text form of a UUID

    What DuckDB's [UUID] columns [set_cookie] and [uniq] hold: 36 bytes,
    hyphens at offsets 8, 13, 18 and 23, lower-case hexadecimal digits
    elsewhere ([hex.Encode] writes lower case). *)
Definition isHexLower (c : ascii) : bool := isDigit c || between 97 102 c.

Definition isUUIDText (s : str) : bool :=
  (List.length s =? 36)%nat
  && forallb (fun ic : nat * ascii =>
                if existsb (Nat.eqb (fst ic)) [8; 13; 18; 23]%nat
                then Ascii.eqb (snd ic) "-" else isHexLower (snd ic))
             (combine (seq 0 36) s).
(** The two enumeration types [initSchema] creates for the columns [type]
    and [os]. *)
Definition agent_type_t : list str := ["feed" : str; "bot" : str; "browser" : str].
Definition agent_os_t : list str :=
  ["Android" : str; "Windows" : str; "iOS" : str; "macOS" : str; "Linux" : str].

(** A line as a client may send it: a user agent that advertises
    subscribers, and no [uniq]. *)
Definition feedFetcherLine : Line :=
  mkLine "2024-05-17" "09:30:00" "example.com" "/atom.xml" "" "203.0.113.7"
         "Feedbin feed-id:1373711 - 192 subscribers" "" "feed" "" "" "" 0 "" "" false.
(** The row [r] as the statements of a transaction of [Insert] may leave
    it: as it was, or with [uniq] set to its own [set_cookie]. *)
Definition confirmedOf (r r1 : Row) : Prop :=
  r1 = r \/ exists u, r_set_cookie r = Some u /\ r1 = setRowUniq (Some u) r.

(** The rows the INSERT statements of a list bring, in order. *)
Definition insertedRows (ss : list Stmt) : list Row :=
  flat_map (fun s => match s with SInsert r => [r] | SUpdate _ _ => [] end) ss.

(** An UPDATE as [Insert] issues it: both parameters are the same. *)
Definition ownUpdate (s : Stmt) : Prop :=
  match s with SInsert _ => True | SUpdate u c => u = c end.

(** A tentative first-visit row, and the line of the second visit that
    confirms it. *)
Definition tentativeRow : Row :=
  mkRow (Some ("2024-05-17" : str)) (Some ("09:30:00" : str)) (Some ("example.com" : str))
        (Some ("/" : str)) None (Some ("203.0.113.7" : str)) (Some ("Mozilla/5.0" : str))
        None (Some ("browser" : str)) None None None 1
        (Some ("3f2b8c1e-7a4d-4e9b-8c2f-5d6e7f8a9b0c" : str))
        (Some ("0b1c2d3e-0000-4000-8000-000000000000" : str)).

Definition secondVisitLine : Line :=
  mkLine "2024-05-17" "09:31:00" "example.com" "/about" "" "203.0.113.7"
         "Mozilla/5.0" "" "" "" "" "" 0 "" "3f2b8c1e-7a4d-4e9b-8c2f-5d6e7f8a9b0c" true.
(** ** The dashboard proxy *)

(** An HTTP response, as far as [proxyDashboard] copies it. *)
Record Response : Type := mkResponse {
  resp_StatusCode : Z;
  resp_Header : list (str * str);
  resp_Body : str
}.

Definition StatusUnauthorized : Z := 401.
Definition StatusBadGateway : Z := 502.

(** The guard at the head of [proxyDashboard]: [token] is
    [m.cfg.DashboardToken]; [true] when the request is answered with
    401. *)
Definition dashboardDenied (token : str) (req : Request) : bool :=
  if negb (isEmpty token) then
    let auth := headerGet "Authorization" (req_Header req) in
    negb (HasPrefix auth "Bearer ") || negb (str_eqb (TrimPrefix auth "Bearer ") token)
  else false.

(** [proxyDashboard] past the guard: the GET it sends to the sidecar (path
    and query), if it sends one, and what it writes to [rw].  [urlFails]:
    [url.Parse(m.cfg.SidecarURL)] or [http.NewRequestWithContext] returns
    an error; [clientDo path query] is the answer of [m.client.Do], [None]
    for an error. *)
Definition proxyForward (urlFails : bool) (clientDo : str -> str -> option Response)
    (req : Request) : option (str * str) * Response :=
  if urlFails then (None, mkResponse StatusBadGateway [] [])
  else
    let get := (req_Path req, req_RawQuery req) in
    match clientDo (req_Path req) (req_RawQuery req) with
    | None => (Some get, mkResponse StatusBadGateway [] [])
    | Some resp =>
        (Some get, mkResponse (resp_StatusCode resp) (resp_Header resp) (resp_Body resp))
    end.

(** [proxyDashboard(rw, req)] *)
Definition proxyDashboard (token : str) (urlFails : bool)
    (clientDo : str -> str -> option Response) (req : Request)
  : option (str * str) * Response :=
  if dashboardDenied token req
  then (None, mkResponse StatusUnauthorized [] "Unauthorized")
  else proxyForward urlFails clientDo req.

(** A request for the dashboard with an [Authorization] header. *)
Definition dashboardRequest (auth : str) : Request :=
  mkRequest "example.com" "/stats" "from=2024-01-01&to=2024-12-31" "203.0.113.7:40000"
            [("Authorization" : str, auth)] [].
(** ** The worker: [flush] and its back-off *)

(** [time.Duration] counts nanoseconds in an [int64]. *)
Definition Millisecond : Z := 1000000.
Definition Second : Z := 1000000000.

(** An [int64] result, wrapped around. *)
Definition wrap64 (x : Z) : Z :=
  (x + 9223372036854775808) mod 18446744073709551616 - 9223372036854775808.

(** The fields of [statsMiddleware] that [flush] reads and writes.  An
    instant is the nanoseconds since an epoch; [None] is the zero
    [time.Time]. *)
Record statsMiddleware : Type := mkMiddleware {
  m_batchSize : Z;
  m_backoff : Z;
  m_nextAttempt : option Z
}.

(** [scheduleBackoff()]; [now] is [time.Now()]. *)
Definition scheduleBackoff (now : Z) (m : statsMiddleware) : statsMiddleware :=
  let backoff :=
    if m_backoff m <=? 0 then 500 * Millisecond
    else
      let b := wrap64 (m_backoff m * 2) in
      if 10 * Second <? b then 10 * Second else b in
  mkMiddleware (m_batchSize m) backoff (Some (now + backoff)).

(** The system with another queue. *)
Definition withQueue (q : diskQueue) (s : System) : System :=
  mkSystem q (sys_inserting s) (sys_accounting s).

(** One turn of the loop of [flush], as its surroundings decide it: which
    calls fail, what [time.Now()] is when the back-off is scheduled, and
    the steps callers of [Enqueue] take meanwhile, before the SELECT,
    while [StreamEvents] runs, and between the DELETE and the critical
    section of [DeleteUpTo]. *)
Record Round : Type := mkRound {
  rd_before : list Step;
  rd_selectFails : bool;
  rd_deleteFails : Z -> bool;
  rd_iterFails : bool;
  rd_streaming : list Step;
  rd_streamFails : list event -> bool;
  rd_execFails : bool;
  rd_affectedFails : bool;
  rd_deleting : list Step;
  rd_now : Z
}.

Definition isEnqueueStep (st : Step) : bool :=
  match st with
  | StReserve _ | StInsert _ _ => true
  | _ => false
  end.

(** The steps of a round that are not [flush]'s own are steps of
    [Enqueue]: the worker is the only caller of [FetchBatch] and
    [DeleteUpTo]. *)
Definition enqueueOnly (rd : Round) : bool :=
  forallb isEnqueueStep (rd_before rd ++ rd_streaming rd ++ rd_deleting rd).

Section Flush.

Variable marshalEvent : event -> option str.
Variable unmarshalEvent : str -> option event.

(** The loop of [flush].  [sent] collects the batches [StreamEvents]
    delivered (it returned nil).  [None]: the loop has not returned
    within the given rounds, or a step of a caller of [Enqueue] cannot be
    taken where the round has it. *)
Fixpoint flushLoop (rounds : list Round) (m : statsMiddleware) (s : System)
    (sent : list (list event)) : option (statsMiddleware * System * list (list event)) :=
  match rounds with
  | [] => None
  | rd :: rounds' =>
      match run marshalEvent unmarshalEvent s (rd_before rd) with
      | None => None
      | Some s1 =>
          let '(fetched, q2) :=
            FetchBatch unmarshalEvent (m_batchSize m) (rd_selectFails rd)
                       (rd_deleteFails rd) (rd_iterFails rd) (sys_queue s1) in
          let s2 := withQueue q2 s1 in
          match fetched with
          | None => Some (m, s2, sent)
          | Some [] => Some (mkMiddleware (m_batchSize m) 0 None, s2, sent)
          | Some (item :: items) =>
              let batch := item :: items in
              let events := map qe_Event batch in
              let lastID := qe_ID (last batch item) in
              match run marshalEvent unmarshalEvent s2 (rd_streaming rd) with
              | None => None
              | Some s3 =>
                  if rd_streamFails rd events
                  then Some (scheduleBackoff (rd_now rd) m, s3, sent)
                  else
                    match deleteExec lastID (rd_execFails rd) (rd_affectedFails rd)
                                     (sys_queue s3) with
                    | (Err, _, q4) =>
                        Some (scheduleBackoff (rd_now rd) m, withQueue q4 s3,
                              sent ++ [events])
                    | (Ok, None, q4) =>
                        flushLoop rounds' m (withQueue q4 s3) (sent ++ [events])
                    | (Ok, Some affected, q4) =>
                        match run marshalEvent unmarshalEvent (withQueue q4 s3)
                                  (rd_deleting rd) with
                        | None => None
                        | Some s5 =>
                            flushLoop rounds' m
                              (withQueue (deleteAccount affected (sys_queue s5)) s5)
                              (sent ++ [events])
                        end
                    end
              end
          end
      end
  end.

(** [flush()]; [now] is [time.Now()] at its start. *)
Definition flush (now : Z) (rounds : list Round) (m : statsMiddleware) (s : System)
  : option (statsMiddleware * System * list (list event)) :=
  match m_nextAttempt m with
  | Some next => if now <? next then Some (m, s, []) else flushLoop rounds m s []
  | None => flushLoop rounds m s []
  end.

End Flush.

(** A round in which nothing fails and no caller of [Enqueue] moves. *)
Definition quietRound : Round :=
  mkRound [] false (fun _ => false) false [] (fun _ => false) false false [] 0.

(** The payload of every row decodes. *)
Definition allDecode (unmarshalEvent : str -> option event) (rows : list (Z * str)) : Prop :=
  Forall (fun r => unmarshalEvent (snd r) <> None) rows.

(** The events of the rows whose payload decodes, in the order of the
    rows. *)
Definition eventsOf (unmarshalEvent : str -> option event) (rows : list (Z * str))
  : list event :=
  flat_map (fun r => match unmarshalEvent (snd r) with Some e => [e] | None => [] end) rows.
(** A round in which a caller of [Enqueue] brings the event [e4] while
    [StreamEvents] runs. *)
Definition busyRound : Round :=
  mkRound [] false (fun _ => false) false
          [StReserve (sampleEvent "e4"); StInsert 0 false]
          (fun _ => false) false false [] 0.

(** A buffer with a malformed row between two events. *)
Definition sampleSystem : System :=
  mkSystem (mkQueue (mkBuffer [(1, "e1" : str); (2, []); (3, "e3" : str)] 3) 0 3) [] [].
(** The entry of a batch a row gives, if its payload decodes. *)
Definition decodeRow (unmarshalEvent : str -> option event) (r : Z * str)
  : list queuedEvent :=
  match unmarshalEvent (snd r) with
  | Some e => [mkQueued (fst r) e]
  | None => []
  end.
(** A step in which [RowsAffected] reports the rows of the DELETE. *)
Definition reportsAffected (st : Step) : bool :=
  match st with
  | StDelete _ _ affectedFails => negb affectedFails
  | _ => true
  end.

(** [count] is the rows on file, the callers between the halves of
    [Enqueue] and the deleted rows still to be subtracted; and every
    payload, on file or about to be inserted, decodes. *)
Definition exactCount (unmarshalEvent : str -> option event) (s : System) : Prop :=
  q_count (sys_queue s)
  = Z.of_nat (List.length (sys_inserting s))
    + Z.of_nat (List.length (b_rows (q_db (sys_queue s))))
    + sumZ (sys_accounting s)
  /\ Forall (fun k => 0 <= k) (sys_accounting s)
  /\ allDecode unmarshalEvent (b_rows (q_db (sys_queue s)))
  /\ Forall (fun p => unmarshalEvent p <> None) (sys_inserting s).
(** A codec that reads what it writes: the payload of an event is its id
    after a number sign. *)
Definition tagMarshal (e : event) : option str := Some ("#" ++ EventID e).
Definition tagUnmarshal (p : str) : option event :=
  match p with
  | c :: id => if Ascii.eqb c "#" then Some (sampleEvent id) else None
  | [] => None
  end.
(** ** The response recorder *)

(** A call the inner [http.ResponseWriter] receives. *)
Inductive WriterCall : Type :=
| CallWriteHeader (statusCode : Z)
| CallWrite (b : str)
| CallFlush
| CallHijack
| CallPush (target : str).

(** The inner writer: the calls it has received, oldest first, and
    whether it is an [http.Flusher], an [http.Hijacker], an
    [http.Pusher]. *)
Record Writer : Type := mkWriter {
  w_calls : list WriterCall;
  w_flusher : bool;
  w_hijacker : bool;
  w_pusher : bool
}.

Definition called (c : WriterCall) (w : Writer) : Writer :=
  mkWriter (w_calls w ++ [c]) (w_flusher w) (w_hijacker w) (w_pusher w).

(** [responseRecorder] *)
Record responseRecorder : Type := mkRecorder {
  rr_inner : Writer;
  rr_status : Z;
  rr_wroteHeader : bool
}.

Definition StatusOK : Z := 200.

(** [newResponseRecorder(inner)] *)
Definition newResponseRecorder (inner : Writer) : responseRecorder :=
  mkRecorder inner StatusOK false.

(** [r.WriteHeader(statusCode)] *)
Definition recWriteHeader (statusCode : Z) (r : responseRecorder) : responseRecorder :=
  mkRecorder (called (CallWriteHeader statusCode) (rr_inner r)) statusCode true.

(** [r.Write(b)] *)
Definition recWrite (b : str) (r : responseRecorder) : responseRecorder :=
  let r1 := if negb (rr_wroteHeader r) then recWriteHeader (rr_status r) r else r in
  mkRecorder (called (CallWrite b) (rr_inner r1)) (rr_status r1) (rr_wroteHeader r1).

(** [r.statusCode()] *)
Definition statusCode (r : responseRecorder) : Z := rr_status r.

(** [r.finalize()] *)
Definition finalize (r : responseRecorder) : responseRecorder :=
  if negb (rr_wroteHeader r)
  then mkRecorder (called (CallWriteHeader (rr_status r)) (rr_inner r)) (rr_status r) true
  else r.

(** [r.Flush()], [r.Hijack()] and [r.Push(target, opts)]: handed to the
    inner writer when it has the interface, and nothing otherwise (an
    error is returned to the handler). *)
Definition recFlush (r : responseRecorder) : responseRecorder :=
  if w_flusher (rr_inner r)
  then mkRecorder (called CallFlush (rr_inner r)) (rr_status r) (rr_wroteHeader r)
  else r.

Definition recHijack (r : responseRecorder) : responseRecorder :=
  if w_hijacker (rr_inner r)
  then mkRecorder (called CallHijack (rr_inner r)) (rr_status r) (rr_wroteHeader r)
  else r.

Definition recPush (target : str) (r : responseRecorder) : responseRecorder :=
  if w_pusher (rr_inner r)
  then mkRecorder (called (CallPush target) (rr_inner r)) (rr_status r) (rr_wroteHeader r)
  else r.

(** What the next handler does with the writer it is given. *)
Inductive HandlerCall : Type :=
| DoWriteHeader (statusCode : Z)
| DoWrite (b : str)
| DoFlush
| DoHijack
| DoPush (target : str).

Definition recCall (r : responseRecorder) (c : HandlerCall) : responseRecorder :=
  match c with
  | DoWriteHeader statusCode => recWriteHeader statusCode r
  | DoWrite b => recWrite b r
  | DoFlush => recFlush r
  | DoHijack => recHijack r
  | DoPush target => recPush target r
  end.

(** A writer that has received nothing yet. *)
Definition freshWriter (flusher hijacker pusher : bool) : Writer :=
  mkWriter [] flusher hijacker pusher.

(** [m.next.ServeHTTP(rec, req)] for a handler that makes the calls
    [cs], on a recorder around [inner]. *)
Definition recorded (inner : Writer) (cs : list HandlerCall) : responseRecorder :=
  fold_left recCall cs (newResponseRecorder inner).

Definition isHeaderCall (c : WriterCall) : bool :=
  match c with CallWriteHeader _ => true | _ => false end.

(** The calls the inner writer receives, without the [WriteHeader]s. *)
Definition payloadOf (calls : list WriterCall) : list WriterCall :=
  filter (fun c => negb (isHeaderCall c)) calls.

(** The calls of the handler that are for the inner writer, without the
    [WriteHeader]s: its writes, and the calls of the optional interfaces
    the writer has. *)
Definition passedOn (w : Writer) (cs : list HandlerCall) : list WriterCall :=
  flat_map (fun c => match c with
                     | DoWriteHeader _ => []
                     | DoWrite b => [CallWrite b]
                     | DoFlush => if w_flusher w then [CallFlush] else []
                     | DoHijack => if w_hijacker w then [CallHijack] else []
                     | DoPush target => if w_pusher w then [CallPush target] else []
                     end) cs.

(** The status of the first [WriteHeader] among the calls the writer has
    received.  (What a writer sends at a [Flush] that comes before it is
    the writer's matter, and not modelled.) *)
Fixpoint firstHeader (calls : list WriterCall) : option Z :=
  match calls with
  | [] => None
  | CallWriteHeader statusCode :: _ => Some statusCode
  | _ :: rest => firstHeader rest
  end.

(** No [Write] comes before the first [WriteHeader]. *)
Fixpoint headerBeforeWrite (calls : list WriterCall) : bool :=
  match calls with
  | [] => true
  | CallWriteHeader _ :: _ => true
  | CallWrite _ :: _ => false
  | _ :: rest => headerBeforeWrite rest
  end.

(** The handler calls [WriteHeader] at most once, and not after it has
    written. *)
Fixpoint headerFirst (cs : list HandlerCall) : bool :=
  match cs with
  | [] => true
  | DoWriteHeader _ :: cs' =>
      forallb (fun c => match c with DoWriteHeader _ => false | _ => true end) cs'
  | DoWrite _ :: cs' =>
      forallb (fun c => match c with DoWriteHeader _ => false | _ => true end) cs'
  | _ :: cs' => headerFirst cs'
  end.

(** The status of the handler's first [WriteHeader] when that comes
    before its first [Write], and 200 otherwise; and the status of its
    last [WriteHeader], 200 without one. *)
Fixpoint firstStatus (cs : list HandlerCall) : Z :=
  match cs with
  | [] => StatusOK
  | DoWriteHeader statusCode :: _ => statusCode
  | DoWrite _ :: _ => StatusOK
  | _ :: cs' => firstStatus cs'
  end.

Definition lastStatus (cs : list HandlerCall) : Z :=
  fold_left (fun st c => match c with DoWriteHeader statusCode => statusCode | _ => st end)
            cs StatusOK.

(** A [time.Time] codec for one instant, and an event at that instant. *)
Definition noonText : str := "2024-05-17T12:00:00Z".
Definition noon : GoTime := mkTime 2024 5 17 12 0 0 0.
Definition noonEvent : event :=
  mkEvent "e1" noon "example.com" "/feed.xml" "" "203.0.113.7" "Feedbin feed-id:1 - 2 subscribers"
          "" "application/atom+xml" "" "3f2b8c1e-7a4d-4e9b-8c2f-5d6e7f8a9b0c" false.
(** ** The ingest endpoint *)

(** [strings.TrimRight(s, cutset)] for a cutset of ASCII bytes, on the
    reversed text. *)
Fixpoint trimRightRev (cutset : str) (r : str) : str :=
  match r with
  | [] => []
  | c :: r' => if hasByte c cutset then trimRightRev cutset r' else r
  end.

Definition TrimRight (s cutset : str) : str := rev (trimRightRev cutset (rev s)).

(** [newStreamClient(sidecarURL)]: the endpoint of the client, or [None]
    for the error. *)
Definition newStreamClient (sidecarURL : str) : option str :=
  if isEmpty (TrimSpace sidecarURL) then None
  else Some (TrimRight sidecarURL "/" ++ "/ingest").

(** ** The dashboard's chart scale (package [dashboard]) *)

(** [roundTo(n, m)]; the division of Go truncates toward zero. *)
Definition roundTo (n m : Z) : Z :=
  wrap64 (wrap64 (Z.quot (wrap64 (n - 1)) m + 1) * m).

(** [roundMaxVal(maxVal)] *)
Definition roundMaxVal (maxVal : Z) : Z :=
  if 200000 <=? maxVal then roundTo maxVal 100000
  else if 20000 <=? maxVal then roundTo maxVal 10000
  else if 2000 <=? maxVal then roundTo maxVal 1000
  else if 100 <=? maxVal then roundTo maxVal 100
  else 100.

(** [horizontalStep(maxVal)] *)
Definition horizontalStep (maxVal : Z) : Z :=
  if 600000 <=? maxVal then 200000
  else if 300000 <=? maxVal then 100000
  else if 100000 <=? maxVal then 50000
  else if 60000 <=? maxVal then 20000
  else if 30000 <=? maxVal then 10000
  else if 10000 <=? maxVal then 5000
  else if 6000 <=? maxVal then 2000
  else if 3000 <=? maxVal then 1000
  else if 1000 <=? maxVal then 500
  else if 600 <=? maxVal then 200
  else if 300 <=? maxVal then 100
  else if 100 <=? maxVal then 50
  else if 60 <=? maxVal then 20
  else 10.
(** [strconv.FormatInt(n, 10)]: the sign and the decimal digits. *)
Definition FormatInt (n : Z) : str := appendInt n 0.

(** The loop of [formatNumberWithCommas] from index [i] on, over the rest
    [s] of a text of [len] bytes. *)
Fixpoint insertCommas (len i : nat) (s : str) : str :=
  match s with
  | [] => []
  | c :: s' =>
      (if (0 <? i)%nat && ((len - i) mod 3 =? 0)%nat then [","%char] else [])
      ++ c :: insertCommas len (S i) s'
  end.

(** [formatNumberWithCommas(n)] *)
Definition formatNumberWithCommas (n : Z) : str :=
  let s := FormatInt n in
  if (List.length s <=? 3)%nat then s
  else insertCommas (List.length s) 0 s.
(** A request whose peer is [addr] and whose content type header was
    [ct] on the way back; a cookie state of a returning visitor. *)
Definition peerRequest (addr : str) : Request :=
  mkRequest "example.com" "/atom.xml" "" addr
            [("User-Agent" : str, "Feedbin feed-id:1 - 2 subscribers" : str)] [].
Definition returningVisitor : cookieState :=
  mkCookieState [] "3f2b8c1e-7a4d-4e9b-8c2f-5d6e7f8a9b0c" false false [].

(** Calls of [Enqueue] one after the other, each returning nil. *)
Fixpoint enqueueAll (marshalEvent : event -> option str) (es : list event)
    (q : diskQueue) : option diskQueue :=
  match es with
  | [] => Some q
  | e :: es' =>
      match Enqueue marshalEvent e false q with
      | Some (Ok, q') => enqueueAll marshalEvent es' q'
      | _ => None
      end
  end.

(** The tagged codec reads back the event whose other fields are zero. *)
Definition tagged (ids : list str) : list event := map sampleEvent ids.
(** ** The dashboard's filters (package [dashboard]) *)

(** The keys of [allowedFilters]. *)
Definition allowedFilters : list str :=
  ["host" : str; "path" : str; "query" : str; "ref_domain" : str; "agent" : str;
   "type" : str; "os" : str].

(** [url.Values]: the keys with their values, in the order in which a
    [range] statement happens to visit them. *)
Definition Values := list (str * list str).

(** [extractFilters(params)]: the entries of the map it returns. *)
Definition extractFilters (params : Values) : list (str * str) :=
  flat_map (fun kv : str * list str =>
              let '(key, values) := kv in
              if str_eqb key "from" || str_eqb key "to" then []
              else if negb (existsb (str_eqb key) allowedFilters)
                      || (List.length values =? 0)%nat then []
              else [(key, hd [] values)]) params.

(** [strings.Join(elems, sep)] *)
Fixpoint Join (elems : list str) (sep : str) : str :=
  match elems with
  | [] => []
  | a :: rest =>
      match rest with
      | [] => a
      | _ :: _ => a ++ sep ++ Join rest sep
      end
  end.

(** [buildWhere(fromStr, toStr, filters)]; [filters] holds the entries of
    the map in the order in which the loop visits them. *)
Definition buildWhere (fromStr toStr : str) (filters : list (str * str))
  : str * list str :=
  let clause := ["date >= ?" : str; "date <= ?" : str]
               ++ map (fun kv => fst kv ++ " = ?") filters in
  let args := [fromStr; toStr] ++ map snd filters in
  (Join clause " AND ", args).

(** Query parameters of a request that tries its luck. *)
Definition sampleParams : Values :=
  [("from" : str, ["2024-01-01" : str]); ("os" : str, ["Linux' OR '1'='1" : str]);
   ("1=1; --" : str, ["x" : str]); ("to" : str, ["2024-12-31" : str]);
   ("host" : str, ["example.com" : str; "other" : str]); ("agent" : str, [])].
(** ** The first advertisement of subscribers *)

(** The text after the digits [s] starts with. *)
Fixpoint dropDigits (s : str) : str :=
  match s with
  | c :: s' => if isDigit c then dropDigits s' else s
  | [] => []
  end.

(** The text starts with a run of digits that [" subscriber"] follows,
    in any case. *)
Definition advertHere (s : str) : bool :=
  match s with c :: _ => isDigit c | [] => false end
  && HasPrefix (foldASCII (dropDigits s)) " subscriber".

(** No position inside [pre] starts such a run in [pre ++ rest]. *)
Definition noAdvertBefore (pre rest : str) : bool :=
  forallb (fun i => negb (advertHere (skipn i (pre ++ rest))))
          (seq 0 (List.length pre)).

(** The user agent advertises [n] subscribers: at the first place in it
    where a run of decimal digits is followed by a space and the word
    ["subscriber"] (in any case, as [(?i)] reads it), the run has the
    value [n].  Being the first such place, the run is whole: no digit
    stands before it. *)
Definition advertises (ua : str) (n : Z) : Prop :=
  exists pre ds w post,
    ua = pre ++ ds ++ w ++ post
    /\ ds <> [] /\ forallb isDigit ds = true /\ digitsValue ds = n
    /\ foldASCII w = " subscriber"
    /\ noAdvertBefore pre (ds ++ w ++ post) = true.

(** An event of a reader that reports its subscribers after its version. *)
Definition feedlyEvent : ingestEvent :=
  mkIngestEvent (mkTime 2024 5 17 9 30 0 0) "example.com" "/feed.xml" "" "203.0.113.7"
    "Feedly/1.0 (+http://www.feedly.com/fetcher.html; 12 Subscribers; like FeedFetcher-Google)"
    "" "application/rss+xml" "" "" false.

(** * Checks against the tests and examples of the repository *)

Example ToLower_ex : ToLower "MoZilla/5.0 [K]" = "mozilla/5.0 [k]".
Proof. reflexivity. Qed.

Example TrimSpace_ex : TrimSpace (" " ++ [chr 194; chr 160] ++ "a b " ++ [chr 9]) = "a b".
Proof. reflexivity. Qed.

Example sha256_constants :
  hd 0 SHA256.K = 0x428a2f98 /\ last SHA256.K 0 = 0xc67178f2
  /\ hd 0 SHA256.H0 = 0x6a09e667 /\ last SHA256.H0 0 = 0x5be0cd19
  /\ List.length SHA256.K = 64%nat.
Proof. vm_compute. repeat split. Qed.

Example sha256_abc :
  hexEncode (SHA256.Sum256 "abc")
  = "ba7816bf8f01cfea414140de5dae2223b00361a396177a9cb410ff61f20015ad".
Proof. vm_compute. reflexivity. Qed.

Example sha256_empty :
  hexEncode (SHA256.Sum256 "")
  = "e3b0c44298fc1c149afbf4c8996fb92427ae41e4649b934ca495991b7852b855".
Proof. vm_compute. reflexivity. Qed.

Example sha256_two_blocks :
  hexEncode (SHA256.Sum256 "abcdbcdecdefdefgefghfghighijhijkijkljklmklmnlmnomnopnopq")
  = "248d6a61d20638b8e5c026930c3e6039a33ce45964ff2167f6ecedd419db06c1".
Proof. vm_compute. reflexivity. Qed.

Example hashUUID_ex : hashUUID "abc" = "ba7816bf-8f01-cfea-4141-40de5dae2223".
Proof. vm_compute. reflexivity. Qed.

Example exec_greedy :
  FindStringSubmatch (Seq (Grp 1 (Plus digit)) (lit " Subs")) "ab 12 x 345 subscribers"
  = Some ("345 subs" : str, [(1%nat, "345" : str)]).
Proof. reflexivity. Qed.

Example exec_leftmost_first :
  FindString (Alt (lit "ab") (lit "abc")) "xxabc" = "ab".
Proof. reflexivity. Qed.

Example TestLineAgentFeedFetcher :
  lineAgent "NewsBlur Feed Fetcher - 54 subscribers - https://www.newsblur.com/site/6865328/grumpy-website"
  = "NewsBlur Feed Fetcher".
Proof. vm_compute. reflexivity. Qed.

Example TestLineTypeRSS : lineType "" "" "My RSS Reader" = "feed".
Proof. vm_compute. reflexivity. Qed.

Example TestLineUniqFeedID :
  lineUniq "1.2.3.4" "Feedbin feed-id:1373711 - 192 subscribers" "Feedbin"
  = hashUUID ("Feedbin" ++ "/1373711").
Proof. vm_compute. reflexivity. Qed.

Example lineAgent_chrome :
  lineAgent "Mozilla/5.0 (X11; Linux x86_64) AppleWebKit/537.36 (KHTML, like Gecko) Chrome/120.0.0.0 Safari/537.36"
  = "Chrome".
Proof. vm_compute. reflexivity. Qed.

Example lineAgent_firefox :
  lineAgent "Mozilla/5.0 (X11; Linux x86_64; rv:121.0) Gecko/20100101 Firefox/121.0"
  = "Firefox".
Proof. vm_compute. reflexivity. Qed.

Example lineAgent_googlebot :
  lineAgent "Mozilla/5.0 (compatible; Googlebot/2.1; +http://www.google.com/bot.html)"
  = "Googlebot".
Proof. vm_compute. reflexivity. Qed.

Example lineAgent_feedbin :
  lineAgent "Feedbin feed-id:1373711 - 192 subscribers" = "Feedbin".
Proof. vm_compute. reflexivity. Qed.

Example lineMultiplier_ex :
  lineMultiplier "Feedbin feed-id:1373711 - 192 subscribers" = 192.
Proof. vm_compute. reflexivity. Qed.

(** Scenarios S3 and S4 of the specification. *)
Example scenario_S3 :
  let line := Analyze failingParse
                (lineOfEvent (mkIngestEvent (mkTime 2024 5 17 9 30 0 0) "example.com"
                   "/feed.xml" "" "203.0.113.7"
                   "NewsBlur Feed Fetcher - 54 subscribers - https://www.newsblur.com/site/6865328/grumpy-website"
                   "" "application/rss+xml" "" "" false)) in
  Agent line = "NewsBlur Feed Fetcher" /\ Type_ line = "feed" /\ Mult line = 54
  /\ Uniq line = hashUUID "NewsBlur Feed Fetcher".
Proof. vm_compute. repeat split. Qed.

Example scenario_S4 :
  let line := Analyze failingParse
                (lineOfEvent (mkIngestEvent (mkTime 2024 5 17 9 30 0 0) "example.com"
                   "/feed.xml" "" "203.0.113.7"
                   "Feedbin feed-id:1373711 - 192 subscribers"
                   "" "application/rss+xml" "" "" false)) in
  Agent line = "Feedbin" /\ Mult line = 192 /\ Uniq line = hashUUID "Feedbin/1373711".
Proof. vm_compute. repeat split. Qed.

(** The test [TestCookieSecondVisit] of the middleware. *)
Example TestCookieSecondVisit :
  exists c e,
    ServeHTTP CreateConfig [] [] zeroTime
              (requestWith [("stats_id" : str, "?test-uuid" : str)]) 200 "text/html"
    = Handled (Some c) (Some e)
    /\ c_Name c = "stats_id" /\ c_Value c = "test-uuid".
Proof. do 2 eexists. repeat split. Qed.


(** * Properties *)

(** ** Strings *)

Lemma isEmpty_true (s : str) : isEmpty s = true <-> s = [].
Proof. destruct s; simpl; split; congruence. Qed.

Lemma isEmpty_false (s : str) : isEmpty s = false <-> s <> [].
Proof. destruct s; simpl; split; congruence. Qed.

Lemma str_eqb_eq (a b : str) : str_eqb a b = true <-> a = b.
Proof.
  revert b; induction a as [|x a IH]; intros [|y b]; simpl; split; try congruence.
  - intros H. apply andb_true_iff in H as [H1 H2].
    apply Ascii.eqb_eq in H1. apply IH in H2. congruence.
  - intros H. injection H as -> ->.
    rewrite Ascii.eqb_refl. simpl. now apply IH.
Qed.

Lemma HasPrefix_nil (s : str) : HasPrefix s [] = true.
Proof. destruct s; reflexivity. Qed.

Lemma uuidFromBytes_nonempty (b : list Z) : uuidFromBytes b <> [].
Proof.
  unfold uuidFromBytes. destruct (hexEncode (slice 0 4 b)); simpl; discriminate.
Qed.

Lemma newUUID_nonempty (rnd : list Z) : newUUID rnd <> [].
Proof. apply uuidFromBytes_nonempty. Qed.

Lemma hashUUID_nonempty (input : str) : hashUUID input <> [].
Proof. apply uuidFromBytes_nonempty. Qed.

Lemma lineUniq_nonempty (ip ua agent : str) : lineUniq ip ua agent <> [].
Proof.
  unfold lineUniq.
  repeat match goal with |- context [if ?b then _ else _] => destruct b end;
    apply hashUUID_nonempty.
Qed.

(** ** The cookie handshake *)

(** C5, as stated, fails: a request whose cookie is ["?"] alone gives an
    event with [set_cookie] and [uniq] both empty and [second_visit] set. *)
Lemma bare_question_mark_breaks_invariant :
  exists set e,
    ServeHTTP CreateConfig [] [] zeroTime (requestWith [("stats_id" : str, "?" : str)])
              200 "text/html"
    = Handled set (Some e)
    /\ ev_SetCookie e = [] /\ ev_Uniq e = [] /\ ev_SecondVisit e = true
    /\ eventInvariant e = false.
Proof. eexists. eexists. split; [reflexivity|]. repeat split. Qed.

(** C5, amended.  For every request whose cookie value is not ["?"] alone,
    the event the middleware builds has exactly one of [set_cookie] and
    [uniq] non-empty, and [second_visit] implies [uniq] non-empty. *)
Theorem event_invariant_unless_bare_mark (cfg : Config) (rndCookie rndEvent : list Z)
    (now : GoTime) (req : Request) (status : Z) (contentType : str)
    (set : option HTTPCookie) (e : event) :
  requestCookie (CookieName cfg) req <> Some ("?" : str) ->
  ServeHTTP cfg rndCookie rndEvent now req status contentType = Handled set (Some e) ->
  eventInvariant e = true.
Proof.
  intros Hq H. unfold ServeHTTP in H.
  destruct (isDashboardRequest cfg req); [discriminate|].
  destruct (isLoggable status contentType); [|discriminate].
  injection H as _ <-.
  unfold eventInvariant, eventOf, readCookie.
  cbn [ev_SetCookie ev_Uniq ev_SecondVisit].
  pose proof (newUUID_nonempty rndCookie) as HU.
  generalize dependent (newUUID rndCookie). intros U HU.
  generalize (newUUID rndEvent). intros _.
  destruct (requestCookie (CookieName cfg) req) as [[|c rest]|].
  - cbn. destruct U; [congruence|reflexivity].
  - cbn [isEmpty HasPrefix list_ascii_of_string]. rewrite HasPrefix_nil.
    destruct (Ascii.eqb c "?") eqn:E; [|reflexivity].
    unfold TrimPrefix. cbn [HasPrefix list_ascii_of_string].
    rewrite E, HasPrefix_nil.
    cbn. destruct rest; [|reflexivity].
    apply Ascii.eqb_eq in E. subst c. exfalso. apply Hq. reflexivity.
  - cbn. destruct U; [congruence|reflexivity].
Qed.

Lemma event_invariant_unless_bare_mark_witness :
  exists set e,
    ServeHTTP CreateConfig [1; 2; 3] [4; 5] zeroTime
              (requestWith [("stats_id" : str, "?test-uuid" : str)]) 200 "text/html"
    = Handled set (Some e)
    /\ eventInvariant e = true.
Proof.
  eexists. eexists. split; [reflexivity|].
  eapply (event_invariant_unless_bare_mark CreateConfig [1; 2; 3] [4; 5] zeroTime
            (requestWith [("stats_id" : str, "?test-uuid" : str)]) 200 "text/html").
  - vm_compute. discriminate.
  - reflexivity.
Defined.

(** ** The analyzer *)

Section AnalyzeFacts.

Variable urlParseHost : str -> option str.

Local Ltac fields :=
  cbn [Date Time Host Path Query IP UserAgent Referrer Type_ Agent OS RefDomain
       Mult SetCookie Uniq SecondVisit
       setAgent setType setOS setMult setUniq setRefDomain].

(** What [Analyze] leaves in each field. *)
Lemma Analyze_fields (l : Line) :
  let ag := if isEmpty (Agent l) then lineAgent (UserAgent l) else Agent l in
  Analyze urlParseHost l
  = mkLine (Date l) (Time l) (Host l) (Path l) (Query l) (IP l) (UserAgent l)
      (Referrer l)
      (if isEmpty (Type_ l) then lineType (Path l) ag (UserAgent l) else Type_ l)
      ag
      (if isEmpty (OS l) then lineOS (UserAgent l) else OS l)
      (if isEmpty (RefDomain l) then lineRefDomain urlParseHost (Referrer l)
       else RefDomain l)
      (if Mult l =? 0 then lineMultiplier (UserAgent l) else Mult l)
      (SetCookie l)
      (if isEmpty (Uniq l) then lineUniq (IP l) (UserAgent l) ag else Uniq l)
      (SecondVisit l).
Proof.
  destruct l as [d t h p q ip ua rf ty ag os rd mu sc un sv].
  cbv zeta. unfold Analyze.
  unfold fillAgent; fields; destruct (isEmpty ag); fields;
  unfold fillType; fields; destruct (isEmpty ty); fields;
  unfold fillOS; fields; destruct (isEmpty os); fields;
  unfold fillMult; fields; destruct (mu =? 0); fields;
  unfold fillUniq; fields; destruct (isEmpty un); fields;
  unfold fillRefDomain; fields; destruct (isEmpty rd); fields;
  reflexivity.
Qed.

Lemma Analyze_Agent (l : Line) :
  Agent (Analyze urlParseHost l)
  = if isEmpty (Agent l) then lineAgent (UserAgent l) else Agent l.
Proof. rewrite Analyze_fields. reflexivity. Qed.

Lemma Analyze_Mult (l : Line) :
  Mult (Analyze urlParseHost l)
  = if Mult l =? 0 then lineMultiplier (UserAgent l) else Mult l.
Proof. rewrite Analyze_fields. reflexivity. Qed.

Lemma Analyze_Uniq (l : Line) :
  Uniq (Analyze urlParseHost l)
  = if isEmpty (Uniq l)
    then lineUniq (IP l) (UserAgent l) (Agent (Analyze urlParseHost l))
    else Uniq l.
Proof. rewrite Analyze_Agent, Analyze_fields. reflexivity. Qed.

Lemma Analyze_inputs (l : Line) :
  let a := Analyze urlParseHost l in
  UserAgent a = UserAgent l /\ IP a = IP l /\ SetCookie a = SetCookie l
  /\ SecondVisit a = SecondVisit l /\ Referrer a = Referrer l /\ Path a = Path l.
Proof. cbv zeta. rewrite Analyze_fields. repeat split. Qed.

(** A field that is filled when empty stays as it is when filled again
    with the same value. *)
Lemma fill_again (a v : str) :
  (if isEmpty (if isEmpty a then v else a) then v else if isEmpty a then v else a)
  = if isEmpty a then v else a.
Proof.
  destruct (isEmpty a) eqn:Ea.
  - destruct (isEmpty v) eqn:Ev; [|reflexivity]. now apply isEmpty_true in Ev.
  - rewrite Ea. reflexivity.
Qed.

Lemma fill_again_Z (a v : Z) :
  (if (if a =? 0 then v else a) =? 0 then v else if a =? 0 then v else a)
  = if a =? 0 then v else a.
Proof.
  destruct (a =? 0) eqn:Ea.
  - destruct (v =? 0) eqn:Ev; [|reflexivity]. now apply Z.eqb_eq in Ev.
  - rewrite Ea. reflexivity.
Qed.

End AnalyzeFacts.

(** C8.  The analyzer is idempotent: analysing an analysed line changes no
    field. *)
Theorem Analyze_idempotent (urlParseHost : str -> option str) (x : Line) :
  Analyze urlParseHost (Analyze urlParseHost x) = Analyze urlParseHost x.
Proof.
  rewrite (Analyze_fields urlParseHost (Analyze urlParseHost x)).
  rewrite (Analyze_fields urlParseHost x).
  cbv zeta.
  cbn [Date Time Host Path Query IP UserAgent Referrer Type_ Agent OS RefDomain
       Mult SetCookie Uniq SecondVisit].
  rewrite !fill_again, fill_again_Z.
  reflexivity.
Qed.

(** ** The store *)

(** C1, as stated, fails: for the first visit of scenario S1 the INSERT
    carries a [uniq] that is not NULL (the analyzer has filled it with the
    hash of IP and user agent). *)
Lemma first_visit_row_has_uniq :
  exists r,
    Insert failingParse healthy [] [lineOfEvent firstVisitEvent] = (Ok, [r])
    /\ r_set_cookie r = Some ("3f2b8c1e-7a4d-4e9b-8c2f-5d6e7f8a9b0c" : str)
    /\ r_type r = Some ("browser" : str) /\ r_mult r = 1
    /\ r_uniq r = Some (hashUUID ("203.0.113.7" ++ ie_UserAgent firstVisitEvent))
    /\ r_uniq r <> None.
Proof.
  eexists. split; [vm_compute; reflexivity|].
  repeat split; try (vm_compute; reflexivity). discriminate.
Qed.

(** C1, amended.  For every line of a tentative first visit ([set_cookie]
    non-empty, [uniq] empty, [second_visit] false) [Insert] executes one
    statement, an INSERT whose [set_cookie] is the cookie and whose [uniq]
    is not NULL: it is the hash [lineUniq] computes from IP, user agent and
    agent.  On a database that accepts it the row is appended. *)
Theorem tentative_row_uniq_filled (urlParseHost : str -> option str) (t : Table)
    (line : Line) :
  SetCookie line <> [] -> Uniq line = [] -> SecondVisit line = false ->
  let a := Analyze urlParseHost line in
  lineStmts urlParseHost line = [SInsert (rowOf a)]
  /\ r_set_cookie (rowOf a) = Some (SetCookie line)
  /\ r_uniq (rowOf a) = Some (lineUniq (IP line) (UserAgent line) (Agent a))
  /\ Insert urlParseHost healthy t [line] = (Ok, t ++ [rowOf a]).
Proof.
  intros Hc Hu Hs a.
  destruct (Analyze_inputs urlParseHost line) as (Hua & Hip & Hsc & Hsv & _).
  fold a in Hua, Hip, Hsc, Hsv.
  assert (Hst : lineStmts urlParseHost line = [SInsert (rowOf a)]).
  { unfold lineStmts. fold a. rewrite Hsv, Hs. reflexivity. }
  assert (Hun : Uniq a = lineUniq (IP line) (UserAgent line) (Agent a)).
  { unfold a. rewrite Analyze_Uniq, Hu. reflexivity. }
  repeat split.
  - exact Hst.
  - unfold rowOf. cbn [r_set_cookie]. rewrite Hsc. unfold nullUUID.
    destruct (SetCookie line); [congruence|reflexivity].
  - unfold rowOf. cbn [r_uniq]. rewrite Hun. unfold nullUUID.
    pose proof (lineUniq_nonempty (IP line) (UserAgent line) (Agent a)) as Hne.
    destruct (lineUniq (IP line) (UserAgent line) (Agent a)); [congruence|reflexivity].
  - unfold Insert. cbn [beginFails prepareInsertFails prepareUpdateFails healthy commitFails].
    cbn [flat_map]. rewrite Hst. reflexivity.
Qed.

Lemma tentative_row_uniq_filled_witness :
  let line := lineOfEvent firstVisitEvent in
  let a := Analyze failingParse line in
  lineStmts failingParse line = [SInsert (rowOf a)]
  /\ r_set_cookie (rowOf a) = Some (SetCookie line)
  /\ r_uniq (rowOf a) = Some (lineUniq (IP line) (UserAgent line) (Agent a))
  /\ Insert failingParse healthy [] [line] = (Ok, [] ++ [rowOf a]).
Proof.
  apply (tentative_row_uniq_filled failingParse [] (lineOfEvent firstVisitEvent)).
  - vm_compute. discriminate.
  - reflexivity.
  - reflexivity.
Defined.

(** ** The ingest endpoint *)

(** What the handler does hold to: 405 for another method, 400 when the
    body does not decode, 500 when [Insert] fails (and then the table is
    as before), 202 otherwise; and the type is set to [feed] from the
    content type. *)
Lemma ingestHandler_status (urlParseHost : str -> option str)
    (timeOfText : str -> option GoTime) (db : Database) (t : Table) (body : Body) :
  match ingestLines timeOfText body with
  | None => ingestHandler urlParseHost timeOfText db t "POST" body = (StatusBadRequest, t)
  | Some lines =>
      match Insert urlParseHost db t lines with
      | (Err, _) =>
          ingestHandler urlParseHost timeOfText db t "POST" body
          = (StatusInternalServerError, t)
      | (Ok, t') =>
          ingestHandler urlParseHost timeOfText db t "POST" body = (StatusAccepted, t')
      end
  end.
Proof.
  unfold ingestHandler. cbn [str_eqb negb].
  change (str_eqb "POST" "POST") with true. cbn [negb].
  destruct (ingestLines timeOfText body) as [lines|]; [|reflexivity].
  destruct (Insert urlParseHost db t lines) as [[|] t'] eqn:E; [reflexivity|].
  f_equal. unfold Insert in E.
  repeat match type of E with
         | (if ?b then _ else _) = _ => destruct b; [congruence|]
         end.
  destruct (execAll db t (flat_map (lineStmts urlParseHost) lines)); [|congruence].
  destruct (commitFails db); congruence.
Qed.

Lemma lineOfEvent_type (evt : ingestEvent) :
  Type_ (lineOfEvent evt) = contentTypeToType (ie_ContentType evt)
  /\ Mult (lineOfEvent evt) = 0 /\ Agent (lineOfEvent evt) = [].
Proof. repeat split. Qed.

(** Into an empty slice every element of the array is stored on its own,
    into a zero [ingestEvent]. *)
Lemma storeElems_each (timeOfText : str -> option GoTime) (vs : list JSON) :
  forall evts,
    storeElems timeOfText [] vs = Some evts
    <-> Forall2 (fun v evt => storeEvent timeOfText zeroIngestEvent v = Some evt) vs evts.
Proof.
  induction vs as [|v vs IH]; intros evts; cbn [storeElems hd tl].
  - split.
    + intros [= <-]. constructor.
    + intros H. inversion H. reflexivity.
  - destruct (storeEvent timeOfText zeroIngestEvent v) as [e|] eqn:Ev.
    + destruct (storeElems timeOfText [] vs) as [es|] eqn:Es.
      * split.
        -- intros [= <-]. constructor; [exact Ev|]. now apply IH.
        -- intros H. inversion H as [|? e' ? es' He Hes]; subst.
           apply IH in Hes. congruence.
      * split; [discriminate|].
        intros H. inversion H as [|? e' ? es' He Hes]; subst.
        apply IH in Hes. discriminate.
    + split; [discriminate|].
      intros H. inversion H as [|? e' ? es' He Hes]; subst. congruence.
Qed.

Lemma storeElems_fails (timeOfText : str -> option GoTime) (vs : list JSON) :
  storeElems timeOfText [] vs = None
  <-> Exists (fun v => storeEvent timeOfText zeroIngestEvent v = None) vs.
Proof.
  induction vs as [|v vs IH]; cbn [storeElems hd tl].
  - split; [discriminate|]. intros H. inversion H.
  - destruct (storeEvent timeOfText zeroIngestEvent v) as [e|] eqn:Ev.
    + destruct (storeElems timeOfText [] vs) as [es|] eqn:Es.
      * split; [discriminate|]. intros H. inversion H; subst; [congruence|].
        apply IH in H1. discriminate.
      * split; [|reflexivity]. intros _. right. now apply IH.
    + split; [|reflexivity]. intros _. left. exact Ev.
Qed.

(** C2, as stated, fails: the body [StreamEvents] writes for one event is
    one line holding one event object, which [ingestEvent] reads on its
    own; the handler decodes no event from that body, passes no line to
    [Insert], stores nothing and answers 202. *)
Lemma ndjson_line_is_no_event :
  let timeOfText := fun t : str => if str_eqb t noonText then Some noon else None in
  let textOfTime := fun _ : GoTime => noonText in
  let body := streamBody textOfTime [noonEvent] in
  body = [Some (encodeEvent textOfTime noonEvent)]
  /\ storeEvent timeOfText zeroIngestEvent (encodeEvent textOfTime noonEvent)
     = Some (receivedEvent noonEvent)
  /\ ingestLines timeOfText body = Some []
  /\ ingestHandler failingParse timeOfText healthy [] "POST" body = (StatusAccepted, []).
Proof.
  cbv zeta. split; [reflexivity|]. split; [|split; reflexivity].
  vm_compute. reflexivity.
Qed.

(** C2, amended.  For every body that is the envelope of an
    [ingestRequest], an object with the array of events under [events]:
    the handler decodes each element of the array as one event, on its
    own, and fails when one of them does not decode; the line of an event
    has type [feed] exactly for a content type that starts with
    [application/atom+xml] or [application/rss+xml] (in any case), and no
    type otherwise; the lines of all the events are what [Insert]
    receives, and the answer is 202 when [Insert] succeeds, 500 when it
    fails (the table is as before), 400 when the body does not decode.
    A non-empty NDJSON batch of [StreamEvents] is an envelope without
    events: no line is decoded from it. *)
Theorem envelope_batch_is_ingested (urlParseHost : str -> option str)
    (timeOfText : str -> option GoTime) (db : Database) (t : Table)
    (vs : list JSON) (rest : Body) :
  let body := Some (JObject [("events" : str, JArray vs)]) :: rest in
  (forall lines,
      ingestLines timeOfText body = Some lines
      <-> exists evts,
            Forall2 (fun v evt => storeEvent timeOfText zeroIngestEvent v = Some evt) vs evts
            /\ lines = map lineOfEvent evts)
  /\ (ingestLines timeOfText body = None
      <-> Exists (fun v => storeEvent timeOfText zeroIngestEvent v = None) vs)
  /\ (forall evt,
        Type_ (lineOfEvent evt)
        = if HasPrefix (ToLower (ie_ContentType evt)) "application/atom+xml"
             || HasPrefix (ToLower (ie_ContentType evt)) "application/rss+xml"
          then "feed" : str else [])
  /\ match ingestLines timeOfText body with
     | None =>
         ingestHandler urlParseHost timeOfText db t "POST" body = (StatusBadRequest, t)
     | Some lines =>
         match Insert urlParseHost db t lines with
         | (Ok, t') =>
             ingestHandler urlParseHost timeOfText db t "POST" body = (StatusAccepted, t')
         | (Err, _) =>
             ingestHandler urlParseHost timeOfText db t "POST" body
             = (StatusInternalServerError, t)
         end
     end
  /\ (forall textOfTime e es,
        ingestLines timeOfText (streamBody textOfTime (e :: es)) = Some []).
Proof.
  cbv zeta.
  assert (Hbody : ingestLines timeOfText (Some (JObject [("events" : str, JArray vs)]) :: rest)
                  = option_map (map lineOfEvent) (storeElems timeOfText [] vs)).
  { unfold ingestLines, decodeRequest, unmarshalRequest. cbn [storeRequestMembers].
    change (EqualFold "events" "events") with true. cbv iota.
    destruct (storeElems timeOfText [] vs); reflexivity. }
  split; [|split; [|split; [|split]]].
  - intros lines. rewrite Hbody.
    destruct (storeElems timeOfText [] vs) as [evts|] eqn:E; cbn [option_map].
    + apply storeElems_each in E. split.
      * intros [= <-]. exists evts. auto.
      * intros (evts' & H & ->). f_equal. f_equal.
        clear - E H. revert evts' H. induction E as [|v e vs es Hv Hvs IH]; intros evts' H.
        -- inversion H. reflexivity.
        -- inversion H as [|? e' ? es' He Hes]; subst. f_equal; [congruence|now apply IH].
    + split; [discriminate|]. intros (evts' & H & _).
      apply storeElems_each in H. congruence.
  - rewrite Hbody, <- storeElems_fails.
    destruct (storeElems timeOfText [] vs); cbn [option_map]; split; congruence.
  - intros evt. cbn [lineOfEvent Type_]. unfold contentTypeToType. cbv zeta.
    destruct (HasPrefix (ToLower (ie_ContentType evt)) "application/atom+xml"); reflexivity.
  - pose proof (ingestHandler_status urlParseHost timeOfText db t
                  (Some (JObject [("events" : str, JArray vs)]) :: rest)) as H.
    destruct (ingestLines timeOfText (Some (JObject [("events" : str, JArray vs)]) :: rest))
      as [lines|]; [|exact H].
    destruct (Insert urlParseHost db t lines) as [[|] t']; exact H.
  - intros textOfTime e es. reflexivity.
Qed.

(** ** Host normalisation *)

Lemma code_chr (z : Z) : 0 <= z < 256 -> code (chr z) = z.
Proof.
  intros H. unfold code, chr.
  rewrite N_ascii_embedding by lia. lia.
Qed.

Lemma code_inj (a b : ascii) : code a = code b -> a = b.
Proof.
  unfold code. intros H. apply N2Z.inj in H.
  rewrite <- (ascii_N_embedding a), <- (ascii_N_embedding b). now rewrite H.
Qed.

Lemma code_range (c : ascii) : 0 <= code c < 256.
Proof.
  unfold code. pose proof (N_ascii_bounded c). lia.
Qed.

Lemma lowerByte_code (c : ascii) :
  code (lowerByte c) = if isUpper c then code c + 32 else code c.
Proof.
  unfold lowerByte. destruct (isUpper c) eqn:E; [|reflexivity].
  unfold isUpper, between in E. apply andb_true_iff in E as [E1 E2].
  apply Z.leb_le in E1, E2. apply code_chr. lia.
Qed.

Lemma lowerByte_not_upper (c : ascii) : isUpper (lowerByte c) = false.
Proof.
  unfold isUpper at 1, between. rewrite lowerByte_code.
  destruct (isUpper c) eqn:E.
  - unfold isUpper, between in E. apply andb_true_iff in E as [E1 E2].
    apply Z.leb_le in E1, E2. apply andb_false_iff. right. apply Z.leb_gt. lia.
  - exact E.
Qed.

Lemma lowerByte_not_colon (c : ascii) :
  Ascii.eqb ":" c = false -> Ascii.eqb ":" (lowerByte c) = false.
Proof.
  intros H. apply Ascii.eqb_neq. intros E.
  assert (Hc : code (lowerByte c) = 58) by (rewrite <- E; reflexivity).
  rewrite lowerByte_code in Hc.
  destruct (isUpper c) eqn:U.
  - unfold isUpper, between in U. apply andb_true_iff in U as [U1 U2].
    apply Z.leb_le in U1, U2. lia.
  - apply Ascii.eqb_neq in H. apply H. apply code_inj. rewrite Hc. reflexivity.
Qed.

(** [ToLower] steps over one, two or three bytes at a time. *)
Lemma ToLower_two (c c2 : ascii) :
  ToLower [c; c2]
  = if (code c =? 196) && (code c2 =? 176) then ["i"%char]
    else lowerByte c :: ToLower [c2].
Proof. reflexivity. Qed.

Lemma ToLower_three (c c2 c3 : ascii) (s3 : str) :
  ToLower (c :: c2 :: c3 :: s3)
  = if (code c =? 196) && (code c2 =? 176) then "i"%char :: ToLower (c3 :: s3)
    else if (code c =? 226) && (code c2 =? 132) && (code c3 =? 170)
         then "k"%char :: ToLower s3
         else lowerByte c :: ToLower (c2 :: c3 :: s3).
Proof. reflexivity. Qed.

Lemma ToLower_forallb (P Q : ascii -> bool) :
  P "i"%char = true -> P "k"%char = true ->
  (forall c, Q c = true -> P (lowerByte c) = true) ->
  forall s, forallb Q s = true -> forallb P (ToLower s) = true.
Proof.
  intros Hi Hk Hl s.
  assert (H : forall n s, (List.length s <= n)%nat ->
                          forallb Q s = true -> forallb P (ToLower s) = true).
  { clear s. induction n as [|n IH]; intros s Hn Hq.
    - destruct s; [reflexivity|simpl in Hn; lia].
    - destruct s as [|c [|c2 [|c3 s3]]]; simpl in Hn.
      + reflexivity.
      + simpl in Hq. apply andb_true_iff in Hq as [Hq _]. simpl. now rewrite Hl.
      + simpl in Hq. apply andb_true_iff in Hq as [Hq1 Hq2].
        rewrite ToLower_two.
        destruct ((code c =? 196) && (code c2 =? 176)).
        * simpl. now rewrite Hi.
        * cbn [forallb]. rewrite (Hl c Hq1). cbn [andb].
          apply (IH [c2]); [simpl; lia|exact Hq2].
      + assert (Hq1 : Q c = true /\ forallb Q (c2 :: c3 :: s3) = true)
          by (now apply andb_true_iff).
        destruct Hq1 as [Hq1 Hq2].
        assert (Hq3 : Q c2 = true /\ forallb Q (c3 :: s3) = true)
          by (now apply andb_true_iff).
        destruct Hq3 as [_ Hq3].
        assert (Hq4 : Q c3 = true /\ forallb Q s3 = true)
          by (now apply andb_true_iff).
        destruct Hq4 as [_ Hq4].
        rewrite ToLower_three.
        destruct ((code c =? 196) && (code c2 =? 176)).
        * cbn [forallb]. rewrite Hi. cbn [andb].
          apply IH; [simpl; lia|exact Hq3].
        * destruct ((code c =? 226) && (code c2 =? 132) && (code c3 =? 170)).
          -- cbn [forallb]. rewrite Hk. cbn [andb]. apply IH; [lia|exact Hq4].
          -- cbn [forallb]. rewrite (Hl c Hq1). cbn [andb].
             apply IH; [simpl; lia|exact Hq2]. }
  apply (H (List.length s)). lia.
Qed.

Lemma ToLower_isLowerCase (s : str) : isLowerCase (ToLower s) = true.
Proof.
  apply (ToLower_forallb (fun c => negb (isUpper c)) (fun _ => true)).
  - reflexivity.
  - reflexivity.
  - intros c _. now rewrite lowerByte_not_upper.
  - induction s; simpl; auto.
Qed.

Lemma hasByte_false_forallb (c : ascii) (s : str) :
  hasByte c s = false <-> forallb (fun x => negb (Ascii.eqb c x)) s = true.
Proof.
  unfold hasByte. induction s as [|x s IH]; simpl; [tauto|].
  rewrite orb_false_iff, andb_true_iff, negb_true_iff. tauto.
Qed.

Lemma ToLower_no_colon (s : str) :
  hasByte ":" s = false -> hasByte ":" (ToLower s) = false.
Proof.
  rewrite !hasByte_false_forallb.
  apply ToLower_forallb; try reflexivity.
  intros c H. apply negb_true_iff in H. apply negb_true_iff.
  now apply lowerByte_not_colon.
Qed.

Lemma lastIndexByte_None (c : ascii) (s : str) :
  lastIndexByte c s = None -> hasByte c s = false.
Proof.
  unfold hasByte. induction s as [|x s IH]; simpl; [reflexivity|].
  destruct (lastIndexByte c s); [discriminate|].
  rewrite (Ascii.eqb_sym c x).
  destruct (Ascii.eqb x c); [discriminate|]. intros _. now apply IH.
Qed.

Lemma lastIndexByte_Some_count (c : ascii) (s : str) (i : nat) :
  lastIndexByte c s = Some i -> (1 <= countByte c s)%nat.
Proof.
  unfold countByte. revert i. induction s as [|x s IH]; simpl; [discriminate|].
  intros i. destruct (lastIndexByte c s) as [n|].
  - intros _. specialize (IH n eq_refl). destruct (Ascii.eqb c x); simpl; lia.
  - rewrite (Ascii.eqb_sym c x). destruct (Ascii.eqb x c); [simpl; lia|discriminate].
Qed.

(** A byte before the last occurrence of [c] that is [c] too makes two. *)
Lemma lastIndexByte_Some_before (c : ascii) (s : str) (i : nat) :
  lastIndexByte c s = Some i -> hasByte c (firstn i s) = true ->
  (2 <= countByte c s)%nat.
Proof.
  unfold countByte, hasByte. revert i. induction s as [|x s IH]; simpl; [discriminate|].
  intros i. destruct (lastIndexByte c s) as [n|] eqn:E.
  - intros [= <-]. simpl. intros H. apply orb_true_iff in H as [H|H].
    + rewrite H. simpl. pose proof (lastIndexByte_Some_count c s n E) as Hc.
      unfold countByte in Hc. lia.
    + specialize (IH n eq_refl H). destruct (Ascii.eqb c x); simpl; lia.
  - destruct (Ascii.eqb x c); [|discriminate]. intros [= <-]. simpl. discriminate.
Qed.

(** Without brackets and with at most one colon, [normalizeHost] leaves
    no colon. *)
Lemma normalizeHost_no_colon (host : str) :
  hasByte "[" host = false -> hasByte "]" host = false ->
  (countByte ":" host <= 1)%nat ->
  hasByte ":" (normalizeHost host) = false.
Proof.
  intros Hl Hr Hc. unfold normalizeHost.
  destruct (isEmpty host); [reflexivity|].
  unfold SplitHostPort.
  destruct (lastIndexByte ":" host) as [i|] eqn:Ei.
  - assert (Hb : match host with c :: _ => Ascii.eqb c "[" | [] => false end = false).
    { destruct host as [|c host']; [reflexivity|].
      unfold hasByte in Hl. simpl in Hl. apply orb_false_iff in Hl as [Hl _].
      now rewrite Ascii.eqb_sym. }
    rewrite Hb.
    destruct (hasByte ":" (firstn i host)) eqn:Eh.
    + pose proof (lastIndexByte_Some_before ":" host i Ei Eh). lia.
    + cbn [skipn]. rewrite Hl, Hr. now apply ToLower_no_colon.
  - apply ToLower_no_colon. now apply lastIndexByte_None.
Qed.

Lemma normalizeHost_isLowerCase (host : str) : isLowerCase (normalizeHost host) = true.
Proof.
  unfold normalizeHost. destruct (isEmpty host); [reflexivity|].
  destruct (SplitHostPort host) as [[h p]|]; apply ToLower_isLowerCase.
Qed.

(** C9, as stated, fails: the host of a bracketed IPv6 literal keeps its
    colons when the port is stripped, and without a port the literal is
    kept whole. *)
Lemma ipv6_host_keeps_colons :
  ev_Host (eventOf [] zeroTime
             (mkRequest "[2001:DB8::1]:8080" "/" "" "203.0.113.7:40000" [] [])
             "text/html" (mkCookieState [] "v" false false []))
  = "2001:db8::1"
  /\ hasByte ":" (normalizeHost "[2001:DB8::1]:8080") = true
  /\ normalizeHost "[::1]" = "[::1]".
Proof. repeat split. Qed.

(** C9, amended.  For every request the host stored in the event is
    lower-case; it has no [:] when the Host value has no bracket and at
    most one colon (a name or IPv4 address with an optional port). *)
Theorem event_host_normalized (rnd : list Z) (now : GoTime) (req : Request)
    (contentType : str) (state : cookieState) :
  let host := ev_Host (eventOf rnd now req contentType state) in
  isLowerCase host = true
  /\ (hasByte "[" (req_Host req) = false -> hasByte "]" (req_Host req) = false ->
      (countByte ":" (req_Host req) <= 1)%nat ->
      hasByte ":" host = false).
Proof.
  cbn [eventOf ev_Host]. split.
  - apply normalizeHost_isLowerCase.
  - apply normalizeHost_no_colon.
Qed.

Lemma event_host_normalized_witness :
  let req := mkRequest "Example.COM:8443" "/" "" "203.0.113.7:40000" [] [] in
  let host := ev_Host (eventOf [] zeroTime req "text/html"
                         (mkCookieState [] "v" false false [])) in
  host = "example.com" /\ hasByte ":" host = false.
Proof.
  split; [reflexivity|].
  apply (event_host_normalized [] zeroTime
           (mkRequest "Example.COM:8443" "/" "" "203.0.113.7:40000" [] [])
           "text/html" (mkCookieState [] "v" false false [])).
  - reflexivity.
  - reflexivity.
  - vm_compute. lia.
Defined.

(** ** The disk queue *)

Lemma sumZ_app (a b : list Z) : sumZ (a ++ b) = sumZ a + sumZ b.
Proof. unfold sumZ. induction a; simpl; lia. Qed.

Lemma sumZ_nonneg (l : list Z) : Forall (fun k => 0 <= k) l -> 0 <= sumZ l.
Proof.
  induction 1 as [|k l Hk _ IH]; [unfold sumZ; simpl; lia|].
  change (0 <= k + sumZ l). lia.
Qed.

Lemma removeAt_middle {A} (l1 l2 : list A) (x : A) :
  removeAt (List.length l1) (l1 ++ x :: l2) = l1 ++ l2.
Proof.
  unfold removeAt. induction l1 as [|y l1 IH].
  - reflexivity.
  - change (y :: firstn (List.length l1) (l1 ++ x :: l2)
              ++ skipn (S (List.length l1)) (l1 ++ x :: l2) = y :: l1 ++ l2).
    now rewrite IH.
Qed.

Lemma removeAt_split {A} (l : list A) (i : nat) (x : A) :
  nth_error l i = Some x ->
  exists l1 l2, l = l1 ++ x :: l2 /\ removeAt i l = l1 ++ l2.
Proof.
  intros H. destruct (nth_error_split l i H) as (l1 & l2 & -> & <-).
  exists l1, l2. split; [reflexivity|apply removeAt_middle].
Qed.

Lemma removeAt_length {A} (l : list A) (i : nat) (x : A) :
  nth_error l i = Some x -> S (List.length (removeAt i l)) = List.length l.
Proof.
  intros H. destruct (removeAt_split l i x H) as (l1 & l2 & -> & ->).
  rewrite !length_app. simpl. lia.
Qed.

Lemma removeAt_sum (l : list Z) (i : nat) (x : Z) :
  nth_error l i = Some x -> sumZ (removeAt i l) = sumZ l - x.
Proof.
  intros H. destruct (removeAt_split l i x H) as (l1 & l2 & -> & ->).
  rewrite !sumZ_app. unfold sumZ at 4. simpl. fold (sumZ l2). lia.
Qed.

Lemma In_firstn_In {A} (x : A) (n : nat) (l : list A) : In x (firstn n l) -> In x l.
Proof.
  revert l. induction n as [|n IH]; intros [|y l]; simpl; try tauto.
  intros [H|H]; [now left|right; now apply IH].
Qed.

Lemma In_skipn_In {A} (x : A) (n : nat) (l : list A) : In x (skipn n l) -> In x l.
Proof.
  revert l. induction n as [|n IH]; intros [|y l]; simpl; try tauto.
  intros H. right. now apply IH.
Qed.

Lemma removeAt_Forall {A} (P : A -> Prop) (l : list A) (i : nat) :
  Forall P l -> Forall P (removeAt i l).
Proof.
  rewrite !Forall_forall. intros H x Hx. apply H.
  unfold removeAt in Hx. apply in_app_or in Hx as [Hx|Hx].
  - eapply In_firstn_In; eauto.
  - eapply In_skipn_In; eauto.
Qed.

Lemma filter_length_le {A} (f : A -> bool) (l : list A) :
  (List.length (filter f l) <= List.length l)%nat.
Proof. induction l; simpl; [lia|]. destruct (f a); simpl; lia. Qed.

Section QueueFacts.

Variable marshalEvent : event -> option str.
Variable unmarshalEvent : str -> option event.

Local Abbreviation FetchBatch' := (FetchBatch unmarshalEvent).
Local Abbreviation step' := (step marshalEvent unmarshalEvent).
Local Abbreviation run' := (run marshalEvent unmarshalEvent).

(** What [FetchBatch] leaves of the queue. *)
Lemma FetchBatch_queue (limit : Z) (sf : bool) (df : Z -> bool) (itf : bool)
    (q : diskQueue) :
  exists del,
    snd (FetchBatch' limit sf df itf q)
    = setRows (filter (fun r => negb (memZ (fst r) del)) (b_rows (q_db q))) q
    /\ (forall id, In id del ->
          exists payload, In (id, payload) (b_rows (q_db q))
                          /\ unmarshalEvent payload = None).
Proof.
  assert (Hnil : setRows (filter (fun r => negb (memZ (fst r) []))
                                 (b_rows (q_db q))) q = q).
  { unfold setRows. destruct q as [[rows sq] mx c]. simpl. f_equal. f_equal.
    induction rows as [|r rows IH]; simpl; [reflexivity|]. now rewrite IH. }
  unfold FetchBatch.
  destruct (limit <=? 0).
  { exists []. split; [now rewrite Hnil|intros ? []]. }
  destruct sf.
  { exists []. split; [now rewrite Hnil|intros ? []]. }
  destruct (scanRows unmarshalEvent df (firstn (Z.to_nat limit) (b_rows (q_db q))))
    as [out del] eqn:E.
  exists del. split; [destruct itf; reflexivity|].
  assert (Hsel : forall sel out del,
             scanRows unmarshalEvent df sel = (out, del) ->
             forall id, In id del ->
               exists payload, In (id, payload) sel /\ unmarshalEvent payload = None).
  { clear. induction sel as [|[id0 p0] sel IH]; simpl; intros out del H id Hin.
    - injection H as <- <-. destruct Hin.
    - destruct (scanRows unmarshalEvent df sel) as [o d] eqn:E.
      destruct (unmarshalEvent p0) eqn:U.
      + injection H as <- <-. destruct (IH o d eq_refl id Hin) as (p & Hp & Hu).
        exists p. auto.
      + injection H as <- <-. destruct (df id0).
        * destruct (IH o d eq_refl id Hin) as (p & Hp & Hu). exists p. auto.
        * destruct Hin as [<-|Hin].
          -- exists p0. auto.
          -- destruct (IH o d eq_refl id Hin) as (p & Hp & Hu). exists p. auto. }
  intros id Hin. destruct (Hsel _ _ _ E id Hin) as (p & Hp & Hu).
  exists p. split; [|exact Hu]. eapply In_firstn_In. exact Hp.
Qed.

Local Ltac qfields :=
  cbn [sys_queue sys_inserting sys_accounting q_count q_db q_maxEvents b_rows b_seq
       setCount setRows insertRow fst snd].

Lemma step_accounted (s s' : System) (st : Step) :
  accounted s -> step' s st = Some s' -> accounted s'.
Proof.
  destruct s as [q ins acc]. unfold accounted. qfields.
  intros [Hc Hp] H. destruct st as [evt|i f|limit sf df itf|lastID ef af|i];
    cbn [step sys_queue sys_inserting sys_accounting] in H.
  - destruct (marshalEvent evt).
    + unfold enqueueReserve in H. destruct (enqueueWaits q); [discriminate|].
      injection H as <-. qfields. split; [|exact Hp].
      rewrite length_app. cbn [List.length]. lia.
    + injection H as <-. qfields. auto.
  - destruct (nth_error ins i) as [payload|] eqn:E; [|discriminate].
    injection H as <-. qfields.
    pose proof (removeAt_length ins i payload E) as Hl.
    split; [|exact Hp].
    unfold enqueueInsert. destruct f; qfields.
    + lia.
    + rewrite length_app. cbn [List.length]. lia.
  - injection H as <-. qfields.
    split; [|exact Hp].
    destruct (FetchBatch_queue limit sf df itf q) as (del & -> & _).
    qfields. pose proof (filter_length_le (fun r => negb (memZ (fst r) del))
                                          (b_rows (q_db q))). lia.
  - unfold deleteExec in H.
    destruct (lastID <=? 0).
    { injection H as <-. qfields. auto. }
    destruct ef.
    { injection H as <-. qfields. auto. }
    unfold deleteRows in H.
    pose proof (filter_length_le (fun r => negb (fst r <=? lastID))
                                 (b_rows (q_db q))) as Hf.
    destruct af; injection H as <-; qfields.
    + split; [lia|exact Hp].
    + split.
      * rewrite sumZ_app. unfold sumZ at 2. cbn [fold_right]. lia.
      * apply Forall_app. split; [exact Hp|]. constructor; [lia|constructor].
  - destruct (nth_error acc i) as [k|] eqn:E; [|discriminate].
    injection H as <-. qfields.
    pose proof (removeAt_sum acc i k E) as Hs.
    assert (Hk : 0 <= k).
    { rewrite Forall_forall in Hp. apply Hp. eapply nth_error_In. exact E. }
    split; [|now apply removeAt_Forall].
    unfold deleteAccount. destruct (0 <? k) eqn:Ek; qfields.
    + destruct (q_count q - k <? 0) eqn:En; [apply Z.ltb_lt in En|apply Z.ltb_ge in En];
        lia.
    + apply Z.ltb_ge in Ek. lia.
Qed.

Lemma run_accounted (tr : list Step) (s s' : System) :
  accounted s -> run' s tr = Some s' -> accounted s'.
Proof.
  revert s. induction tr as [|st tr IH]; simpl; intros s Ha H.
  - now injection H as <-.
  - destruct (step' s st) as [s1|] eqn:E; [|discriminate].
    eapply IH; [|exact H]. eapply step_accounted; eauto.
Qed.

Lemma accounted_count (s : System) : accounted s -> 0 <= q_count (sys_queue s).
Proof.
  intros [Hc Hp].
  pose proof (sumZ_nonneg _ Hp). lia.
Qed.

End QueueFacts.

(** C10.  The count of the disk queue is never negative: [newDiskQueue]
    sets it to the number of rows on file, and whatever steps the callers
    of [Enqueue], [FetchBatch] and [DeleteUpTo] take, interleaved at the
    points where the mutex is free, it stays at or above zero.  An
    [Enqueue] whose INSERT fails leaves the count as it found it, and
    [DeleteUpTo] takes the rows affected off the count and stops at zero.
    Each operation, run on its own from a count at or above zero, leaves
    it so. *)
Theorem count_never_negative (marshalEvent : event -> option str)
    (unmarshalEvent : str -> option event) (path : str) (file : Buffer)
    (openFails : bool) (maxEvents : Z) (q : diskQueue) (tr : list Step) (s : System) :
  newDiskQueue path file openFails maxEvents = Some q ->
  run marshalEvent unmarshalEvent (startOf q) tr = Some s ->
  q_count q = Z.of_nat (List.length (b_rows file))
  /\ 0 <= q_count (sys_queue s)
  /\ (forall evt q1 res q2,
        Enqueue marshalEvent evt true q1 = Some (res, q2) ->
        res = Err /\ q_count q2 = q_count q1)
  /\ (forall lastID q1,
        0 < lastID ->
        let affected := fst (deleteRows lastID (q_db q1)) in
        q_count (snd (DeleteUpTo lastID false false q1))
        = if 0 <? affected then Z.max 0 (q_count q1 - affected) else q_count q1)
  /\ (forall q1, 0 <= q_count q1 ->
        (forall evt f res q2,
            Enqueue marshalEvent evt f q1 = Some (res, q2) -> 0 <= q_count q2)
        /\ (forall limit sf df itf,
              0 <= q_count (snd (FetchBatch unmarshalEvent limit sf df itf q1)))
        /\ (forall lastID ef af, 0 <= q_count (snd (DeleteUpTo lastID ef af q1)))).
Proof.
  intros Hnew Hrun.
  unfold newDiskQueue in Hnew.
  destruct (isEmpty path); [discriminate|]. destruct openFails; [discriminate|].
  injection Hnew as <-.
  split; [reflexivity|]. split; [|split; [|split]].
  - apply (accounted_count s).
    eapply (run_accounted marshalEvent unmarshalEvent); [|exact Hrun].
    unfold accounted, startOf. cbn. split; [unfold sumZ; simpl; lia|constructor].
  - intros evt q1 res q2 H.
    unfold Enqueue in H. destruct (marshalEvent evt); [|now injection H as <- <-].
    unfold enqueueReserve in H. destruct (enqueueWaits q1); [discriminate|].
    injection H as <- <-. cbn. split; [reflexivity|lia].
  - intros lastID q1 Hpos. cbv zeta.
    unfold DeleteUpTo, deleteExec.
    destruct (lastID <=? 0) eqn:E; [apply Z.leb_le in E; lia|].
    destruct (deleteRows lastID (q_db q1)) as [k b] eqn:Ed.
    cbn [fst snd]. unfold deleteAccount.
    destruct (0 <? k) eqn:Ek; [|reflexivity].
    cbn. destruct (q_count q1 - k <? 0) eqn:En;
      [apply Z.ltb_lt in En|apply Z.ltb_ge in En]; lia.
  - intros q1 H. split; [|split].
    + intros evt f res q2 H0.
      unfold Enqueue in H0. destruct (marshalEvent evt); [|now injection H0 as _ <-].
      unfold enqueueReserve in H0. destruct (enqueueWaits q1); [discriminate|].
      unfold enqueueInsert in H0. destruct f; injection H0 as _ <-; cbn; lia.
    + intros limit sf df itf.
      destruct (FetchBatch_queue unmarshalEvent limit sf df itf q1) as (del & -> & _).
      exact H.
    + intros lastID ef af. unfold DeleteUpTo, deleteExec.
      destruct (lastID <=? 0); [exact H|]. destruct ef; [exact H|].
      destruct (deleteRows lastID (q_db q1)) as [k b].
      destruct af; [exact H|]. cbn [snd]. unfold deleteAccount.
      destruct (0 <? k); [|exact H].
      cbn. destruct (q_count q1 - k <? 0) eqn:En; [lia|now apply Z.ltb_ge in En].
Qed.

Lemma count_never_negative_witness :
  let file := mkBuffer [(1, "e1" : str); (2, [])] 2 in
  let q := mkQueue file 3 2 in
  let tr := [StReserve (sampleEvent "e3"); StInsert 0 true;
             StReserve (sampleEvent "e4"); StInsert 0 false;
             StFetch 10 false (fun _ => false) false;
             StDelete 3 false false; StAccount 0] in
  let s := mkSystem (mkQueue (mkBuffer [] 3) 3 1) [] [] in
  run sampleMarshal sampleUnmarshal (startOf q) tr = Some s
  /\ q_count q = 2 /\ 0 <= q_count (sys_queue s).
Proof.
  cbv zeta. split; [reflexivity|].
  pose proof (count_never_negative sampleMarshal sampleUnmarshal "/tmp/buffer.sqlite"
                (mkBuffer [(1, "e1" : str); (2, [])] 2) false 3
                (mkQueue (mkBuffer [(1, "e1" : str); (2, [])] 2) 3 2)
                [StReserve (sampleEvent "e3"); StInsert 0 true;
                 StReserve (sampleEvent "e4"); StInsert 0 false;
                 StFetch 10 false (fun _ => false) false;
                 StDelete 3 false false; StAccount 0]
                (mkSystem (mkQueue (mkBuffer [] 3) 3 1) [] [])
                eq_refl eq_refl) as (H1 & H2 & _).
  split; [exact H1|exact H2].
Defined.

(** *** Delivery *)

Lemma idsIncrease_weaken (lo lo' : Z) (rows : list (Z * str)) :
  lo' <= lo -> idsIncrease lo rows -> idsIncrease lo' rows.
Proof.
  destruct rows as [|[id p] rows]; simpl; [tauto|]. intros H [H1 H2]. split; [lia|exact H2].
Qed.

Lemma idsIncrease_filter (f : Z * str -> bool) (lo : Z) (rows : list (Z * str)) :
  idsIncrease lo rows -> idsIncrease lo (filter f rows).
Proof.
  revert lo. induction rows as [|[id p] rows IH]; simpl; [tauto|].
  intros lo [H1 H2]. destruct (f (id, p)); simpl.
  - split; [exact H1|now apply IH].
  - apply (idsIncrease_weaken id); [lia|now apply IH].
Qed.

Lemma idsIncrease_snoc (lo id : Z) (p : str) (rows : list (Z * str)) :
  idsIncrease lo rows -> lo < id -> Forall (fun r => fst r < id) rows ->
  idsIncrease lo (rows ++ [(id, p)]).
Proof.
  revert lo. induction rows as [|[id0 p0] rows IH]; simpl; intros lo H Hlo Hall.
  - tauto.
  - destruct H as [H1 H2]. inversion Hall as [|? ? Hid Hrest]; subst. simpl in Hid.
    split; [exact H1|]. now apply IH.
Qed.

(** Ids that increase along the rows are above the bound and distinct. *)
Lemma idsIncrease_In (lo : Z) (rows : list (Z * str)) (id : Z) (p : str) :
  idsIncrease lo rows -> In (id, p) rows -> lo < id.
Proof.
  revert lo. induction rows as [|[id0 p0] rows IH]; simpl; [tauto|].
  intros lo [H1 H2] [E|Hin].
  - injection E as <- <-. exact H1.
  - specialize (IH id0 H2 Hin). lia.
Qed.

Lemma idsIncrease_unique (lo : Z) (rows : list (Z * str)) (id : Z) (p p' : str) :
  idsIncrease lo rows -> In (id, p) rows -> In (id, p') rows -> p = p'.
Proof.
  revert lo. induction rows as [|[id0 p0] rows IH]; simpl; [tauto|].
  intros lo [H1 H2] [E|Hin] [E'|Hin'].
  - congruence.
  - injection E as <- <-. pose proof (idsIncrease_In _ _ _ _ H2 Hin'). lia.
  - injection E' as <- <-. pose proof (idsIncrease_In _ _ _ _ H2 Hin). lia.
  - eapply IH; eauto.
Qed.

Section DeliveryFacts.

Variable marshalEvent : event -> option str.
Variable unmarshalEvent : str -> option event.

Local Abbreviation FetchBatch' := (FetchBatch unmarshalEvent).
Local Abbreviation step' := (step marshalEvent unmarshalEvent).
Local Abbreviation run' := (run marshalEvent unmarshalEvent).

Local Ltac qfields :=
  cbn [sys_queue sys_inserting sys_accounting q_count q_db q_maxEvents b_rows b_seq
       setCount setRows insertRow fst snd].

(** Every event of a batch is the payload of a selected row. *)
Lemma scanRows_batch (df : Z -> bool) (sel : list (Z * str)) :
  forall e, In e (fst (scanRows unmarshalEvent df sel)) ->
            exists payload, In (qe_ID e, payload) sel
                            /\ unmarshalEvent payload = Some (qe_Event e).
Proof.
  induction sel as [|[id p] sel IH]; simpl; [tauto|].
  destruct (scanRows unmarshalEvent df sel) as [out del].
  destruct (unmarshalEvent p) as [ev|] eqn:U; cbn [fst] in *.
  - intros e [<-|Hin].
    + exists p. cbn. auto.
    + destruct (IH e Hin) as (p' & Hp & Hu). exists p'. auto.
  - intros e Hin. destruct (IH e Hin) as (p' & Hp & Hu). exists p'. auto.
Qed.

Lemma FetchBatch_batch (limit : Z) (sf : bool) (df : Z -> bool) (itf : bool)
    (q q' : diskQueue) (batch : list queuedEvent) :
  FetchBatch' limit sf df itf q = (Some batch, q') ->
  forall e, In e batch ->
            exists payload, In (qe_ID e, payload) (b_rows (q_db q))
                            /\ unmarshalEvent payload = Some (qe_Event e).
Proof.
  unfold FetchBatch. destruct (limit <=? 0).
  { intros [= <- _] e []. }
  destruct sf; [discriminate|].
  pose proof (scanRows_batch df (firstn (Z.to_nat limit) (b_rows (q_db q)))) as Hs.
  destruct (scanRows unmarshalEvent df (firstn (Z.to_nat limit) (b_rows (q_db q))))
    as [out del].
  destruct itf; [discriminate|]. intros [= <- _] e Hin.
  destruct (Hs e Hin) as (p & Hp & Hu). exists p. split; [|exact Hu].
  eapply In_firstn_In. exact Hp.
Qed.

Lemma Forall_filter_keep {A} (P : A -> Prop) (f : A -> bool) (l : list A) :
  Forall P l -> Forall P (filter f l).
Proof.
  induction 1; simpl; [constructor|]. destruct (f x); auto.
Qed.

Lemma delivered_filter (bound : Z) (f : Z * str -> bool) (q : diskQueue) :
  delivered bound q -> delivered bound (setRows (filter f (b_rows (q_db q))) q).
Proof.
  unfold delivered, wfBuffer. qfields. intros ((H0 & Hi & Hs) & Hb & Ha).
  repeat split; auto using idsIncrease_filter, Forall_filter_keep.
Qed.

Lemma step_delivered (bound : Z) (s s' : System) (st : Step) :
  delivered bound (sys_queue s) -> step' s st = Some s' ->
  delivered bound (sys_queue s').
Proof.
  destruct s as [q ins acc]. qfields. intros Hd H.
  destruct st as [evt|i f|limit sf df itf|lastID ef af|i];
    cbn [step sys_queue sys_inserting sys_accounting] in H.
  - destruct (marshalEvent evt); [|now injection H as <-].
    unfold enqueueReserve in H. destruct (enqueueWaits q); [discriminate|].
    injection H as <-. exact Hd.
  - destruct (nth_error ins i) as [payload|]; [|discriminate].
    injection H as <-. qfields. unfold enqueueInsert.
    destruct f; qfields; [exact Hd|].
    destruct Hd as ((H0 & Hi & Hs) & Hb & Ha).
    unfold delivered, wfBuffer. qfields. repeat split.
    + lia.
    + apply idsIncrease_snoc; [exact Hi|lia|].
      eapply Forall_impl; [|exact Hs]. cbn beta. intros; lia.
    + apply Forall_app. split.
      * eapply Forall_impl; [|exact Hs]. cbn beta. intros; lia.
      * constructor; [cbn; lia|constructor].
    + lia.
    + apply Forall_app. split; [exact Ha|]. constructor; [cbn; lia|constructor].
  - injection H as <-. qfields.
    destruct (FetchBatch_queue unmarshalEvent limit sf df itf q) as (del & -> & _).
    now apply delivered_filter.
  - unfold deleteExec in H.
    destruct (lastID <=? 0); [now injection H as <-|].
    destruct ef; [now injection H as <-|].
    unfold deleteRows in H.
    assert (Hq : delivered bound
                   (mkQueue (mkBuffer (filter (fun r => negb (fst r <=? lastID))
                                              (b_rows (q_db q))) (b_seq (q_db q)))
                            (q_maxEvents q) (q_count q))).
    { apply (delivered_filter bound (fun r => negb (fst r <=? lastID)) q Hd). }
    destruct af; injection H as <-; exact Hq.
  - destruct (nth_error acc i) as [k|]; [|discriminate].
    injection H as <-. qfields. unfold deleteAccount.
    destruct (0 <? k); [|exact Hd]. exact Hd.
Qed.

Lemma run_delivered (bound : Z) (tr : list Step) (s s' : System) :
  delivered bound (sys_queue s) -> run' s tr = Some s' ->
  delivered bound (sys_queue s').
Proof.
  revert s. induction tr as [|st tr IH]; simpl; intros s Hd H.
  - now injection H as <-.
  - destruct (step' s st) as [s1|] eqn:E; [|discriminate].
    eapply IH; [|exact H]. eapply step_delivered; eauto.
Qed.

(** After the DELETE of [DeleteUpTo(lastID)] the rows are above
    [lastID], when [lastID] is an id the queue has given out. *)
Lemma deleteExec_delivered (lastID : Z) (af : bool) (q q' : diskQueue) (k : option Z) :
  wfBuffer (q_db q) -> lastID <= b_seq (q_db q) ->
  deleteExec lastID false af q = (Ok, k, q') ->
  delivered lastID q'.
Proof.
  intros Hwf Hb. unfold deleteExec.
  destruct (lastID <=? 0) eqn:E.
  - intros [= _ <-]. apply Z.leb_le in E.
    split; [exact Hwf|]. split; [exact Hb|].
    destruct Hwf as (_ & Hi & _). apply Forall_forall. intros [id p] Hin.
    pose proof (idsIncrease_In _ _ _ _ Hi Hin). cbn. lia.
  - unfold deleteRows.
    assert (Hq : delivered lastID
                   (mkQueue (mkBuffer (filter (fun r => negb (fst r <=? lastID))
                                              (b_rows (q_db q))) (b_seq (q_db q)))
                            (q_maxEvents q) (q_count q))).
    { destruct Hwf as (H0 & Hi & Hs).
      unfold delivered, wfBuffer. qfields. repeat split;
        auto using idsIncrease_filter, Forall_filter_keep.
      apply Forall_forall. intros r Hr. apply filter_In in Hr as [_ Hr].
      apply negb_true_iff, Z.leb_gt in Hr. exact Hr. }
    destruct af; intros [= _ <-]; exact Hq.
Qed.

End DeliveryFacts.

Lemma memZ_In (x : Z) (l : list Z) : memZ x l = true <-> In x l.
Proof.
  unfold memZ. rewrite existsb_exists. split.
  - intros (y & Hy & E). apply Z.eqb_eq in E. now subst.
  - intros H. exists x. split; [exact H|apply Z.eqb_refl].
Qed.

Lemma wfBuffer_delivered (q : diskQueue) : wfBuffer (q_db q) -> delivered 0 q.
Proof.
  intros Hwf. split; [exact Hwf|]. destruct Hwf as (H0 & Hi & _). split; [exact H0|].
  apply Forall_forall. intros [id p] Hin. cbn. eapply idsIncrease_In; eauto.
Qed.

Section ProgramFacts.

Variable marshalEvent : event -> option str.
Variable unmarshalEvent : str -> option event.

Local Abbreviation step' := (step marshalEvent unmarshalEvent).
Local Abbreviation run' := (run marshalEvent unmarshalEvent).
Local Abbreviation fetchedIDs' := (fetchedIDs marshalEvent unmarshalEvent).

(** AUTOINCREMENT never goes back. *)
Lemma step_seq_mono (s s' : System) (st : Step) :
  step' s st = Some s' ->
  b_seq (q_db (sys_queue s)) <= b_seq (q_db (sys_queue s')).
Proof.
  destruct s as [q ins acc]. intros H.
  destruct st as [evt|i f|limit sf df itf|lastID ef af|i];
    cbn [step sys_queue sys_inserting sys_accounting] in H.
  - destruct (marshalEvent evt); [|injection H as <-; cbn; lia].
    unfold enqueueReserve in H. destruct (enqueueWaits q); [discriminate|].
    injection H as <-. cbn. lia.
  - destruct (nth_error ins i) as [payload|]; [|discriminate].
    injection H as <-. unfold enqueueInsert. destruct f; cbn; lia.
  - injection H as <-.
    destruct (FetchBatch_queue unmarshalEvent limit sf df itf q) as (del & E & _).
    cbn [sys_queue]. rewrite E. cbn. lia.
  - unfold deleteExec in H.
    destruct (lastID <=? 0); [injection H as <-; cbn; lia|].
    destruct ef; [injection H as <-; cbn; lia|].
    unfold deleteRows in H. destruct af; injection H as <-; cbn; lia.
  - destruct (nth_error acc i) as [k|]; [|discriminate].
    injection H as <-. unfold deleteAccount. destruct (0 <? k); cbn; lia.
Qed.

Lemma run_seq_mono (tr : list Step) (s s' : System) :
  run' s tr = Some s' ->
  b_seq (q_db (sys_queue s)) <= b_seq (q_db (sys_queue s')).
Proof.
  revert s. induction tr as [|st tr IH]; simpl; intros s H.
  - injection H as <-. lia.
  - destruct (step' s st) as [s1|] eqn:E; [|discriminate].
    pose proof (step_seq_mono _ _ _ E). specialize (IH _ H). lia.
Qed.

(** An id that [FetchBatch] has returned is an id the queue has given
    out. *)
Lemma fetchedIDs_given_out (tr : list Step) (s s' : System) :
  wfBuffer (q_db (sys_queue s)) -> run' s tr = Some s' ->
  forall id, In id (fetchedIDs' s tr) -> id <= b_seq (q_db (sys_queue s')).
Proof.
  revert s. induction tr as [|st tr IH]; cbn [run fetchedIDs]; intros s Hwf H id Hin.
  - destruct Hin.
  - destruct (step' s st) as [s1|] eqn:E; [|discriminate].
    assert (Hwf1 : wfBuffer (q_db (sys_queue s1))).
    { apply (step_delivered marshalEvent unmarshalEvent 0 s s1 st); [|exact E].
      apply wfBuffer_delivered, Hwf. }
    apply in_app_or in Hin as [Hin|Hin]; [|exact (IH s1 Hwf1 H id Hin)].
    destruct st as [evt|i f|limit sf df itf|lastID ef af|i]; try destruct Hin.
    destruct (FetchBatch unmarshalEvent limit sf df itf (sys_queue s)) as [[batch|] q'] eqn:F;
      cbn [fst] in Hin; [|destruct Hin].
    apply in_map_iff in Hin as (e & <- & He).
    destruct (FetchBatch_batch unmarshalEvent _ _ _ _ _ _ _ F e He) as (p & Hp & _).
    destruct Hwf as (_ & _ & Hs). rewrite Forall_forall in Hs.
    pose proof (Hs _ Hp) as Hle. cbn [fst] in Hle.
    pose proof (step_seq_mono _ _ _ E). pose proof (run_seq_mono _ _ _ H). lia.
Qed.

End ProgramFacts.

(** C7.  From a well-formed buffer file and through every sequence of
    steps of the queue's operations, in any interleaving: [FetchBatch]
    removes no row whose payload decodes; and once the DELETE of
    [DeleteUpTo(lastID)] has succeeded, no later [FetchBatch] returns an
    entry with an id at or below [lastID].  [lastID] is, as in [flush]
    (the only caller of [DeleteUpTo]), the id of an entry that a
    [FetchBatch] of the run has returned. *)
Theorem fetch_keeps_delete_advances (marshalEvent : event -> option str)
    (unmarshalEvent : str -> option event) (path : str) (file : Buffer)
    (maxEvents : Z) (q0 : diskQueue) (tr1 : list Step) (s1 : System) :
  wfBuffer file ->
  newDiskQueue path file false maxEvents = Some q0 ->
  run marshalEvent unmarshalEvent (startOf q0) tr1 = Some s1 ->
  (forall limit sf df itf id payload evt,
      In (id, payload) (b_rows (q_db (sys_queue s1))) ->
      unmarshalEvent payload = Some evt ->
      In (id, payload)
         (b_rows (q_db (snd (FetchBatch unmarshalEvent limit sf df itf (sys_queue s1))))))
  /\ (forall lastID af s2 tr2 s3 limit sf df itf batch q',
        In lastID (fetchedIDs marshalEvent unmarshalEvent (startOf q0) tr1) ->
        step marshalEvent unmarshalEvent s1 (StDelete lastID false af) = Some s2 ->
        run marshalEvent unmarshalEvent s2 tr2 = Some s3 ->
        FetchBatch unmarshalEvent limit sf df itf (sys_queue s3) = (Some batch, q') ->
        forall e, In e batch -> lastID < qe_ID e).
Proof.
  intros Hwf Hnew Hrun.
  assert (Hq0 : q_db q0 = file).
  { unfold newDiskQueue in Hnew. destruct (isEmpty path); [discriminate|].
    now injection Hnew as <-. }
  assert (Hd1 : delivered 0 (sys_queue s1)).
  { eapply (run_delivered marshalEvent unmarshalEvent); [|exact Hrun].
    apply wfBuffer_delivered. cbn. now rewrite Hq0. }
  destruct Hd1 as (Hwf1 & _ & _).
  split.
  - intros limit sf df itf id payload evt Hin Hgood.
    destruct (FetchBatch_queue unmarshalEvent limit sf df itf (sys_queue s1))
      as (del & -> & Hdel).
    cbn [setRows q_db b_rows]. apply filter_In. split; [exact Hin|].
    cbn [fst]. apply negb_true_iff. destruct (memZ id del) eqn:E; [|reflexivity].
    apply memZ_In in E. destruct (Hdel id E) as (p' & Hp' & Hbad).
    destruct Hwf1 as (_ & Hi & _).
    pose proof (idsIncrease_unique _ _ _ _ _ Hi Hin Hp'). congruence.
  - intros lastID af s2 tr2 s3 limit sf df itf batch q' Hfetched Hstep Hrun2 Hfetch e He.
    assert (Hb : lastID <= b_seq (q_db (sys_queue s1))).
    { apply (fetchedIDs_given_out marshalEvent unmarshalEvent tr1 (startOf q0) s1);
        [cbn; now rewrite Hq0 | exact Hrun | exact Hfetched]. }
    assert (Hd2 : delivered lastID (sys_queue s2)).
    { cbn [step] in Hstep.
      destruct (deleteExec lastID false af (sys_queue s1)) as [[res k] q2] eqn:Ed.
      assert (res = Ok).
      { unfold deleteExec in Ed. destruct (lastID <=? 0); [now injection Ed as <-|].
        destruct (deleteRows lastID (q_db (sys_queue s1))).
        destruct af; now injection Ed as <-. }
      subst res.
      pose proof (deleteExec_delivered lastID af _ _ _ Hwf1 Hb Ed) as Hq2.
      destruct k; injection Hstep as <-; exact Hq2. }
    pose proof (run_delivered marshalEvent unmarshalEvent lastID tr2 s2 s3 Hd2 Hrun2)
      as (_ & _ & Ha).
    destruct (FetchBatch_batch unmarshalEvent _ _ _ _ _ _ _ Hfetch e He) as (p & Hp & _).
    rewrite Forall_forall in Ha. apply (Ha _ Hp).
Qed.

Lemma fetch_keeps_delete_advances_witness :
  let file := mkBuffer [(1, "e1" : str); (2, []); (3, "e3" : str)] 3 in
  let q0 := mkQueue file 0 3 in
  let tr1 := [StReserve (sampleEvent "e4"); StInsert 0 false;
              StFetch 3 false (fun _ => false) false] in
  let s1 := mkSystem (mkQueue (mkBuffer [(1, "e1" : str); (3, "e3" : str);
                                          (4, "e4" : str)] 4) 0 4) [] [] in
  let s2 := mkSystem (mkQueue (mkBuffer [(4, "e4" : str)] 4) 0 4) [] [2] in
  let s3 := mkSystem (mkQueue (mkBuffer [(4, "e4" : str); (5, "e5" : str)] 5) 0 3) [] [] in
  run sampleMarshal sampleUnmarshal (startOf q0) tr1 = Some s1
  /\ fetchedIDs sampleMarshal sampleUnmarshal (startOf q0) tr1 = [1; 3]
  /\ step sampleMarshal sampleUnmarshal s1 (StDelete 3 false false) = Some s2
  /\ run sampleMarshal sampleUnmarshal s2
         [StReserve (sampleEvent "e5"); StAccount 0; StInsert 0 false] = Some s3
  /\ FetchBatch sampleUnmarshal 10 false (fun _ => false) false (sys_queue s3)
     = (Some [mkQueued 4 (sampleEvent "e4"); mkQueued 5 (sampleEvent "e5")], sys_queue s3)
  /\ 3 < qe_ID (mkQueued 4 (sampleEvent "e4")).
Proof.
  cbv zeta. split; [reflexivity|]. split; [reflexivity|]. split; [reflexivity|].
  split; [reflexivity|]. split; [reflexivity|].
  assert (Hwf : wfBuffer (mkBuffer [(1, "e1" : str); (2, []); (3, "e3" : str)] 3)).
  { unfold wfBuffer. cbn. repeat split; try lia.
    repeat constructor; cbn; lia. }
  pose proof (fetch_keeps_delete_advances sampleMarshal sampleUnmarshal
                "/tmp/buffer.sqlite"
                (mkBuffer [(1, "e1" : str); (2, []); (3, "e3" : str)] 3) 0
                (mkQueue (mkBuffer [(1, "e1" : str); (2, []); (3, "e3" : str)] 3) 0 3)
                [StReserve (sampleEvent "e4"); StInsert 0 false;
                 StFetch 3 false (fun _ => false) false]
                (mkSystem (mkQueue (mkBuffer [(1, "e1" : str); (3, "e3" : str);
                                              (4, "e4" : str)] 4) 0 4) [] [])
                Hwf eq_refl eq_refl) as (_ & H).
  apply (H 3 false
           (mkSystem (mkQueue (mkBuffer [(4, "e4" : str)] 4) 0 4) [] [2])
           [StReserve (sampleEvent "e5"); StAccount 0; StInsert 0 false]
           (mkSystem (mkQueue (mkBuffer [(4, "e4" : str); (5, "e5" : str)] 5) 0 3) [] [])
           10 false (fun _ => false) false
           [mkQueued 4 (sampleEvent "e4"); mkQueued 5 (sampleEvent "e5")]
           (mkQueue (mkBuffer [(4, "e4" : str); (5, "e5" : str)] 5) 0 3)).
  - vm_compute. right. left. reflexivity.
  - reflexivity.
  - reflexivity.
  - reflexivity.
  - left. reflexivity.
Defined.

(** ** The matcher finds only matches *)

Lemma lastOf_app (p : option ascii) (m1 m2 : str) :
  lastOf p (m1 ++ m2) = lastOf (lastOf p m1) m2.
Proof. revert p. induction m1 as [|c m1 IH]; intros p; simpl; auto. Qed.

Lemma consumed_app (m s' : str) : consumed (m ++ s') s' = m.
Proof.
  unfold consumed. rewrite length_app.
  replace (List.length m + List.length s' - List.length s')%nat with (List.length m) by lia.
  rewrite firstn_app, firstn_all, Nat.sub_diag. simpl. apply app_nil_r.
Qed.

Section Soundness.
Context {R : Type}.

Lemma starLoop_sound (a : re) (k : @cont R) :
  @sound R a ->
  forall n prev s cs res,
    starLoop (exec a) k n prev s cs = Some res ->
    exists m s' cs',
      s = m ++ s' /\ derives (Star a) prev m s' cs cs'
      /\ k (lastOf prev m) s' cs' = Some res.
Proof.
  intros Ha. induction n as [|n IH]; intros prev s cs res H; cbn [starLoop] in H.
  - exists [], s, cs. repeat split; [constructor|exact H].
  - match type of H with
    | match ?body with _ => _ end = _ => destruct body as [r1|] eqn:E
    end.
    + injection H as ->.
      apply Ha in E. destruct E as (m1 & s1 & cs1 & -> & D1 & K1).
      destruct (List.length s1 <? List.length (m1 ++ s1))%nat; [|discriminate].
      apply IH in K1. destruct K1 as (m2 & s2 & cs2 & -> & D2 & K2).
      exists (m1 ++ m2), s2, cs2. split; [now rewrite app_assoc|].
      split; [econstructor; eauto|]. now rewrite lastOf_app.
    + exists [], s, cs. repeat split; [constructor|exact H].
Qed.

Lemma exec_sound (r : re) : @sound R r.
Proof.
  induction r as [|f|a IHa b IHb|a IHa b IHb|a IHa|i a IHa| | |];
    intros k prev s cs res H; cbn [exec] in H.
  - exists [], s, cs. repeat split; [constructor|exact H].
  - destruct s as [|c s']; [discriminate|].
    destruct (f c) eqn:E; [|discriminate].
    exists [c], s', cs. repeat split; [now constructor|exact H].
  - apply IHa in H. destruct H as (m1 & s1 & cs1 & -> & D1 & K1).
    apply IHb in K1. destruct K1 as (m2 & s2 & cs2 & -> & D2 & K2).
    exists (m1 ++ m2), s2, cs2. split; [now rewrite app_assoc|].
    split; [econstructor; eauto|]. now rewrite lastOf_app.
  - destruct (exec a k prev s cs) as [r1|] eqn:E.
    + injection H as ->. apply IHa in E. destruct E as (m & s' & cs' & -> & D & K).
      exists m, s', cs'. repeat split; [now apply DAltL|exact K].
    + apply IHb in H. destruct H as (m & s' & cs' & -> & D & K).
      exists m, s', cs'. repeat split; [now apply DAltR|exact K].
  - eapply starLoop_sound; eauto.
  - apply IHa in H. destruct H as (m & s' & cs' & -> & D & K).
    rewrite consumed_app in K.
    exists m, s', ((i, m) :: cs'). repeat split; [now constructor|exact K].
  - destruct prev; [discriminate|].
    exists [], s, cs. repeat split; [constructor|exact H].
  - destruct s; [|discriminate].
    exists [], [], cs. repeat split; [constructor|exact H].
  - destruct (xorb (wordAt prev) (wordAt (hd_error s))) eqn:E; [|discriminate].
    exists [], s, cs. repeat split; [now constructor|exact H].
Qed.
End Soundness.

Lemma matchHere_sound (r : re) (prev : option ascii) (s s' : str) (cs' : caps) :
  matchHere r prev s = Some (s', cs') ->
  exists m, s = m ++ s' /\ derives r prev m s' [] cs' /\ consumed s s' = m.
Proof.
  unfold matchHere. intros E.
  apply exec_sound in E. destruct E as (m & s2 & cs2 & Hs & D & K).
  cbv beta in K. injection K as -> ->.
  exists m. split; [exact Hs|]. split; [exact D|]. rewrite Hs. apply consumed_app.
Qed.

(** What [FindStringSubmatch] returns is a match inside the text. *)
Lemma searchFrom_sound (r : re) (s : str) :
  forall prev m cs,
    searchFrom r prev s = Some (m, cs) ->
    exists pre post p, s = pre ++ m ++ post /\ derives r p m post [] cs.
Proof.
  induction s as [|c s IH]; intros prev m cs H; cbn [searchFrom] in H.
  - destruct (matchHere r prev []) as [[s' cs']|] eqn:E; [|discriminate].
    apply matchHere_sound in E. destruct E as (m0 & Hs & D & Hc).
    rewrite Hc in H. injection H as -> ->.
    exists [], s', prev. split; [exact Hs|exact D].
  - destruct (matchHere r prev (c :: s)) as [[s' cs']|] eqn:E.
    + apply matchHere_sound in E. destruct E as (m0 & Hs & D & Hc).
      rewrite Hc in H. injection H as -> ->.
      exists [], s', prev. split; [exact Hs|exact D].
    + apply IH in H. destruct H as (pre & post & p & -> & D).
      exists (c :: pre), post, p. split; [reflexivity|exact D].
Qed.

Lemma derives_Byte (f : ascii -> bool) p m rest cs cs' :
  derives (Byte f) p m rest cs cs' -> exists c, m = [c] /\ f c = true /\ cs' = cs.
Proof. intros D. inversion D; subst. eauto. Qed.

Lemma derives_Seq (a b : re) p m rest cs cs' :
  derives (Seq a b) p m rest cs cs' ->
  exists m1 m2 cs1,
    m = m1 ++ m2 /\ derives a p m1 (m2 ++ rest) cs cs1
    /\ derives b (lastOf p m1) m2 rest cs1 cs'.
Proof. intros D. inversion D; subst. eauto 7. Qed.

Lemma derives_Alt (a b : re) p m rest cs cs' :
  derives (Alt a b) p m rest cs cs' ->
  derives a p m rest cs cs' \/ derives b p m rest cs cs'.
Proof. intros D. inversion D; subst; auto. Qed.

Lemma derives_Grp (i : nat) (a : re) p m rest cs cs' :
  derives (Grp i a) p m rest cs cs' ->
  exists cs1, derives a p m rest cs cs1 /\ cs' = (i, m) :: cs1.
Proof. intros D. inversion D; subst. eauto. Qed.

Lemma seqs_cons (a b : re) (l : list re) : seqs (a :: b :: l) = Seq a (seqs (b :: l)).
Proof. reflexivity. Qed.

Lemma derives_raw (t : str) :
  forall p m rest cs cs', derives (raw t) p m rest cs cs' -> m = t /\ cs' = cs.
Proof.
  unfold raw. induction t as [|c t IH]; intros p m rest cs cs' D.
  - inversion D; subst. auto.
  - destruct t as [|c2 t].
    + cbn in D. apply derives_Byte in D as (x & -> & E & ->).
      apply Ascii.eqb_eq in E. subst. auto.
    + cbn [map] in D. rewrite seqs_cons in D.
      apply derives_Seq in D as (m1 & m2 & cs1 & -> & D1 & D2).
      apply derives_Byte in D1 as (x & -> & E & ->).
      apply Ascii.eqb_eq in E. subst.
      apply IH in D2 as [-> ->]. auto.
Qed.

Lemma derives_Star_Byte (f : ascii -> bool) p m rest cs cs' :
  derives (Star (Byte f)) p m rest cs cs' -> forallb f m = true /\ cs' = cs.
Proof.
  intros D. remember (Star (Byte f)) as r eqn:Er.
  induction D; try discriminate.
  - auto.
  - injection Er as ->.
    apply derives_Byte in D1 as (c & -> & Hc & ->).
    destruct (IHD2 eq_refl) as [Hm ->]. split; [|reflexivity].
    simpl. now rewrite Hc.
Qed.

Lemma derives_Plus_Byte (f : ascii -> bool) p m rest cs cs' :
  derives (Plus (Byte f)) p m rest cs cs' ->
  m <> [] /\ forallb f m = true /\ cs' = cs.
Proof.
  intros D. apply derives_Seq in D as (m1 & m2 & cs1 & -> & D1 & D2).
  apply derives_Byte in D1 as (c & -> & Hc & ->).
  apply derives_Star_Byte in D2 as [Hm ->].
  split; [discriminate|]. split; [|reflexivity]. simpl. now rewrite Hc.
Qed.

(** [foldASCII] steps over one, two or three bytes at a time. *)
Lemma foldASCII_ascii (x : ascii) (rest : str) :
  code x < 128 -> foldASCII (x :: rest) = lowerByte x :: foldASCII rest.
Proof.
  intros H.
  assert (E1 : (code x =? 197) = false) by (apply Z.eqb_neq; lia).
  assert (E2 : (code x =? 226) = false) by (apply Z.eqb_neq; lia).
  destruct rest as [|c2 [|c3 s3]]; cbn [foldASCII]; rewrite ?E1, ?E2; reflexivity.
Qed.

Lemma foldASCII_long_s (rest : str) :
  foldASCII (utf8_long_s ++ rest) = "s"%char :: foldASCII rest.
Proof. destruct rest as [|c [|c2 s2]]; reflexivity. Qed.

Lemma foldASCII_kelvin (rest : str) :
  foldASCII (utf8_kelvin ++ rest) = "k"%char :: foldASCII rest.
Proof. destruct rest as [|c [|c2 s2]]; reflexivity. Qed.

Lemma lowerByte_ascii (x c : ascii) :
  lowerByte x = lowerByte c -> code c < 128 -> code x < 128.
Proof.
  intros E Hc. assert (H : code (lowerByte x) = code (lowerByte c)) by now rewrite E.
  rewrite !lowerByte_code in H.
  destruct (isUpper x) eqn:Ux; destruct (isUpper c) eqn:Uc;
    unfold isUpper, between in Ux, Uc;
    try (apply andb_true_iff in Ux as [U1 U2]; apply Z.leb_le in U1, U2);
    try (apply andb_true_iff in Uc as [U3 U4]; apply Z.leb_le in U3, U4); lia.
Qed.

(** One literal byte under [(?i)] matches a byte or rune that folds to it. *)
Lemma derives_ci (c : ascii) p m rest cs cs' :
  code c < 128 ->
  derives (ci c) p m rest cs cs' ->
  (forall z, foldASCII (m ++ z) = lowerByte c :: foldASCII z) /\ cs' = cs.
Proof.
  intros Hc D.
  assert (Hone : forall m cs', derives (Byte (fun x => Ascii.eqb (lowerByte x) (lowerByte c)))
                              p m rest cs cs' ->
                 (forall z, foldASCII (m ++ z) = lowerByte c :: foldASCII z) /\ cs' = cs).
  { clear D. intros m0 cs0 D.
    apply derives_Byte in D as (x & -> & E & ->). apply Ascii.eqb_eq in E.
    split; [|reflexivity]. intros z. cbn [app]. rewrite <- E.
    apply foldASCII_ascii. eapply lowerByte_ascii; eauto. }
  unfold ci in D.
  destruct (Ascii.eqb (lowerByte c) "s") eqn:Es.
  - apply Ascii.eqb_eq in Es. apply derives_Alt in D as [D|D]; [now apply Hone|].
    apply derives_raw in D as [-> ->]. split; [|reflexivity].
    intros z. rewrite Es. apply foldASCII_long_s.
  - destruct (Ascii.eqb (lowerByte c) "k") eqn:Ek.
    + apply Ascii.eqb_eq in Ek. apply derives_Alt in D as [D|D]; [now apply Hone|].
      apply derives_raw in D as [-> ->]. split; [|reflexivity].
      intros z. rewrite Ek. apply foldASCII_kelvin.
    + now apply Hone.
Qed.

(** A literal text under [(?i)] matches a text that folds to it and
    captures nothing. *)
Lemma derives_lit (t : str) :
  asciiText t ->
  forall p m rest cs cs',
    derives (lit t) p m rest cs cs' ->
    (forall z, foldASCII (m ++ z) = map lowerByte t ++ foldASCII z) /\ cs' = cs.
Proof.
  unfold lit. induction 1 as [|c t Hc Ht IH]; intros p m rest cs cs' D.
  - inversion D; subst. auto.
  - destruct t as [|c2 t].
    + cbn in D. apply (derives_ci c) in D as [Hm ->]; [|exact Hc]. auto.
    + cbn [map] in D. rewrite seqs_cons in D.
      apply derives_Seq in D as (m1 & m2 & cs1 & -> & D1 & D2).
      apply (derives_ci c) in D1 as [Hm1 ->]; [|exact Hc].
      apply IH in D2 as [Hm2 ->]. split; [|reflexivity].
      intros z. rewrite <- app_assoc, Hm1, Hm2. reflexivity.
Qed.

Lemma digitsValue_nonneg (ds : str) : forallb isDigit ds = true -> 0 <= digitsValue ds.
Proof.
  unfold digitsValue.
  assert (H : forall acc, 0 <= acc -> forallb isDigit ds = true ->
                          0 <= fold_left (fun a c => 10 * a + (code c - 48)) ds acc).
  { induction ds as [|c ds IH]; intros acc Hacc Hd; cbn [fold_left]; [exact Hacc|].
    cbn [forallb] in Hd. apply andb_true_iff in Hd as [Hc Hd].
    apply IH; [|exact Hd].
    unfold isDigit, between in Hc. apply andb_true_iff in Hc as [H1 H2].
    apply Z.leb_le in H1, H2. lia. }
  apply H. lia.
Qed.

(** ** The matcher finds the leftmost feed id *)

Lemma exec_seqs_cons {R} (a : re) (l : list re) (k : @cont R) :
  exec (seqs (a :: l)) k = exec a (exec (seqs l) k).
Proof. destruct l; reflexivity. Qed.

Lemma exec_lit_plain {R} (t : str) :
  plainText t ->
  forall (key z : str) (k : @cont R) prev cs,
    map lowerByte key = map lowerByte t ->
    exec (lit t) k prev (key ++ z) cs = k (lastOf prev key) z cs.
Proof.
  unfold lit. induction 1 as [|c t [Hs Hk] Ht IH]; intros key z k prev cs E.
  - destruct key; [reflexivity|discriminate].
  - destruct key as [|x key]; [discriminate|]. injection E as Ex Ekey.
    cbn [map]. rewrite exec_seqs_cons.
    unfold ci at 1. rewrite Hs, Hk. cbn [exec app].
    rewrite Ex, Ascii.eqb_refl. cbn [lastOf]. now apply IH.
Qed.

Lemma derives_lit_plain (t : str) :
  plainText t ->
  forall p m rest cs cs',
    derives (lit t) p m rest cs cs' -> map lowerByte m = map lowerByte t /\ cs' = cs.
Proof.
  unfold lit. induction 1 as [|c t [Hs Hk] Ht IH]; intros p m rest cs cs' D.
  - inversion D; subst. auto.
  - assert (Hc : forall p m rest cs cs', derives (ci c) p m rest cs cs' ->
                   map lowerByte m = [lowerByte c] /\ cs' = cs).
    { clear - Hs Hk. intros p m rest cs cs' D. unfold ci in D. rewrite Hs, Hk in D.
      apply derives_Byte in D as (x & -> & E & ->). apply Ascii.eqb_eq in E.
      cbn. now rewrite E. }
    destruct t as [|c2 t].
    + cbn in D. now apply Hc in D.
    + cbn [map] in D. rewrite seqs_cons in D.
      apply derives_Seq in D as (m1 & m2 & cs1 & -> & D1 & D2).
      apply Hc in D1 as [E1 ->]. apply IH in D2 as [E2 ->].
      split; [|reflexivity]. rewrite map_app, E1, E2. reflexivity.
Qed.

Lemma HasPrefix_app (t z : str) : HasPrefix (t ++ z) t = true.
Proof.
  induction t as [|c t IH]; simpl; [apply HasPrefix_nil|].
  now rewrite Ascii.eqb_refl.
Qed.

Lemma exec_raw_none {R} (t : str) :
  forall (k : @cont R) prev s cs,
    HasPrefix s t = false -> exec (raw t) k prev s cs = None.
Proof.
  unfold raw. induction t as [|c t IH]; intros k prev s cs H.
  - now rewrite HasPrefix_nil in H.
  - cbn [map]. rewrite exec_seqs_cons. cbn [exec].
    destruct s as [|x s]; [reflexivity|].
    cbn [HasPrefix] in H. rewrite (Ascii.eqb_sym c x).
    destruct (Ascii.eqb x c); [|reflexivity].
    cbn [andb] in H. now apply IH.
Qed.

(** [\w] under [(?i)] does not match where the text does not go on like
    an id, and matches a byte of [\w]. *)
Lemma exec_word_none {R} (k : @cont R) prev post cs :
  continuesWord post = false -> exec word k prev post cs = None.
Proof.
  unfold continuesWord. intros H.
  apply orb_false_iff in H as [H H3]. apply orb_false_iff in H as [H1 H2].
  unfold word, wordOr, icls. cbn [exec].
  rewrite (exec_raw_none utf8_long_s), (exec_raw_none utf8_kelvin) by assumption.
  destruct post as [|c post]; [reflexivity|].
  rewrite H1. reflexivity.
Qed.

Lemma exec_word_byte {R} (k : @cont R) prev c s cs res :
  isWord c = true -> k (Some c) s cs = Some res ->
  exec word k prev (c :: s) cs = Some res.
Proof.
  intros Hc Hk. unfold word, wordOr, icls. cbn [exec].
  rewrite Hc. cbn [orb]. now rewrite Hk.
Qed.

(** The greedy loop over [\w] reads the whole id when what follows always
    succeeds. *)
Lemma starLoop_word_greedy {R} (k : @cont R) (post : str) :
  continuesWord post = false ->
  (forall prev cs, k prev post cs <> None) ->
  forall id n prev cs,
    (List.length (id ++ post) <= n)%nat -> forallb isWord id = true ->
    starLoop (exec word) k n prev (id ++ post) cs = k (lastOf prev id) post cs.
Proof.
  intros Hpost Hk. induction id as [|c id IH]; intros n prev cs Hn Hid.
  - cbn [app lastOf]. destruct n as [|n]; [reflexivity|].
    cbn [starLoop]. now rewrite exec_word_none.
  - destruct n as [|n]; [simpl in Hn; lia|].
    cbn [forallb] in Hid. apply andb_true_iff in Hid as [Hc Hid].
    cbn [starLoop app lastOf].
    assert (Hlt : (List.length (id ++ post) <? List.length (c :: id ++ post))%nat = true).
    { apply Nat.ltb_lt. simpl. lia. }
    destruct (k (lastOf (Some c) id) post cs) as [res|] eqn:Ek.
    2:{ exfalso. eapply Hk. exact Ek. }
    rewrite (exec_word_byte _ prev c (id ++ post) cs res Hc).
    + reflexivity.
    + rewrite Hlt. rewrite IH; [exact Ek| simpl in Hn; lia | exact Hid].
Qed.

(** At an occurrence of [feed-id], [:] or [=], and an id that ends there,
    the pattern matches and captures the id. *)
Lemma reFeedID_here (prev : option ascii) (key : str) (sep : ascii) (id post : str) :
  map lowerByte key = "feed-id" ->
  sep = ":"%char \/ sep = "="%char ->
  id <> [] -> forallb isWord id = true -> continuesWord post = false ->
  matchHere reFeedID prev (key ++ sep :: id ++ post) = Some (post, [(1%nat, id)]).
Proof.
  intros Hkey Hsep Hne Hid Hpost.
  unfold matchHere, reFeedID.
  rewrite exec_seqs_cons.
  rewrite (exec_lit_plain "feed-id").
  2:{ repeat constructor. }
  2:{ exact Hkey. }
  rewrite exec_seqs_cons. cbn [exec].
  assert (Hs : oneOf "=:" sep = true) by (destruct Hsep; subst; reflexivity).
  rewrite Hs. cbn [seqs exec].
  destruct id as [|c id]; [congruence|].
  cbn [forallb] in Hid. apply andb_true_iff in Hid as [Hc Hid].
  unfold Plus. cbn [exec app].
  erewrite exec_word_byte; [reflexivity|exact Hc|].
  rewrite starLoop_word_greedy; try assumption.
  - cbv beta. f_equal. f_equal. f_equal. f_equal.
    change (c :: id ++ post) with ((c :: id) ++ post). apply consumed_app.
  - intros p cs. discriminate.
  - lia.
Qed.

(** Where the folded text does not start with [feed-id], the pattern
    does not match. *)
Lemma reFeedID_not_here (prev : option ascii) (s : str) :
  HasPrefix (map lowerByte s) "feed-id" = false -> matchHere reFeedID prev s = None.
Proof.
  intros H. destruct (matchHere reFeedID prev s) as [[s' cs']|] eqn:E; [|reflexivity].
  exfalso. apply matchHere_sound in E as (m & -> & D & _).
  unfold reFeedID in D. rewrite seqs_cons in D.
  apply derives_Seq in D as (m1 & m2 & cs1 & -> & D1 & _).
  apply derives_lit_plain in D1 as [E1 _].
  2:{ repeat constructor. }
  rewrite <- app_assoc, map_app, E1 in H.
  change (map lowerByte "feed-id") with ("feed-id" : str) in H.
  now rewrite HasPrefix_app in H.
Qed.

Lemma HasPrefix_app_long (a b t : str) :
  (List.length t <= List.length a)%nat -> HasPrefix (a ++ b) t = HasPrefix a t.
Proof.
  revert a. induction t as [|c t IH]; intros a H.
  - now rewrite !HasPrefix_nil.
  - destruct a as [|x a]; [simpl in H; lia|].
    cbn [app HasPrefix]. rewrite IH; [reflexivity|simpl in H; lia].
Qed.

(** The search steps over a prefix in which the pattern matches nowhere. *)
Lemma searchFrom_skip (r : re) (rest : str) :
  forall (pre : str) prev,
    (forall i, (i < List.length pre)%nat ->
               forall p, matchHere r p (skipn i (pre ++ rest)) = None) ->
    searchFrom r prev (pre ++ rest) = searchFrom r (lastOf prev pre) rest.
Proof.
  induction pre as [|c pre IH]; intros prev H; [reflexivity|].
  cbn [app searchFrom lastOf].
  rewrite (H O) by (simpl; lia).
  apply IH. intros i Hi p. apply (H (S i)). simpl. lia.
Qed.

Lemma searchFrom_here (r : re) (prev : option ascii) (s s' : str) (cs : caps) :
  matchHere r prev s = Some (s', cs) ->
  searchFrom r prev s = Some (consumed s s', cs).
Proof. intros H. destruct s; cbn [searchFrom]; now rewrite H. Qed.

(** [extractFeedID] returns the id after the first [feed-id]. *)
Lemma extractFeedID_first (pre key : str) (sep : ascii) (id post : str) :
  map lowerByte key = "feed-id" ->
  sep = ":"%char \/ sep = "="%char ->
  id <> [] -> forallb isWord id = true -> continuesWord post = false ->
  noFeedIDBefore pre key = true ->
  extractFeedID (pre ++ key ++ sep :: id ++ post) = id.
Proof.
  intros Hkey Hsep Hne Hid Hpost Hfirst.
  unfold extractFeedID, FindStringSubmatch.
  rewrite searchFrom_skip.
  - erewrite searchFrom_here by (apply reFeedID_here; assumption).
    reflexivity.
  - intros i Hi p. apply reFeedID_not_here.
    unfold noFeedIDBefore in Hfirst. rewrite forallb_forall in Hfirst.
    specialize (Hfirst i). rewrite in_seq in Hfirst.
    assert (Hf : negb (HasPrefix (map lowerByte (skipn i (pre ++ key))) "feed-id") = true)
      by (apply Hfirst; lia).
    apply negb_true_iff in Hf.
    assert (Hlen : List.length key = 7%nat).
    { rewrite <- (length_map lowerByte key), Hkey. reflexivity. }
    rewrite app_assoc, skipn_app.
    replace (i - List.length (pre ++ key))%nat with O
      by (rewrite length_app; lia).
    cbn [skipn]. rewrite map_app, HasPrefix_app_long; [exact Hf|].
    rewrite length_map, length_skipn, length_app, Hlen.
    cbn [List.length list_ascii_of_string]. lia.
Qed.

(** ** Feed ids *)

(** C6, as stated, fails when no agent can be derived from the user
    agent: [uniq] is then the hash of IP and user agent, not the hash of
    ["/" ++ ID]. *)
Lemma feed_id_without_agent :
  let line := lineOfEvent (mkIngestEvent (mkTime 2024 5 17 9 30 0 0) "example.com"
                "/feed.xml" "" "203.0.113.7" "[reader] feed-id:77" ""
                "application/rss+xml" "" "" false) in
  let a := Analyze failingParse line in
  Uniq line = [] /\ Agent a = []
  /\ extractFeedID (UserAgent line) = "77"
  /\ Uniq a = hashUUID ("203.0.113.7" ++ "[reader] feed-id:77")
  /\ Uniq a <> hashUUID (Agent a ++ "/" ++ "77").
Proof.
  cbv zeta. repeat split; try (vm_compute; reflexivity).
  vm_compute. discriminate.
Qed.

(** C6, amended.  For every line whose [uniq] is empty before analysis,
    whose user agent holds [feed-id:ID] (or [feed-id=ID]), this being the
    first [feed-id] in it and [ID] the whole run of word characters there,
    and for which the agent is not empty after analysis, [Analyze] sets
    [uniq = hashUUID(agent ++ "/" ++ ID)]. *)
Theorem feed_id_uniq (urlParseHost : str -> option str) (line : Line)
    (pre key : str) (sep : ascii) (id post : str) :
  Uniq line = [] ->
  UserAgent line = pre ++ key ++ sep :: id ++ post ->
  map lowerByte key = "feed-id" ->
  sep = ":"%char \/ sep = "="%char ->
  id <> [] -> forallb isWord id = true -> continuesWord post = false ->
  noFeedIDBefore pre key = true ->
  Agent (Analyze urlParseHost line) <> [] ->
  Uniq (Analyze urlParseHost line)
  = hashUUID (Agent (Analyze urlParseHost line) ++ "/" ++ id).
Proof.
  intros Hu Hua Hkey Hsep Hne Hid Hpost Hfirst Hag.
  rewrite Analyze_Uniq, Hu. cbn [isEmpty].
  unfold lineUniq.
  assert (E1 : isEmpty (UserAgent line) = false).
  { rewrite Hua. destruct pre; [|reflexivity]. destruct key; [discriminate|reflexivity]. }
  assert (E2 : isEmpty (Agent (Analyze urlParseHost line)) = false)
    by now apply isEmpty_false.
  rewrite E1, E2. cbn [negb andb].
  rewrite Hua, (extractFeedID_first pre key sep id post) by assumption.
  apply isEmpty_false in Hne. rewrite Hne. reflexivity.
Qed.

Lemma feed_id_uniq_witness :
  let line := lineOfEvent (mkIngestEvent (mkTime 2024 5 17 9 30 0 0) "example.com"
                "/feed.xml" "" "203.0.113.7" "Feedbin feed-id:1373711 - 192 subscribers" ""
                "application/rss+xml" "" "" false) in
  Agent (Analyze failingParse line) = "Feedbin"
  /\ Uniq (Analyze failingParse line)
     = hashUUID (Agent (Analyze failingParse line) ++ "/" ++ "1373711").
Proof.
  cbv zeta. split; [vm_compute; reflexivity|].
  apply (feed_id_uniq failingParse _ "Feedbin " "feed-id" ":"%char "1373711"
           " - 192 subscribers").
  - reflexivity.
  - reflexivity.
  - reflexivity.
  - left. reflexivity.
  - discriminate.
  - reflexivity.
  - reflexivity.
  - vm_compute. reflexivity.
  - vm_compute. discriminate.
Defined.

(** * Further properties of the code *)

(** ** The shape of the identifiers *)

Lemma land_low_range (x : Z) (n : Z) : 0 <= n -> 0 <= Z.land x (Z.ones n) < 2 ^ n.
Proof.
  intros Hn. rewrite Z.land_ones by exact Hn. apply Z.mod_pos_bound.
  apply Z.pow_pos_nonneg; lia.
Qed.

Lemma below_In (n : nat) (y : Z) :
  0 <= y < Z.of_nat n -> In y (map Z.of_nat (seq 0 n)).
Proof.
  intros H. apply in_map_iff. exists (Z.to_nat y). split; [lia|].
  apply in_seq. lia.
Qed.

Lemma forall_below (n : nat) (P : Z -> bool) :
  forallb P (map Z.of_nat (seq 0 n)) = true ->
  forall y, 0 <= y < Z.of_nat n -> P y = true.
Proof.
  intros H y Hy. rewrite forallb_forall in H. apply H, below_In, Hy.
Qed.

Lemma hexDigit_hi (b : Z) : isHexLower (hexDigit (Z.shiftr (Z.land b 255) 4)) = true.
Proof.
  pose proof (land_low_range b 8 ltac:(lia)) as H.
  change (Z.ones 8) with 255 in H. change (2 ^ 8) with 256 in H.
  revert H. generalize (Z.land b 255). intros y Hy.
  apply (forall_below 256 (fun y => isHexLower (hexDigit (Z.shiftr y 4)))); [vm_compute; reflexivity | lia].
Qed.

Lemma hexDigit_lo (b : Z) : isHexLower (hexDigit (Z.land b 15)) = true.
Proof.
  pose proof (land_low_range b 4 ltac:(lia)) as H.
  change (Z.ones 4) with 15 in H. change (2 ^ 4) with 16 in H.
  revert H. generalize (Z.land b 15). intros y Hy.
  apply (forall_below 16 (fun y => isHexLower (hexDigit y))); [vm_compute; reflexivity | lia].
Qed.

(** Sixteen bytes, by name. *)
Lemma sixteen_bytes (b : list Z) :
  (16 <= List.length b)%nat ->
  exists b0 b1 b2 b3 b4 b5 b6 b7 b8 b9 b10 b11 b12 b13 b14 b15 rest,
    b = [b0; b1; b2; b3; b4; b5; b6; b7; b8; b9; b10; b11; b12; b13; b14; b15] ++ rest.
Proof.
  intros H.
  do 16 (destruct b as [|? b]; [cbn [List.length] in H; lia|]).
  repeat eexists.
Qed.

Lemma uuidFromBytes_sixteen b0 b1 b2 b3 b4 b5 b6 b7 b8 b9 b10 b11 b12 b13 b14 b15 rest :
  uuidFromBytes ([b0; b1; b2; b3; b4; b5; b6; b7; b8; b9; b10; b11; b12; b13; b14; b15] ++ rest)
  = hexEncode [b0; b1; b2; b3] ++ "-" ++ hexEncode [b4; b5] ++ "-" ++
    hexEncode [b6; b7] ++ "-" ++ hexEncode [b8; b9] ++ "-" ++
    hexEncode [b10; b11; b12; b13; b14; b15].
Proof.
  unfold uuidFromBytes, slice. cbn [app firstn skipn Nat.sub]. reflexivity.
Qed.

Lemma uuidFromBytes_shape (b : list Z) :
  (16 <= List.length b)%nat -> isUUIDText (uuidFromBytes b) = true.
Proof.
  intros H. destruct (sixteen_bytes b H)
    as (b0&b1&b2&b3&b4&b5&b6&b7&b8&b9&b10&b11&b12&b13&b14&b15&rest&->).
  rewrite uuidFromBytes_sixteen.
  unfold hexEncode. cbn [flat_map app list_ascii_of_string].
  unfold isUUIDText.
  cbn [List.length Nat.eqb andb seq combine forallb fst snd existsb orb].
  rewrite !hexDigit_hi, !hexDigit_lo. reflexivity.
Qed.

Lemma round_length (st : list Z) (kw : Z * Z) :
  List.length (SHA256.round st kw) = List.length st.
Proof.
  unfold SHA256.round.
  do 8 (destruct st as [|? st]; [reflexivity|]).
  destruct st; reflexivity.
Qed.

Lemma fold_round_length (l : list (Z * Z)) (st : list Z) :
  List.length (fold_left SHA256.round l st) = List.length st.
Proof.
  revert st. induction l as [|kw l IH]; intros st; [reflexivity|].
  cbn [fold_left]. rewrite IH. apply round_length.
Qed.

Lemma block_length (h blk : list Z) :
  List.length (SHA256.block h blk) = List.length h.
Proof.
  unfold SHA256.block. rewrite length_map, length_combine, fold_round_length.
  apply Nat.min_id.
Qed.

Lemma fold_block_length (bs : list (list Z)) (h : list Z) :
  List.length (fold_left SHA256.block bs h) = List.length h.
Proof.
  revert h. induction bs as [|b bs IH]; intros h; [reflexivity|].
  cbn [fold_left]. rewrite IH. apply block_length.
Qed.

Lemma Sum256_length (data : str) : List.length (SHA256.Sum256 data) = 32%nat.
Proof.
  unfold SHA256.Sum256.
  set (h := fold_left _ _ _).
  assert (Hh : List.length h = 8%nat) by (unfold h; rewrite fold_block_length; reflexivity).
  clearbody h.
  do 8 (destruct h as [|? h]; [discriminate|]).
  destruct h; [reflexivity | discriminate].
Qed.

Lemma hashUUID_shape (input : str) : isUUIDText (hashUUID input) = true.
Proof.
  unfold hashUUID. apply uuidFromBytes_shape.
  rewrite length_firstn, Sum256_length. reflexivity.
Qed.

Lemma version_nibble (x : Z) :
  hexDigit (Z.shiftr (Z.land (Z.lor (Z.land x 15) 64) 255) 4) = "4"%char.
Proof.
  pose proof (land_low_range x 4 ltac:(lia)) as H.
  change (Z.ones 4) with 15 in H. change (2 ^ 4) with 16 in H.
  revert H. generalize (Z.land x 15). intros y Hy.
  apply Ascii.eqb_eq.
  apply (forall_below 16
    (fun y => Ascii.eqb (hexDigit (Z.shiftr (Z.land (Z.lor y 64) 255) 4)) "4"));
    [vm_compute; reflexivity | lia].
Qed.

Lemma variant_nibble (x : Z) :
  In (hexDigit (Z.shiftr (Z.land (Z.lor (Z.land x 63) 128) 255) 4))
     ["8"; "9"; "a"; "b"]%char.
Proof.
  pose proof (land_low_range x 6 ltac:(lia)) as H.
  change (Z.ones 6) with 63 in H. change (2 ^ 6) with 64 in H.
  revert H. generalize (Z.land x 63). intros y Hy.
  assert (E : existsb (Ascii.eqb (hexDigit (Z.shiftr (Z.land (Z.lor y 128) 255) 4)))
                ["8"; "9"; "a"; "b"]%char = true).
  { apply (forall_below 64
      (fun y => existsb (Ascii.eqb (hexDigit (Z.shiftr (Z.land (Z.lor y 128) 255) 4)))
                  ["8"; "9"; "a"; "b"]%char)); [vm_compute; reflexivity | lia]. }
  apply existsb_exists in E. destruct E as (c & Hc & E).
  apply Ascii.eqb_eq in E. subst c. exact Hc.
Qed.

(** The sixteen bytes [newUUID] formats. *)
Lemma newUUID_bytes (rnd : list Z) :
  exists b0 b1 b2 b3 b4 b5 b6 b7 b8 b9 b10 b11 b12 b13 b14 b15,
    newUUID rnd =
    uuidFromBytes [b0; b1; b2; b3; b4; b5; Z.lor (Z.land b6 15) 64; b7;
                   Z.lor (Z.land b8 63) 128; b9; b10; b11; b12; b13; b14; b15].
Proof.
  unfold newUUID.
  set (b := firstn 16 (rnd ++ repeat 0 16)).
  assert (Hb : List.length b = 16%nat).
  { unfold b. rewrite length_firstn, length_app, repeat_length. lia. }
  clearbody b.
  do 16 (destruct b as [|? b]; [discriminate|]).
  destruct b; [|discriminate].
  cbn [firstn skipn nth app]. repeat eexists.
Qed.

(** X1.  [newUUID] always returns the text of a version 4 UUID, whatever
    [rand.Read] delivered (also nothing at all): 36 bytes in the 8-4-4-4-12
    layout with lower-case hexadecimal digits, the version digit (offset 14)
    is 4 and the variant digit (offset 19) is one of 8, 9, a, b. *)
Theorem newUUID_is_version4 (rnd : list Z) :
  isUUIDText (newUUID rnd) = true
  /\ nth_error (newUUID rnd) 14 = Some "4"%char
  /\ exists c, nth_error (newUUID rnd) 19 = Some c /\ In c ["8"; "9"; "a"; "b"]%char.
Proof.
  destruct (newUUID_bytes rnd)
    as (b0&b1&b2&b3&b4&b5&b6&b7&b8&b9&b10&b11&b12&b13&b14&b15&->).
  split; [apply uuidFromBytes_shape; cbn [List.length]; lia|].
  rewrite (uuidFromBytes_sixteen b0 b1 b2 b3 b4 b5 (Z.lor (Z.land b6 15) 64) b7
             (Z.lor (Z.land b8 63) 128) b9 b10 b11 b12 b13 b14 b15 [] : uuidFromBytes [_; _; _; _; _; _; _; _; _; _; _; _; _; _; _; _] = _).
  unfold hexEncode. cbn [flat_map app list_ascii_of_string nth_error].
  split.
  - rewrite version_nibble. reflexivity.
  - eexists. split; [reflexivity|]. apply variant_nibble.
Qed.

(** ** The cookie a new visitor gets *)

Lemma hexDigit_inj (x y : Z) :
  0 <= x < 16 -> 0 <= y < 16 -> hexDigit x = hexDigit y -> x = y.
Proof.
  intros Hx Hy E.
  pose proof (forall_below 16
    (fun x => forallb (fun y => implb (Ascii.eqb (hexDigit x) (hexDigit y)) (x =? y))
                      (map Z.of_nat (seq 0 16)))
    ltac:(vm_compute; reflexivity) x ltac:(lia)) as H.
  cbv beta in H.
  pose proof (forall_below 16 _ H y ltac:(lia)) as H'.
  cbv beta in H'. rewrite E, Ascii.eqb_refl in H'. cbn [implb] in H'.
  apply Z.eqb_eq, H'.
Qed.

Lemma land_low_nibble (x : Z) : Z.land (Z.land x 255) 15 = Z.land x 15.
Proof. rewrite <- Z.land_assoc. reflexivity. Qed.

Lemma low_byte_split (x : Z) :
  Z.land x 255 = 16 * Z.shiftr (Z.land x 255) 4 + Z.land x 15
  /\ 0 <= Z.shiftr (Z.land x 255) 4 < 16 /\ 0 <= Z.land x 15 < 16.
Proof.
  rewrite <- (land_low_nibble x).
  pose proof (land_low_range x 8 ltac:(lia)) as H.
  change (Z.ones 8) with 255 in H. change (2 ^ 8) with 256 in H.
  revert H. generalize (Z.land x 255). intros y Hy.
  change 15 with (Z.ones 4).
  rewrite Z.land_ones, Z.shiftr_div_pow2 by lia.
  change (2 ^ 4) with 16.
  pose proof (Z.div_mod y 16 ltac:(lia)).
  pose proof (Z.mod_pos_bound y 16 ltac:(lia)).
  repeat split; lia.
Qed.

(** The two digits [hex.Encode] writes for a byte give its low eight bits. *)
Lemma hexEncode_byte_inj (x y : Z) :
  hexEncode [x] = hexEncode [y] <-> Z.land x 255 = Z.land y 255.
Proof.
  unfold hexEncode. cbn [flat_map app].
  destruct (low_byte_split x) as (Ex & Hx1 & Hx2).
  destruct (low_byte_split y) as (Ey & Hy1 & Hy2).
  split.
  - intros E. injection E as E1 E2.
    apply hexDigit_inj in E1; [|assumption..].
    apply hexDigit_inj in E2; [|assumption..].
    lia.
  - intros E.
    assert (E2 : Z.land x 15 = Z.land y 15).
    { rewrite <- (land_low_nibble x), <- (land_low_nibble y), E. reflexivity. }
    rewrite E, E2. reflexivity.
Qed.

Lemma hexEncode_cons (x : Z) (l : list Z) : hexEncode (x :: l) = hexEncode [x] ++ hexEncode l.
Proof. reflexivity. Qed.

Lemma version_byte (x : Z) : Z.land (Z.lor (Z.land x 15) 64) 255 = 64 + Z.land x 15.
Proof.
  pose proof (land_low_range x 4 ltac:(lia)) as H.
  change (Z.ones 4) with 15 in H. change (2 ^ 4) with 16 in H.
  revert H. generalize (Z.land x 15). intros y Hy.
  apply Z.eqb_eq.
  apply (forall_below 16 (fun y => Z.land (Z.lor y 64) 255 =? 64 + y));
    [vm_compute; reflexivity | lia].
Qed.

Lemma variant_byte (x : Z) : Z.land (Z.lor (Z.land x 63) 128) 255 = 128 + Z.land x 63.
Proof.
  pose proof (land_low_range x 6 ltac:(lia)) as H.
  change (Z.ones 6) with 63 in H. change (2 ^ 6) with 64 in H.
  revert H. generalize (Z.land x 63). intros y Hy.
  apply Z.eqb_eq.
  apply (forall_below 64 (fun y => Z.land (Z.lor y 128) 255 =? 128 + y));
    [vm_compute; reflexivity | lia].
Qed.

Lemma land_low_six (x : Z) : Z.land (Z.land x 255) 63 = Z.land x 63.
Proof. rewrite <- Z.land_assoc. reflexivity. Qed.

(** Two draws give the same UUID exactly when they agree on the bits
    [newUUID] keeps. *)
Lemma newUUID_eq_iff (rnd rnd' : list Z) :
  newUUID rnd = newUUID rnd' <-> drawnBits rnd = drawnBits rnd'.
Proof.
  unfold newUUID, drawnBits.
  set (b := firstn 16 (rnd ++ repeat 0 16)).
  set (c := firstn 16 (rnd' ++ repeat 0 16)).
  assert (Hb : List.length b = 16%nat).
  { unfold b. rewrite length_firstn, length_app, repeat_length. lia. }
  assert (Hc : List.length c = 16%nat).
  { unfold c. rewrite length_firstn, length_app, repeat_length. lia. }
  clearbody b c.
  do 16 (destruct b as [|? b]; [discriminate|]). destruct b; [|discriminate].
  do 16 (destruct c as [|? c]; [discriminate|]). destruct c; [|discriminate].
  cbn [firstn skipn nth app map].
  rewrite !land_low_nibble, !land_low_six.
  match goal with |- uuidFromBytes ?l = uuidFromBytes ?l' <-> _ =>
    change l with (l ++ []); change l' with (l' ++ []) end.
  cbn [app]. 
  rewrite !(fun b0 b1 b2 b3 b4 b5 b6 b7 b8 b9 b10 b11 b12 b13 b14 b15 =>
    uuidFromBytes_sixteen b0 b1 b2 b3 b4 b5 b6 b7 b8 b9 b10 b11 b12 b13 b14 b15 []
    : uuidFromBytes [_; _; _; _; _; _; _; _; _; _; _; _; _; _; _; _] = _).
  split.
  - intros E.
    unfold hexEncode in E. cbn [flat_map app list_ascii_of_string] in E.
    injection E as E0 E0' E1 E1' E2 E2' E3 E3' E4 E4' E5 E5' E6 E6' E7 E7'
                   E8 E8' E9 E9' E10 E10' E11 E11' E12 E12' E13 E13' E14 E14' E15 E15'.
    repeat match goal with
    | H : hexDigit (Z.shiftr (Z.land ?x 255) 4) = hexDigit (Z.shiftr (Z.land ?y 255) 4),
      H' : hexDigit (Z.land ?x 15) = hexDigit (Z.land ?y 15) |- _ =>
        assert (Z.land x 255 = Z.land y 255)
          by (apply hexEncode_byte_inj; unfold hexEncode; cbn [flat_map app]; congruence);
        clear H H'
    end.
    rewrite !version_byte in *. rewrite !variant_byte in *.
    repeat (apply (f_equal2 (@cons Z)); [lia|]). reflexivity.
  - intros E. injection E as E0 E1 E2 E3 E4 E5 E6 E7 E8 E9 E10 E11 E12 E13 E14 E15.
    assert (H6 : forall x y : Z, Z.land x 15 = Z.land y 15 ->
              hexEncode [Z.lor (Z.land x 15) 64] = hexEncode [Z.lor (Z.land y 15) 64]).
    { intros x y H. rewrite H. reflexivity. }
    assert (H8 : forall x y : Z, Z.land x 63 = Z.land y 63 ->
              hexEncode [Z.lor (Z.land x 63) 128] = hexEncode [Z.lor (Z.land y 63) 128]).
    { intros x y H. rewrite H. reflexivity. }
    repeat match goal with
    | H : Z.land ?x 255 = Z.land ?y 255 |- _ =>
        apply hexEncode_byte_inj in H
    end.
    apply H6 in E6. apply H8 in E8.
    repeat match goal with |- context [hexEncode (?x :: ?y :: ?l)] =>
      rewrite (hexEncode_cons x (y :: l)) end.
    congruence.
Qed.

(** C4.  For every request, [readCookie] and [maybeSetCookie] are the
    three-case machine of the specification: no cookie or an empty value
    mints [U], answers with the cookie ["?" ++ U] and records
    [set_cookie = U]; a value ["?" ++ U] answers with the cookie [U] and
    records [uniq = U] and [second_visit]; any other value [V] sets no
    cookie and records [uniq = V].  The event built for the request
    carries the same three fields.  The minted [U] is the text of a
    version 4 UUID (36 bytes, 8-4-4-4-12, version digit 4, variant digit
    8, 9, a or b), and it is fresh as far as the draw of [rand.Read] is:
    another draw gives the same [U] exactly when it agrees on the 122 bits
    [newUUID] keeps. *)
Theorem cookie_three_cases (cfg : Config) (rnd rndEvent : list Z) (now : GoTime)
    (req : Request) (contentType : str) :
  let state := readCookie cfg rnd req in
  let evt := eventOf rndEvent now req contentType state in
  let U := newUUID rnd in
  (option_map c_Value (maybeSetCookie cfg state),
   cs_setCookie state, cs_uniq state, cs_secondVisit state)
  = cookieMachine (requestCookie (CookieName cfg) req) U
  /\ (ev_SetCookie evt, ev_Uniq evt, ev_SecondVisit evt)
     = (cs_setCookie state, cs_uniq state, cs_secondVisit state)
  /\ (isUUIDText U = true
      /\ nth_error U 14 = Some "4"%char
      /\ exists c, nth_error U 19 = Some c /\ In c ["8"; "9"; "a"; "b"]%char)
  /\ (forall rnd' : list Z, newUUID rnd' = U <-> drawnBits rnd' = drawnBits rnd).
Proof.
  cbv zeta. split; [|split; [reflexivity|split]].
  - unfold readCookie, cookieMachine.
    destruct (requestCookie (CookieName cfg) req) as [[|c rest]|]; try reflexivity.
    cbn [isEmpty HasPrefix list_ascii_of_string].
    destruct (Ascii.eqb c "?") eqn:E; [|reflexivity].
    rewrite HasPrefix_nil.
    unfold TrimPrefix. cbn [HasPrefix list_ascii_of_string].
    rewrite E, HasPrefix_nil. reflexivity.
  - destruct (newUUID_bytes rnd)
      as (b0&b1&b2&b3&b4&b5&b6&b7&b8&b9&b10&b11&b12&b13&b14&b15&->).
    split; [apply uuidFromBytes_shape; cbn [List.length]; lia|].
    rewrite (uuidFromBytes_sixteen b0 b1 b2 b3 b4 b5 (Z.lor (Z.land b6 15) 64) b7
               (Z.lor (Z.land b8 63) 128) b9 b10 b11 b12 b13 b14 b15 []
             : uuidFromBytes [_; _; _; _; _; _; _; _; _; _; _; _; _; _; _; _] = _).
    unfold hexEncode. cbn [flat_map app list_ascii_of_string nth_error].
    split.
    + rewrite version_nibble. reflexivity.
    + eexists. split; [reflexivity|]. apply variant_nibble.
  - intros rnd'. apply newUUID_eq_iff.
Qed.

(** Two draws that differ in one kept bit give different cookies; two that
    differ only in the bits [newUUID] overwrites give the same. *)
Example newUUID_draws :
  newUUID [1; 2; 3; 4; 5; 6; 7; 8; 9; 10; 11; 12; 13; 14; 15; 16]
    = "01020304-0506-4708-890a-0b0c0d0e0f10"
  /\ newUUID [1; 2; 3; 4; 5; 6; 7; 8; 9; 10; 11; 12; 13; 14; 15; 17]
    = "01020304-0506-4708-890a-0b0c0d0e0f11"
  /\ newUUID [1; 2; 3; 4; 5; 6; 247; 8; 201; 10; 11; 12; 13; 14; 15; 16]
    = "01020304-0506-4708-890a-0b0c0d0e0f10".
Proof. repeat split; vm_compute; reflexivity. Qed.

Lemma lineUniq_shape (ip ua agent : str) : isUUIDText (lineUniq ip ua agent) = true.
Proof.
  unfold lineUniq.
  repeat match goal with |- context [if ?c then _ else _] => destruct c end;
    apply hashUUID_shape.
Qed.

(** X2.  A line that reaches [Analyze] without [uniq] leaves it with a
    [uniq] in the text form of a UUID (36 bytes, 8-4-4-4-12, lower-case
    hexadecimal): the first 16 bytes of the SHA-256 sum, formatted by
    [uuidFromBytes]. *)
Theorem analyzed_uniq_is_uuid_text (urlParseHost : str -> option str) (l : Line) :
  Uniq l = [] -> isUUIDText (Uniq (Analyze urlParseHost l)) = true.
Proof.
  intros H. rewrite Analyze_Uniq, H. cbn [isEmpty]. apply lineUniq_shape.
Qed.

Lemma analyzed_uniq_is_uuid_text_witness :
  Uniq feedFetcherLine = []
  /\ isUUIDText (Uniq (Analyze failingParse feedFetcherLine)) = true.
Proof.
  split; [reflexivity|].
  apply (analyzed_uniq_is_uuid_text failingParse feedFetcherLine). reflexivity.
Defined.

Lemma lineType_enum (path agent ua : str) : In (lineType path agent ua) agent_type_t.
Proof.
  unfold lineType. cbv zeta.
  repeat match goal with |- context [if ?c then _ else _] => destruct c end;
    cbn; auto.
Qed.

Lemma lineOS_enum (ua : str) : lineOS ua = [] \/ In (lineOS ua) agent_os_t.
Proof.
  unfold lineOS. cbv zeta.
  repeat match goal with |- context [if ?c then _ else _] => destruct c end;
    cbn; auto 10.
Qed.

Lemma contentTypeToType_cases (ct : str) :
  contentTypeToType ct = [] \/ contentTypeToType ct = ("feed" : str).
Proof.
  unfold contentTypeToType. cbv zeta.
  repeat match goal with |- context [if ?c then _ else _] => destruct c end; auto.
Qed.

(** X3.  Every row the ingest handler builds fits the enumeration types of
    the schema: its [type] is not NULL and one of [feed], [bot],
    [browser]; its [os] is NULL or one of the five systems of
    [agent_os_t]. *)
Theorem ingest_row_fits_enums (urlParseHost : str -> option str) (evt : ingestEvent) :
  let r := rowOf (Analyze urlParseHost (lineOfEvent evt)) in
  (exists ty, r_type r = Some ty /\ In ty agent_type_t)
  /\ (r_os r = None \/ exists os, r_os r = Some os /\ In os agent_os_t).
Proof.
  cbv zeta. rewrite Analyze_fields. unfold rowOf, lineOfEvent.
  cbn [Date Time Host Path Query IP UserAgent Referrer Type_ Agent OS RefDomain
       Mult SetCookie Uniq SecondVisit r_type r_os isEmpty].
  split.
  - destruct (contentTypeToType_cases (ie_ContentType evt)) as [E|E]; rewrite E.
    + cbn [isEmpty].
      pose proof (lineType_enum (ie_Path evt) (lineAgent (ie_UserAgent evt))
                    (ie_UserAgent evt)) as Hin.
      destruct (lineType _ _ _) as [|c ty] eqn:Ety.
      * cbn in Hin. intuition discriminate.
      * exists (c :: ty). split; [reflexivity | exact Hin].
    + exists ("feed" : str). split; [reflexivity | cbn; auto].
  - destruct (lineOS_enum (ie_UserAgent evt)) as [E|Hin].
    + left. rewrite E. reflexivity.
    + destruct (lineOS _) as [|c os] eqn:Eos.
      * left. reflexivity.
      * right. exists (c :: os). split; [reflexivity | exact Hin].
Qed.

(** ** What a transaction of [Insert] does to the table *)

Lemma opt_eqb_eq (a : option str) (b : str) : opt_eqb a b = true -> a = Some b.
Proof.
  destruct a as [x|]; cbn [opt_eqb]; [|discriminate].
  intros H. apply str_eqb_eq in H. now subst.
Qed.

Lemma opt_eqb_refl (b : str) : opt_eqb (Some b) b = true.
Proof. cbn [opt_eqb]. now apply str_eqb_eq. Qed.

Lemma setRowUniq_cookie (u : option str) (r : Row) :
  r_set_cookie (setRowUniq u r) = r_set_cookie r.
Proof. reflexivity. Qed.

Lemma setRowUniq_twice (u v : option str) (r : Row) :
  setRowUniq u (setRowUniq v r) = setRowUniq u r.
Proof. reflexivity. Qed.

Lemma confirmedOf_refl (r : Row) : confirmedOf r r.
Proof. now left. Qed.

Lemma confirmedOf_trans (r r1 r2 : Row) :
  confirmedOf r r1 -> confirmedOf r1 r2 -> confirmedOf r r2.
Proof.
  intros [->|(u & Hu & ->)] H; [exact H|].
  destruct H as [->|(v & Hv & ->)].
  - right. now exists u.
  - rewrite setRowUniq_cookie in Hv. right. exists v. split; [exact Hv|].
    apply setRowUniq_twice.
Qed.

Lemma confirmedOf_update (u : str) (r : Row) :
  confirmedOf r (if opt_eqb (r_set_cookie r) u then setRowUniq (Some u) r else r).
Proof.
  destruct (opt_eqb (r_set_cookie r) u) eqn:E; [|now left].
  right. exists u. split; [now apply opt_eqb_eq | reflexivity].
Qed.

Lemma Forall2_confirmedOf_refl (t : Table) : Forall2 confirmedOf t t.
Proof. induction t; constructor; [apply confirmedOf_refl | assumption]. Qed.

Lemma Forall2_confirmedOf_update (u : str) (t old : Table) :
  Forall2 confirmedOf
    (map (fun r => if opt_eqb (r_set_cookie r) u then setRowUniq (Some u) r else r) t) old ->
  Forall2 confirmedOf t old.
Proof.
  revert old. induction t as [|r t IH]; intros old H; inversion H; subst.
  - constructor.
  - constructor; [|now apply IH].
    eapply confirmedOf_trans; [apply confirmedOf_update | eassumption].
Qed.

(** The table after a list of statements: the rows it had, then the
    inserted ones, each possibly confirmed by an UPDATE. *)
Lemma execAll_rows (db : Database) (ss : list Stmt) :
  Forall ownUpdate ss ->
  forall t t', execAll db t ss = Some t' ->
  exists old new,
    t' = old ++ new /\ Forall2 confirmedOf t old
    /\ Forall2 confirmedOf (insertedRows ss) new.
Proof.
  induction 1 as [|s ss Hs Hss IH]; intros t t' E.
  - cbn [execAll] in E. injection E as <-. exists t, [].
    rewrite app_nil_r. split; [reflexivity|]. split; [apply Forall2_confirmedOf_refl|constructor].
  - cbn [execAll] in E. destruct (execFails db t s); [discriminate|].
    destruct (IH _ _ E) as (old & new & -> & Hold & Hnew).
    destruct s as [r|u c].
    + cbn [applyStmt] in Hold. apply Forall2_app_inv_l in Hold.
      destruct Hold as (o1 & o2 & Ho1 & Ho2 & ->).
      inversion Ho2 as [|? r1 ? o3 Hr Ho3]; subst. inversion Ho3; subst.
      exists o1, (r1 :: new). rewrite <- app_assoc. split; [reflexivity|].
      split; [exact Ho1|]. unfold insertedRows. cbn [flat_map app].
      constructor; assumption.
    + cbn [ownUpdate] in Hs. subst c. cbn [applyStmt] in Hold.
      exists old, new. split; [reflexivity|].
      split; [now apply (Forall2_confirmedOf_update u)|exact Hnew].
Qed.

Section InsertFacts.

Variable urlParseHost : str -> option str.

Lemma lineStmts_ownUpdate (lines : list Line) :
  Forall ownUpdate (flat_map (lineStmts urlParseHost) lines).
Proof.
  induction lines as [|l lines IH]; [constructor|].
  cbn [flat_map]. apply Forall_app. split; [|exact IH].
  unfold lineStmts. cbv zeta.
  destruct (_ && _); repeat constructor.
Qed.

Lemma lineStmts_insertedRows (lines : list Line) :
  insertedRows (flat_map (lineStmts urlParseHost) lines)
  = map (fun l => rowOf (Analyze urlParseHost l)) lines.
Proof.
  induction lines as [|l lines IH]; [reflexivity|].
  cbn [flat_map map]. unfold insertedRows in *. rewrite flat_map_app, IH.
  unfold lineStmts. cbv zeta. destruct (_ && _); reflexivity.
Qed.

(** X4.  [Insert] is all or nothing, and it only appends: when it returns
    an error the table is as before; when it succeeds the table holds the
    rows it had, in place, then one row for each line, in the order of the
    lines, where every row is what it was (or the analysed line) up to
    [uniq] having been set to the row's own [set_cookie]. *)
Theorem Insert_appends_one_row_per_line (db : Database) (t : Table) (lines : list Line) :
  match Insert urlParseHost db t lines with
  | (Err, t') => t' = t
  | (Ok, t') =>
      exists old new,
        t' = old ++ new /\ Forall2 confirmedOf t old
        /\ Forall2 (fun l r => confirmedOf (rowOf (Analyze urlParseHost l)) r) lines new
  end.
Proof.
  unfold Insert.
  destruct (beginFails db); [reflexivity|].
  destruct (prepareInsertFails db); [reflexivity|].
  destruct (prepareUpdateFails db); [reflexivity|].
  destruct (execAll db t _) as [t'|] eqn:E; [|reflexivity].
  destruct (commitFails db); [reflexivity|].
  destruct (execAll_rows db _ (lineStmts_ownUpdate lines) _ _ E)
    as (old & new & -> & Hold & Hnew).
  exists old, new. split; [reflexivity|]. split; [exact Hold|].
  rewrite lineStmts_insertedRows in Hnew.
  clear -Hnew. revert new Hnew.
  induction lines as [|l lines IH]; intros new H; inversion H; subst; constructor; auto.
Qed.

End InsertFacts.

Lemma execAll_app (db : Database) (a b : list Stmt) (t : Table) :
  execAll db t (a ++ b)
  = match execAll db t a with Some t1 => execAll db t1 b | None => None end.
Proof.
  revert t. induction a as [|s a IH]; intros t; [reflexivity|].
  cbn [app execAll]. destruct (execFails db t s); [reflexivity | apply IH].
Qed.

Lemma Forall2_nth_error_l {A B} (R : A -> B -> Prop) (l : list A) (l' : list B) i x :
  Forall2 R l l' -> nth_error l i = Some x ->
  exists y, nth_error l' i = Some y /\ R x y.
Proof.
  intros H. revert i. induction H as [|a b l l' Hab H IH]; intros i Hi.
  - destruct i; discriminate.
  - destruct i as [|i]; cbn [nth_error] in *.
    + injection Hi as <-. now exists b.
    + now apply IH.
Qed.

(** A row of the table is still at its place after the statements. *)
Lemma execAll_nth (db : Database) (ss : list Stmt) (t t' : Table) i r :
  Forall ownUpdate ss -> execAll db t ss = Some t' -> nth_error t i = Some r ->
  exists r', nth_error t' i = Some r' /\ confirmedOf r r'.
Proof.
  intros Hss E Hi.
  destruct (execAll_rows db ss Hss t t' E) as (old & new & -> & Hold & _).
  destruct (Forall2_nth_error_l _ _ _ _ _ Hold Hi) as (r' & Hr' & Hc).
  exists r'. split; [|exact Hc].
  rewrite nth_error_app1; [exact Hr'|].
  apply nth_error_Some. rewrite Hr'. discriminate.
Qed.

Lemma confirmedOf_cookie (r r1 : Row) :
  confirmedOf r r1 -> r_set_cookie r1 = r_set_cookie r.
Proof. intros [->|(u & _ & ->)]; reflexivity. Qed.

Lemma confirmedOf_known (U : str) (r r1 : Row) :
  r_set_cookie r = Some U -> confirmedOf r r1 ->
  setRowUniq (Some U) r1 = setRowUniq (Some U) r.
Proof. intros HU [->|(u & Hu & ->)]; reflexivity. Qed.

Lemma confirmedOf_fixed (U : str) (r r1 : Row) :
  r_set_cookie r = Some U -> confirmedOf (setRowUniq (Some U) r) r1 ->
  r1 = setRowUniq (Some U) r.
Proof.
  intros HU [->|(u & Hu & ->)]; [reflexivity|].
  rewrite setRowUniq_cookie, HU in Hu. injection Hu as <-. reflexivity.
Qed.

Section ConfirmFacts.

Variable urlParseHost : str -> option str.

Lemma lineStmts_second_visit (l : Line) :
  SecondVisit l = true -> Uniq l <> [] ->
  lineStmts urlParseHost l
  = [SInsert (rowOf (Analyze urlParseHost l)); SUpdate (Uniq l) (Uniq l)].
Proof.
  intros Hs Hu. unfold lineStmts. cbv zeta.
  destruct (Analyze_inputs urlParseHost l) as (_ & _ & _ & Hsv & _).
  rewrite Hsv, Hs, Analyze_Uniq.
  destruct (isEmpty (Uniq l)) eqn:E; [now apply isEmpty_true in E|].
  rewrite E. reflexivity.
Qed.

(** X5.  A second visit confirms the first one: when [Insert] succeeds on
    lines one of which is a second visit with a non-empty [uniq], every
    row the table had with that value in [set_cookie] has it in [uniq]
    afterwards, and is otherwise as it was. *)
Theorem Insert_confirms_first_visit (db : Database) (t t' : Table) (lines : list Line)
    (l : Line) (i : nat) (r : Row) :
  Insert urlParseHost db t lines = (Ok, t') ->
  In l lines -> SecondVisit l = true -> Uniq l <> [] ->
  nth_error t i = Some r -> r_set_cookie r = Some (Uniq l) ->
  nth_error t' i = Some (setRowUniq (Some (Uniq l)) r).
Proof.
  intros HI Hin Hsv Hu Hi Hc.
  unfold Insert in HI.
  destruct (beginFails db); [discriminate|].
  destruct (prepareInsertFails db); [discriminate|].
  destruct (prepareUpdateFails db); [discriminate|].
  destruct (execAll db t _) as [t1|] eqn:E; [|discriminate].
  destruct (commitFails db); [discriminate|].
  injection HI as ->.
  apply in_split in Hin. destruct Hin as (l1 & l2 & ->).
  pose proof (lineStmts_ownUpdate urlParseHost l1) as H1.
  pose proof (lineStmts_ownUpdate urlParseHost l2) as H2.
  rewrite flat_map_app in E. cbn [flat_map] in E.
  rewrite (lineStmts_second_visit l Hsv Hu) in E.
  rewrite execAll_app in E.
  destruct (execAll db t _) as [ta|] eqn:Ea; [|discriminate].
  destruct (execAll_nth db _ _ _ _ _ H1 Ea Hi) as (ra & Hra & Hca).
  cbn [app execAll] in E.
  destruct (execFails db ta _); [discriminate|].
  destruct (execFails db _ _); [discriminate|].
  cbn [applyStmt] in E.
  set (f := fun r0 : Row => if opt_eqb (r_set_cookie r0) (Uniq l)
                            then setRowUniq (Some (Uniq l)) r0 else r0) in E.
  assert (Hm : nth_error (map f (ta ++ [rowOf (Analyze urlParseHost l)])) i
               = Some (setRowUniq (Some (Uniq l)) r)).
  { rewrite nth_error_map, nth_error_app1
      by (apply nth_error_Some; rewrite Hra; discriminate).
    rewrite Hra. cbn [option_map]. f_equal. unfold f.
    rewrite (confirmedOf_cookie _ _ Hca), Hc, opt_eqb_refl.
    now apply confirmedOf_known. }
  destruct (execAll_nth db _ _ _ _ _ H2 E Hm) as (r' & Hr' & Hc').
  rewrite Hr'. f_equal. now apply confirmedOf_fixed.
Qed.

End ConfirmFacts.

Lemma Insert_confirms_first_visit_witness :
  exists t',
    Insert failingParse healthy [tentativeRow] [secondVisitLine] = (Ok, t')
    /\ In secondVisitLine [secondVisitLine]
    /\ SecondVisit secondVisitLine = true
    /\ Uniq secondVisitLine <> []
    /\ nth_error [tentativeRow] 0 = Some tentativeRow
    /\ r_set_cookie tentativeRow = Some (Uniq secondVisitLine)
    /\ nth_error t' 0 = Some (setRowUniq (Some (Uniq secondVisitLine)) tentativeRow).
Proof.
  exists (snd (Insert failingParse healthy [tentativeRow] [secondVisitLine])).
  assert (E : Insert failingParse healthy [tentativeRow] [secondVisitLine]
              = (Ok, snd (Insert failingParse healthy [tentativeRow] [secondVisitLine])))
    by (vm_compute; reflexivity).
  assert (Hu : Uniq secondVisitLine <> []) by discriminate.
  split; [exact E|].
  split; [now left|]. split; [reflexivity|]. split; [exact Hu|].
  split; [reflexivity|]. split; [reflexivity|].
  exact (Insert_confirms_first_visit failingParse healthy _ _ _ secondVisitLine 0
           tentativeRow E (or_introl eq_refl) eq_refl Hu eq_refl eq_refl).
Defined.

(** ** The dashboard proxy *)

Lemma HasPrefix_split (s p : str) :
  HasPrefix s p = true -> s = p ++ skipn (List.length p) s.
Proof.
  revert s. induction p as [|y p IH]; intros s H; [reflexivity|].
  destruct s as [|x s]; cbn [HasPrefix] in H; [discriminate|].
  apply andb_true_iff in H as [H1 H2]. apply Ascii.eqb_eq in H1. subst y.
  cbn [List.length skipn app]. f_equal. now apply IH.
Qed.

Lemma skipn_app_exact {A} (a b : list A) : skipn (List.length a) (a ++ b) = b.
Proof. induction a; [reflexivity | assumption]. Qed.

(** A text is a prefix followed by [t] exactly when it has the prefix and
    is [t] once trimmed. *)
Lemma prefix_then_rest (s p t : str) :
  HasPrefix s p && str_eqb (TrimPrefix s p) t = str_eqb s (p ++ t).
Proof.
  destruct (str_eqb s (p ++ t)) eqn:E.
  - apply str_eqb_eq in E. subst s. unfold TrimPrefix.
    rewrite HasPrefix_app, skipn_app_exact. cbn [andb]. now apply str_eqb_eq.
  - destruct (HasPrefix s p) eqn:Hp; [|reflexivity]. cbn [andb].
    unfold TrimPrefix. rewrite Hp.
    destruct (str_eqb (skipn (List.length p) s) t) eqn:Et; [|reflexivity].
    apply str_eqb_eq in Et. apply HasPrefix_split in Hp. rewrite Et in Hp.
    apply str_eqb_eq in Hp. congruence.
Qed.

(** X6.  With a dashboard token configured, [proxyDashboard] forwards a
    request exactly when its [Authorization] header is ["Bearer "]
    followed by the token, byte for byte; every other request is answered
    with 401 and the body ["Unauthorized"], and nothing is sent to the
    sidecar. *)
Theorem dashboard_needs_exact_bearer_token (token : str) (urlFails : bool)
    (clientDo : str -> str -> option Response) (req : Request) :
  token <> [] ->
  proxyDashboard token urlFails clientDo req
  = if str_eqb (headerGet "Authorization" (req_Header req)) ("Bearer " ++ token)
    then proxyForward urlFails clientDo req
    else (None, mkResponse StatusUnauthorized [] "Unauthorized").
Proof.
  intros Ht. unfold proxyDashboard, dashboardDenied. cbv zeta.
  apply isEmpty_false in Ht. rewrite Ht. cbn [negb].
  rewrite <- negb_andb, prefix_then_rest.
  destruct (str_eqb _ _); reflexivity.
Qed.

Lemma dashboard_needs_exact_bearer_token_witness :
  ("s3cret" : str) <> []
  /\ proxyDashboard "s3cret" false (fun _ _ => None) (dashboardRequest "bearer s3cret")
     = (None, mkResponse StatusUnauthorized [] "Unauthorized").
Proof.
  split; [discriminate|].
  rewrite (dashboard_needs_exact_bearer_token "s3cret" false (fun _ _ => None)
             (dashboardRequest "bearer s3cret")) by discriminate.
  reflexivity.
Defined.

(** ** The back-off of the worker *)

Lemma wrap64_small (x : Z) :
  -9223372036854775808 <= x < 9223372036854775808 -> wrap64 x = x.
Proof.
  intros H. unfold wrap64. rewrite Z.mod_small; lia.
Qed.

Lemma fold_left_snoc {A B} (f : A -> B -> A) (l : list B) (x : B) (a : A) :
  fold_left f (l ++ [x]) a = f (fold_left f l a) x.
Proof. rewrite fold_left_app. reflexivity. Qed.

(** X7.  Failures in a row double the back-off from 500 ms up to 10 s:
    after [n + 1] calls of [scheduleBackoff] since the back-off was last
    reset, it is [min (500ms * 2^n) 10s], and the next attempt is that
    long after the last failure. *)
Theorem backoff_doubles_up_to_ten_seconds (nows : list Z) (now : Z)
    (m : statsMiddleware) :
  m_backoff m <= 0 ->
  let m' := fold_left (fun m0 t => scheduleBackoff t m0) (nows ++ [now]) m in
  m_backoff m'
  = Z.min (500 * Millisecond * 2 ^ Z.of_nat (List.length nows)) (10 * Second)
  /\ m_nextAttempt m' = Some (now + m_backoff m')
  /\ m_batchSize m' = m_batchSize m.
Proof.
  intros Hm. cbv zeta. revert now.
  induction nows as [|t l IH] using rev_ind; intros now.
  - cbn [app fold_left List.length]. unfold scheduleBackoff.
    cbn [m_backoff m_nextAttempt m_batchSize].
    apply Z.leb_le in Hm. rewrite Hm.
    unfold Millisecond, Second. repeat split.
  - rewrite fold_left_snoc.
    destruct (IH t) as (Hb & _ & Hs).
    set (m1 := fold_left _ (l ++ [t]) m) in *.
    unfold scheduleBackoff at 1 2 3. cbn [m_backoff m_nextAttempt m_batchSize].
    split; [|split; [reflexivity | exact Hs]].
    rewrite Hb. rewrite length_app. cbn [List.length].
    replace (Z.of_nat (List.length l + 1)) with (Z.succ (Z.of_nat (List.length l))) by lia.
    rewrite Z.pow_succ_r by lia.
    assert (Hp : 0 < 2 ^ Z.of_nat (List.length l)) by (apply Z.pow_pos_nonneg; lia).
    unfold Millisecond, Second in *.
    set (p := 2 ^ Z.of_nat (List.length l)) in *. clearbody p.
    destruct (Z.min (500 * 1000000 * p) (10 * 1000000000) <=? 0) eqn:E0;
      [apply Z.leb_le in E0; lia|].
    rewrite wrap64_small by lia.
    destruct (10 * 1000000000 <? Z.min (500 * 1000000 * p) (10 * 1000000000) * 2) eqn:E1;
      [apply Z.ltb_lt in E1 | apply Z.ltb_ge in E1]; lia.
Qed.

Lemma backoff_doubles_up_to_ten_seconds_witness :
  let m := mkMiddleware 100 0 None in
  let m' := fold_left (fun m0 t => scheduleBackoff t m0) ([10; 20; 30] ++ [40]) m in
  m_backoff m <= 0
  /\ m_backoff m' = 4 * Second
  /\ m_nextAttempt m' = Some (40 + 4 * Second).
Proof.
  cbv zeta.
  split; [cbn; lia|].
  destruct (backoff_doubles_up_to_ten_seconds [10; 20; 30] 40 (mkMiddleware 100 0 None))
    as (Hb & Hn & _); [cbn; lia|].
  split; [rewrite Hb; reflexivity|].
  rewrite Hn, Hb. reflexivity.
Defined.

(** ** The worker's [flush] *)

Lemma idsIncrease_app_lt (a b : list (Z * str)) :
  forall lo, idsIncrease lo (a ++ b) ->
  forall x y, In x a -> In y b -> fst x < fst y.
Proof.
  induction a as [|[id0 p0] a IH]; intros lo H x y Hx Hy; [destruct Hx|].
  cbn [app idsIncrease] in H. destruct H as [H1 H2].
  destruct Hx as [<-|Hx].
  - cbn [fst]. destruct y as [idy py].
    apply (idsIncrease_In id0 (a ++ b) idy py H2). apply in_or_app. now right.
  - eapply IH; eauto.
Qed.

Section FlushFacts.

Variable marshalEvent : event -> option str.
Variable unmarshalEvent : str -> option event.

Local Abbreviation FetchBatch' := (FetchBatch unmarshalEvent).
Local Abbreviation step' := (step marshalEvent unmarshalEvent).
Local Abbreviation run' := (run marshalEvent unmarshalEvent).
Local Abbreviation flushLoop' := (flushLoop marshalEvent unmarshalEvent).
Local Abbreviation rowsOf := (fun s : System => b_rows (q_db (sys_queue s))).

(** A selected row whose payload decodes is in the batch. *)
Lemma scanRows_complete (df : Z -> bool) (sel : list (Z * str)) id p evt :
  In (id, p) sel -> unmarshalEvent p = Some evt ->
  In (mkQueued id evt) (fst (scanRows unmarshalEvent df sel)).
Proof.
  induction sel as [|[id0 p0] sel IH]; intros Hin Hu; [destruct Hin|].
  cbn [scanRows]. destruct (scanRows unmarshalEvent df sel) as [out del].
  cbn [fst] in IH. destruct Hin as [E|Hin].
  - injection E as -> ->. rewrite Hu. now left.
  - destruct (unmarshalEvent p0); cbn [fst]; [right|]; now apply IH.
Qed.

(** A batch that is not empty holds every decodable row up to its last
    id. *)
Lemma FetchBatch_complete (limit : Z) (sf : bool) (df : Z -> bool) (itf : bool)
    (q q' : diskQueue) (item : queuedEvent) (items : list queuedEvent) id p evt :
  wfBuffer (q_db q) ->
  FetchBatch' limit sf df itf q = (Some (item :: items), q') ->
  In (id, p) (b_rows (q_db q)) -> unmarshalEvent p = Some evt ->
  id <= qe_ID (last (item :: items) item) ->
  In evt (map qe_Event (item :: items)).
Proof.
  intros (_ & Hi & _) Hf Hin Hu Hle.
  unfold FetchBatch in Hf. destruct (limit <=? 0); [discriminate|].
  destruct sf; [discriminate|].
  set (n := Z.to_nat limit) in *.
  pose proof (scanRows_batch unmarshalEvent df (firstn n (b_rows (q_db q)))) as Hb.
  pose proof (scanRows_complete df (firstn n (b_rows (q_db q))) id p evt) as Hc.
  destruct (scanRows unmarshalEvent df (firstn n (b_rows (q_db q)))) as [out del].
  cbn [fst] in Hb, Hc.
  destruct itf; [discriminate|]. injection Hf as -> _.
  rewrite <- (firstn_skipn n (b_rows (q_db q))) in Hin, Hi.
  apply in_app_or in Hin. destruct Hin as [Hin|Hin].
  - apply (in_map qe_Event) in Hc; auto.
  - exfalso.
    assert (Hl : In (last (item :: items) item) (item :: items)).
    { destruct (exists_last (l := item :: items) ltac:(discriminate)) as (l' & a & E).
      rewrite E, last_last. apply in_or_app. right. now left. }
    destruct (Hb _ Hl) as (p' & Hp' & _).
    pose proof (idsIncrease_app_lt _ _ _ Hi _ _ Hp' Hin) as Hlt.
    cbn [fst] in Hlt. lia.
Qed.

(** [FetchBatch] removes no row whose payload decodes. *)
Lemma FetchBatch_keeps (limit : Z) (sf : bool) (df : Z -> bool) (itf : bool)
    (q : diskQueue) id p evt :
  wfBuffer (q_db q) ->
  In (id, p) (b_rows (q_db q)) -> unmarshalEvent p = Some evt ->
  In (id, p) (b_rows (q_db (snd (FetchBatch' limit sf df itf q)))).
Proof.
  intros (_ & Hi & _) Hin Hu.
  destruct (FetchBatch_queue unmarshalEvent limit sf df itf q) as (del & -> & Hdel).
  cbn [setRows q_db b_rows]. apply filter_In. split; [exact Hin|].
  cbn [fst]. apply negb_true_iff. destruct (memZ id del) eqn:E; [|reflexivity].
  apply memZ_In in E. destruct (Hdel id E) as (p' & Hp' & Hbad).
  pose proof (idsIncrease_unique _ _ _ _ _ Hi Hin Hp'). congruence.
Qed.

(** The steps of [Enqueue] remove no row. *)
Lemma enqueue_step_keeps (s s' : System) (st : Step) (r : Z * str) :
  isEnqueueStep st = true -> step' s st = Some s' ->
  In r (rowsOf s) -> In r (rowsOf s').
Proof.
  intros He H Hin. destruct st as [evt|i f| | |]; try discriminate;
    cbn [step] in H.
  - destruct (marshalEvent evt); [|now injection H as <-].
    unfold enqueueReserve in H. destruct (enqueueWaits (sys_queue s)); [discriminate|].
    injection H as <-. exact Hin.
  - destruct (nth_error (sys_inserting s) i); [|discriminate].
    injection H as <-. cbn [sys_queue]. unfold enqueueInsert.
    destruct f; cbn [snd q_db b_rows setCount insertRow]; [exact Hin|].
    apply in_or_app. now left.
Qed.

Lemma enqueue_run_keeps (tr : list Step) (s s' : System) (r : Z * str) :
  forallb isEnqueueStep tr = true -> run' s tr = Some s' ->
  In r (rowsOf s) -> In r (rowsOf s').
Proof.
  revert s. induction tr as [|st tr IH]; intros s He H Hin.
  - now injection H as <-.
  - cbn [forallb] in He. apply andb_true_iff in He as [He1 He2].
    cbn [run] in H. destruct (step' s st) as [s1|] eqn:E; [|discriminate].
    eapply IH; eauto. eapply enqueue_step_keeps; eauto.
Qed.

Lemma run_wf (tr : list Step) (s s' : System) :
  wfBuffer (q_db (sys_queue s)) -> run' s tr = Some s' ->
  wfBuffer (q_db (sys_queue s')).
Proof.
  intros Hwf H.
  apply (run_delivered marshalEvent unmarshalEvent 0 tr s s'
           (wfBuffer_delivered _ Hwf) H).
Qed.

Lemma FetchBatch_wf (limit : Z) (sf : bool) (df : Z -> bool) (itf : bool) (q : diskQueue) :
  wfBuffer (q_db q) -> wfBuffer (q_db (snd (FetchBatch' limit sf df itf q))).
Proof.
  intros Hwf.
  destruct (FetchBatch_queue unmarshalEvent limit sf df itf q) as (del & -> & _).
  apply (delivered_filter 0 _ q (wfBuffer_delivered _ Hwf)).
Qed.

(** The DELETE of [DeleteUpTo(lastID)] removes rows up to [lastID] only. *)
Lemma deleteExec_rows (lastID : Z) (ef af : bool) (q q' : diskQueue) res k :
  deleteExec lastID ef af q = (res, k, q') ->
  (wfBuffer (q_db q) -> wfBuffer (q_db q'))
  /\ forall r, In r (b_rows (q_db q)) -> In r (b_rows (q_db q')) \/ fst r <= lastID.
Proof.
  unfold deleteExec.
  destruct (lastID <=? 0); [intros [= _ _ <-]; split; auto|].
  destruct ef; [intros [= _ _ <-]; split; auto|].
  unfold deleteRows.
  assert (H : forall q1,
             q1 = mkQueue (mkBuffer (filter (fun r => negb (fst r <=? lastID))
                                            (b_rows (q_db q))) (b_seq (q_db q)))
                          (q_maxEvents q) (q_count q) ->
             (wfBuffer (q_db q) -> wfBuffer (q_db q1))
             /\ forall r, In r (b_rows (q_db q)) ->
                          In r (b_rows (q_db q1)) \/ fst r <= lastID).
  { intros q1 ->. split.
    - intros Hwf.
      apply (delivered_filter 0 (fun r => negb (fst r <=? lastID)) q
               (wfBuffer_delivered _ Hwf)).
    - intros r Hr. cbn [q_db b_rows].
      destruct (fst r <=? lastID) eqn:E; [right; now apply Z.leb_le|].
      left. apply filter_In. split; [exact Hr|]. now rewrite E. }
  destruct af; intros [= _ _ <-]; now apply H.
Qed.

Lemma deleteAccount_db (k : Z) (q : diskQueue) : q_db (deleteAccount k q) = q_db q.
Proof. unfold deleteAccount. destruct (0 <? k); reflexivity. Qed.

Lemma concat_snoc {A} (l : list (list A)) (x : list A) : List.concat (l ++ [x]) = List.concat l ++ x.
Proof. rewrite concat_app. cbn [List.concat]. now rewrite app_nil_r. Qed.

Lemma flushLoop_safe (rounds : list Round) :
  forallb enqueueOnly rounds = true ->
  forall m s sent m' s' sent',
    wfBuffer (q_db (sys_queue s)) ->
    flushLoop' rounds m s sent = Some (m', s', sent') ->
    (exists more, sent' = sent ++ more)
    /\ forall id p evt,
         In (id, p) (rowsOf s) -> unmarshalEvent p = Some evt ->
         In (id, p) (rowsOf s') \/ In evt (List.concat sent').
Proof.
  induction rounds as [|rd rounds IH]; intros Hr m s sent m' s' sent' Hwf H;
    [discriminate|].
  cbn [forallb] in Hr. apply andb_true_iff in Hr as [Hrd Hr].
  unfold enqueueOnly in Hrd. rewrite !forallb_app in Hrd.
  apply andb_true_iff in Hrd as [Hb Hrd]. apply andb_true_iff in Hrd as [Hs Hd].
  cbn [flushLoop] in H.
  destruct (run' s (rd_before rd)) as [s1|] eqn:E1; [|discriminate].
  pose proof (run_wf _ _ _ Hwf E1) as Hwf1.
  pose proof (FetchBatch_wf (m_batchSize m) (rd_selectFails rd) (rd_deleteFails rd)
                (rd_iterFails rd) (sys_queue s1) Hwf1) as Hwf2.
  pose proof (FetchBatch_keeps (m_batchSize m) (rd_selectFails rd) (rd_deleteFails rd)
                (rd_iterFails rd) (sys_queue s1)) as Hkeep.
  pose proof (FetchBatch_complete (m_batchSize m) (rd_selectFails rd) (rd_deleteFails rd)
                (rd_iterFails rd) (sys_queue s1)) as Hcomp.
  destruct (FetchBatch' _ _ _ _ (sys_queue s1)) as [fetched q2].
  cbn [snd] in Hwf2, Hkeep.
  assert (H12 : forall id p evt,
             In (id, p) (rowsOf s) -> unmarshalEvent p = Some evt ->
             In (id, p) (b_rows (q_db q2))).
  { intros id p evt Hin Hu. apply (Hkeep id p evt Hwf1); [|exact Hu].
    exact (enqueue_run_keeps _ _ _ _ Hb E1 Hin). }
  destruct fetched as [[|item items]|].
  - injection H as <- <- <-. split; [exists []; now rewrite app_nil_r|].
    intros id p evt Hin Hu. left. cbn. eauto.
  - destruct (run' (withQueue q2 s1) (rd_streaming rd)) as [s3|] eqn:E3; [|discriminate].
    assert (Hwf3 : wfBuffer (q_db (sys_queue s3))) by (apply (run_wf (rd_streaming rd) (withQueue q2 s1) s3 Hwf2 E3)).
    assert (H13 : forall id p evt,
               In (id, p) (rowsOf s) -> unmarshalEvent p = Some evt ->
               In (id, p) (rowsOf s3)).
    { intros id p evt Hin Hu.
      apply (enqueue_run_keeps (rd_streaming rd) (withQueue q2 s1) s3 _ Hs E3).
      cbn [withQueue sys_queue]. eauto. }
    destruct (rd_streamFails rd _).
    { injection H as <- <- <-. split; [exists []; now rewrite app_nil_r|].
      intros id p evt Hin Hu. left. eauto. }
    destruct (deleteExec _ _ _ (sys_queue s3)) as [[res k] q4] eqn:E4.
    destruct (deleteExec_rows _ _ _ _ _ _ _ E4) as (Hwf4 & Hdel).
    specialize (Hwf4 Hwf3).
    assert (H14 : forall id p evt,
               In (id, p) (rowsOf s) -> unmarshalEvent p = Some evt ->
               In (id, p) (b_rows (q_db q4))
               \/ In evt (map qe_Event (item :: items))).
    { intros id p evt Hin Hu.
      destruct (Hdel _ (H13 _ _ _ Hin Hu)) as [Hk|Hle]; [now left|right].
      cbn [fst] in Hle.
      apply (Hcomp q2 item items id p evt Hwf1 eq_refl); [|exact Hu|exact Hle].
      exact (enqueue_run_keeps _ _ _ _ Hb E1 Hin). }
    assert (Hrec : forall s4,
               wfBuffer (q_db (sys_queue s4)) ->
               (forall r, In r (b_rows (q_db q4)) -> In r (rowsOf s4)) ->
               flushLoop' rounds m s4 (sent ++ [map qe_Event (item :: items)])
               = Some (m', s', sent') ->
               (exists more, sent' = sent ++ more)
               /\ forall id p evt,
                    In (id, p) (rowsOf s) -> unmarshalEvent p = Some evt ->
                    In (id, p) (rowsOf s') \/ In evt (List.concat sent')).
    { intros s4 Hw4 Hsub Hloop.
      destruct (IH Hr _ _ _ _ _ _ Hw4 Hloop) as ((more & ->) & Hsafe).
      split; [exists ([map qe_Event (item :: items)] ++ more); now rewrite app_assoc|].
      intros id p evt Hin Hu.
      destruct (H14 _ _ _ Hin Hu) as [Hk|Hsent].
      - apply (Hsafe id p evt); [now apply Hsub | exact Hu].
      - right. rewrite concat_app, concat_snoc.
        apply in_or_app. left. apply in_or_app. now right. }
    destruct res.
    + destruct k as [affected|].
      * destruct (run' (withQueue q4 s3) (rd_deleting rd)) as [s5|] eqn:E5; [|discriminate].
        apply (Hrec (withQueue (deleteAccount affected (sys_queue s5)) s5));
          [cbn [withQueue sys_queue]; rewrite deleteAccount_db;
           apply (run_wf (rd_deleting rd) (withQueue q4 s3) s5 Hwf4 E5)| |exact H].
        intros r Hin. cbn [withQueue sys_queue]. rewrite deleteAccount_db.
        apply (enqueue_run_keeps (rd_deleting rd) (withQueue q4 s3) s5 _ Hd E5). exact Hin.
      * apply (Hrec (withQueue q4 s3) Hwf4); [|exact H]. intros r Hin. exact Hin.
    + injection H as <- <- <-.
      split; [exists [map qe_Event (item :: items)]; reflexivity|].
      intros id p evt Hin Hu.
      destruct (H14 _ _ _ Hin Hu) as [Hk|Hsent]; [now left|right].
      rewrite concat_snoc. apply in_or_app. now right.
  - injection H as <- <- <-. split; [exists []; now rewrite app_nil_r|].
    intros id p evt Hin Hu. left. cbn. eauto.
Qed.

(** X8.  [flush] takes no event out of the buffer that it has not
    delivered: from a well-formed buffer file, and whatever callers of
    [Enqueue] do meanwhile and whichever calls fail, a row that was on
    file when [flush] began and whose payload decodes is still on file
    when [flush] returns, or its event is in a batch that [StreamEvents]
    delivered before the row was deleted. *)
Theorem flush_deletes_only_delivered (now : Z) (rounds : list Round)
    (m m' : statsMiddleware) (s s' : System) (sent : list (list event))
    (id : Z) (p : str) (evt : event) :
  wfBuffer (q_db (sys_queue s)) ->
  forallb enqueueOnly rounds = true ->
  flush marshalEvent unmarshalEvent now rounds m s = Some (m', s', sent) ->
  In (id, p) (b_rows (q_db (sys_queue s))) ->
  unmarshalEvent p = Some evt ->
  In (id, p) (b_rows (q_db (sys_queue s'))) \/ In evt (List.concat sent).
Proof.
  intros Hwf Hr H Hin Hu. unfold flush in H.
  assert (Hloop : flushLoop' rounds m s [] = Some (m', s', sent) ->
                  In (id, p) (b_rows (q_db (sys_queue s'))) \/ In evt (List.concat sent)).
  { intros Hl. destruct (flushLoop_safe rounds Hr _ _ _ _ _ _ Hwf Hl) as (_ & Hsafe).
    exact (Hsafe id p evt Hin Hu). }
  destruct (m_nextAttempt m) as [next|]; [|now apply Hloop].
  destruct (now <? next); [|now apply Hloop].
  injection H as <- <- <-. now left.
Qed.

End FlushFacts.

Lemma flush_deletes_only_delivered_witness :
  let rounds := [busyRound; quietRound; quietRound] in
  wfBuffer (q_db (sys_queue sampleSystem))
  /\ forallb enqueueOnly rounds = true
  /\ In (3, "e3" : str) (b_rows (q_db (sys_queue sampleSystem)))
  /\ sampleUnmarshal "e3" = Some (sampleEvent "e3")
  /\ exists m' s' sent,
       flush sampleMarshal sampleUnmarshal 0 rounds (mkMiddleware 2 0 None) sampleSystem
       = Some (m', s', sent)
       /\ (In (3, "e3" : str) (b_rows (q_db (sys_queue s')))
           \/ In (sampleEvent "e3") (List.concat sent)).
Proof.
  cbv zeta.
  assert (Hwf : wfBuffer (q_db (sys_queue sampleSystem))).
  { unfold wfBuffer. cbn. repeat split; try lia. repeat constructor; cbn; lia. }
  assert (Hin : In (3, "e3" : str) (b_rows (q_db (sys_queue sampleSystem))))
    by (cbn; auto).
  split; [exact Hwf|]. split; [reflexivity|]. split; [exact Hin|].
  split; [reflexivity|].
  destruct (flush sampleMarshal sampleUnmarshal 0 [busyRound; quietRound; quietRound]
              (mkMiddleware 2 0 None) sampleSystem) as [[[m' s'] sent]|] eqn:E;
    [|vm_compute in E; discriminate].
  exists m', s', sent. split; [reflexivity|].
  exact (flush_deletes_only_delivered sampleMarshal sampleUnmarshal 0
           [busyRound; quietRound; quietRound] (mkMiddleware 2 0 None) m' sampleSystem s'
           sent 3 "e3" (sampleEvent "e3") Hwf eq_refl E Hin eq_refl).
Defined.

Section DrainFacts.

Variable marshalEvent : event -> option str.
Variable unmarshalEvent : str -> option event.

Local Abbreviation FetchBatch' := (FetchBatch unmarshalEvent).
Local Abbreviation run' := (run marshalEvent unmarshalEvent).
Local Abbreviation flushLoop' := (flushLoop marshalEvent unmarshalEvent).
Local Abbreviation rowsOf := (fun s : System => b_rows (q_db (sys_queue s))).
Local Abbreviation decodeRow' := (decodeRow unmarshalEvent).
Local Abbreviation eventsOf' := (eventsOf unmarshalEvent).
Local Abbreviation allDecode' := (allDecode unmarshalEvent).

Lemma scanRows_allDecode (df : Z -> bool) (sel : list (Z * str)) :
  allDecode' sel -> scanRows unmarshalEvent df sel = (flat_map decodeRow' sel, []).
Proof.
  induction 1 as [|[id p] sel Hr Hsel IH]; [reflexivity|].
  cbn [scanRows flat_map]. rewrite IH. cbn [fst snd] in Hr.
  change (decodeRow' (id, p)) with
    (match unmarshalEvent p with Some e => [mkQueued id e] | None => [] end).
  destruct (unmarshalEvent p); [reflexivity | contradiction].
Qed.

Lemma decodeRow_ids (sel : list (Z * str)) :
  allDecode' sel -> map qe_ID (flat_map decodeRow' sel) = map fst sel.
Proof.
  induction 1 as [|[id p] sel Hr Hsel IH]; [reflexivity|].
  cbn [flat_map map]. rewrite map_app, IH. cbn [fst snd] in Hr.
  change (decodeRow' (id, p)) with
    (match unmarshalEvent p with Some e => [mkQueued id e] | None => [] end).
  destruct (unmarshalEvent p); [reflexivity | contradiction].
Qed.

Lemma decodeRow_events (sel : list (Z * str)) :
  map qe_Event (flat_map decodeRow' sel) = eventsOf' sel.
Proof.
  induction sel as [|[id p] sel IH]; [reflexivity|].
  unfold eventsOf in *. cbn [flat_map]. rewrite map_app, IH.
  change (decodeRow' (id, p)) with
    (match unmarshalEvent p with Some e => [mkQueued id e] | None => [] end).
  cbn [snd]. destruct (unmarshalEvent p); reflexivity.
Qed.

Lemma last_map_gen {A B} (f : A -> B) (l : list A) (d : A) :
  f (last l d) = last (map f l) (f d).
Proof.
  induction l as [|x l IH]; [reflexivity|].
  destruct l as [|y l]; [reflexivity|]. exact IH.
Qed.

Lemma idsIncrease_le_last (a : list (Z * str)) :
  forall lo d x, idsIncrease lo a -> In x a -> fst x <= last (map fst a) d.
Proof.
  induction a as [|[id0 p0] a IH]; intros lo d x H Hx; [destruct Hx|].
  cbn [idsIncrease] in H. destruct H as [H1 H2].
  destruct a as [|r a].
  - destruct Hx as [<-|[]]. cbn. lia.
  - change (last (map fst ((id0, p0) :: r :: a)) d) with (last (map fst (r :: a)) d).
    destruct Hx as [<-|Hx].
    + cbn [fst]. destruct r as [id1 p1].
      pose proof (IH id0 d (id1, p1) H2 (or_introl eq_refl)) as H3.
      cbn [idsIncrease] in H2. cbn [fst] in H3. lia.
    + eapply IH; eauto.
Qed.

Lemma filter_none {A} (f : A -> bool) (l : list A) :
  (forall x, In x l -> f x = false) -> filter f l = [].
Proof.
  induction l as [|x l IH]; intros H; [reflexivity|].
  cbn [filter]. rewrite (H x (or_introl eq_refl)). apply IH.
  intros y Hy. apply H. now right.
Qed.

(** Deleting up to the last id of a prefix of the rows leaves the rest. *)
Lemma filter_above_last (a b : list (Z * str)) (lo d : Z) :
  a <> [] -> idsIncrease lo (a ++ b) ->
  filter (fun r => negb (fst r <=? last (map fst a) d)) (a ++ b) = b.
Proof.
  intros Ha Hi.
  assert (Hla : In (last a (d, [])) a).
  { destruct (exists_last Ha) as (l' & x & ->).
    rewrite last_last. apply in_or_app. right. now left. }
  assert (Hlast : last (map fst a) d = fst (last a (d, [])))
    by (now rewrite (last_map_gen fst a (d, []))).
  assert (Hia : idsIncrease lo a).
  { clear -Hi. revert lo Hi. induction a as [|[id p] a IH]; intros lo Hi; [exact I|].
    cbn [app idsIncrease] in *. destruct Hi as [H1 H2]. split; [exact H1|]. now apply IH. }
  rewrite filter_app.
  replace (filter _ a) with (@nil (Z * str)).
  - cbn [app]. apply forallb_filter_id. apply forallb_forall. intros y Hy.
    pose proof (idsIncrease_app_lt _ _ _ Hi _ _ Hla Hy) as Hlt.
    apply negb_true_iff, Z.leb_gt. rewrite Hlast. exact Hlt.
  - symmetry. apply filter_none. intros x Hx.
    pose proof (idsIncrease_le_last a lo d x Hia Hx) as Hle.
    apply negb_false_iff, Z.leb_le. exact Hle.
Qed.


Lemma allDecode_firstn (n : nat) (rows : list (Z * str)) :
  allDecode' rows -> allDecode' (firstn n rows).
Proof.
  unfold allDecode. rewrite !Forall_forall. intros H r Hr.
  apply H. eapply In_firstn_In. exact Hr.
Qed.

Lemma allDecode_skipn (n : nat) (rows : list (Z * str)) :
  allDecode' rows -> allDecode' (skipn n rows).
Proof.
  unfold allDecode. rewrite !Forall_forall. intros H r Hr.
  apply H. eapply In_skipn_In. exact Hr.
Qed.

Lemma filter_all {A} (l : list A) : filter (fun _ => true) l = l.
Proof. induction l as [|x l IH]; [reflexivity|]. cbn [filter]. now rewrite IH. Qed.

(** [FetchBatch] on rows that all decode: the first [limit] of them, and
    no row is deleted. *)
Lemma FetchBatch_allDecode (limit : Z) (df : Z -> bool) (q : diskQueue) :
  0 < limit -> allDecode' (b_rows (q_db q)) ->
  FetchBatch' limit false df false q
  = (Some (flat_map decodeRow' (firstn (Z.to_nat limit) (b_rows (q_db q)))),
     setRows (b_rows (q_db q)) q).
Proof.
  intros Hl Ha. unfold FetchBatch.
  destruct (limit <=? 0) eqn:E; [apply Z.leb_le in E; lia|].
  rewrite (scanRows_allDecode df _ (allDecode_firstn _ _ Ha)).
  cbn [memZ existsb negb]. now rewrite filter_all.
Qed.

(** What a turn of the loop does when nothing fails, no caller of
    [Enqueue] moves and every payload decodes. *)
Lemma quiet_round (rounds : list Round) (m : statsMiddleware) (s : System)
    (sent : list (list event)) :
  0 < m_batchSize m ->
  wfBuffer (q_db (sys_queue s)) -> allDecode' (rowsOf s) ->
  let n := Z.to_nat (m_batchSize m) in
  (rowsOf s = []
   /\ exists s', rowsOf s' = []
        /\ flushLoop' (quietRound :: rounds) m s sent
           = Some (mkMiddleware (m_batchSize m) 0 None, s', sent))
  \/ (rowsOf s <> []
      /\ exists s', rowsOf s' = skipn n (rowsOf s)
           /\ wfBuffer (q_db (sys_queue s'))
           /\ flushLoop' (quietRound :: rounds) m s sent
              = flushLoop' rounds m s' (sent ++ [eventsOf' (firstn n (rowsOf s))])).
Proof.
  intros Hbs Hwf Ha. cbv zeta.
  cbn [flushLoop quietRound rd_before rd_selectFails rd_deleteFails rd_iterFails
       rd_streaming rd_streamFails rd_execFails rd_affectedFails rd_deleting rd_now run].
  rewrite (FetchBatch_allDecode _ _ _ Hbs Ha).
  set (n := Z.to_nat (m_batchSize m)).
  assert (Hn : (0 < n)%nat) by (unfold n; lia).
  destruct (b_rows (q_db (sys_queue s))) as [|r0 rows0] eqn:Erows.
  - left. split; [reflexivity|]. rewrite firstn_nil. cbn [flat_map].
    eexists. split; [|reflexivity]. reflexivity.
  - right. split; [discriminate|].
    rewrite <- Erows in *.
    set (rows := b_rows (q_db (sys_queue s))) in *.
    set (sel := firstn n rows).
    assert (Hsel : sel <> []).
    { unfold sel. rewrite Erows. destruct n; [lia|discriminate]. }
    pose proof (decodeRow_ids sel (allDecode_firstn _ _ Ha)) as Hids.
    pose proof (decodeRow_events sel) as Hev.
    destruct (flat_map decodeRow' sel) as [|item items] eqn:Eb.
    { destruct sel; [congruence|discriminate]. }
    rewrite Hev.
    rewrite (last_map_gen qe_ID (item :: items) item), Hids.
    set (lastID := last (map fst sel) (qe_ID item)).
    destruct Hwf as (Hseq & Hi & Hle).
    assert (Hsplit : rows = sel ++ skipn n rows) by (symmetry; apply firstn_skipn).
    assert (Hpos : 0 < lastID).
    { unfold lastID.
      pose proof (last_map_gen fst sel (qe_ID item, [])) as Hl0.
      cbn [fst] in Hl0. rewrite <- Hl0. clear Hl0.
      assert (Hl : In (last sel (qe_ID item, [])) sel).
      { destruct (exists_last Hsel) as (l' & x & ->).
        rewrite last_last. apply in_or_app. right. now left. }
      destruct (last sel (qe_ID item, [])) as [idl pl]. cbn [fst].
      apply (idsIncrease_In 0 rows idl pl Hi). eapply In_firstn_In. exact Hl. }
    unfold deleteExec.
    destruct (lastID <=? 0) eqn:E0; [apply Z.leb_le in E0; lia|].
    unfold deleteRows. cbn [setRows q_db b_rows b_seq q_maxEvents q_count withQueue sys_queue].
    assert (Hkeep : filter (fun r => negb (fst r <=? lastID)) rows = skipn n rows).
    { rewrite Hsplit at 1. apply (filter_above_last sel (skipn n rows) 0 (qe_ID item) Hsel).
      now rewrite <- Hsplit. }
    rewrite Hkeep.
    eexists. split; [|split; [|reflexivity]].
    + cbn [withQueue sys_queue]. rewrite deleteAccount_db. reflexivity.
    + cbn [withQueue sys_queue]. rewrite deleteAccount_db. cbn [q_db].
      rewrite <- Hkeep. unfold wfBuffer. cbn [b_rows b_seq].
      split; [exact Hseq|]. split; [now apply idsIncrease_filter|].
      now apply Forall_filter_keep.
Qed.


Lemma eventsOf_app (a b : list (Z * str)) :
  eventsOf' (a ++ b) = eventsOf' a ++ eventsOf' b.
Proof. unfold eventsOf. apply flat_map_app. Qed.

Lemma flushLoop_drains (k : nat) :
  forall (m : statsMiddleware) (s : System) (sent : list (list event)),
    0 < m_batchSize m ->
    wfBuffer (q_db (sys_queue s)) -> allDecode' (rowsOf s) ->
    (List.length (rowsOf s) < k)%nat ->
    exists s' more,
      flushLoop' (repeat quietRound k) m s sent
      = Some (mkMiddleware (m_batchSize m) 0 None, s', sent ++ more)
      /\ rowsOf s' = []
      /\ List.concat more = eventsOf' (rowsOf s).
Proof.
  induction k as [|k IH]; intros m s sent Hbs Hwf Ha Hlen; [lia|].
  cbn [repeat].
  destruct (quiet_round (repeat quietRound k) m s sent Hbs Hwf Ha)
    as [(Hnil & s' & Hs' & ->)|(Hrows & s1 & Hs1 & Hwf1 & ->)].
  - exists s', []. rewrite app_nil_r, Hnil. repeat split. exact Hs'.
  - set (n := Z.to_nat (m_batchSize m)) in *.
    assert (Hn : (0 < n)%nat) by (unfold n; lia).
    assert (Hlen1 : (List.length (rowsOf s1) < k)%nat).
    { rewrite Hs1, length_skipn.
      destruct (rowsOf s) eqn:E; [congruence|]. cbn [List.length] in *. lia. }
    assert (Ha1 : allDecode' (rowsOf s1)) by (rewrite Hs1; now apply allDecode_skipn).
    destruct (IH m s1 (sent ++ [eventsOf' (firstn n (rowsOf s))]) Hbs Hwf1 Ha1 Hlen1)
      as (s' & more & -> & Hs' & Hmore).
    exists s', (eventsOf' (firstn n (rowsOf s)) :: more).
    split; [now rewrite <- app_assoc|]. split; [exact Hs'|].
    cbn [List.concat]. rewrite Hmore, Hs1, <- eventsOf_app, firstn_skipn. reflexivity.
Qed.

(** X9.  With the sidecar up, one [flush] empties the buffer: when the
    back-off is over, the batch size is positive, every payload on file
    decodes, nothing fails and no caller of [Enqueue] moves meanwhile,
    [flush] returns within one turn more than there are rows, has
    delivered the events of all rows, each once and in the order of their
    ids, leaves no row on file and resets the back-off. *)
Theorem flush_drains_in_order (now : Z) (m : statsMiddleware) (s : System) :
  0 < m_batchSize m ->
  wfBuffer (q_db (sys_queue s)) ->
  allDecode unmarshalEvent (b_rows (q_db (sys_queue s))) ->
  (forall next, m_nextAttempt m = Some next -> next <= now) ->
  exists s' sent,
    flush marshalEvent unmarshalEvent now
          (repeat quietRound (S (List.length (b_rows (q_db (sys_queue s)))))) m s
    = Some (mkMiddleware (m_batchSize m) 0 None, s', sent)
    /\ b_rows (q_db (sys_queue s')) = []
    /\ List.concat sent = eventsOf unmarshalEvent (b_rows (q_db (sys_queue s))).
Proof.
  intros Hbs Hwf Ha Hnext.
  destruct (flushLoop_drains (S (List.length (rowsOf s))) m s [] Hbs Hwf Ha
              (Nat.lt_succ_diag_r _)) as (s' & more & Hl & Hs' & Hmore).
  exists s', more. split; [|split; assumption].
  unfold flush. destruct (m_nextAttempt m) as [next|]; [|exact Hl].
  specialize (Hnext next eq_refl).
  destruct (now <? next) eqn:E; [apply Z.ltb_lt in E; lia | exact Hl].
Qed.

End DrainFacts.

Lemma flush_drains_in_order_witness :
  let s := mkSystem (mkQueue (mkBuffer [(1, "e1" : str); (2, "e2" : str); (5, "e5" : str)] 5)
                             0 3) [] [] in
  let m := mkMiddleware 2 (4 * Second) (Some 100) in
  0 < m_batchSize m
  /\ wfBuffer (q_db (sys_queue s))
  /\ allDecode sampleUnmarshal (b_rows (q_db (sys_queue s)))
  /\ (forall next, m_nextAttempt m = Some next -> next <= 100)
  /\ exists s',
       flush sampleMarshal sampleUnmarshal 100 (repeat quietRound 4) m s
       = Some (mkMiddleware 2 0 None, s',
               [[sampleEvent "e1"; sampleEvent "e2"]; [sampleEvent "e5"]])
       /\ b_rows (q_db (sys_queue s')) = [].
Proof.
  cbv zeta.
  assert (H1 : 0 < 2) by lia.
  assert (Hwf : wfBuffer (mkBuffer [(1, "e1" : str); (2, "e2" : str); (5, "e5" : str)] 5)).
  { unfold wfBuffer. cbn. repeat split; try lia. repeat constructor; cbn; lia. }
  assert (Ha : allDecode sampleUnmarshal [(1, "e1" : str); (2, "e2" : str); (5, "e5" : str)]).
  { repeat constructor; discriminate. }
  assert (Hn : forall next, Some 100 = Some next -> next <= 100).
  { intros next [= <-]. lia. }
  split; [exact H1|]. split; [exact Hwf|]. split; [exact Ha|]. split; [exact Hn|].
  destruct (flush_drains_in_order sampleMarshal sampleUnmarshal 100
              (mkMiddleware 2 (4 * Second) (Some 100))
              (mkSystem (mkQueue (mkBuffer [(1, "e1" : str); (2, "e2" : str);
                                            (5, "e5" : str)] 5) 0 3) [] [])
              H1 Hwf Ha Hn) as (s' & sent & Hf & Hs' & Hsent).
  exists s'. split; [|exact Hs'].
  pose proof Hf as Hc. vm_compute in Hc. injection Hc as <- <-. exact Hf.
Defined.

(** ** The count of the disk queue is exact *)

Section CountFacts.

Variable marshalEvent : event -> option str.
Variable unmarshalEvent : str -> option event.

(** What [json.Marshal] writes for an event, [json.Unmarshal] reads. *)
Hypothesis codec : forall e p, marshalEvent e = Some p -> unmarshalEvent p <> None.

Local Abbreviation FetchBatch' := (FetchBatch unmarshalEvent).
Local Abbreviation step' := (step marshalEvent unmarshalEvent).
Local Abbreviation run' := (run marshalEvent unmarshalEvent).

Local Ltac qfields :=
  cbn [sys_queue sys_inserting sys_accounting q_count q_db q_maxEvents b_rows b_seq
       setCount setRows insertRow fst snd].

Lemma FetchBatch_decodable (limit : Z) (sf : bool) (df : Z -> bool) (itf : bool)
    (q : diskQueue) :
  allDecode unmarshalEvent (b_rows (q_db q)) ->
  b_rows (q_db (snd (FetchBatch' limit sf df itf q))) = b_rows (q_db q)
  /\ q_count (snd (FetchBatch' limit sf df itf q)) = q_count q.
Proof.
  intros Ha. unfold FetchBatch.
  destruct (limit <=? 0); [split; reflexivity|].
  destruct sf; [split; reflexivity|].
  rewrite (scanRows_allDecode unmarshalEvent df _
             (allDecode_firstn unmarshalEvent _ _ Ha)).
  cbn [memZ existsb negb]. rewrite filter_all.
  destruct itf; split; reflexivity.
Qed.

Lemma step_exactCount (s s' : System) (st : Step) :
  reportsAffected st = true ->
  exactCount unmarshalEvent s -> step' s st = Some s' -> exactCount unmarshalEvent s'.
Proof.
  destruct s as [q ins acc]. unfold exactCount. qfields.
  intros Hst (Hc & Hp & Ha & Hi) H.
  destruct st as [evt|i f|limit sf df itf|lastID ef af|i];
    cbn [step sys_queue sys_inserting sys_accounting] in H.
  - destruct (marshalEvent evt) as [payload|] eqn:Em.
    + unfold enqueueReserve in H. destruct (enqueueWaits q); [discriminate|].
      injection H as <-. qfields. split; [|split; [exact Hp|split; [exact Ha|]]].
      * rewrite length_app. cbn [List.length]. lia.
      * apply Forall_app. split; [exact Hi|]. constructor; [|constructor].
        exact (codec _ _ Em).
    + injection H as <-. qfields. auto.
  - destruct (nth_error ins i) as [payload|] eqn:E; [|discriminate].
    injection H as <-. qfields.
    pose proof (removeAt_length ins i payload E) as Hl.
    assert (Hpay : unmarshalEvent payload <> None).
    { rewrite Forall_forall in Hi. apply Hi. eapply nth_error_In. exact E. }
    unfold enqueueInsert. destruct f; qfields.
    + split; [lia|]. split; [exact Hp|]. split; [exact Ha|].
      now apply removeAt_Forall.
    + split; [rewrite length_app; cbn [List.length]; lia|]. split; [exact Hp|].
      split; [|now apply removeAt_Forall].
      apply Forall_app. split; [exact Ha|]. constructor; [exact Hpay|constructor].
  - injection H as <-. qfields.
    destruct (FetchBatch_decodable limit sf df itf q Ha) as (-> & ->). auto.
  - cbn [reportsAffected] in Hst. apply negb_true_iff in Hst. subst af.
    unfold deleteExec in H.
    destruct (lastID <=? 0).
    { injection H as <-. qfields. auto. }
    destruct ef.
    { injection H as <-. qfields. auto. }
    unfold deleteRows in H.
    pose proof (filter_length_le (fun r => negb (fst r <=? lastID))
                                 (b_rows (q_db q))) as Hf.
    injection H as <-; qfields.
    split; [|split; [|split; [|exact Hi]]].
    + rewrite sumZ_app. unfold sumZ at 2. cbn [fold_right]. lia.
    + apply Forall_app. split; [exact Hp|]. constructor; [lia|constructor].
    + now apply Forall_filter_keep.
  - destruct (nth_error acc i) as [k|] eqn:E; [|discriminate].
    injection H as <-. qfields.
    pose proof (removeAt_sum acc i k E) as Hs.
    assert (Hk : 0 <= k).
    { rewrite Forall_forall in Hp. apply Hp. eapply nth_error_In. exact E. }
    pose proof (sumZ_nonneg _ (removeAt_Forall _ acc i Hp)) as Hrest.
    assert (Hdb : q_db (deleteAccount k q) = q_db q) by apply deleteAccount_db.
    rewrite Hdb.
    split; [|split; [now apply removeAt_Forall|split; assumption]].
    unfold deleteAccount. destruct (0 <? k) eqn:Ek; qfields.
    + destruct (q_count q - k <? 0) eqn:En; [apply Z.ltb_lt in En|apply Z.ltb_ge in En];
        lia.
    + apply Z.ltb_ge in Ek. lia.
Qed.

Lemma run_exactCount (tr : list Step) (s s' : System) :
  forallb reportsAffected tr = true ->
  exactCount unmarshalEvent s -> run' s tr = Some s' -> exactCount unmarshalEvent s'.
Proof.
  revert s. induction tr as [|st tr IH]; cbn [run forallb]; intros s Hr Ha H.
  - now injection H as <-.
  - apply andb_true_iff in Hr as [Hr1 Hr2].
    destruct (step' s st) as [s1|] eqn:E; [|discriminate].
    eapply IH; [exact Hr2| |exact H]. eapply step_exactCount; eauto.
Qed.

End CountFacts.

(** X10.  As long as every payload decodes and [RowsAffected] reports the
    rows of each DELETE, [count] is exact through every interleaving of
    the queue's operations: it is the number of rows on file, plus the
    callers of [Enqueue] between [count++] and their INSERT, plus the rows
    of a DELETE that [DeleteUpTo] has not subtracted yet.  So [Enqueue]
    with a positive [maxEvents] waits only while that many events are on
    file or on their way. *)
Theorem count_is_exact (marshalEvent : event -> option str)
    (unmarshalEvent : str -> option event) (path : str) (file : Buffer)
    (maxEvents : Z) (q : diskQueue) (tr : list Step) (s : System) :
  (forall e p, marshalEvent e = Some p -> unmarshalEvent p <> None) ->
  allDecode unmarshalEvent (b_rows file) ->
  newDiskQueue path file false maxEvents = Some q ->
  forallb reportsAffected tr = true ->
  run marshalEvent unmarshalEvent (startOf q) tr = Some s ->
  q_count (sys_queue s)
  = Z.of_nat (List.length (sys_inserting s))
    + Z.of_nat (List.length (b_rows (q_db (sys_queue s))))
    + sumZ (sys_accounting s)
  /\ (enqueueWaits (sys_queue s) = true ->
      maxEvents <= Z.of_nat (List.length (sys_inserting s))
                   + Z.of_nat (List.length (b_rows (q_db (sys_queue s))))
                   + sumZ (sys_accounting s)).
Proof.
  intros Hcodec Hfile Hnew Htr Hrun.
  unfold newDiskQueue in Hnew.
  destruct (isEmpty path); [discriminate|]. injection Hnew as <-.
  assert (H0 : exactCount unmarshalEvent
                 (startOf (mkQueue file maxEvents (Z.of_nat (List.length (b_rows file)))))).
  { unfold exactCount, startOf. cbn [sys_queue sys_inserting sys_accounting q_count q_db].
    split; [unfold sumZ; cbn; lia|]. split; [constructor|]. split; [exact Hfile|constructor]. }
  destruct (run_exactCount marshalEvent unmarshalEvent Hcodec tr _ _ Htr H0 Hrun)
    as (Hc & _).
  split; [exact Hc|].
  intros Hw. unfold enqueueWaits in Hw. apply andb_true_iff in Hw as [_ Hw].
  apply Z.leb_le in Hw. rewrite <- Hc.
  assert (Hmax : q_maxEvents (sys_queue s) = maxEvents); [|lia].
  clear -Hrun. 
  assert (G : forall tr s0 s1, run marshalEvent unmarshalEvent s0 tr = Some s1 ->
                q_maxEvents (sys_queue s1) = q_maxEvents (sys_queue s0)).
  { induction tr0 as [|st tr0 IH]; cbn [run]; intros s0 s1 H.
    - now injection H as <-.
    - destruct (step marshalEvent unmarshalEvent s0 st) as [s2|] eqn:E; [|discriminate].
      rewrite (IH _ _ H). clear -E.
      destruct st as [evt|i f|limit sf df itf|lastID ef af|i]; cbn [step] in E.
      + destruct (marshalEvent evt); [|now injection E as <-].
        unfold enqueueReserve in E. destruct (enqueueWaits _); [discriminate|].
        now injection E as <-.
      + destruct (nth_error _ i); [|discriminate]. injection E as <-.
        unfold enqueueInsert. destruct f; reflexivity.
      + injection E as <-.
        destruct (FetchBatch_queue unmarshalEvent limit sf df itf (sys_queue s0))
          as (del & Hq & _).
        cbn [sys_queue]. rewrite Hq. reflexivity.
      + unfold deleteExec in E. destruct (lastID <=? 0); [now injection E as <-|].
        destruct ef; [now injection E as <-|].
        destruct (deleteRows lastID _). destruct af; now injection E as <-.
      + destruct (nth_error _ i); [|discriminate]. injection E as <-.
        cbn [sys_queue]. unfold deleteAccount. destruct (0 <? _); reflexivity. }
  rewrite (G _ _ _ Hrun). reflexivity.
Qed.

Lemma count_is_exact_witness :
  let file := mkBuffer [(1, "#e1" : str); (2, "#e2" : str)] 2 in
  let q := mkQueue file 5 2 in
  let tr := [StReserve (sampleEvent "e3"); StFetch 10 false (fun _ => false) false;
             StDelete 2 false false; StInsert 0 false; StReserve (sampleEvent "e4")] in
  let s := mkSystem (mkQueue (mkBuffer [(3, "#e3" : str)] 3) 5 4) ["#e4" : str] [2] in
  (forall e p, tagMarshal e = Some p -> tagUnmarshal p <> None)
  /\ allDecode tagUnmarshal (b_rows file)
  /\ newDiskQueue "/tmp/buffer.sqlite" file false 5 = Some q
  /\ forallb reportsAffected tr = true
  /\ run tagMarshal tagUnmarshal (startOf q) tr = Some s
  /\ q_count (sys_queue s) = 1 + 1 + 2.
Proof.
  cbv zeta.
  assert (Ha : allDecode tagUnmarshal [(1, "#e1" : str); (2, "#e2" : str)])
    by (repeat constructor; discriminate).
  assert (Hcodec : forall e p, tagMarshal e = Some p -> tagUnmarshal p <> None)
    by (intros e p [= <-]; discriminate).
  split; [exact Hcodec|].
  split; [exact Ha|]. split; [reflexivity|]. split; [reflexivity|].
  split; [reflexivity|].
  destruct (count_is_exact tagMarshal tagUnmarshal "/tmp/buffer.sqlite"
              (mkBuffer [(1, "#e1" : str); (2, "#e2" : str)] 2) 5
              (mkQueue (mkBuffer [(1, "#e1" : str); (2, "#e2" : str)] 2) 5 2)
              [StReserve (sampleEvent "e3"); StFetch 10 false (fun _ => false) false;
               StDelete 2 false false; StInsert 0 false; StReserve (sampleEvent "e4")]
              (mkSystem (mkQueue (mkBuffer [(3, "#e3" : str)] 3) 5 4) ["#e4" : str] [2])
              Hcodec Ha eq_refl eq_refl eq_refl) as (Hc & _).
  exact Hc.
Defined.

(** ** The response recorder *)

Lemma payloadOf_app (a b : list WriterCall) : payloadOf (a ++ b) = payloadOf a ++ payloadOf b.
Proof. unfold payloadOf. apply filter_app. Qed.

Lemma passedOn_app (w : Writer) (a b : list HandlerCall) :
  passedOn w (a ++ b) = passedOn w a ++ passedOn w b.
Proof. unfold passedOn. apply flat_map_app. Qed.

Lemma firstHeader_app (a b : list WriterCall) :
  firstHeader (a ++ b) = match firstHeader a with Some s => Some s | None => firstHeader b end.
Proof.
  induction a as [|c a IH]; [reflexivity|].
  destruct c; cbn [app firstHeader]; auto.
Qed.

Lemma headerBeforeWrite_app (a b : list WriterCall) :
  headerBeforeWrite a = true ->
  (firstHeader a = None -> headerBeforeWrite b = true) ->
  headerBeforeWrite (a ++ b) = true.
Proof.
  induction a as [|c a IH]; intros Ha Hb; [now apply Hb|].
  destruct c; cbn [app headerBeforeWrite firstHeader] in *; auto; discriminate.
Qed.

(** What the handler's calls are, seen from the end. *)
Lemma firstStatus_snoc (cs : list HandlerCall) (c : HandlerCall) :
  firstStatus (cs ++ [c])
  = if existsb (fun c => match c with DoWriteHeader _ | DoWrite _ => true | _ => false end) cs
    then firstStatus cs
    else match c with DoWriteHeader statusCode => statusCode | _ => StatusOK end.
Proof.
  induction cs as [|c0 cs IH]; [destruct c; reflexivity|].
  destruct c0; cbn [app firstStatus existsb orb]; auto.
Qed.

Lemma fold_status_none (cs : list HandlerCall) (st : Z) :
  existsb (fun c => match c with DoWriteHeader _ | DoWrite _ => true | _ => false end) cs
  = false ->
  fold_left (fun st c => match c with DoWriteHeader statusCode => statusCode | _ => st end)
            cs st = st.
Proof.
  revert st. induction cs as [|c cs IH]; intros st H; [reflexivity|].
  cbn [existsb] in H. apply orb_false_iff in H as [H1 H2].
  destruct c; try discriminate; cbn [fold_left]; now apply IH.
Qed.

(** The recorder after the calls [cs] on a fresh writer. *)
Lemma recorded_state (f h p : bool) (cs : list HandlerCall) :
  let w := freshWriter f h p in
  let r := recorded w cs in
  let calls := w_calls (rr_inner r) in
  (w_flusher (rr_inner r), w_hijacker (rr_inner r), w_pusher (rr_inner r)) = (f, h, p)
  /\ payloadOf calls = passedOn w cs
  /\ headerBeforeWrite calls = true
  /\ rr_status r = lastStatus cs
  /\ rr_wroteHeader r
     = existsb (fun c => match c with DoWriteHeader _ | DoWrite _ => true | _ => false end) cs
  /\ firstHeader calls = (if rr_wroteHeader r then Some (firstStatus cs) else None).
Proof.
  cbv zeta. induction cs as [|c cs IH] using rev_ind.
  - repeat split.
  - unfold recorded, lastStatus in *. rewrite !fold_left_app, existsb_app, firstStatus_snoc.
    cbn [fold_left existsb].
    set (r := fold_left recCall cs (newResponseRecorder (freshWriter f h p))) in *.
    destruct IH as (Hcap & Hpay & Hbw & Hst & Hw & Hfh).
    injection Hcap as Hf Hh Hp.
    rewrite passedOn_app, <- Hpay, <- Hw.
    assert (Hbw' : forall x, (rr_wroteHeader r = false -> headerBeforeWrite [x] = true) ->
                     headerBeforeWrite (w_calls (rr_inner r) ++ [x]) = true).
    { intros x Hc. apply headerBeforeWrite_app; [exact Hbw|].
      rewrite Hfh. destruct (rr_wroteHeader r); [discriminate|]. intros _. now apply Hc. }
    destruct c as [code|b| | |target]; cbn [recCall passedOn flat_map app orb];
      cbn [w_flusher w_hijacker w_pusher freshWriter];
      rewrite ?orb_true_r, ?orb_false_r, ?app_nil_r.
    + unfold recWriteHeader, called.
      cbn [rr_inner rr_status rr_wroteHeader w_calls w_flusher w_hijacker w_pusher].
      rewrite Hf, Hh, Hp, payloadOf_app, firstHeader_app, Hfh.
      cbn [payloadOf filter isHeaderCall negb firstHeader]. rewrite app_nil_r.
      repeat split; [apply Hbw'; reflexivity|].
      destruct (rr_wroteHeader r); reflexivity.
    + unfold recWrite. cbv zeta.
      destruct (rr_wroteHeader r) eqn:Ew; cbn [negb];
        unfold recWriteHeader, called;
        cbn [rr_inner rr_status rr_wroteHeader w_calls w_flusher w_hijacker w_pusher].
      * rewrite Hf, Hh, Hp, payloadOf_app, firstHeader_app, Hfh, ?Ew.
        repeat split; auto.
      * rewrite Hf, Hh, Hp, <- app_assoc, payloadOf_app, firstHeader_app, Hfh, ?Ew.
        cbn [app payloadOf filter isHeaderCall negb firstHeader].
        repeat split; auto.
        -- apply headerBeforeWrite_app; [exact Hbw|intros _; reflexivity].
        -- rewrite Hst. f_equal. apply fold_status_none. now rewrite <- Hw.
    + unfold recFlush. rewrite Hf. destruct f; [|rewrite ?app_nil_r, Hf, Hh, Hp; repeat split; auto;
                          rewrite Hfh; destruct (rr_wroteHeader r); reflexivity].
      unfold called.
      cbn [rr_inner rr_status rr_wroteHeader w_calls w_flusher w_hijacker w_pusher].
      rewrite Hh, Hp, payloadOf_app, firstHeader_app, Hfh.
      repeat split; auto; try (now rewrite ?Hf, ?Hh, ?Hp);
        try (apply Hbw'; reflexivity); destruct (rr_wroteHeader r); reflexivity.
    + unfold recHijack. rewrite Hh. destruct h; [|rewrite ?app_nil_r, Hf, Hh, Hp; repeat split; auto;
                          rewrite Hfh; destruct (rr_wroteHeader r); reflexivity].
      unfold called.
      cbn [rr_inner rr_status rr_wroteHeader w_calls w_flusher w_hijacker w_pusher].
      rewrite Hf, Hp, payloadOf_app, firstHeader_app, Hfh.
      repeat split; auto; try (now rewrite ?Hf, ?Hh, ?Hp);
        try (apply Hbw'; reflexivity); destruct (rr_wroteHeader r); reflexivity.
    + unfold recPush. rewrite Hp. destruct p; [|rewrite ?app_nil_r, Hf, Hh, Hp; repeat split; auto;
                          rewrite Hfh; destruct (rr_wroteHeader r); reflexivity].
      unfold called.
      cbn [rr_inner rr_status rr_wroteHeader w_calls w_flusher w_hijacker w_pusher].
      rewrite Hf, Hh, payloadOf_app, firstHeader_app, Hfh.
      repeat split; auto; try (now rewrite ?Hf, ?Hh, ?Hp);
        try (apply Hbw'; reflexivity); destruct (rr_wroteHeader r); reflexivity.
Qed.

(** X11.  The recorder is transparent for the response: whatever calls
    the next handler makes ([WriteHeader], [Write], [Flush], [Hijack],
    [Push]), once [finalize] has run the inner writer has received,
    beside calls of [WriteHeader], exactly the handler's writes and those
    of its [Flush], [Hijack] and [Push] calls that the writer has the
    interface for, in the handler's order; it has received a
    [WriteHeader], and no [Write] before its first [WriteHeader]. *)
Theorem recorder_passes_response_through (flusher hijacker pusher : bool)
    (cs : list HandlerCall) :
  let w := freshWriter flusher hijacker pusher in
  let r := finalize (recorded w cs) in
  payloadOf (w_calls (rr_inner r)) = passedOn w cs
  /\ headerBeforeWrite (w_calls (rr_inner r)) = true
  /\ (exists statusCode, firstHeader (w_calls (rr_inner r)) = Some statusCode)
  /\ rr_wroteHeader r = true.
Proof.
  cbv zeta.
  destruct (recorded_state flusher hijacker pusher cs) as (_ & Hpay & Hbw & _ & _ & Hfh).
  unfold finalize.
  destruct (rr_wroteHeader (recorded (freshWriter flusher hijacker pusher) cs)) eqn:Ew;
    cbn [negb].
  - rewrite Ew. repeat split; try assumption. eexists. exact Hfh.
  - unfold called. cbn [rr_inner rr_wroteHeader w_calls].
    rewrite payloadOf_app, firstHeader_app, Hfh, Hpay.
    cbn [payloadOf filter isHeaderCall negb firstHeader]. rewrite app_nil_r.
    repeat split.
    + apply headerBeforeWrite_app; [exact Hbw|intros _; reflexivity].
    + eexists. reflexivity.
Qed.

Lemma headerFirst_status (cs : list HandlerCall) :
  headerFirst cs = true -> lastStatus cs = firstStatus cs.
Proof.
  assert (G : forall l st,
             forallb (fun c => match c with DoWriteHeader _ => false | _ => true end) l = true ->
             fold_left (fun st c => match c with
                                    | DoWriteHeader statusCode => statusCode
                                    | _ => st
                                    end) l st = st).
  { induction l as [|c l IH]; intros st H; [reflexivity|].
    cbn [forallb] in H. apply andb_true_iff in H as [H1 H2].
    destruct c; try discriminate; cbn [fold_left]; now apply IH. }
  unfold lastStatus.
  induction cs as [|c cs IH]; [reflexivity|].
  destruct c; cbn [headerFirst firstStatus fold_left]; intros H; auto.
Qed.

(** X12.  The status [ServeHTTP] reads from the recorder is that of the
    handler's last [WriteHeader] (200 without one), while the first
    [WriteHeader] the inner writer receives has the status of the
    handler's first [WriteHeader] when that came before any [Write], and
    200 otherwise.  The two agree when the handler calls [WriteHeader] at
    most once and not after a [Write]; [Flush], [Hijack] and [Push]
    change neither. *)
Theorem recorded_status_is_last_header_is_first (flusher hijacker pusher : bool)
    (cs : list HandlerCall) :
  let w := freshWriter flusher hijacker pusher in
  statusCode (recorded w cs) = lastStatus cs
  /\ firstHeader (w_calls (rr_inner (finalize (recorded w cs)))) = Some (firstStatus cs)
  /\ (headerFirst cs = true -> lastStatus cs = firstStatus cs).
Proof.
  cbv zeta.
  destruct (recorded_state flusher hijacker pusher cs) as (_ & _ & _ & Hst & Hw & Hfh).
  split; [exact Hst|]. split; [|apply headerFirst_status].
  unfold finalize.
  destruct (rr_wroteHeader (recorded (freshWriter flusher hijacker pusher) cs)) eqn:Ew;
    cbn [negb].
  - exact Hfh.
  - unfold called. cbn [rr_inner w_calls]. rewrite firstHeader_app, Hfh.
    cbn [firstHeader]. rewrite Hst. f_equal.
    assert (Hn : existsb (fun c => match c with DoWriteHeader _ | DoWrite _ => true | _ => false end) cs = false)
      by (now rewrite <- Hw).
    unfold lastStatus. rewrite (fold_status_none cs StatusOK Hn).
    clear - Hn. induction cs as [|c cs IH]; [reflexivity|].
    cbn [existsb] in Hn. apply orb_false_iff in Hn as [H1 H2].
    destruct c; try discriminate; cbn [firstStatus]; now apply IH.
Qed.

Lemma recorded_status_is_last_header_is_first_witness :
  let cs := [DoWriteHeader 404; DoWrite "not found"; DoFlush] in
  headerFirst cs = true
  /\ statusCode (recorded (freshWriter true false false) cs) = 404
  /\ w_calls (rr_inner (finalize (recorded (freshWriter true false false) cs)))
     = [CallWriteHeader 404; CallWrite "not found"; CallFlush]
  /\ lastStatus cs = firstStatus cs.
Proof.
  cbv zeta. split; [reflexivity|]. split; [reflexivity|]. split; [reflexivity|].
  destruct (recorded_status_is_last_header_is_first true false false
              [DoWriteHeader 404; DoWrite "not found"; DoFlush]) as (_ & _ & H).
  apply H. reflexivity.
Defined.

(** A handler that writes twice what it thinks of the request: the
    recorder holds the second status, the writer got the first one
    first. *)
Example recorder_two_headers :
  let r := recorded (freshWriter true true true)
                    [DoWriteHeader 200; DoWrite "ok"; DoWriteHeader 500] in
  statusCode r = 500
  /\ w_calls (rr_inner (finalize r))
     = [CallWriteHeader 200; CallWrite "ok"; CallWriteHeader 500].
Proof. split; reflexivity. Qed.

(** ** Strings in JSON *)

Example coerceUTF8_ex :
  coerceUTF8 ("caf" ++ [chr 195; chr 169]) = "caf" ++ [chr 195; chr 169]
  /\ coerceUTF8 ("a" ++ [chr 255] ++ "b") = "a" ++ utf8_replacement ++ "b"
  /\ coerceUTF8 [chr 226; chr 130] = utf8_replacement ++ utf8_replacement
  /\ coerceUTF8 [chr 237; chr 160; chr 128]
     = utf8_replacement ++ utf8_replacement ++ utf8_replacement
  /\ coerceUTF8 utf8_replacement = utf8_replacement
  /\ ValidString [chr 240; chr 159; chr 152; chr 128] = true
  /\ ValidString [chr 192; chr 128] = false.
Proof. repeat split; vm_compute; reflexivity. Qed.

Lemma coerceFrom_valid (s : str) :
  forall inside, validFrom inside s = true -> coerceFrom inside s = s.
Proof.
  induction s as [|c s IH]; intros inside H; [reflexivity|].
  cbn [validFrom coerceFrom] in *.
  destruct inside as [|k]; [|now rewrite IH].
  destruct (runeWidth (c :: s)) as [|k]; [discriminate|]. now rewrite IH.
Qed.

Lemma coerceUTF8_valid (s : str) : ValidString s = true -> coerceUTF8 s = s.
Proof. apply coerceFrom_valid. Qed.

Lemma ascii_valid (s : str) : Forall (fun c => code c < 128) s -> ValidString s = true.
Proof.
  unfold ValidString. induction 1 as [|c s Hc Hs IH]; [reflexivity|].
  cbn [validFrom runeWidth]. cbv zeta.
  destruct (Z.ltb_spec (code c) 128) as [_|G]; [exact IH|lia].
Qed.

(** ** Events from the client to the handler *)

Section RoundTrip.

Variable timeOfText : str -> option GoTime.
Variable textOfTime : GoTime -> str.

(** The JSON object the client writes for an event is read back by the
    handler's [ingestEvent], field by field. *)
Lemma storeEvent_encodeEvent (cur : ingestEvent) (e : event) :
  timeOfText (textOfTime (Timestamp e)) = Some (Timestamp e) ->
  storeEvent timeOfText cur (encodeEvent textOfTime e) = Some (receivedEvent e).
Proof.
  intros Ht. unfold encodeEvent, storeEvent.
  cbn [storeMembers].
  repeat (match goal with
          | |- context [storeMember ?t ?c ?kv] =>
              let x := eval cbv [storeMember] in (storeMember t c kv) in
              change (storeMember t c kv) with x
          end;
          cbv beta iota zeta;
          repeat match goal with
                 | |- context [EqualFold ?a ?b] =>
                     let v := eval vm_compute in (EqualFold a b) in
                     change (EqualFold a b) with v
                 end;
          cbv beta iota;
          cbn [storeString storeBool storeTime option_map
               ie_Timestamp ie_Host ie_Path ie_Query ie_IP ie_UserAgent ie_Referrer
               ie_ContentType ie_SetCookie ie_Uniq ie_SecondVisit];
          try rewrite Ht; cbn [option_map]).
  reflexivity.
Qed.

Lemma storeElems_encodeEvent (cur : list ingestEvent) (es : list event) :
  Forall (fun e => timeOfText (textOfTime (Timestamp e)) = Some (Timestamp e)) es ->
  storeElems timeOfText cur (map (encodeEvent textOfTime) es) = Some (map receivedEvent es).
Proof.
  intros H. revert cur. induction H as [|e es He Hes IH]; intros cur; [reflexivity|].
  cbn [map storeElems]. rewrite (storeEvent_encodeEvent _ e He), IH. reflexivity.
Qed.

(** X13.  The client's events survive the trip to the handler when they
    travel in the envelope the handler reads: for a body whose first JSON
    value is an object with the events under a key that folds to
    [events], each as [json.Marshal] writes an [event], the handler passes
    to [Insert] one line for each event, in order, with the event's host,
    path, query, ip, user agent, referrer and cookie fields as
    [encoding/json] writes strings (a byte that is not part of well-formed
    UTF-8 arrives as U+FFFD; a string of well-formed UTF-8 arrives as it
    is) and with the date and time of its time stamp; [eventId] is
    dropped and the type is taken from the content type. *)
Theorem envelope_round_trip (key : str) (es : list event) (rest : Body) :
  EqualFold key "events" = true ->
  Forall (fun e => timeOfText (textOfTime (Timestamp e)) = Some (Timestamp e)) es ->
  ingestLines timeOfText
    (Some (JObject [(key, JArray (map (encodeEvent textOfTime) es))]) :: rest)
  = Some (map (fun e =>
                 mkLine (formatDate (Timestamp e)) (formatClock (Timestamp e))
                        (coerceUTF8 (ev_Host e)) (coerceUTF8 (ev_Path e))
                        (coerceUTF8 (ev_Query e)) (coerceUTF8 (ev_IP e))
                        (coerceUTF8 (ev_UserAgent e)) (coerceUTF8 (ev_Referrer e))
                        (contentTypeToType (coerceUTF8 (ev_ContentType e))) [] [] [] 0
                        (coerceUTF8 (ev_SetCookie e)) (coerceUTF8 (ev_Uniq e))
                        (ev_SecondVisit e)) es)
  /\ (forall s, ValidString s = true -> coerceUTF8 s = s).
Proof.
  intros Hk Ht. split; [|apply coerceUTF8_valid].
  unfold ingestLines, decodeRequest, unmarshalRequest.
  cbn [storeRequestMembers]. rewrite Hk, (storeElems_encodeEvent [] es Ht).
  cbn [option_map]. rewrite map_map. reflexivity.
Qed.

End RoundTrip.

Lemma envelope_round_trip_witness :
  let timeOfText := fun t : str => if str_eqb t noonText then Some noon else None in
  let textOfTime := fun _ : GoTime => noonText in
  EqualFold "Events" "events" = true
  /\ Forall (fun e => timeOfText (textOfTime (Timestamp e)) = Some (Timestamp e)) [noonEvent]
  /\ ingestLines timeOfText
       [Some (JObject [("Events" : str, JArray (map (encodeEvent textOfTime) [noonEvent]))])]
     = Some [mkLine "2024-05-17" "12:00:00" "example.com" "/feed.xml" "" "203.0.113.7"
                    "Feedbin feed-id:1 - 2 subscribers" "" "feed" "" "" "" 0 ""
                    "3f2b8c1e-7a4d-4e9b-8c2f-5d6e7f8a9b0c" false].
Proof.
  cbv zeta.
  assert (Hk : EqualFold "Events" "events" = true) by reflexivity.
  assert (Ht : Forall (fun e => (fun t : str => if str_eqb t noonText then Some noon else None)
                                  ((fun _ : GoTime => noonText) (Timestamp e))
                                = Some (Timestamp e)) [noonEvent])
    by (repeat constructor).
  split; [exact Hk|]. split; [exact Ht|].
  destruct (envelope_round_trip
             (fun t : str => if str_eqb t noonText then Some noon else None)
             (fun _ : GoTime => noonText) "Events" [noonEvent] [] Hk Ht) as [H _].
  rewrite H. reflexivity.
Defined.

(** ** The ingest endpoint *)

Lemma rev_repeat_same {A} (x : A) (k : nat) : rev (repeat x k) = repeat x k.
Proof.
  induction k as [|k IH]; [reflexivity|].
  cbn [repeat rev]. rewrite IH. symmetry. apply repeat_cons.
Qed.

Lemma trimRightRev_slash (r : str) :
  exists k, r = repeat "/"%char k ++ trimRightRev "/" r
            /\ HasPrefix (trimRightRev "/" r) "/" = false.
Proof.
  induction r as [|c r (k & Hr & Hp)]; [exists O; split; reflexivity|].
  cbn [trimRightRev].
  assert (Hb : hasByte c "/" = Ascii.eqb c "/") by (cbn; apply orb_false_r).
  rewrite Hb. destruct (Ascii.eqb c "/") eqn:E.
  - apply Ascii.eqb_eq in E. subst c. exists (S k).
    split; [|exact Hp].
    change ("/"%char :: r = "/"%char :: (repeat "/"%char k ++ trimRightRev "/" r)).
    f_equal. exact Hr.
  - exists O. split; [reflexivity|].
    change (Ascii.eqb c "/" && HasPrefix r [] = false). now rewrite E.
Qed.

(** A white-space rune at the start of a text is found there. *)
Lemma spacePrefix_space (sp rest : str) :
  In sp unicodeSpaces -> spacePrefix (sp ++ rest) = List.length sp.
Proof.
  intros Hin. unfold spacePrefix.
  cbv [unicodeSpaces map app] in Hin.
  repeat (destruct Hin as [<-|Hin];
          [cbv [unicodeSpaces map app find List.length]; cbn [HasPrefix];
           rewrite ?HasPrefix_nil; reflexivity|]).
  destruct Hin.
Qed.

Lemma trimLeftSpace_blank (sps : list str) :
  Forall (fun sp => In sp unicodeSpaces) sps ->
  forall fuel, (List.length sps <= fuel)%nat -> trimLeftSpace fuel (List.concat sps) = [].
Proof.
  induction 1 as [|sp sps Hsp Hsps IH]; intros fuel Hf.
  - destruct fuel; reflexivity.
  - destruct fuel as [|fuel]; [cbn [List.length] in Hf; lia|].
    cbn [List.concat trimLeftSpace]. rewrite (spacePrefix_space sp _ Hsp).
    assert (Hn : List.length sp <> 0%nat).
    { cbv [unicodeSpaces map app] in Hsp.
      repeat (destruct Hsp as [<-|Hsp]; [discriminate|]). destruct Hsp. }
    destruct (List.length sp) as [|n] eqn:El; [congruence|].
    rewrite <- El, skipn_app_exact. apply IH. cbn [List.length] in Hf. lia.
Qed.

Lemma TrimSpace_blank (sps : list str) :
  Forall (fun sp => In sp unicodeSpaces) sps -> TrimSpace (List.concat sps) = [].
Proof.
  intros H. unfold TrimSpace, TrimLeftSpace.
  rewrite (trimLeftSpace_blank sps H).
  - reflexivity.
  - clear - H. induction H as [|sp sps Hsp Hsps IH]; [cbn; lia|].
    cbn [List.concat List.length]. rewrite length_app.
    assert (List.length sp <> 0%nat).
    { cbv [unicodeSpaces map app] in Hsp.
      repeat (destruct Hsp as [<-|Hsp]; [discriminate|]). destruct Hsp. }
    lia.
Qed.

(** X14.  The endpoint [newStreamClient] builds is the sidecar URL
    without its trailing slashes, followed by ["/ingest"]: however many
    slashes end the configured URL, exactly one stands before
    [ingest].  A URL is refused exactly when [strings.TrimSpace] leaves
    nothing of it; so is every URL that is empty or made of white space
    only. *)
Theorem endpoint_has_one_slash (sidecarURL : str) :
  (newStreamClient sidecarURL = None <-> TrimSpace sidecarURL = [])
  /\ (forall sps, Forall (fun sp => In sp unicodeSpaces) sps ->
                  sidecarURL = List.concat sps -> newStreamClient sidecarURL = None)
  /\ (TrimSpace sidecarURL <> [] ->
      exists base k,
        sidecarURL = base ++ repeat "/"%char k
        /\ HasSuffix base "/" = false
        /\ newStreamClient sidecarURL = Some (base ++ "/ingest")).
Proof.
  unfold newStreamClient. split; [|split].
  - destruct (isEmpty (TrimSpace sidecarURL)) eqn:E.
    + apply isEmpty_true in E. tauto.
    + apply isEmpty_false in E. split; [discriminate|contradiction].
  - intros sps Hs ->. now rewrite (TrimSpace_blank sps Hs).
  - intros Hne. apply isEmpty_false in Hne. rewrite Hne.
    destruct (trimRightRev_slash (rev sidecarURL)) as (k & Hr & Hp).
    exists (TrimRight sidecarURL "/"), k. unfold TrimRight. split; [|split].
    + rewrite <- (rev_involutive sidecarURL) at 1. rewrite Hr at 1.
      rewrite rev_app_distr, rev_repeat_same. reflexivity.
    + unfold HasSuffix. rewrite rev_involutive. exact Hp.
    + reflexivity.
Qed.

Lemma endpoint_has_one_slash_witness :
  newStreamClient " " = None
  /\ exists base k,
       ("http://sidecar:7070//" : str) = base ++ repeat "/"%char k
       /\ HasSuffix base "/" = false
       /\ newStreamClient "http://sidecar:7070//" = Some (base ++ "/ingest").
Proof.
  destruct (endpoint_has_one_slash " ") as (_ & Hb & _).
  split; [apply (Hb [" " : str]); [repeat constructor; vm_compute; tauto | reflexivity]|].
  destruct (endpoint_has_one_slash "http://sidecar:7070//") as (_ & _ & H).
  apply H. vm_compute. discriminate.
Defined.

(** ** The dashboard's chart scale *)

Lemma roundTo_spec (n m : Z) :
  1 <= n <= 2000000 -> 0 < m <= 100000 ->
  n <= roundTo n m < n + m /\ (roundTo n m) mod m = 0.
Proof.
  intros Hn Hm. unfold roundTo.
  rewrite (wrap64_small (n - 1)) by lia.
  rewrite Z.quot_div_nonneg by lia.
  pose proof (Z.div_mod (n - 1) m ltac:(lia)) as Hd.
  pose proof (Z.mod_pos_bound (n - 1) m ltac:(lia)) as Hb.
  assert (Hq : 0 <= (n - 1) / m <= 2000000).
  { split; [apply Z.div_pos; lia|].
    apply Z.div_le_upper_bound; nia. }
  rewrite (wrap64_small ((n - 1) / m + 1)) by lia.
  rewrite wrap64_small by nia.
  split; [nia|]. apply Z.mod_mul. lia.
Qed.

(** X15.  The scale of the dashboard's charts: for a largest value from
    1 to 1100000, [roundMaxVal] gives a scale of at least 100 that is not
    below the value and, from 100 on, less than twice the value (so the
    tallest bar takes more than half of the height); and the lines
    [horizontalStep] spaces on that scale cut it into at least two and
    fewer than six steps. *)
Theorem chart_scale (maxVal : Z) :
  1 <= maxVal <= 1100000 ->
  let scale := roundMaxVal maxVal in
  let step := horizontalStep scale in
  100 <= scale /\ maxVal <= scale /\ (100 <= maxVal -> scale < 2 * maxVal)
  /\ 0 < step /\ 2 * step <= scale < 6 * step.
Proof.
  intros Hv. cbv zeta.
  assert (Hs : 100 <= roundMaxVal maxVal < 1200000
               /\ maxVal <= roundMaxVal maxVal
               /\ (100 <= maxVal -> roundMaxVal maxVal < 2 * maxVal)).
  { unfold roundMaxVal.
    destruct (200000 <=? maxVal) eqn:E1;
      [apply Z.leb_le in E1;
       pose proof (roundTo_spec maxVal 100000 ltac:(lia) ltac:(lia)); lia|].
    destruct (20000 <=? maxVal) eqn:E2;
      [apply Z.leb_le in E2;
       pose proof (roundTo_spec maxVal 10000 ltac:(lia) ltac:(lia)); lia|].
    destruct (2000 <=? maxVal) eqn:E3;
      [apply Z.leb_le in E3;
       pose proof (roundTo_spec maxVal 1000 ltac:(lia) ltac:(lia)); lia|].
    destruct (100 <=? maxVal) eqn:E4;
      [apply Z.leb_le in E4;
       pose proof (roundTo_spec maxVal 100 ltac:(lia) ltac:(lia)); lia|].
    apply Z.leb_gt in E4. lia. }
  destruct Hs as (Hr & Hle & Hlt).
  split; [lia|]. split; [exact Hle|]. split; [exact Hlt|].
  revert Hr. generalize (roundMaxVal maxVal). intros r Hr.
  unfold horizontalStep.
  repeat match goal with
         | |- context [?a <=? r] =>
             let E := fresh "E" in
             destruct (a <=? r) eqn:E;
             [apply Z.leb_le in E; lia | apply Z.leb_gt in E]
         end.
  lia.
Qed.

Lemma chart_scale_witness :
  1 <= 650 <= 1100000
  /\ roundMaxVal 650 = 700 /\ horizontalStep 700 = 200
  /\ 2 * horizontalStep (roundMaxVal 650) <= roundMaxVal 650 < 6 * horizontalStep (roundMaxVal 650).
Proof.
  assert (H : 1 <= 650 <= 1100000) by lia.
  split; [exact H|]. split; [reflexivity|]. split; [reflexivity|].
  destruct (chart_scale 650 H) as (_ & _ & _ & _ & Hs). exact Hs.
Defined.

(** ** Numbers with thousands separators *)

Lemma mod3_add (r k : nat) : (r < 3)%nat -> ((r + 3 * k) mod 3 = r)%nat.
Proof.
  intros H. rewrite (Nat.mul_comm 3 k), Nat.Div0.mod_add. now apply Nat.mod_small.
Qed.

(** The loop over whole groups of three, past the start of the text. *)
Lemma insertCommas_groups (k : nat) :
  forall (t : str) (len i : nat),
    List.length t = (3 * k)%nat -> (0 < i)%nat -> len = (i + List.length t)%nat ->
    exists gs,
      insertCommas len i t = flat_map (fun g => ","%char :: g) gs
      /\ t = List.concat gs
      /\ Forall (fun g => List.length g = 3%nat) gs.
Proof.
  induction k as [|k IH]; intros t len i Ht Hi Hlen.
  - destruct t; [|discriminate]. exists []. repeat split. constructor.
  - destruct t as [|a [|b [|c t]]]; try (cbn [List.length] in Ht; lia).
    cbn [List.length] in Ht, Hlen.
    destruct (IH t len (S (S (S i))) ltac:(lia) ltac:(lia) ltac:(lia))
      as (gs & Hgs & Hc & Hall).
    exists ([a; b; c] :: gs). split; [|split].
    + cbn [insertCommas flat_map]. rewrite Hgs.
      replace (len - i)%nat with (0 + 3 * S k)%nat by lia.
      replace (len - S i)%nat with (2 + 3 * k)%nat by lia.
      replace (len - S (S i))%nat with (1 + 3 * k)%nat by lia.
      rewrite !mod3_add by lia.
      destruct i; [lia|]. reflexivity.
    + cbn [List.concat]. rewrite <- Hc. reflexivity.
    + constructor; [reflexivity | exact Hall].
Qed.

(** The loop from the start of a text: a first group of one to three
    bytes, then groups of three, each after a comma. *)
Lemma insertCommas_start (s : str) :
  s <> [] ->
  exists g0 gs,
    insertCommas (List.length s) 0 s = g0 ++ flat_map (fun g => ","%char :: g) gs
    /\ s = g0 ++ List.concat gs
    /\ (1 <= List.length g0 <= 3)%nat
    /\ Forall (fun g => List.length g = 3%nat) gs.
Proof.
  intros Hs.
  set (len := List.length s).
  assert (Hlen : (0 < len)%nat) by (destruct s; [congruence | cbn; lia]).
  set (j := S ((len - 1) mod 3)).
  assert (Hj : (1 <= j <= 3)%nat).
  { unfold j. pose proof (Nat.mod_upper_bound (len - 1) 3 ltac:(lia)). lia. }
  assert (Hk : exists k, len = (j + 3 * k)%nat).
  { exists ((len - 1) / 3)%nat. unfold j.
    pose proof (Nat.div_mod_eq (len - 1) 3). lia. }
  destruct Hk as (k & Hk).
  assert (Hsplit : s = firstn j s ++ skipn j s) by (symmetry; apply firstn_skipn).
  assert (Hl1 : List.length (firstn j s) = j) by (rewrite length_firstn; fold len; lia).
  assert (Hl2 : List.length (skipn j s) = (3 * k)%nat) by (rewrite length_skipn; fold len; lia).
  destruct (insertCommas_groups k (skipn j s) len j Hl2 ltac:(lia) ltac:(lia))
    as (gs & Hgs & Hc & Hall).
  exists (firstn j s), gs. split; [|split; [|split]].
  - rewrite <- Hgs. clear Hgs Hc Hall.
    revert Hl1 Hl2. generalize (firstn j s) (skipn j s) Hsplit. clear Hsplit.
    intros g t -> Hg Ht. fold len.
    destruct g as [|a g]; [cbn in Hg; lia|].
    cbn [app insertCommas Nat.ltb Nat.leb andb]. f_equal.
    destruct g as [|b g]; [cbn in Hg; now replace j with 1%nat by (cbn in Hg; lia)|].
    cbn [app insertCommas].
    destruct g as [|c g].
    + cbn [List.length] in Hg.
      replace (len - 1)%nat with (1 + 3 * k)%nat by lia.
      rewrite mod3_add by lia. cbn [Nat.eqb andb app]. f_equal.
      now replace j with 2%nat by lia.
    + destruct g; [|cbn [List.length] in Hg; lia].
      cbn [List.length] in Hg. cbn [app insertCommas].
      replace (len - 1)%nat with (2 + 3 * k)%nat by lia.
      replace (len - 2)%nat with (1 + 3 * k)%nat by lia.
      rewrite !mod3_add by lia. cbn [Nat.eqb andb app Nat.ltb Nat.leb]. f_equal. f_equal.
      now replace j with 3%nat by lia.
  - now rewrite <- Hc.
  - lia.
  - exact Hall.
Qed.

Lemma digit_char (d : Z) :
  0 <= d < 10 -> isDigit (chr (48 + d)) = true /\ code (chr (48 + d)) - 48 = d.
Proof.
  intros H.
  pose proof (forall_below 10
                (fun d => isDigit (chr (48 + d)) && (code (chr (48 + d)) - 48 =? d))
                ltac:(vm_compute; reflexivity) d ltac:(lia)) as G.
  cbv beta in G. apply andb_true_iff in G as [G1 G2]. apply Z.eqb_eq in G2. now split.
Qed.

Lemma digitsValue_snoc (ds : str) (c : ascii) :
  digitsValue (ds ++ [c]) = 10 * digitsValue ds + (code c - 48).
Proof. unfold digitsValue. rewrite fold_left_app. reflexivity. Qed.

(** The digits [decimalDigits] puts before [acc] are those of [n]. *)
Lemma decimalDigits_spec (fuel : nat) :
  forall (n : Z) (acc : str),
    0 <= n -> (Z.to_nat n < fuel)%nat ->
    exists ds,
      decimalDigits fuel n acc = ds ++ acc
      /\ ds <> [] /\ forallb isDigit ds = true /\ digitsValue ds = n.
Proof.
  induction fuel as [|fuel IH]; intros n acc Hn Hf; [lia|].
  cbn [decimalDigits].
  pose proof (Z.div_mod n 10 ltac:(lia)) as Hd.
  pose proof (Z.mod_pos_bound n 10 ltac:(lia)) as Hb.
  destruct (digit_char (n mod 10) Hb) as (Hc1 & Hc2).
  destruct (n / 10 =? 0) eqn:E.
  - apply Z.eqb_eq in E. exists [chr (48 + n mod 10)].
    split; [reflexivity|]. split; [discriminate|]. split; [cbn [forallb]; now rewrite Hc1|].
    unfold digitsValue. cbn [fold_left]. lia.
  - apply Z.eqb_neq in E.
    assert (H10 : 0 < n / 10 < n).
    { split; [|apply Z.div_lt; lia].
      pose proof (Z.div_pos n 10 Hn ltac:(lia)). lia. }
    destruct (IH (n / 10) (chr (48 + n mod 10) :: acc) ltac:(lia) ltac:(lia))
      as (ds & -> & _ & Hds & Hv).
    exists (ds ++ [chr (48 + n mod 10)]). split; [now rewrite <- app_assoc|].
    split; [destruct ds; discriminate|]. split.
    + rewrite forallb_app, Hds. cbn [forallb andb]. now rewrite Hc1.
    + rewrite digitsValue_snoc, Hv. lia.
Qed.

Lemma FormatInt_nonneg (n : Z) :
  0 <= n ->
  FormatInt n <> [] /\ forallb isDigit (FormatInt n) = true
  /\ digitsValue (FormatInt n) = n.
Proof.
  intros Hn. unfold FormatInt, appendInt.
  destruct (n <? 0) eqn:E; [apply Z.ltb_lt in E; lia|].
  rewrite Z.abs_eq by exact Hn.
  destruct (decimalDigits_spec (S (Z.to_nat n)) n [] Hn ltac:(lia))
    as (ds & -> & Hne & Hd & Hv).
  rewrite app_nil_r. cbn [Nat.sub repeat app]. auto.
Qed.

(** X16.  [formatNumberWithCommas] groups the digits of a number that is
    not negative by three from the right: its text is a first group of
    one to three digits and then, each after a comma, groups of exactly
    three digits; the digits are those of the number, in order. *)
Theorem commas_group_by_three (n : Z) :
  0 <= n ->
  exists g0 gs,
    formatNumberWithCommas n = g0 ++ flat_map (fun g => ","%char :: g) gs
    /\ (1 <= List.length g0 <= 3)%nat
    /\ Forall (fun g => List.length g = 3%nat) gs
    /\ forallb isDigit (g0 ++ List.concat gs) = true
    /\ digitsValue (g0 ++ List.concat gs) = n.
Proof.
  intros Hn. destruct (FormatInt_nonneg n Hn) as (Hne & Hd & Hv).
  unfold formatNumberWithCommas. cbv zeta.
  destruct (List.length (FormatInt n) <=? 3)%nat eqn:E.
  - apply Nat.leb_le in E. exists (FormatInt n), [].
    cbn [flat_map List.concat]. rewrite !app_nil_r.
    split; [reflexivity|]. split; [|split; [constructor|split; assumption]].
    destruct (FormatInt n); [congruence | cbn [List.length] in *; lia].
  - destruct (insertCommas_start (FormatInt n) Hne) as (g0 & gs & Hi & Hs & Hg0 & Hgs).
    exists g0, gs. rewrite <- Hs. auto.
Qed.

Lemma commas_group_by_three_witness :
  0 <= 1234567
  /\ formatNumberWithCommas 1234567 = "1,234,567"
  /\ exists g0 gs,
       formatNumberWithCommas 1234567 = g0 ++ flat_map (fun g => ","%char :: g) gs
       /\ (1 <= List.length g0 <= 3)%nat
       /\ Forall (fun g => List.length g = 3%nat) gs
       /\ forallb isDigit (g0 ++ List.concat gs) = true
       /\ digitsValue (g0 ++ List.concat gs) = 1234567.
Proof.
  assert (H : 0 <= 1234567) by lia.
  split; [exact H|]. split; [vm_compute; reflexivity|].
  exact (commas_group_by_three 1234567 H).
Defined.

(** ** The address of the peer *)

Lemma hasByte_app (c : ascii) (a b : str) :
  hasByte c (a ++ b) = hasByte c a || hasByte c b.
Proof. unfold hasByte. apply existsb_app. Qed.

Lemma lastIndexByte_app_last (c : ascii) (a p : str) :
  hasByte c p = false -> lastIndexByte c (a ++ c :: p) = Some (List.length a).
Proof.
  intros Hp.
  assert (H0 : lastIndexByte c (c :: p) = Some O).
  { cbn [lastIndexByte].
    destruct (lastIndexByte c p) as [n|] eqn:E.
    - apply lastIndexByte_Some_count in E. unfold countByte in E.
      unfold hasByte in Hp.
      assert (G : filter (Ascii.eqb c) p = []).
      { clear E. induction p as [|x p IH]; [reflexivity|].
        cbn [existsb] in Hp. apply orb_false_iff in Hp as [H1 H2].
        cbn [filter]. rewrite H1. now apply IH. }
      rewrite G in E. cbn in E. lia.
    - now rewrite Ascii.eqb_refl. }
  induction a as [|x a IH]; [exact H0|].
  cbn [app lastIndexByte List.length]. now rewrite IH.
Qed.

Lemma indexByte_app_first (c : ascii) (a p : str) :
  hasByte c a = false -> indexByte c (a ++ c :: p) = Some (List.length a).
Proof.
  intros Ha. induction a as [|x a IH].
  - cbn [app indexByte]. now rewrite Ascii.eqb_refl.
  - unfold hasByte in Ha. cbn [existsb] in Ha. apply orb_false_iff in Ha as [H1 H2].
    cbn [app indexByte List.length]. rewrite Ascii.eqb_sym, H1, (IH H2). reflexivity.
Qed.

Lemma firstn_app_exact {A} (a b : list A) : firstn (List.length a) (a ++ b) = a.
Proof. induction a as [|x a IH]; [reflexivity|]. cbn. now rewrite IH. Qed.

(** [SplitHostPort] on a name or IPv4 address and a port. *)
Lemma SplitHostPort_plain (h p : str) :
  hasByte ":" h = false -> hasByte "[" h = false -> hasByte "]" h = false ->
  hasByte ":" p = false -> hasByte "[" p = false -> hasByte "]" p = false ->
  SplitHostPort (h ++ ":" ++ p) = Some (h, p).
Proof.
  intros Hc Hl Hr Hpc Hpl Hpr. unfold SplitHostPort.
  change (h ++ ":" ++ p) with (h ++ ":"%char :: p).
  rewrite (lastIndexByte_app_last ":" h p Hpc).
  assert (Hb : match h ++ ":"%char :: p with c :: _ => Ascii.eqb c "[" | [] => false end
               = false).
  { destruct h as [|c h]; [reflexivity|].
    unfold hasByte in Hl. cbn [existsb] in Hl. apply orb_false_iff in Hl as [Hl _].
    cbn [app]. now rewrite Ascii.eqb_sym. }
  rewrite Hb, firstn_app_exact, Hc. cbn [skipn].
  rewrite !hasByte_app, Hl, Hr.
  change (hasByte "[" (":"%char :: p)) with (Ascii.eqb "[" ":" || hasByte "[" p).
  change (hasByte "]" (":"%char :: p)) with (Ascii.eqb "]" ":" || hasByte "]" p).
  rewrite Hpl, Hpr. cbn [Ascii.eqb Bool.eqb orb andb].
  rewrite Nat.add_1_r.
  change (skipn (S (List.length h)) (h ++ ":"%char :: p))
    with (skipn (List.length h + 1) (h ++ [":"%char] ++ p)) || idtac.
  replace (h ++ ":"%char :: p) with ((h ++ [":"%char]) ++ p) by (now rewrite <- app_assoc).
  replace (S (List.length h)) with (List.length (h ++ [":"%char]))
    by (rewrite length_app; cbn; lia).
  now rewrite skipn_app_exact.
Qed.

(** [SplitHostPort] on a bracketed IPv6 address and a port. *)
Lemma SplitHostPort_bracketed (h p : str) :
  hasByte "[" h = false -> hasByte "]" h = false ->
  hasByte ":" p = false -> hasByte "[" p = false -> hasByte "]" p = false ->
  SplitHostPort ("[" ++ h ++ "]:" ++ p) = Some (h, p).
Proof.
  intros Hl Hr Hpc Hpl Hpr. unfold SplitHostPort.
  change ("[" ++ h ++ "]:" ++ p) with ("["%char :: h ++ "]"%char :: ":"%char :: p).
  set (hp := "["%char :: h ++ "]"%char :: ":"%char :: p).
  assert (Ei : lastIndexByte ":" hp = Some (List.length h + 2)%nat).
  { unfold hp.
    replace ("["%char :: h ++ "]"%char :: ":"%char :: p)
      with (("["%char :: h ++ ["]"%char]) ++ ":"%char :: p)
      by (cbn [app]; now rewrite <- app_assoc).
    rewrite (lastIndexByte_app_last ":" _ p Hpc). f_equal.
    cbn [List.length]. rewrite length_app. cbn. lia. }
  assert (Ee : indexByte "]" hp = Some (List.length h + 1)%nat).
  { unfold hp.
    change ("["%char :: h ++ "]"%char :: ":"%char :: p)
      with (("["%char :: h) ++ "]"%char :: ":"%char :: p).
    rewrite (indexByte_app_first "]" ("["%char :: h) (":"%char :: p)).
    - f_equal. cbn [List.length]. lia.
    - unfold hasByte in *. cbn [existsb]. now rewrite Hr. }
  assert (Hlen : List.length hp = (List.length h + 3 + List.length p)%nat).
  { unfold hp. cbn [List.length]. rewrite length_app. cbn [List.length]. lia. }
  rewrite Ei, Ee. unfold hp at 1. cbn [Ascii.eqb Bool.eqb andb].
  rewrite Hlen.
  destruct (Nat.eqb (List.length h + 1 + 1) (List.length h + 3 + List.length p)) eqn:E1;
    [apply Nat.eqb_eq in E1; lia|].
  destruct (Nat.eqb (List.length h + 1 + 1) (List.length h + 2)) eqn:E2;
    [|apply Nat.eqb_neq in E2; lia].
  assert (Hs1 : skipn 1 hp = h ++ "]"%char :: ":"%char :: p) by reflexivity.
  assert (Hs2 : skipn (List.length h + 1 + 1) hp = ":"%char :: p).
  { unfold hp.
    replace ("["%char :: h ++ "]"%char :: ":"%char :: p)
      with (("["%char :: h ++ ["]"%char]) ++ ":"%char :: p)
      by (cbn [app]; now rewrite <- app_assoc).
    replace (List.length h + 1 + 1)%nat with (List.length ("["%char :: h ++ ["]"%char]))
      by (cbn [List.length]; rewrite length_app; cbn; lia).
    apply skipn_app_exact. }
  assert (Hs3 : skipn (List.length h + 2 + 1) hp = p).
  { unfold hp.
    replace ("["%char :: h ++ "]"%char :: ":"%char :: p)
      with (("["%char :: h ++ ["]"%char; ":"%char]) ++ p)
      by (cbn [app]; now rewrite <- app_assoc).
    replace (List.length h + 2 + 1)%nat
      with (List.length ("["%char :: h ++ ["]"%char; ":"%char]))
      by (cbn [List.length]; rewrite length_app; cbn; lia).
    apply skipn_app_exact. }
  assert (Hsl : slice 1 (List.length h + 1) hp = h).
  { unfold slice. rewrite Hs1.
    replace (List.length h + 1 - 1)%nat with (List.length h) by lia.
    apply firstn_app_exact. }
  rewrite Hsl, Hs1, Hs2, Hs3.
  rewrite hasByte_app, Hl.
  change (hasByte "[" ("]"%char :: ":"%char :: p))
    with (Ascii.eqb "[" "]" || (Ascii.eqb "[" ":" || hasByte "[" p)).
  change (hasByte "]" (":"%char :: p)) with (Ascii.eqb "]" ":" || hasByte "]" p).
  rewrite Hpl, Hpr. reflexivity.
Qed.

(** X18.  Without an [X-Forwarded-For] header the event carries the
    address of the peer without its port: for a remote address [h:p]
    with a name or IPv4 address [h], and for [[h]:p] with an IPv6
    address [h], the event's [ip] is [h]. *)
Theorem event_ip_is_peer_without_port (rnd : list Z) (now : GoTime) (req : Request)
    (contentType : str) (state : cookieState) (h p : str) :
  headerGet "X-Forwarded-For" (req_Header req) = [] ->
  hasByte "[" h = false -> hasByte "]" h = false ->
  hasByte ":" p = false -> hasByte "[" p = false -> hasByte "]" p = false ->
  (req_RemoteAddr req = h ++ ":" ++ p /\ hasByte ":" h = false)
  \/ req_RemoteAddr req = "[" ++ h ++ "]:" ++ p ->
  ev_IP (eventOf rnd now req contentType state) = h.
Proof.
  intros Hx Hl Hr Hpc Hpl Hpr Haddr.
  unfold eventOf. cbv zeta. cbn [ev_IP]. rewrite Hx. cbn [isEmpty].
  destruct Haddr as [(-> & Hc)| ->].
  - now rewrite SplitHostPort_plain.
  - now rewrite SplitHostPort_bracketed.
Qed.

Lemma event_ip_is_peer_without_port_witness :
  let req := peerRequest "[2001:db8::1]:40000" in
  headerGet "X-Forwarded-For" (req_Header req) = []
  /\ req_RemoteAddr req = "[" ++ "2001:db8::1" ++ "]:" ++ "40000"
  /\ ev_IP (eventOf [] zeroTime req "application/atom+xml" returningVisitor)
     = "2001:db8::1".
Proof.
  cbv zeta. split; [reflexivity|]. split; [reflexivity|].
  apply (event_ip_is_peer_without_port [] zeroTime (peerRequest "[2001:db8::1]:40000")
           "application/atom+xml" returningVisitor "2001:db8::1" "40000");
    try reflexivity.
  right. reflexivity.
Defined.

(** ** From the response to the row *)

Lemma html_is_no_feed (ct : str) :
  HasPrefix ct "text/html" = true ->
  HasPrefix ct "application/atom+xml" = false
  /\ HasPrefix ct "application/rss+xml" = false.
Proof.
  destruct ct as [|c ct]; [discriminate|].
  change (Ascii.eqb c "t" && HasPrefix ct "ext/html" = true ->
          Ascii.eqb c "a" && HasPrefix ct "pplication/atom+xml" = false
          /\ Ascii.eqb c "a" && HasPrefix ct "pplication/rss+xml" = false).
  intros H. apply andb_true_iff in H as [H _]. apply Ascii.eqb_eq in H. subst c.
  split; reflexivity.
Qed.

(** X17.  The middleware and the sidecar agree on the content types: for
    every event whose content type the middleware logs, the row the
    sidecar stores has type [feed] when the content type is not HTML (it
    is Atom or RSS then), and for HTML the type the analyzer derives from
    the user agent; the type is never NULL. *)
Theorem logged_response_type (urlParseHost : str -> option str) (status : Z)
    (evt : ingestEvent) :
  isLoggable status (ie_ContentType evt) = true ->
  r_type (rowOf (Analyze urlParseHost (lineOfEvent evt)))
  = Some (if HasPrefix (ToLower (ie_ContentType evt)) "text/html"
          then lineType (ie_Path evt) (lineAgent (ie_UserAgent evt)) (ie_UserAgent evt)
          else "feed").
Proof.
  intros Hl.
  rewrite Analyze_fields. unfold rowOf, lineOfEvent.
  cbn [Date Time Host Path Query IP UserAgent Referrer Type_ Agent OS RefDomain
       Mult SetCookie Uniq SecondVisit r_type isEmpty].
  unfold isLoggable in Hl. destruct (negb (status =? 200)); [discriminate|].
  cbv zeta in Hl. unfold contentTypeToType. cbv zeta.
  destruct (HasPrefix (ToLower (ie_ContentType evt)) "text/html") eqn:Eh.
  - destruct (html_is_no_feed _ Eh) as (-> & ->). cbn [isEmpty].
    pose proof (lineType_enum (ie_Path evt) (lineAgent (ie_UserAgent evt))
                  (ie_UserAgent evt)) as Hin.
    destruct (lineType _ _ _) as [|c t]; [|reflexivity].
    cbn in Hin. intuition discriminate.
  - cbn [orb] in Hl.
    destruct (HasPrefix (ToLower (ie_ContentType evt)) "application/atom+xml");
      [reflexivity|].
    cbn [orb] in Hl. rewrite Hl. reflexivity.
Qed.

Lemma logged_response_type_witness :
  isLoggable 200 (ie_ContentType feedlyEvent) = true
  /\ r_type (rowOf (Analyze failingParse (lineOfEvent feedlyEvent))) = Some ("feed" : str).
Proof.
  split; [reflexivity|].
  rewrite (logged_response_type failingParse 200 feedlyEvent eq_refl).
  reflexivity.
Defined.

(** ** The handler's answer and the table *)

Section HandlerFacts.

Variable urlParseHost : str -> option str.
Variable timeOfText : str -> option GoTime.

(** X19.  The status of [/ingest] tells what was stored: with 202 every
    event of the decoded request has its row, appended after the rows the
    table had (which are in place, at most confirmed); with any other
    status (405, 400, 500) the table is as it was. *)
Theorem ingest_status_tells_storage (db : Database) (t : Table) (method : str)
    (body : Body) :
  let '(status, t') := ingestHandler urlParseHost timeOfText db t method body in
  (status = StatusAccepted
   /\ exists lines old new,
        ingestLines timeOfText body = Some lines
        /\ t' = old ++ new /\ Forall2 confirmedOf t old
        /\ List.length new = List.length lines)
  \/ (In status [StatusMethodNotAllowed; StatusBadRequest; StatusInternalServerError]
      /\ t' = t).
Proof.
  unfold ingestHandler.
  destruct (negb (str_eqb method "POST")); [right; split; [cbn; auto|reflexivity]|].
  destruct (ingestLines timeOfText body) as [lines|];
    [|right; split; [cbn; auto|reflexivity]].
  unfold Insert.
  destruct (beginFails db); [right; split; [cbn; auto|reflexivity]|].
  destruct (prepareInsertFails db); [right; split; [cbn; auto|reflexivity]|].
  destruct (prepareUpdateFails db); [right; split; [cbn; auto|reflexivity]|].
  destruct (execAll db t _) as [t'|] eqn:E; [|right; split; [cbn; auto|reflexivity]].
  destruct (commitFails db); [right; split; [cbn; auto|reflexivity]|].
  left. split; [reflexivity|].
  destruct (execAll_rows db _ (lineStmts_ownUpdate urlParseHost lines) _ _ E)
    as (old & new & -> & Hold & Hnew).
  exists lines, old, new. split; [reflexivity|]. split; [reflexivity|].
  split; [exact Hold|].
  rewrite lineStmts_insertedRows in Hnew.
  apply Forall2_length in Hnew. rewrite length_map in Hnew. now symmetry.
Qed.

End HandlerFacts.

(** ** One reader, many addresses *)

(** X20.  A feed reader is one visitor whatever address it comes from:
    two lines with the same user agent that arrive without agent and
    [uniq], for which an agent is derived and whose user agent carries a
    feed id or the word [subscriber], leave [Analyze] with the same
    [uniq], whatever their ip, host, path and time are. *)
Theorem feed_reader_uniq_ignores_ip (urlParseHost : str -> option str) (l1 l2 : Line) :
  UserAgent l1 = UserAgent l2 ->
  Agent l1 = [] -> Agent l2 = [] -> Uniq l1 = [] -> Uniq l2 = [] ->
  lineAgent (UserAgent l1) <> [] ->
  extractFeedID (UserAgent l1) <> []
  \/ Contains (ToLower (UserAgent l1)) "subscriber" = true ->
  Uniq (Analyze urlParseHost l1) = Uniq (Analyze urlParseHost l2).
Proof.
  intros Hua Ha1 Ha2 Hu1 Hu2 Hag Hfeed.
  rewrite !Analyze_Uniq, !Analyze_Agent, Hu1, Hu2, Ha1, Ha2, <- Hua. cbn [isEmpty].
  unfold lineUniq.
  apply isEmpty_false in Hag. rewrite Hag.
  assert (Hne : isEmpty (UserAgent l1) = false).
  { destruct (UserAgent l1); [|reflexivity].
    destruct Hfeed as [H|H]; [now contradiction H | discriminate H]. }
  rewrite Hne. cbn [negb andb]. cbv zeta.
  destruct (isEmpty (extractFeedID (UserAgent l1))) eqn:Ef; cbn [negb]; [|reflexivity].
  destruct Hfeed as [H|H]; [now apply isEmpty_true in Ef|].
  rewrite H. reflexivity.
Qed.

Lemma feed_reader_uniq_ignores_ip_witness :
  let l1 := feedFetcherLine in
  let l2 := mkLine "2024-05-18" "10:00:00" "blog.example.com" "/rss.xml" "" "198.51.100.9"
                   "Feedbin feed-id:1373711 - 192 subscribers" "" "feed" "" "" "" 0 "" "" false in
  UserAgent l1 = UserAgent l2
  /\ IP l1 <> IP l2
  /\ Uniq (Analyze failingParse l1) = Uniq (Analyze failingParse l2).
Proof.
  cbv zeta. split; [reflexivity|]. split; [discriminate|].
  apply (feed_reader_uniq_ignores_ip failingParse); try reflexivity.
  - vm_compute. discriminate.
  - left. vm_compute. discriminate.
Defined.

(** ** First in, first out *)

Section OrderFacts.

Variable marshalEvent : event -> option str.
Variable unmarshalEvent : str -> option event.

Lemma eventsOf_snoc (rows : list (Z * str)) (id : Z) (p : str) (e : event) :
  unmarshalEvent p = Some e ->
  eventsOf unmarshalEvent (rows ++ [(id, p)]) = eventsOf unmarshalEvent rows ++ [e].
Proof.
  intros Hu. unfold eventsOf. rewrite flat_map_app. cbn [flat_map snd].
  now rewrite Hu.
Qed.

(** An [Enqueue] that returns nil puts the event's payload last on file. *)
Lemma Enqueue_ok (e : event) (q q' : diskQueue) :
  Enqueue marshalEvent e false q = Some (Ok, q') ->
  exists p, marshalEvent e = Some p
            /\ q_db q' = insertRow p (q_db q).
Proof.
  unfold Enqueue. destruct (marshalEvent e) as [p|]; [|discriminate].
  unfold enqueueReserve. destruct (enqueueWaits q); [discriminate|].
  unfold enqueueInsert. intros [= <-]. exists p. split; reflexivity.
Qed.

Lemma insertRow_wf (p : str) (b : Buffer) : wfBuffer b -> wfBuffer (insertRow p b).
Proof.
  intros (H0 & Hi & Hs). unfold wfBuffer, insertRow. cbn [b_rows b_seq].
  split; [lia|]. split.
  - apply idsIncrease_snoc; [exact Hi|lia|].
    eapply Forall_impl; [|exact Hs]. cbn beta. intros; lia.
  - apply Forall_app. split.
    + eapply Forall_impl; [|exact Hs]. cbn beta. intros; lia.
    + constructor; [cbn; lia|constructor].
Qed.

Lemma enqueueAll_rows (es : list event) :
  (forall e p, In e es -> marshalEvent e = Some p -> unmarshalEvent p = Some e) ->
  forall q q',
    enqueueAll marshalEvent es q = Some q' ->
    wfBuffer (q_db q) -> allDecode unmarshalEvent (b_rows (q_db q)) ->
    wfBuffer (q_db q') /\ allDecode unmarshalEvent (b_rows (q_db q'))
    /\ eventsOf unmarshalEvent (b_rows (q_db q'))
       = eventsOf unmarshalEvent (b_rows (q_db q)) ++ es
    /\ List.length (b_rows (q_db q'))
       = (List.length (b_rows (q_db q)) + List.length es)%nat.
Proof.
  induction es as [|e es IH]; intros Hcodec q q' H Hwf Ha.
  - injection H as <-. rewrite app_nil_r. cbn [List.length]. rewrite Nat.add_0_r. auto.
  - cbn [enqueueAll] in H.
    destruct (Enqueue marshalEvent e false q) as [[[|] q1]|] eqn:E; try discriminate.
    destruct (Enqueue_ok e q q1 E) as (p & Hm & Hdb).
    pose proof (Hcodec e p (or_introl eq_refl) Hm) as Hu.
    specialize (IH (fun e0 p0 Hin => Hcodec e0 p0 (or_intror Hin))).
    assert (Hwf1 : wfBuffer (q_db q1)) by (rewrite Hdb; now apply insertRow_wf).
    assert (Ha1 : allDecode unmarshalEvent (b_rows (q_db q1))).
    { rewrite Hdb. unfold insertRow. cbn [b_rows]. apply Forall_app. split; [exact Ha|].
      constructor; [cbn [snd]; rewrite Hu; discriminate|constructor]. }
    destruct (IH q1 q' H Hwf1 Ha1) as (Hwf' & Ha' & Hev & Hlen).
    split; [exact Hwf'|]. split; [exact Ha'|]. split.
    + rewrite Hev, Hdb. unfold insertRow. cbn [b_rows].
      rewrite (eventsOf_snoc _ _ _ _ Hu), <- app_assoc. reflexivity.
    + rewrite Hlen, Hdb. unfold insertRow. cbn [b_rows].
      rewrite length_app. cbn [List.length]. lia.
Qed.

(** X21.  The queue is first in, first out, from [Enqueue] to the
    sidecar: events that were enqueued one after the other, each with
    success, behind rows that all decode, are delivered by the next
    [flush] after the events of those rows and in the order in which they
    were enqueued, each once (when the back-off is over, nothing fails
    and the codec reads what it writes). *)
Theorem events_are_delivered_in_order (es : list event) (q q' : diskQueue)
    (now : Z) (m : statsMiddleware) :
  (forall e p, In e es -> marshalEvent e = Some p -> unmarshalEvent p = Some e) ->
  wfBuffer (q_db q) -> allDecode unmarshalEvent (b_rows (q_db q)) ->
  enqueueAll marshalEvent es q = Some q' ->
  0 < m_batchSize m ->
  (forall next, m_nextAttempt m = Some next -> next <= now) ->
  exists s' sent,
    flush marshalEvent unmarshalEvent now
          (repeat quietRound (S (List.length (b_rows (q_db q)) + List.length es)))
          m (startOf q')
    = Some (mkMiddleware (m_batchSize m) 0 None, s', sent)
    /\ List.concat sent = eventsOf unmarshalEvent (b_rows (q_db q)) ++ es
    /\ b_rows (q_db (sys_queue s')) = [].
Proof.
  intros Hcodec Hwf Ha He Hbs Hnext.
  destruct (enqueueAll_rows es Hcodec q q' He Hwf Ha) as (Hwf' & Ha' & Hev & Hlen).
  destruct (flushLoop_drains marshalEvent unmarshalEvent
              (S (List.length (b_rows (q_db q)) + List.length es)) m (startOf q') []
              Hbs Hwf' Ha') as (s' & more & Hl & Hs' & Hmore).
  { cbn [startOf sys_queue]. rewrite Hlen. lia. }
  exists s', more. cbn [app] in Hl.
  split; [|split; [now rewrite Hmore, <- Hev | exact Hs']].
  unfold flush. destruct (m_nextAttempt m) as [next|]; [|exact Hl].
  specialize (Hnext next eq_refl).
  destruct (now <? next) eqn:E; [apply Z.ltb_lt in E; lia | exact Hl].
Qed.

End OrderFacts.

Lemma events_are_delivered_in_order_witness :
  let q := mkQueue (mkBuffer [(4, "#e0" : str)] 7) 0 1 in
  let q' := mkQueue (mkBuffer [(4, "#e0" : str); (8, "#e1" : str); (9, "#e2" : str)] 9) 0 3 in
  let es := tagged ["e1" : str; "e2" : str] in
  let m := mkMiddleware 2 0 None in
  (forall e p, In e es -> tagMarshal e = Some p -> tagUnmarshal p = Some e)
  /\ wfBuffer (q_db q) /\ allDecode tagUnmarshal (b_rows (q_db q))
  /\ enqueueAll tagMarshal es q = Some q'
  /\ exists s',
       flush tagMarshal tagUnmarshal 0 (repeat quietRound 4) m (startOf q')
       = Some (m, s', [[sampleEvent "e0"; sampleEvent "e1"]; [sampleEvent "e2"]])
       /\ b_rows (q_db (sys_queue s')) = [].
Proof.
  cbv zeta.
  assert (Hcodec : forall e p, In e (tagged ["e1" : str; "e2" : str]) ->
                               tagMarshal e = Some p -> tagUnmarshal p = Some e).
  { intros e p [<-|[<-|[]]] [= <-]; reflexivity. }
  assert (Hwf : wfBuffer (mkBuffer [(4, "#e0" : str)] 7)).
  { unfold wfBuffer. cbn. repeat split; try lia. repeat constructor; cbn; lia. }
  assert (Ha : allDecode tagUnmarshal [(4, "#e0" : str)])
    by (repeat constructor; discriminate).
  assert (Hbs : 0 < 2) by lia.
  assert (Hn : forall next, @None Z = Some next -> next <= 0) by discriminate.
  split; [exact Hcodec|]. split; [exact Hwf|]. split; [exact Ha|].
  split; [reflexivity|].
  destruct (events_are_delivered_in_order tagMarshal tagUnmarshal
              (tagged ["e1" : str; "e2" : str])
              (mkQueue (mkBuffer [(4, "#e0" : str)] 7) 0 1)
              (mkQueue (mkBuffer [(4, "#e0" : str); (8, "#e1" : str); (9, "#e2" : str)] 9) 0 3)
              0 (mkMiddleware 2 0 None) Hcodec Hwf Ha eq_refl Hbs Hn)
    as (s' & sent & Hf & _ & Hs').
  exists s'. split; [|exact Hs'].
  pose proof Hf as Hc. vm_compute in Hc. injection Hc as <- <-. exact Hf.
Defined.

(** ** The dashboard's WHERE clause *)

Lemma countByte_app (c : ascii) (a b : str) :
  countByte c (a ++ b) = (countByte c a + countByte c b)%nat.
Proof. unfold countByte. now rewrite filter_app, length_app. Qed.

Lemma extractFilters_allowed (params : Values) :
  Forall (fun kv => In (fst kv) allowedFilters) (extractFilters params).
Proof.
  induction params as [|[key values] params IH]; [constructor|].
  unfold extractFilters in *. cbn [flat_map]. apply Forall_app. split; [|exact IH].
  destruct (str_eqb key "from" || str_eqb key "to"); [constructor|].
  destruct (existsb (str_eqb key) allowedFilters) eqn:E; [|constructor].
  cbn [negb orb]. destruct (List.length values =? 0)%nat; constructor; [|constructor].
  cbn [fst]. apply existsb_exists in E. destruct E as (k & Hk & E).
  apply str_eqb_eq in E. now subst.
Qed.

Lemma allowed_no_mark (key : str) : In key allowedFilters -> countByte "?" key = 0%nat.
Proof.
  intros H. unfold allowedFilters in H. cbn [In] in H.
  repeat (destruct H as [<-|H]; [reflexivity|]). destruct H.
Qed.

Lemma Join_marks (head : str) (keys : list str) :
  Forall (fun k => countByte "?" k = 0%nat) keys ->
  countByte "?" (Join (head :: map (fun k => k ++ " = ?") keys) " AND ")
  = (countByte "?" head + List.length keys)%nat.
Proof.
  intros H. revert head. induction H as [|k keys Hk Hks IH]; intros head.
  - cbn [map Join List.length]. lia.
  - cbn [map]. 
    change (Join (head :: (k ++ " = ?") :: map (fun k0 => k0 ++ " = ?") keys) " AND ")
      with (head ++ " AND " ++ Join ((k ++ " = ?") :: map (fun k0 => k0 ++ " = ?") keys)
                                      " AND ").
    rewrite !countByte_app, IH, countByte_app, Hk. cbn [List.length].
    change (countByte "?" " AND ") with 0%nat.
    change (countByte "?" " = ?") with 1%nat. lia.
Qed.

(** X22.  No request parameter reaches the SQL text of the dashboard's
    queries: whatever the query string holds and in whichever order the
    maps are visited, the WHERE clause [buildWhere] makes from the filters
    of [extractFilters] names only columns of the fixed list
    [allowedFilters], compares them with placeholders, and has exactly
    one placeholder for each argument; the values travel as arguments. *)
Theorem where_clause_is_parameterized (params : Values) (fromStr toStr : str)
    (filters : list (str * str)) :
  incl filters (extractFilters params) ->
  let '(clause, args) := buildWhere fromStr toStr filters in
  clause = Join (("date >= ?" : str) :: ("date <= ?" : str)
                :: map (fun k => k ++ " = ?") (map fst filters)) " AND "
  /\ Forall (fun k => In k allowedFilters) (map fst filters)
  /\ args = fromStr :: toStr :: map snd filters
  /\ countByte "?" clause = List.length args.
Proof.
  intros Hincl. unfold buildWhere. cbv zeta.
  assert (Hall : Forall (fun k => In k allowedFilters) (map fst filters)).
  { apply Forall_forall. intros k Hk. apply in_map_iff in Hk as (kv & <- & Hkv).
    pose proof (extractFilters_allowed params) as H. rewrite Forall_forall in H.
    apply H, Hincl, Hkv. }
  split; [now rewrite map_map|]. split; [exact Hall|]. split; [reflexivity|].
  cbn [app List.length]. rewrite length_map.
  assert (Hm : Forall (fun k => countByte "?" k = 0%nat) (map fst filters)).
  { eapply Forall_impl; [|exact Hall]. apply allowed_no_mark. }
  pose proof (Join_marks "date <= ?" (map fst filters) Hm) as HJ.
  rewrite map_map in HJ. rewrite length_map in HJ.
  destruct filters as [|kv filters]; [reflexivity|].
  change (Join (("date >= ?" : str) :: ("date <= ?" : str)
                :: map (fun kv0 : str * str => fst kv0 ++ " = ?") (kv :: filters)) " AND ")
    with (("date >= ?" : str) ++ " AND "
          ++ Join (("date <= ?" : str)
                   :: map (fun kv0 : str * str => fst kv0 ++ " = ?") (kv :: filters)) " AND ").
  rewrite !countByte_app, HJ.
  change (countByte "?" "date >= ?") with 1%nat.
  change (countByte "?" "date <= ?") with 1%nat.
  change (countByte "?" " AND ") with 0%nat. lia.
Qed.

Lemma where_clause_is_parameterized_witness :
  let filters := rev (extractFilters sampleParams) in
  incl filters (extractFilters sampleParams)
  /\ buildWhere "2024-01-01" "2024-12-31" filters
     = ("date >= ? AND date <= ? AND host = ? AND os = ?" : str,
        ["2024-01-01" : str; "2024-12-31" : str; "example.com" : str;
         "Linux' OR '1'='1" : str])
  /\ countByte "?" (fst (buildWhere "2024-01-01" "2024-12-31" filters)) = 4%nat.
Proof.
  cbv zeta.
  assert (Hincl : incl (rev (extractFilters sampleParams)) (extractFilters sampleParams))
    by (intros x Hx; now apply in_rev).
  split; [exact Hincl|]. split; [reflexivity|].
  pose proof (where_clause_is_parameterized sampleParams "2024-01-01" "2024-12-31"
                (rev (extractFilters sampleParams)) Hincl) as H.
  destruct (buildWhere "2024-01-01" "2024-12-31" (rev (extractFilters sampleParams)))
    as [clause args] eqn:E.
  destruct H as (_ & _ & Hargs & Hcount). cbn [fst]. rewrite Hcount, Hargs. reflexivity.
Defined.

(** ** The matcher finds the first advertisement *)

(** A literal byte under [(?i)] reads a byte that lowers to it. *)
Lemma exec_ci_byte {R} (c x : ascii) (z : str) (k : @cont R) prev cs :
  code c < 128 -> lowerByte x = lowerByte c ->
  exec (ci c) k prev (x :: z) cs = k (Some x) z cs.
Proof.
  intros Hc Hx.
  assert (Hone : exec (Byte (fun y => Ascii.eqb (lowerByte y) (lowerByte c)))
                      k prev (x :: z) cs = k (Some x) z cs).
  { cbn [exec]. now rewrite Hx, Ascii.eqb_refl. }
  assert (Hxa : code x < 128) by (eapply lowerByte_ascii; eauto).
  assert (Hraw : forall t, (exists y t', t = y :: t' /\ 128 <= code y) ->
                           exec (raw t) k prev (x :: z) cs = None).
  { intros t (y & t' & -> & Hy). apply exec_raw_none. cbn [HasPrefix].
    destruct (Ascii.eqb x y) eqn:E; [|reflexivity].
    apply Ascii.eqb_eq in E. subst y. lia. }
  unfold ci.
  destruct (Ascii.eqb (lowerByte c) "s").
  - cbn [exec]. cbn [exec] in Hone. rewrite Hone.
    destruct (k (Some x) z cs); [reflexivity|].
    apply Hraw. exists (chr 197), [chr 191]. split; [reflexivity|]. vm_compute. discriminate.
  - destruct (Ascii.eqb (lowerByte c) "k").
    + cbn [exec]. cbn [exec] in Hone. rewrite Hone.
      destruct (k (Some x) z cs); [reflexivity|].
      apply Hraw. exists (chr 226), [chr 132; chr 170]. split; [reflexivity|].
      vm_compute. discriminate.
    + exact Hone.
Qed.

(** A literal text under [(?i)] reads a text of bytes that lower to it. *)
Lemma exec_lit_bytes {R} (t : str) :
  asciiText t ->
  forall (key z : str) (k : @cont R) prev cs,
    map lowerByte key = map lowerByte t ->
    exec (lit t) k prev (key ++ z) cs = k (lastOf prev key) z cs.
Proof.
  unfold lit. induction 1 as [|c t Hc Ht IH]; intros key z k prev cs E.
  - destruct key; [reflexivity|discriminate].
  - destruct key as [|x key]; [discriminate|]. injection E as Ex Ekey.
    cbn [map]. rewrite exec_seqs_cons. cbn [app].
    rewrite (exec_ci_byte c x) by assumption.
    cbn [lastOf]. now apply IH.
Qed.

Lemma exec_digit_none {R} (k : @cont R) prev s cs :
  match s with c :: _ => isDigit c | [] => false end = false ->
  exec digit k prev s cs = None.
Proof.
  intros H. unfold digit. cbn [exec]. destruct s as [|c s]; [reflexivity|].
  now rewrite H.
Qed.

(** The greedy loop over digits reads the whole run when what follows
    succeeds. *)
Lemma starLoop_digit_greedy {R} (k : @cont R) (rest : str) :
  match rest with c :: _ => isDigit c | [] => false end = false ->
  (forall prev cs, k prev rest cs <> None) ->
  forall ds n prev cs,
    (List.length (ds ++ rest) <= n)%nat -> forallb isDigit ds = true ->
    starLoop (exec digit) k n prev (ds ++ rest) cs = k (lastOf prev ds) rest cs.
Proof.
  intros Hrest Hk. induction ds as [|c ds IH]; intros n prev cs Hn Hds.
  - cbn [app lastOf]. destruct n as [|n]; [reflexivity|].
    cbn [starLoop]. now rewrite exec_digit_none.
  - destruct n as [|n]; [cbn [app List.length] in Hn; lia|].
    cbn [forallb] in Hds. apply andb_true_iff in Hds as [Hc Hds].
    cbn [starLoop app lastOf].
    assert (Hlt : (List.length (ds ++ rest) <? List.length (c :: ds ++ rest))%nat = true).
    { apply Nat.ltb_lt. cbn [List.length]. lia. }
    destruct (k (lastOf (Some c) ds) rest cs) as [res|] eqn:Ek.
    2:{ exfalso. eapply Hk. exact Ek. }
    unfold digit at 1. cbn [exec]. rewrite Hc, Hlt.
    rewrite IH; [now rewrite Ek | cbn [app List.length] in Hn; lia | exact Hds].
Qed.

(** At a run of digits that [" subscriber"] follows, the pattern of
    [lineMultiplier] matches and captures the run. *)
Lemma reMultiplier_here (prev : option ascii) (ds w post : str) :
  ds <> [] -> forallb isDigit ds = true -> map lowerByte w = " subscriber" ->
  matchHere reMultiplier prev (ds ++ w ++ post) = Some (post, [(1%nat, ds)]).
Proof.
  intros Hne Hds Hw. unfold matchHere, reMultiplier, Plus. cbn [exec].
  destruct ds as [|c ds]; [congruence|].
  cbn [forallb] in Hds. apply andb_true_iff in Hds as [Hc Hds].
  cbn [app]. unfold digit at 1. cbn [exec]. rewrite Hc.
  assert (Hw0 : match w ++ post with x :: _ => isDigit x | [] => false end = false).
  { destruct w as [|x w]; [discriminate|]. cbn [map] in Hw. injection Hw as Hx _.
    cbn [app]. destruct (isDigit x) eqn:E; [|reflexivity].
    exfalso. unfold lowerByte in Hx.
    destruct (isUpper x) eqn:U.
    - unfold isUpper, isDigit, between in *.
      apply andb_true_iff in E as [E1 E2]. apply andb_true_iff in U as [U1 U2].
      apply Z.leb_le in E1, E2, U1, U2. lia.
    - subst x. discriminate. }
  rewrite starLoop_digit_greedy; try assumption.
  - cbv beta. rewrite (exec_lit_bytes " subscriber") by (try exact Hw; repeat constructor).
    do 4 f_equal.
    change (c :: ds ++ w ++ post) with ((c :: ds) ++ w ++ post).
    apply consumed_app.
  - intros p cs. cbv beta.
    rewrite (exec_lit_bytes " subscriber") by (try exact Hw; repeat constructor).
    discriminate.
  - lia.
Qed.

Lemma dropDigits_app (ds rest : str) :
  forallb isDigit ds = true -> dropDigits (ds ++ rest) = dropDigits rest.
Proof.
  induction ds as [|c ds IH]; intros H; [reflexivity|].
  cbn [forallb] in H. apply andb_true_iff in H as [Hc H].
  cbn [app dropDigits]. rewrite Hc. now apply IH.
Qed.

Lemma digit_not_space (x : ascii) (z : str) :
  isDigit x = true -> HasPrefix (foldASCII (x :: z)) " subscriber" = false.
Proof.
  intros Hx.
  assert (Hr : 48 <= code x <= 57).
  { unfold isDigit, between in Hx. apply andb_true_iff in Hx as [H1 H2].
    apply Z.leb_le in H1, H2. lia. }
  rewrite foldASCII_ascii by lia.
  change (Ascii.eqb (lowerByte x) " " && HasPrefix (foldASCII z) "subscriber" = false).
  destruct (Ascii.eqb (lowerByte x) " ") eqn:E; [|reflexivity].
  apply Ascii.eqb_eq in E.
  assert (Hl : code (lowerByte x) = 32) by (rewrite E; reflexivity).
  rewrite lowerByte_code in Hl.
  destruct (isUpper x) eqn:U; [|lia].
  unfold isUpper, between in U. apply andb_true_iff in U as [U1 U2].
  apply Z.leb_le in U1, U2. lia.
Qed.

(** Where no run of digits with [" subscriber"] after it starts, the
    pattern does not match. *)
Lemma reMultiplier_not_here (prev : option ascii) (s : str) :
  advertHere s = false -> matchHere reMultiplier prev s = None.
Proof.
  intros H. destruct (matchHere reMultiplier prev s) as [[s' cs']|] eqn:E; [|reflexivity].
  exfalso. apply matchHere_sound in E as (m & -> & D & _).
  unfold reMultiplier in D.
  apply derives_Seq in D as (m1 & m2 & cs1 & -> & D1 & D2).
  apply derives_Grp in D1 as (cs0 & D1 & ->).
  unfold digit in D1. apply derives_Plus_Byte in D1 as (Hne & Hd & ->).
  apply derives_lit in D2 as [Hw _].
  2:{ repeat constructor. }
  specialize (Hw s').
  change (map lowerByte " subscriber") with (" subscriber" : str) in Hw.
  unfold advertHere in H. rewrite <- !app_assoc in H.
  destruct m1 as [|c m1]; [congruence|].
  cbn [forallb] in Hd. apply andb_true_iff in Hd as [Hc Hd].
  cbn [app] in H. rewrite Hc in H. cbn [andb] in H.
  change (c :: m1 ++ m2 ++ s') with ((c :: m1) ++ m2 ++ s') in H.
  rewrite dropDigits_app in H by (cbn [forallb]; now rewrite Hc).
  assert (Hdrop : dropDigits (m2 ++ s') = m2 ++ s').
  { destruct (m2 ++ s') as [|x r] eqn:Er; [reflexivity|].
    cbn [dropDigits]. destruct (isDigit x) eqn:Ex; [|reflexivity].
    pose proof (digit_not_space x r Ex) as Hn. rewrite Hw in Hn.
    now rewrite HasPrefix_app in Hn. }
  rewrite Hdrop, Hw, HasPrefix_app in H. discriminate.
Qed.

Lemma Atoi_run (ds : str) :
  ds <> [] -> forallb isDigit ds = true ->
  Atoi ds = if digitsValue ds <=? 9223372036854775807 then Some (digitsValue ds) else None.
Proof.
  intros Hne Hd. pose proof (digitsValue_nonneg ds Hd) as H0. unfold Atoi.
  destruct ds as [|c t]; [congruence|].
  assert (Hc : isDigit c = true)
    by (cbn [forallb] in Hd; now apply andb_true_iff in Hd as [? _]).
  assert (Em : Ascii.eqb c "-" = false).
  { apply Ascii.eqb_neq. intros ->. discriminate. }
  assert (Ep : Ascii.eqb c "+" = false).
  { apply Ascii.eqb_neq. intros ->. discriminate. }
  rewrite Em, Ep. cbn [isEmpty orb]. rewrite Hd. cbn [negb].
  destruct (-9223372036854775808 <=? digitsValue (c :: t)) eqn:E;
    [reflexivity | apply Z.leb_gt in E; lia].
Qed.

(** [lineMultiplier] reads the first advertisement of the user agent. *)
Lemma lineMultiplier_first (pre ds w post : str) :
  ds <> [] -> forallb isDigit ds = true -> map lowerByte w = " subscriber" ->
  noAdvertBefore pre (ds ++ w ++ post) = true ->
  lineMultiplier (pre ++ ds ++ w ++ post)
  = if digitsValue ds <=? 9223372036854775807 then digitsValue ds else 1.
Proof.
  intros Hne Hd Hw Hfirst. unfold lineMultiplier, FindStringSubmatch.
  rewrite searchFrom_skip.
  - erewrite searchFrom_here by (apply reMultiplier_here; assumption).
    cbn [capture Nat.eqb]. rewrite (Atoi_run ds Hne Hd).
    destruct (digitsValue ds <=? 9223372036854775807); reflexivity.
  - intros i Hi p. apply reMultiplier_not_here.
    unfold noAdvertBefore in Hfirst. rewrite forallb_forall in Hfirst.
    apply negb_true_iff. apply Hfirst. apply in_seq. lia.
Qed.

(** X23.  The subscribers a feed reader reports are counted: for an
    event whose user agent holds a run of digits followed by
    [" subscriber"] (in either case of each letter), this being the first
    place of the user agent where digits are followed so, the row the
    sidecar stores has the value of the digits as [mult]; a value above
    the largest [int] gives 1. *)
Theorem first_advertisement_is_counted (urlParseHost : str -> option str)
    (evt : ingestEvent) (pre ds w post : str) :
  ie_UserAgent evt = pre ++ ds ++ w ++ post ->
  ds <> [] -> forallb isDigit ds = true -> map lowerByte w = " subscriber" ->
  noAdvertBefore pre (ds ++ w ++ post) = true ->
  r_mult (rowOf (Analyze urlParseHost (lineOfEvent evt)))
  = if digitsValue ds <=? 9223372036854775807 then digitsValue ds else 1.
Proof.
  intros Hua Hne Hd Hw Hfirst.
  unfold rowOf. cbn [r_mult]. rewrite Analyze_Mult.
  cbn [lineOfEvent Mult UserAgent Z.eqb]. rewrite Hua.
  now apply lineMultiplier_first.
Qed.

Lemma first_advertisement_is_counted_witness :
  let pre : str := "Feedly/1.0 (+http://www.feedly.com/fetcher.html; " in
  let post : str := "s; like FeedFetcher-Google)" in
  ie_UserAgent feedlyEvent = pre ++ "12" ++ " Subscriber" ++ post
  /\ noAdvertBefore pre ("12" ++ " Subscriber" ++ post) = true
  /\ r_mult (rowOf (Analyze failingParse (lineOfEvent feedlyEvent))) = 12.
Proof.
  cbv zeta. split; [reflexivity|]. split; [vm_compute; reflexivity|].
  rewrite (first_advertisement_is_counted failingParse feedlyEvent
             "Feedly/1.0 (+http://www.feedly.com/fetcher.html; " "12" " Subscriber"
             "s; like FeedFetcher-Google)");
    try reflexivity.
  discriminate.
Defined.

(** ** The matcher finds every advertisement *)

Lemma exec_ci_long_s {R} (c : ascii) (z : str) (k : @cont R) prev cs :
  lowerByte c = "s"%char ->
  exec (ci c) k prev (utf8_long_s ++ z) cs = k (Some (chr 191)) z cs.
Proof.
  intros Hc. unfold ci. rewrite Hc. cbn [Ascii.eqb Bool.eqb]. cbn [exec utf8_long_s app].
  reflexivity.
Qed.

Lemma exec_ci_kelvin {R} (c : ascii) (z : str) (k : @cont R) prev cs :
  lowerByte c = "k"%char ->
  exec (ci c) k prev (utf8_kelvin ++ z) cs = k (Some (chr 170)) z cs.
Proof.
  intros Hc. unfold ci. rewrite Hc. cbn [Ascii.eqb Bool.eqb]. cbn [exec utf8_kelvin app].
  reflexivity.
Qed.

(** How [foldASCII] starts: with the lowered first byte, or with the
    letter of one of the two folded runes. *)
Lemma foldASCII_head (x : ascii) (s1 : str) :
  (foldASCII (x :: s1) = lowerByte x :: foldASCII s1
   /\ (128 <= code x -> lowerByte x = x))
  \/ (exists s2, x :: s1 = utf8_long_s ++ s2
                 /\ foldASCII (x :: s1) = "s"%char :: foldASCII s2)
  \/ (exists s3, x :: s1 = utf8_kelvin ++ s3
                 /\ foldASCII (x :: s1) = "k"%char :: foldASCII s3).
Proof.
  assert (Hhigh : 128 <= code x -> lowerByte x = x).
  { intros H. apply code_inj. rewrite lowerByte_code.
    destruct (isUpper x) eqn:U; [|reflexivity].
    unfold isUpper, between in U. apply andb_true_iff in U as [U1 U2].
    apply Z.leb_le in U1, U2. lia. }
  destruct s1 as [|c2 s2]; [left; split; [reflexivity|exact Hhigh]|].
  cbn [foldASCII].
  destruct ((code x =? 197) && (code c2 =? 191)) eqn:E.
  - right. left. apply andb_true_iff in E as [E1 E2]. apply Z.eqb_eq in E1, E2.
    exists s2. split; [|reflexivity].
    assert (x = chr 197) by (apply code_inj; rewrite E1; reflexivity).
    assert (c2 = chr 191) by (apply code_inj; rewrite E2; reflexivity).
    subst. reflexivity.
  - destruct s2 as [|c3 s3]; [left; split; [reflexivity|exact Hhigh]|].
    destruct ((code x =? 226) && (code c2 =? 132) && (code c3 =? 170)) eqn:E'.
    + right. right. apply andb_true_iff in E' as [E' E3].
      apply andb_true_iff in E' as [E1 E2]. apply Z.eqb_eq in E1, E2, E3.
      exists s3. split; [|reflexivity].
      assert (x = chr 226) by (apply code_inj; rewrite E1; reflexivity).
      assert (c2 = chr 132) by (apply code_inj; rewrite E2; reflexivity).
      assert (c3 = chr 170) by (apply code_inj; rewrite E3; reflexivity).
      subst. reflexivity.
    + left. split; [reflexivity|exact Hhigh].
Qed.

(** A text that folds to the literal is read by it, whatever follows. *)
Lemma exec_lit_fold {R} (t : str) :
  asciiText t ->
  forall (w z : str) (k : @cont R) prev cs,
    foldASCII w = map lowerByte t ->
    exec (lit t) k prev (w ++ z) cs = k (lastOf prev w) z cs.
Proof.
  unfold lit. induction 1 as [|c t Hc Ht IH]; intros w z k prev cs E.
  - destruct w as [|x w]; [reflexivity|].
    exfalso. destruct (foldASCII_head x w) as [[H _]|[(s2 & _ & H)|(s3 & _ & H)]];
      rewrite H in E; discriminate.
  - destruct w as [|x w1]; [discriminate|].
    cbn [map]. rewrite exec_seqs_cons.
    assert (Hlc : code (lowerByte c) < 128).
    { rewrite lowerByte_code. cbv beta in Hc. destruct (isUpper c) eqn:U; [|lia].
      unfold isUpper, between in U. apply andb_true_iff in U as [U1 U2].
      apply Z.leb_le in U1, U2. lia. }
    destruct (foldASCII_head x w1) as [[H Hhigh]|[(s2 & Hs & H)|(s3 & Hs & H)]];
      rewrite H in E; cbn [map] in E; injection E as Ex Ew.
    + assert (Hx : code x < 128).
      { destruct (Z.ltb_spec (code x) 128) as [L|G]; [exact L|].
        rewrite (Hhigh G) in Ex. rewrite Ex in G. lia. }
      cbn [app]. rewrite (exec_ci_byte c x).
      * cbn [lastOf]. now apply IH.
      * exact Hc.
      * exact Ex.
    + rewrite Hs, <- app_assoc, (exec_ci_long_s c) by (now symmetry).
      rewrite IH by exact Ew. reflexivity.
    + rewrite Hs, <- app_assoc, (exec_ci_kelvin c) by (now symmetry).
      rewrite IH by exact Ew. reflexivity.
Qed.

(** A text whose folding starts with the literal starts with a text that
    folds to it. *)
Lemma fold_prefix_split (t : str) :
  asciiText t ->
  forall s, HasPrefix (foldASCII s) t = true ->
            exists w z, s = w ++ z /\ foldASCII w = t.
Proof.
  induction 1 as [|c t Hc Ht IH]; intros s H.
  - exists [], s. auto.
  - destruct s as [|x s1]; [discriminate|].
    destruct (foldASCII_head x s1) as [[E Hhigh]|[(s2 & Hs & E)|(s3 & Hs & E)]];
      rewrite E in H; cbn [HasPrefix] in H;
      apply andb_true_iff in H as [Hx H]; apply Ascii.eqb_eq in Hx.
    + assert (Hxa : code x < 128).
      { destruct (Z.ltb_spec (code x) 128) as [L|G]; [exact L|].
        rewrite (Hhigh G) in Hx. rewrite Hx in G. lia. }
      destruct (IH s1 H) as (w & z & -> & Ew).
      exists (x :: w), z. split; [reflexivity|].
      rewrite foldASCII_ascii by exact Hxa. now rewrite Hx, Ew.
    + destruct (IH s2 H) as (w & z & -> & Ew).
      exists (utf8_long_s ++ w), z. split; [now rewrite Hs, <- app_assoc|].
      rewrite foldASCII_long_s. now rewrite Hx, Ew.
    + destruct (IH s3 H) as (w & z & -> & Ew).
      exists (utf8_kelvin ++ w), z. split; [now rewrite Hs, <- app_assoc|].
      rewrite foldASCII_kelvin. now rewrite Hx, Ew.
Qed.

(** A text is its leading digits and what [dropDigits] leaves. *)
Lemma digits_split (s : str) :
  exists ds, s = ds ++ dropDigits s /\ forallb isDigit ds = true
             /\ match dropDigits s with c :: _ => isDigit c | [] => false end = false.
Proof.
  induction s as [|c s (ds & E & Hd & Hn)]; [exists []; auto|].
  cbn [dropDigits]. destruct (isDigit c) eqn:Ec.
  - exists (c :: ds). cbn [app forallb]. rewrite Ec, Hd. split; [now f_equal|]. auto.
  - exists []. cbn [app forallb]. rewrite Ec. auto.
Qed.

(** Where a run of digits with [" subscriber"] after it starts, the
    pattern of [lineMultiplier] matches and captures the run. *)
Lemma reMultiplier_fold_here (prev : option ascii) (ds w post : str) :
  ds <> [] -> forallb isDigit ds = true -> foldASCII w = " subscriber" ->
  matchHere reMultiplier prev (ds ++ w ++ post) = Some (post, [(1%nat, ds)]).
Proof.
  intros Hne Hds Hw. unfold matchHere, reMultiplier, Plus. cbn [exec].
  destruct ds as [|c ds]; [congruence|].
  cbn [forallb] in Hds. apply andb_true_iff in Hds as [Hc Hds].
  cbn [app]. unfold digit at 1. cbn [exec]. rewrite Hc.
  assert (Hw0 : match w ++ post with x :: _ => isDigit x | [] => false end = false).
  { destruct w as [|x w]; [discriminate|].
    cbn [app]. destruct (isDigit x) eqn:E; [|reflexivity].
    exfalso. pose proof (digit_not_space x w E) as Hn.
    rewrite Hw in Hn. discriminate. }
  assert (Hlit : forall R (k : @cont R) p cs,
             exec (lit " subscriber") k p (w ++ post) cs = k (lastOf p w) post cs).
  { intros R k p cs. apply (exec_lit_fold " subscriber"); [repeat constructor|exact Hw]. }
  rewrite starLoop_digit_greedy; try assumption.
  - cbv beta. rewrite Hlit.
    do 4 f_equal.
    change (c :: ds ++ w ++ post) with ((c :: ds) ++ w ++ post).
    apply consumed_app.
  - intros p cs. cbv beta. rewrite Hlit. discriminate.
  - lia.
Qed.

Lemma advertHere_match (s : str) :
  advertHere s = true ->
  exists ds w post,
    s = ds ++ w ++ post /\ ds <> [] /\ forallb isDigit ds = true
    /\ foldASCII w = " subscriber".
Proof.
  unfold advertHere. intros H. apply andb_true_iff in H as [H1 H2].
  destruct (digits_split s) as (ds & E & Hd & _).
  destruct (fold_prefix_split " subscriber" ltac:(repeat constructor) _ H2)
    as (w & post & Er & Hw).
  exists ds, w, post. rewrite <- Er. split; [exact E|]. split; [|auto].
  intros ->. cbn [app] in E. destruct s as [|c s]; [discriminate|].
  cbn [dropDigits] in E. rewrite H1 in E.
  assert (L : (List.length (dropDigits s) <= List.length s)%nat).
  { clear. induction s as [|x s IH]; cbn [dropDigits]; [lia|].
    destruct (isDigit x); cbn [List.length]; lia. }
  rewrite <- E in L. cbn [List.length] in L. lia.
Qed.

Lemma noAdvertBefore_cons (c : ascii) (pre rest : str) :
  noAdvertBefore (c :: pre) rest
  = negb (advertHere (c :: pre ++ rest)) && noAdvertBefore pre rest.
Proof.
  unfold noAdvertBefore. cbn [List.length seq forallb skipn app]. f_equal.
  rewrite <- seq_shift.
  generalize (seq 0 (List.length pre)). intros l.
  induction l as [|i l IH]; [reflexivity|].
  cbn [map forallb skipn app]. now rewrite IH.
Qed.

(** What the search for the pattern of [lineMultiplier] finds: the first
    advertisement, or nothing where there is none. *)
Lemma searchFrom_reMultiplier (s : str) :
  forall prev,
    match searchFrom reMultiplier prev s with
    | Some (_, cs) =>
        exists pre ds w post,
          s = pre ++ ds ++ w ++ post /\ ds <> [] /\ forallb isDigit ds = true
          /\ foldASCII w = " subscriber"
          /\ noAdvertBefore pre (ds ++ w ++ post) = true
          /\ capture 1 cs = ds
    | None => True
    end.
Proof.
  induction s as [|c s IH]; intros prev.
  - cbn [searchFrom]. rewrite reMultiplier_not_here by reflexivity. exact I.
  - destruct (advertHere (c :: s)) eqn:A.
    + destruct (advertHere_match _ A) as (ds & w & post & E & Hne & Hd & Hw).
      rewrite E.
      rewrite (searchFrom_here _ _ _ _ _ (reMultiplier_fold_here prev ds w post Hne Hd Hw)).
      exists [], ds, w, post. cbn [app capture Nat.eqb]. auto 10.
    + cbn [searchFrom]. rewrite (reMultiplier_not_here prev _ A).
      specialize (IH (Some c)).
      destruct (searchFrom reMultiplier (Some c) s) as [[m cs]|]; [|exact I].
      destruct IH as (pre & ds & w & post & E & Hne & Hd & Hw & Hfirst & Hcap).
      exists (c :: pre), ds, w, post. rewrite noAdvertBefore_cons.
      cbn [app]. rewrite <- E, A, Hfirst. auto 10.
Qed.

(** [lineMultiplier] is the number of the first advertisement when it
    fits an [int], and 1 otherwise. *)
Lemma lineMultiplier_advertised (ua : str) (N : Z) :
  advertises ua N ->
  lineMultiplier ua = if N <=? 9223372036854775807 then N else 1.
Proof.
  intros (pre & ds & w & post & -> & Hne & Hd & <- & Hw & Hfirst).
  unfold lineMultiplier, FindStringSubmatch.
  rewrite searchFrom_skip.
  - erewrite searchFrom_here by (apply reMultiplier_fold_here; assumption).
    cbn [capture Nat.eqb]. rewrite (Atoi_run ds Hne Hd).
    destruct (digitsValue ds <=? 9223372036854775807); reflexivity.
  - intros i Hi p. apply reMultiplier_not_here.
    unfold noAdvertBefore in Hfirst. rewrite forallb_forall in Hfirst.
    apply negb_true_iff. apply Hfirst. apply in_seq. lia.
Qed.

Lemma lineMultiplier_not_one (ua : str) :
  lineMultiplier ua <> 1 -> advertises ua (lineMultiplier ua).
Proof.
  unfold lineMultiplier, FindStringSubmatch.
  pose proof (searchFrom_reMultiplier ua None) as H.
  destruct (searchFrom reMultiplier None ua) as [[m cs]|]; [|congruence].
  destruct H as (pre & ds & w & post & E & Hne & Hd & Hw & Hfirst & ->).
  rewrite (Atoi_run ds Hne Hd).
  destruct (digitsValue ds <=? 9223372036854775807); [|congruence].
  intros _. exists pre, ds, w, post. auto 10.
Qed.

(** ** Subscriber counts *)

(** C3, as stated, fails: a feed reader that reports no subscriber gets a
    row with [mult = 0]. *)
Lemma zero_subscribers_mult_zero :
  exists r,
    lineStmts failingParse
      (lineOfEvent (mkIngestEvent (mkTime 2024 5 17 9 30 0 0) "example.com" "/feed.xml" ""
                      "203.0.113.7" "Feedly/1.0 (+http://www.feedly.com/fetcher.html; 0 subscribers)"
                      "" "application/rss+xml" "" "" false))
    = [SInsert r]
    /\ r_mult r = 0 /\ ~ (1 <= r_mult r).
Proof.
  eexists. split; [vm_compute; reflexivity|]. split; [reflexivity|]. cbn. lia.
Qed.

(** C3, amended.  For every event the ingest handler passes to [Insert],
    the INSERT carries [mult >= 0].  When the user agent advertises [N]
    subscribers (at the first place in it where digits are followed by a
    space and "subscriber" in any case, the digits read [N]), [mult] is
    [N], or 1 for an [N] above the largest [int]; when it advertises
    nothing, [mult] is 1.  So [mult > 1] only when the user agent
    advertises that number, and [mult = 0] exactly when it advertises 0. *)
Theorem mult_is_advertised (urlParseHost : str -> option str) (evt : ingestEvent) :
  let row := rowOf (Analyze urlParseHost (lineOfEvent evt)) in
  In (SInsert row) (lineStmts urlParseHost (lineOfEvent evt))
  /\ 0 <= r_mult row
  /\ (forall N, advertises (ie_UserAgent evt) N ->
        r_mult row = if N <=? 9223372036854775807 then N else 1)
  /\ ((forall N, ~ advertises (ie_UserAgent evt) N) -> r_mult row = 1)
  /\ (1 < r_mult row ->
      exists N, 1 < N /\ r_mult row = N /\ advertises (ie_UserAgent evt) N)
  /\ (r_mult row = 0 <-> advertises (ie_UserAgent evt) 0).
Proof.
  cbv zeta. split; [left; reflexivity|].
  unfold rowOf. cbn [r_mult]. rewrite Analyze_Mult.
  cbn [lineOfEvent Mult UserAgent]. cbn [Z.eqb].
  set (ua := ie_UserAgent evt).
  assert (Hone : lineMultiplier ua <> 1 -> advertises ua (lineMultiplier ua))
    by apply lineMultiplier_not_one.
  split; [|split; [|split; [|split; [|split]]]].
  - destruct (Z.eq_dec (lineMultiplier ua) 1) as [E|E]; [lia|].
    destruct (Hone E) as (pre & ds & w & post & _ & _ & Hd & Hv & _).
    rewrite <- Hv. now apply digitsValue_nonneg.
  - intros N. apply lineMultiplier_advertised.
  - intros Hno. destruct (Z.eq_dec (lineMultiplier ua) 1) as [E|E]; [exact E|].
    exfalso. exact (Hno _ (Hone E)).
  - intros H1. exists (lineMultiplier ua). split; [exact H1|]. split; [reflexivity|].
    apply Hone. lia.
  - intros H0. rewrite <- H0. apply Hone. lia.
  - intros Ha. now rewrite (lineMultiplier_advertised ua 0 Ha).
Qed.

Lemma mult_is_advertised_witness :
  let evt := mkIngestEvent (mkTime 2024 5 17 9 30 0 0) "example.com"
               "/feed.xml" "" "203.0.113.7" "Feedbin feed-id:1373711 - 192 subscribers" ""
               "application/rss+xml" "" "" false in
  exists N, 1 < N
            /\ r_mult (rowOf (Analyze failingParse (lineOfEvent evt))) = N
            /\ advertises (ie_UserAgent evt) N.
Proof.
  cbv zeta.
  destruct (mult_is_advertised failingParse
              (mkIngestEvent (mkTime 2024 5 17 9 30 0 0) "example.com"
                 "/feed.xml" "" "203.0.113.7" "Feedbin feed-id:1373711 - 192 subscribers" ""
                 "application/rss+xml" "" "" false)) as (_ & _ & _ & _ & H & _).
  apply H. vm_compute. reflexivity.
Defined.

(** The first advertisement counts, not a later one; and the run of
    digits counts whole. *)
Example lineMultiplier_first_ex :
  lineMultiplier "Reader 7 subscribers, 0 subscribers" = 7
  /\ lineMultiplier "x 12 subscribers" = 12
  /\ lineMultiplier "99999999999999999999 subscribers" = 1.
Proof. repeat split; vm_compute; reflexivity. Qed.

(** ** The buffer is bounded *)

Section BoundFacts.

Variable marshalEvent : event -> option str.
Variable unmarshalEvent : str -> option event.

Lemma step_count_bound (bound : Z) (s s' : System) (st : Step) :
  0 < q_maxEvents (sys_queue s) <= bound ->
  q_count (sys_queue s) <= bound ->
  step marshalEvent unmarshalEvent s st = Some s' ->
  q_maxEvents (sys_queue s') = q_maxEvents (sys_queue s)
  /\ q_count (sys_queue s') <= bound.
Proof.
  intros Hmax Hc H.
  destruct st as [evt|i f|limit sf df itf|lastID ef af|i]; cbn [step] in H.
  - destruct (marshalEvent evt); [|injection H as <-; auto].
    unfold enqueueReserve in H.
    destruct (enqueueWaits (sys_queue s)) eqn:Ew; [discriminate|].
    injection H as <-. cbn [sys_queue setCount q_maxEvents q_count].
    split; [reflexivity|].
    unfold enqueueWaits in Ew. apply andb_false_iff in Ew as [Ew|Ew].
    + apply Z.ltb_ge in Ew. lia.
    + apply Z.leb_gt in Ew. lia.
  - destruct (nth_error (sys_inserting s) i); [|discriminate]. injection H as <-.
    cbn [sys_queue]. unfold enqueueInsert.
    destruct f; cbn [snd setCount q_maxEvents q_count]; (split; [reflexivity|]); [lia|exact Hc].
  - injection H as <-. cbn [sys_queue].
    destruct (FetchBatch_queue unmarshalEvent limit sf df itf (sys_queue s))
      as (del & -> & _).
    cbn [setRows q_maxEvents q_count]. auto.
  - unfold deleteExec in H. destruct (lastID <=? 0); [injection H as <-; auto|].
    destruct ef; [injection H as <-; auto|].
    destruct (deleteRows lastID (q_db (sys_queue s))) as [k b].
    destruct af; injection H as <-; cbn [sys_queue q_maxEvents q_count]; auto.
  - destruct (nth_error (sys_accounting s) i) as [k|]; [|discriminate].
    injection H as <-. cbn [sys_queue]. unfold deleteAccount.
    destruct (0 <? k) eqn:Ek; [|auto]. apply Z.ltb_lt in Ek.
    cbn [setCount q_maxEvents q_count]. split; [reflexivity|].
    destruct (q_count (sys_queue s) - k <? 0) eqn:En; lia.
Qed.

Lemma run_count_bound (bound : Z) (tr : list Step) :
  forall s s',
    0 < q_maxEvents (sys_queue s) <= bound ->
    q_count (sys_queue s) <= bound ->
    run marshalEvent unmarshalEvent s tr = Some s' ->
    q_count (sys_queue s') <= bound.
Proof.
  induction tr as [|st tr IH]; intros s s' Hmax Hc H; cbn [run] in H.
  - now injection H as <-.
  - destruct (step marshalEvent unmarshalEvent s st) as [s1|] eqn:E; [|discriminate].
    destruct (step_count_bound bound s s1 st Hmax Hc E) as (Hm1 & Hc1).
    apply (IH s1 s'); [now rewrite Hm1 | exact Hc1 | exact H].
Qed.

(** X24.  [maxEvents] bounds the buffer: with a positive [maxEvents],
    through every interleaving of the queue's operations, the rows on
    file together with the callers of [Enqueue] on their way to the
    INSERT never outnumber [maxEvents], or the rows the file had when the
    queue was opened if those were more. *)
Theorem buffer_is_bounded (path : str) (file : Buffer) (maxEvents : Z)
    (q : diskQueue) (tr : list Step) (s : System) :
  0 < maxEvents ->
  newDiskQueue path file false maxEvents = Some q ->
  run marshalEvent unmarshalEvent (startOf q) tr = Some s ->
  Z.of_nat (List.length (b_rows (q_db (sys_queue s))))
  + Z.of_nat (List.length (sys_inserting s))
  <= Z.max maxEvents (Z.of_nat (List.length (b_rows file))).
Proof.
  intros Hmax Hnew Hrun.
  unfold newDiskQueue in Hnew. destruct (isEmpty path); [discriminate|].
  injection Hnew as <-.
  assert (Ha : accounted s).
  { eapply (run_accounted marshalEvent unmarshalEvent); [|exact Hrun].
    unfold accounted, startOf. cbn. split; [unfold sumZ; cbn; lia|constructor]. }
  assert (Hc : q_count (sys_queue s)
               <= Z.max maxEvents (Z.of_nat (List.length (b_rows file)))).
  { apply (run_count_bound _ tr
             (startOf (mkQueue file maxEvents (Z.of_nat (List.length (b_rows file))))) s);
      [| |exact Hrun]; cbn [startOf sys_queue q_maxEvents q_count]; lia. }
  destruct Ha as (Hsum & Hpos). pose proof (sumZ_nonneg _ Hpos). lia.
Qed.

End BoundFacts.

Lemma buffer_is_bounded_witness :
  let file := mkBuffer [(1, "e1" : str)] 1 in
  let tr := [StReserve (sampleEvent "e2"); StInsert 0 false; StReserve (sampleEvent "e3")] in
  let s := mkSystem (mkQueue (mkBuffer [(1, "e1" : str); (2, "e2" : str)] 2) 3 3)
                    ["e3" : str] [] in
  0 < 3
  /\ run sampleMarshal sampleUnmarshal (startOf (mkQueue file 3 1)) tr = Some s
  /\ step sampleMarshal sampleUnmarshal s (StReserve (sampleEvent "e4")) = None
  /\ Z.of_nat (List.length (b_rows (q_db (sys_queue s))))
     + Z.of_nat (List.length (sys_inserting s)) <= 3.
Proof.
  cbv zeta. assert (H3 : 0 < 3) by lia.
  split; [exact H3|]. split; [reflexivity|]. split; [reflexivity|].
  exact (buffer_is_bounded sampleMarshal sampleUnmarshal "/tmp/buffer.sqlite"
           (mkBuffer [(1, "e1" : str)] 1) 3 (mkQueue (mkBuffer [(1, "e1" : str)] 1) 3 1)
           [StReserve (sampleEvent "e2"); StInsert 0 false; StReserve (sampleEvent "e3")]
           (mkSystem (mkQueue (mkBuffer [(1, "e1" : str); (2, "e2" : str)] 2) 3 3)
                     ["e3" : str] [])
           H3 eq_refl eq_refl).
Defined.

